(* ===== verification/_CoqProject ===== *)
-Q . S2P
Prelude.v
GoFloat.v
GoString.v
GoNet.v
Origin.v
WebUi.v
OrderId.v
RateLimit.v
RateLimitFacts.v
Domain.v
Store.v
Tables.v
Log.v
Config.v
Queries.v
Stream.v
Storage.v
ScalerStorage.v
StorageApi.v
Adapter.v
Hl.v
Refresh.v
Socket.v
FillTracker.v
OrderScaler.v
Engine.v
Producer.v
RateGate.v
Emitter.v
Workers.v
Shutdown.v
Vault.v
Debugmode.v
VaultStore.v
Server.v
VaultApi.v
WebAuthn.v
ApiRecords.v
Sse.v
Api.v
FillTrackerFacts.v
FillTrackerProps.v
FillTrackerReconcile.v
FillTrackerDemo.v
EngineFacts.v
EngineDemo.v
Workflows.v
EmitterFacts.v
VaultFacts.v
TablesFacts.v
Paging.v
StorageFacts.v
WalletFacts.v
Integrity.v
Reads.v
Polling.v
Routes.v
Startup.v
SessionFacts.v
VaultApiFacts.v
ApiDemo.v
ApiFacts.v
RefreshFacts.v
WorkersFacts.v
StreamFacts.v
LogFacts.v
SocketFacts.v
Venues.v
VenuesFacts.v
SseFacts.v
OriginFacts.v
Mux.v
ConfigFacts.v
ProducerFacts.v
Process.v
ShutdownFacts.v
WebUiFacts.v
ProcessFacts.v
Requests.v
RequestsFacts.v
