(* ===== verification/Prelude.v ===== *)
(** * recomma: a verification development

    recomma polls the deals of a 3Commas account and mirrors their orders on
    Hyperliquid venues.  This library models the Go program under [src/] and proves
    what makes it correct; where the code falls short of what it means to do, the
    theorems say so.

    ** How the program works, and where each part is modelled

    - [orderid/]: an order is named by its bot, deal and event fingerprint with a
      checksum ([OrderId]).
    - [recomma/]: identifiers, actions, work items and plan tiers ([Domain]; the
      records of the 3Commas and Hyperliquid SDKs by the fields the program uses,
      their constants and fingerprints as the class [SDK]).
    - [ratelimit/]: one limiter divides the calls of a window among the workflows
      that reserve slots ([RateLimit], [RateLimitFacts]); what a workflow sees of it
      ([Workflows]).
    - [adapter/], [hl/]: what to do for an event, rounding to lot and tick
      ([Adapter], [Hl]); refreshing statuses and the websocket ([Refresh],
      [Socket]; [RefreshFacts], [SocketFacts]).
    - [engine/]: a deal is fetched, its new events are recorded, each order is
      reduced to an action, its venues are resolved and its sizes scaled ([Engine],
      [OrderScaler]; facts in [EngineFacts], [OrderScaler], [Polling]); goroutines
      look for the deals of all bots in rounds ([Producer], [ProducerFacts]).
    - [filltracker/]: the fills of every deal and the take profits that follow from
      them ([FillTracker]; [FillTrackerFacts], [FillTrackerProps],
      [FillTrackerReconcile]).
    - [emitter/]: work is routed to the emitter of its venue, which paces its calls,
      retries and records them ([RateGate], [Emitter], [EmitterFacts]).
    - [storage/]: the SQLite schema and statements ([Tables], [Queries]), the
      services over them ([Storage], [ScalerStorage], [StorageApi], [VaultStore])
      and their facts ([TablesFacts], [StorageFacts], [WalletFacts], [Paging],
      [Integrity], [Reads]).
    - [internal/vault/], [internal/api/]: the secrets of the venues stay sealed until
      the owner sends them decrypted ([Vault], [VaultFacts]); the handlers of the HTTP
      API and their sessions ([Server], [VaultApi], [WebAuthn], [ApiRecords], [Api],
      [Routes]; facts in [SessionFacts], [VaultApiFacts], [ApiFacts]), the muxes that
      find them ([Mux]) and what a request goes through on its way ([Requests],
      [RequestsFacts]), the live streams and how they are written to a response ([Stream], [Sse]; [StreamFacts],
      [SseFacts]).
    - [internal/origin/], [webui/]: which origins may use the API, which relying party
      the passkeys have, and where the web interface looks for the API ([GoNet],
      [Origin], [WebUi]; [OriginFacts], [WebUiFacts]).
    - [cmd/recomma/]: its configuration ([Config], [ConfigFacts]); how the program is
      built and its vault begins ([Startup], [Process]); how it starts,
      its rounds and its tickers ([Process], [ProcessFacts]); how it sets up its venues
      ([Venues], [VenuesFacts], with the clients of [hl/hl.go]), works off its two
      queues ([Workers], [WorkersFacts]) and stops ([Shutdown], [ShutdownFacts]).
    - [internal/debugmode/]: the secrets of a debug binary ([Debugmode],
      [ProcessFacts]).
    - [log/], [pkg/sqllogger/]: the fan-out of log records and the handler that
      writes them to the database from a goroutine ([Log], [LogFacts]).

    The files whose names end in Demo hold concrete instances for evaluation.

    A definition has the name of the Go function it translates, in the file of its
    package.  A method on shared state is a function on that state; a method that
    takes a lock is one step, and one that releases it to wait is split there.
    Interleavings are explicit sequences of such steps.  The components meet in
    classes ([Store]: what engine, scaler and tracker ask of the database; [GoRange]:
    the order in which a map is ranged over, which is left open; [Codec]: the JSON of
    a type) and the clients are proved against those; [Polling] runs the engine and
    the tracker on the storage itself.

    ** What is shown

    - Identifiers: text and bytes of an identifier round-trip, nothing else is
      accepted, and a corrupted byte is noticed.
    - Rate limiting: under every interleaving the calls of a window stay within the
      quota; the limiter answers every call as a desk of promises does, step for step,
      and one workflow as a counter; a deal's workflow releases what it was granted,
      at once or after a wait.
    - Engine: which venues a create, modify or cancel goes to, the decision for a
      history of events, the best rounding of a take-profit stack, the audit of a
      scaling, and that polling twice is silent.  Rounds of polling end under every
      interleaving, queue exactly the deals that 3Commas shows and miss none.
    - Fill tracker: its maps agree in every run, the latest status decides, a
      reconciliation sends only justified reduce-only orders and recreates missing
      take profits, and stale deals are removed entirely.
    - Emitters: what is recorded is what was sent, each call has its own turn of the
      gate, creates are retried a bounded number of times.
    - Storage: every reachable database satisfies the integrity of the schema and can
      be read without error, what is loaded is what was recorded last, a wallet move
      loses nothing, paging ends (and loses a row at each page).
    - Vault and API: who gets through to which endpoint and where a session came from
      (a refinement of a small machine), the life cycle of the secrets, that a stored
      payload survives requests and restarts, and what a manual cancellation sends;
      that every request is answered as its interface says, and that reading requests
      change no data.
    - Processes: how often work is retried, and that none is lost before its queue
      shuts down; what a refresh of statuses leaves behind
      under every interleaving of its tasks, and that each log record that is
      accepted is in the table when the handler has been closed.
    - Venues: which account serves which venue after a start, who shares a rate gate,
      which secrets cannot be started with, which bots get a primary venue.
    - Origins and configuration: which origins are accepted and in what form, when
      the relying party is the host of one of them and the interface uses one of them;
      where each setting comes from; to which log handlers a record goes.
    - Life cycle: which secrets the program starts with, that its tickers keep the
      database and the tracker sound, that everything a queue has accepted is finished
      before the store is closed, and that the program stops in every fair run.
    - Streams: what a subscriber receives, in which order, and when it misses
      something, for orders and for prices; what a client reads from a response; that the goroutines
      behind a response come to an end.

    ** Numbers, fuel and assumptions

    Integers of 64 bits wrap by [i64], 32-bit ones by [u32]; times are nanoseconds
    since 1970 and durations wrap or saturate as in Go.  Floats are IEEE binary64
    values that compute ([GoFloat]); a conversion of a float to an integer out of
    range gives the result of amd64.  Strings are byte strings; case mapping is that
    of ASCII.  Loops with a literal fuel: the printing of digits ([Hl], 19 digits: a
    64-bit integer has no more), the scaling by powers of ten (400: more than the
    exponents of a float), and the retries of a status row (5, the code's own bound).

    Assumed of the database: a statement fails only for a constraint of the schema or
    for a text that is not JSON; ids are given out without gaps; no code switches
    foreign keys on.  Assumed of JSON: what is marshalled reads back, SQLite accepts
    it, and what SQLite normalises reads the same ([CodecLaws]); bytes that are not
    empty come back from a nullable column ([BlobLaws]).  Assumed of the queues of
    client-go: requeues are counted, and an item that is added waits until it is
    handed out unless the queue shuts down ([WorkQueueLaws] of [Workers];
    [WorkersFacts] has a queue that satisfies them); an item is handed to one worker
    at a time and is owed until then, and [ShutDownWithDrain] refuses what comes later
    and returns when nothing is owed or being worked on ([DrainingQueueLaws] of
    [Shutdown]; [ShutdownFacts] has a queue that satisfies them).  Addresses and URLs are parsed as by Go 1.25.0.  The WebAuthn
    library, the exchange and the market data are parameters without laws.

    ** Not modelled

    The HTTP layer: the server itself, the conversions of parameters by the runtime of
    the generator, JSON, the bodies that [ops.gen.go] writes (its types, routes,
    parameters and codes are modelled), cookies apart from their tokens, CORS, the
    embedded files of the web interface.  The parsing of flags and of
    [.env.debug], which libraries do.  The text that loggers write to the terminal and
    [storage/logging.go].  Contexts: where one can end a call, the call has an outcome
    for it, or a step of its own.  Statements of the database that no code runs, and
    test helpers.  They hold no state that the modelled parts read, or are input and
    output only.  The tickers and the workers are both modelled as steps, but no theorem
    runs them, the API and the shutdown together on one database: each takes what the
    others do as open. *)

From Stdlib Require Export ZArith Lia.
From stdpp Require Export base numbers option strings sorting fin_maps gmap list.

#[global] Open Scope Z_scope.

Declare Scope go_scope.
Delimit Scope go_scope with go.
#[global] Open Scope go_scope.

(** ** Results of fallible Go calls: [(value, nil)] or [(_, err)] *)

Inductive result (E A : Type) : Type :=
| Ok (a : A)
| Err (e : E).
Arguments Ok {E A} a.
Arguments Err {E A} e.

#[export] Instance result_ret {E} : MRet (result E) := λ A a, Ok a.
#[export] Instance result_bind {E} : MBind (result E) := λ A B f m,
  match m with Ok a => f a | Err e => Err e end.
#[export] Instance result_fmap {E} : FMap (result E) := λ A B f m,
  match m with Ok a => Ok (f a) | Err e => Err e end.

Definition is_ok {E A} (r : result E A) : bool :=
  match r with Ok _ => true | Err _ => false end.

(** ** State passing *)

Definition ST (S A : Type) : Type := S → A * S.

#[export] Instance st_ret {S} : MRet (ST S) := λ A a s, (a, s).
#[export] Instance st_bind {S} : MBind (ST S) := λ A B f m s,
  let '(a, s') := m s in f a s'.

Definition st_get {S} : ST S S := λ s, (s, s).
Definition st_modify {S} (f : S → S) : ST S unit := λ s, (tt, f s).
Definition st_gets {S A} (f : S → A) : ST S A := λ s, (f s, s).

(** ** Machine integers *)

(** Go's [int]/[int64] on 64-bit targets: two's complement wrap-around. *)
Definition i64 (z : Z) : Z := (z + 2 ^ 63) mod 2 ^ 64 - 2 ^ 63.

(** Go's [uint32]. *)
Definition u32 (z : Z) : Z := z mod 2 ^ 32.

(** Go's [/] and [%] on signed integers truncate towards zero. *)
Notation "a '/go' b" := (Z.quot a b) (at level 40) : go_scope.
Notation "a '%go' b" := (Z.rem a b) (at level 40) : go_scope.

Lemma i64_range z : - 2 ^ 63 ≤ i64 z < 2 ^ 63.
Proof.
  unfold i64. pose proof (Z.mod_pos_bound (z + 2 ^ 63) (2 ^ 64) ltac:(lia)). lia.
Qed.

Lemma i64_id z : - 2 ^ 63 ≤ z < 2 ^ 63 → i64 z = z.
Proof. intros H. unfold i64. rewrite Z.mod_small; lia. Qed.

Lemma i64_add_l a b : i64 (i64 a + b) = i64 (a + b).
Proof.
  unfold i64.
  replace ((a + 2 ^ 63) `mod` 2 ^ 64 - 2 ^ 63 + b + 2 ^ 63)
    with ((a + 2 ^ 63) `mod` 2 ^ 64 + b) by lia.
  rewrite Zplus_mod_idemp_l. f_equal. f_equal. lia.
Qed.

Lemma i64_add_r a b : i64 (a + i64 b) = i64 (a + b).
Proof. rewrite (Z.add_comm a), i64_add_l. f_equal. lia. Qed.

Lemma u32_range z : 0 ≤ u32 z < 2 ^ 32.
Proof. apply Z.mod_pos_bound. lia. Qed.

Lemma u32_id z : 0 ≤ z < 2 ^ 32 → u32 z = z.
Proof. apply Z.mod_small. Qed.

(** ** Time

    A [time.Time] is its nanoseconds since 1970 in UTC; the zero time is the
    first instant of the year 1.  A [time.Duration] is 64-bit nanoseconds. *)

Definition millisecond : Z := 1000000.
Definition second : Z := 1000000000.

Definition zero_time : Z := -62135596800 * second.
Definition IsZero (t : Z) : bool := t =? zero_time.
Definition UnixMilli (ms : Z) : Z := ms * millisecond.
Definition unix_milli (t : Z) : Z := i64 (t / millisecond).

(** [now.Sub(t)] saturates at the ends of [time.Duration]. *)
Definition time_sub (a b : Z) : Z := Z.max (- 2 ^ 63) (Z.min (2 ^ 63 - 1) (a - b)).

Create Rewrite HintDb go_int.
#[export] Hint Rewrite i64_add_l i64_add_r : go_int.

(** ** Sums over finite maps *)

Section map_sum.
  Context {K A : Type} `{Countable K}.
  Implicit Types (m : gmap K A) (f : A → Z).

Definition map_sum f m : Z := map_fold (λ _ x acc, f x + acc) 0 m.

Lemma map_sum_empty f : map_sum f ∅ = 0.
Proof. reflexivity. Qed.

Lemma map_sum_insert f m k x :
  m !! k = None → map_sum f (<[k := x]> m) = f x + map_sum f m.
Proof.
  intros Hk. unfold map_sum. rewrite map_fold_insert_L; [done | | done].
  intros; lia.
Qed.

Lemma map_sum_delete f m k x :
  m !! k = Some x → map_sum f m = f x + map_sum f (delete k m).
Proof.
  intros Hk. rewrite <- (insert_delete_id m k x Hk) at 1.
  apply map_sum_insert, lookup_delete_eq.
Qed.

Lemma map_sum_replace f m k x y :
  m !! k = Some x → map_sum f (<[k := y]> m) = map_sum f m - f x + f y.
Proof.
  intros Hk. rewrite (map_sum_delete f m k x Hk).
  rewrite <- (insert_delete_eq m k y), map_sum_insert by apply lookup_delete_eq.
  lia.
Qed.

(** Storing under [k], whether or not [k] was present, when the old value is
    not negative. *)
Lemma map_sum_insert_le f m k y :
  (∀ j x, m !! j = Some x → 0 ≤ f x) →
  map_sum f (<[k := y]> m) ≤ map_sum f m + f y.
Proof.
  intros Hpos. destruct (m !! k) as [x|] eqn:Hk.
  - rewrite (map_sum_replace f m k x y Hk). pose proof (Hpos k x Hk). lia.
  - rewrite map_sum_insert by done. lia.
Qed.

Lemma map_sum_nonneg f m :
  (∀ k x, m !! k = Some x → 0 ≤ f x) → 0 ≤ map_sum f m.
Proof.
  induction m as [|k x m Hk IH] using map_ind; intros Hpos.
  - done.
  - rewrite map_sum_insert by done.
    assert (0 ≤ f x) by (apply (Hpos k); by rewrite lookup_insert_eq).
    assert (0 ≤ map_sum f m); [|lia].
    apply IH. intros j y Hj. apply (Hpos j). rewrite lookup_insert_ne; [done|].
    intros ->. congruence.
Qed.

Lemma map_sum_mono f g m :
  (∀ k x, m !! k = Some x → f x ≤ g x) → map_sum f m ≤ map_sum g m.
Proof.
  induction m as [|k x m Hk IH] using map_ind; intros Hle; [done|].
  rewrite !map_sum_insert by done.
  assert (f x ≤ g x) by (apply (Hle k); by rewrite lookup_insert_eq).
  assert (map_sum f m ≤ map_sum g m); [|lia].
  apply IH. intros j y Hj. apply (Hle j). rewrite lookup_insert_ne; [done|].
  intros ->. congruence.
Qed.

Lemma map_sum_elem_le f m k x :
  (∀ j y, m !! j = Some y → 0 ≤ f y) → m !! k = Some x → f x ≤ map_sum f m.
Proof.
  intros Hpos Hk. rewrite (map_sum_delete f m k x Hk).
  assert (0 ≤ map_sum f (delete k m)); [|lia].
  apply map_sum_nonneg. intros j y Hj. apply (Hpos j).
  by apply lookup_delete_Some in Hj as [_ ?].
Qed.

End map_sum.

Lemma map_sum_fmap {K A B : Type} `{Countable K} (f : B → Z) (g : A → B) (m : gmap K A) :
  map_sum f (g <$> m) = map_sum (f ∘ g) m.
Proof.
  induction m as [|k x m Hk IH] using map_ind; [by rewrite fmap_empty|].
  rewrite fmap_insert, !map_sum_insert by (by rewrite ?lookup_fmap, ?Hk). by rewrite IH.
Qed.

(** ** Decision procedures shared by the components *)

(** Splits every [if] and [match] of the goal and closes what computes. *)
Ltac split_cases :=
  repeat (case_match; simplify_eq/=; try done).

(** Unfolds boolean comparisons on [Z] into propositions. *)
Ltac z_bools :=
  repeat match goal with
  | H : (_ <=? _) = true |- _ => apply Z.leb_le in H
  | H : (_ <=? _) = false |- _ => apply Z.leb_gt in H
  | H : (_ <? _) = true |- _ => apply Z.ltb_lt in H
  | H : (_ <? _) = false |- _ => apply Z.ltb_ge in H
  | H : (_ =? _) = true |- _ => apply Z.eqb_eq in H
  | H : (_ =? _) = false |- _ => apply Z.eqb_neq in H
  end.
