(* ===== verification/GoFloat.v ===== *)
(** * Go's [float64] and the parts of [math] and [strconv] the program uses

    A [float64] is an IEEE 754 binary64 value of the Standard Library's
    [SpecFloat] (precision 53, exponent bound 1024), so that every rounding,
    infinity, signed zero and NaN of the program's arithmetic is the real one,
    and every definition evaluates. *)

From Corelib Require Import SpecFloat.
From S2P Require Import Prelude.

Module GoFloat.

Definition f64 : Type := spec_float.

#[global] Instance f64_eq_dec : EqDecision f64.
Proof. solve_decision. Defined.

Definition prec : Z := 53.
Definition emax : Z := 1024.

(** ** Arithmetic and comparison operators *)

Definition fadd (a b : f64) : f64 := SFadd prec emax a b.
Definition fsub (a b : f64) : f64 := SFsub prec emax a b.
Definition fmul (a b : f64) : f64 := SFmul prec emax a b.
Definition fdiv (a b : f64) : f64 := SFdiv prec emax a b.
Definition fneg (a : f64) : f64 := SFopp a.

Definition feq (a b : f64) : bool := SFeqb a b.
Definition flt (a b : f64) : bool := SFltb a b.
Definition fle (a b : f64) : bool := SFleb a b.
Definition fgt (a b : f64) : bool := flt b a.
Definition fge (a b : f64) : bool := fle b a.

(** ** Constants and conversions *)

Definition fzero : f64 := S754_zero false.
Definition finf : f64 := S754_infinity false.
Definition fnan : f64 := S754_nan.

(** [float64(n)], rounded to nearest even. *)
Definition f_of_Z (n : Z) : f64 := binary_normalize prec emax n 0 false.

(** The literal [m / 10^k], correctly rounded. *)
Definition f_dec (m : positive) (k : Z) : f64 :=
  fdiv (S754_finite false m 0) (S754_finite false (Z.to_pos (10 ^ k)) 0).

Definition fone : f64 := f_of_Z 1.

Definition is_nan (x : f64) : bool := match x with S754_nan => true | _ => false end.
Definition is_inf (x : f64) (sign : Z) : bool :=
  match x with
  | S754_infinity s => (sign =? 0) || (if s then sign <? 0 else 0 <? sign)
  | _ => false
  end.
Definition is_finite (x : f64) : bool :=
  match x with S754_zero _ | S754_finite _ _ _ => true | _ => false end.
Definition signbit (x : f64) : bool :=
  match x with
  | S754_zero s | S754_infinity s | S754_finite s _ _ => s
  | S754_nan => false
  end.

(** ** [math] *)

Definition Abs (x : f64) : f64 := SFabs x.

(** [math.Max]: infinities and NaN first, then signed zeros. *)
Definition Max (x y : f64) : f64 :=
  if is_inf x 1 || is_inf y 1 then finf
  else if is_nan x || is_nan y then fnan
  else match x, y with
  | S754_zero s, S754_zero _ => if s then y else x
  | _, _ => if fgt x y then x else y
  end.

Definition Copysign (f sign : f64) : f64 :=
  match f with
  | S754_zero _ => S754_zero (signbit sign)
  | S754_infinity _ => S754_infinity (signbit sign)
  | S754_nan => S754_nan
  | S754_finite _ m e => S754_finite (signbit sign) m e
  end.

(** An integer as a float with a given sign, a zero keeping the sign. *)
Definition f_signed (s : bool) (n : Z) : f64 :=
  match n with
  | 0 => S754_zero s
  | _ => f_of_Z (if s then - n else n)
  end.

(** The magnitude of a finite float as integer part and rest: [m * 2^e] with
    [e < 0] is [q] units and [r] parts in [2^(-e)]. *)
Definition split_mag (m : positive) (e : Z) : Z * Z * Z :=
  let d := 2 ^ (- e) in (Z.pos m / d, Z.pos m mod d, d).

Definition Floor (x : f64) : f64 :=
  match x with
  | S754_finite s m e =>
    if 0 <=? e then x
    else let '(q, r, _) := split_mag m e in
      f_signed s (if s && negb (r =? 0) then q + 1 else q)
  | _ => x
  end.

Definition Ceil (x : f64) : f64 := fneg (Floor (fneg x)).

(** Half away from zero. *)
Definition Round (x : f64) : f64 :=
  match x with
  | S754_finite s m e =>
    if 0 <=? e then x
    else let '(q, r, d) := split_mag m e in
      f_signed s (if d <=? 2 * r then q + 1 else q)
  | _ => x
  end.

Definition Trunc (x : f64) : f64 :=
  match x with
  | S754_finite s m e =>
    if 0 <=? e then x else let '(q, _, _) := split_mag m e in f_signed s q
  | _ => x
  end.

(** [math.Modf]: the integer part and [f] minus it. *)
Definition Modf (x : f64) : f64 * f64 :=
  if flt x fone then
    if flt x fzero then
      let y := fneg x in
      if flt y fone then (fneg fzero, fneg y)
      else (fneg (Trunc y), fneg (fsub y (Trunc y)))
    else if feq x fzero then (x, x)
    else (fzero, x)
  else (Trunc x, fsub x (Trunc x)).

(** [int64(x)] truncates; outside the range of [int64] (and for NaN) the language
    leaves the result to the implementation: amd64 gives [-2^63]. *)
Definition int_of_f (x : f64) : Z :=
  match x with
  | S754_zero _ => 0
  | S754_finite s m e =>
    let mag := if 0 <=? e then Z.pos m * 2 ^ e else (split_mag m e).1.1 in
    let v := if s then - mag else mag in
    if (- 2 ^ 63 <=? v) && (v <? 2 ^ 63) then v else - 2 ^ 63
  | _ => - 2 ^ 63
  end.

(** [math.Pow10(n)] for [-31 <= n <= 31], read from the tables of the library. *)
Definition Pow10 (n : Z) : f64 :=
  if 0 <=? n then f_of_Z (10 ^ n) else fdiv fone (f_of_Z (10 ^ (- n))).

(** [math.Pow(x, float64(n))] for a finite [x] and an integer [n], the way the
    library multiplies it up: [a1 * 2^ae] is the product so far and
    [x1 * 2^xe] the current square. *)
Definition fhalf : f64 := fdiv fone (f_of_Z 2).

Fixpoint pow_loop (bits : list bool) (a1 : f64) (ae : Z) (x1 : f64) (xe : Z) : f64 * Z :=
  match bits with
  | [] => (a1, ae)
  | b :: bits =>
    if (xe <? -4096) || (4096 <? xe) then (a1, ae + xe)
    else
      let '(a1, ae) := if b then (fmul a1 x1, ae + xe) else (a1, ae) in
      let x2 := fmul x1 x1 in
      let '(x2, xe2) := if flt x2 fhalf then (fadd x2 x2, 2 * xe - 1) else (x2, 2 * xe) in
      pow_loop bits a1 ae x2 xe2
  end.

(** The binary digits of [n], least significant first. *)
Fixpoint pos_bits (p : positive) : list bool :=
  match p with xH => [true] | xO p => false :: pos_bits p | xI p => true :: pos_bits p end.

Definition Ldexp (x : f64) (e : Z) : f64 := SFldexp prec emax x e.

Definition Pow (x : f64) (n : Z) : f64 :=
  match n with
  | 0 => fone
  | 1 => x
  | Zpos p =>
    let '(x1, xe) := SFfrexp prec emax x in
    let '(a1, ae) := pow_loop (pos_bits p) fone 0 x1 xe in Ldexp a1 ae
  | Zneg p =>
    let '(x1, xe) := SFfrexp prec emax x in
    let '(a1, ae) := pow_loop (pos_bits p) fone 0 x1 xe in Ldexp (fdiv fone a1) (- ae)
  end.

(** ** Order

    [SFcompare] is the lexicographic order of a key; NaN has none. *)

Definition key (x : f64) : option (Z * Z * Z) :=
  match x with
  | S754_nan => None
  | S754_zero _ => Some (0, 0, 0)
  | S754_infinity s => Some (if s then -2 else 2, 0, 0)
  | S754_finite false m e => Some (1, e, Z.pos m)
  | S754_finite true m e => Some (-1, - e, Z.neg m)
  end.

Definition lex3 (a b : Z * Z * Z) : comparison :=
  match Z.compare a.1.1 b.1.1 with
  | Eq => match Z.compare a.1.2 b.1.2 with Eq => Z.compare a.2 b.2 | c => c end
  | c => c
  end.

Definition key_lt (a b : Z * Z * Z) : Prop :=
  a.1.1 < b.1.1 ∨ a.1.1 = b.1.1 ∧ (a.1.2 < b.1.2 ∨ a.1.2 = b.1.2 ∧ a.2 < b.2).

Example pow_10_8 : Pow (f_of_Z 10) 8 = f_of_Z 100000000.
Proof. vm_compute. reflexivity. Qed.

Example pow_10_22 : Pow (f_of_Z 10) 22 = f_of_Z (10 ^ 22).
Proof. vm_compute. reflexivity. Qed.

Lemma SFcompare_key a b :
  SFcompare a b =
  match key a, key b with Some x, Some y => Some (lex3 x y) | _, _ => None end.
Proof.
  destruct a as [sa|sa| |sa ma ea], b as [sb|sb| |sb mb eb]; try destruct sa; try destruct sb;
    try done; unfold lex3; simpl; f_equal.
  rewrite Z.compare_opp, Z.compare_antisym. by destruct (eb ?= ea).
Qed.

Lemma lex3_lt x y : lex3 x y = Lt ↔ key_lt x y.
Proof.
  unfold lex3, key_lt. destruct (Z.compare_spec x.1.1 y.1.1);
    [|split; [intros _; lia|done]|split; [done|intros; lia]].
  destruct (Z.compare_spec x.1.2 y.1.2);
    [|split; [intros _; lia|done]|split; [done|intros; lia]].
  rewrite Z.compare_lt_iff. intuition lia.
Qed.

Lemma lex3_eq x y : lex3 x y = Eq ↔ x = y.
Proof.
  unfold lex3. destruct x as [[x1 x2] x3], y as [[y1 y2] y3]; simpl.
  destruct (Z.compare_spec x1 y1); [|split; intros; simplify_eq; lia..].
  destruct (Z.compare_spec x2 y2); [|split; intros; simplify_eq; lia..].
  rewrite Z.compare_eq_iff. naive_solver.
Qed.

Lemma flt_key a b :
  flt a b = true ↔ ∃ x y, key a = Some x ∧ key b = Some y ∧ key_lt x y.
Proof.
  unfold flt, SFltb. rewrite SFcompare_key.
  destruct (key a) as [x|], (key b) as [y|];
    try (split; [done|by intros (? & ? & ? & ? & ?)]).
  pose proof (lex3_lt x y) as Hl. split.
  - destruct (lex3 x y); try done. intros _. exists x, y. split_and!; try done. by apply Hl.
  - intros (? & ? & [= <-] & [= <-] & Hk). by rewrite (proj2 Hl Hk).
Qed.

Lemma feq_key a b : feq a b = true ↔ ∃ x, key a = Some x ∧ key b = Some x.
Proof.
  unfold feq, SFeqb. rewrite SFcompare_key.
  destruct (key a) as [x|], (key b) as [y|]; try (split; [done|by intros (? & ? & ?)]).
  pose proof (lex3_eq x y) as Hl. split.
  - destruct (lex3 x y); try done. intros _. exists x. by rewrite (proj1 Hl eq_refl).
  - intros (? & [= <-] & [= <-]). by rewrite (proj2 Hl eq_refl).
Qed.

Lemma fle_lt_eq a b : fle a b = flt a b || feq a b.
Proof. unfold fle, flt, feq, SFleb, SFltb, SFeqb. by destruct (SFcompare a b) as [[]|]. Qed.

Lemma fle_key a b :
  fle a b = true ↔ ∃ x y, key a = Some x ∧ key b = Some y ∧ (key_lt x y ∨ x = y).
Proof.
  rewrite fle_lt_eq, orb_true_iff, flt_key, feq_key. split.
  - intros [(x & y & ? & ? & ?)|(x & ? & ?)]; eauto 10.
  - intros (x & y & ? & ? & [?| ->]); eauto 10.
Qed.

Lemma is_nan_key x : is_nan x = false ↔ is_Some (key x).
Proof.
  destruct x as [| | |[]]; simpl;
    first [ split; [by eauto|done] | split; [done|by intros [? ?]] ].
Qed.

Ltac key_order :=
  repeat match goal with
  | H : flt _ _ = true |- _ => apply flt_key in H as (? & ? & ? & ? & ?)
  | H : fle _ _ = true |- _ => apply fle_key in H as (? & ? & ? & ? & ?)
  | H : feq _ _ = true |- _ => apply feq_key in H as (? & ? & ?)
  | H : is_nan _ = false |- _ => apply is_nan_key in H as [? ?]
  end; simplify_eq;
  repeat match goal with
  | H : _ ∨ _ = _ |- _ => destruct H as [?| ->]
  end.

Lemma flt_irrefl a : flt a a = false.
Proof. apply not_true_is_false. intros H. key_order. unfold key_lt in *. lia. Qed.

Lemma fle_refl a : is_nan a = false → fle a a = true.
Proof. intros H. key_order. apply fle_key. eauto 10. Qed.

Lemma feq_refl a : is_nan a = false → feq a a = true.
Proof. intros H. key_order. apply feq_key. eauto. Qed.

Lemma flt_le a b : flt a b = true → fle a b = true.
Proof. rewrite fle_lt_eq. intros ->. done. Qed.

Lemma flt_asym a b : flt a b = true → flt b a = false.
Proof.
  intros H. apply not_true_is_false. intros H'. key_order. unfold key_lt in *. lia.
Qed.

Lemma flt_not_le a b : flt a b = true → fle b a = false.
Proof.
  intros H. apply not_true_is_false. intros H'. key_order; unfold key_lt in *; lia.
Qed.

Lemma fle_trans a b c : fle a b = true → fle b c = true → fle a c = true.
Proof.
  intros H H'. key_order; apply fle_key; eexists _, _; split_and!; try done;
    [left; unfold key_lt in *; lia|by left|by left|by right].
Qed.

Lemma flt_le_trans a b c : flt a b = true → fle b c = true → flt a c = true.
Proof.
  intros H H'. key_order; apply flt_key; eexists _, _; split_and!; try done.
  unfold key_lt in *; lia.
Qed.

Lemma fle_lt_trans a b c : fle a b = true → flt b c = true → flt a c = true.
Proof.
  intros H H'. key_order; apply flt_key; eexists _, _; split_and!; try done.
  unfold key_lt in *; lia.
Qed.

Lemma fle_total a b : is_nan a = false → is_nan b = false → fle a b = true ∨ flt b a = true.
Proof.
  intros Ha Hb. key_order. rewrite fle_key, flt_key.
  destruct (lex3 x0 x) eqn:E.
  - apply lex3_eq in E as ->. left; eauto 10.
  - apply lex3_lt in E. eauto 10.
  - right. eexists _, _. split_and!; try done.
    unfold lex3, key_lt in *. destruct (Z.compare_spec x0.1.1 x.1.1); try done; [|lia].
    destruct (Z.compare_spec x0.1.2 x.1.2); try done; [|lia].
    apply Z.compare_gt_iff in E. lia.
Qed.

Lemma flt_nan a b : flt a b = true → is_nan a = false ∧ is_nan b = false.
Proof. intros H. key_order. split; apply is_nan_key; eauto. Qed.

Lemma fle_nan a b : fle a b = true → is_nan a = false ∧ is_nan b = false.
Proof. intros H. key_order; split; apply is_nan_key; eauto. Qed.

Create HintDb go_float.
#[export] Hint Resolve fle_refl feq_refl flt_le flt_asym flt_not_le flt_irrefl : go_float.

(** ** Magnitudes *)

Lemma Abs_idemp x : Abs (Abs x) = Abs x.
Proof. by destruct x. Qed.

Lemma Abs_nonneg x : is_nan x = false → fle fzero (Abs x) = true.
Proof. by destruct x. Qed.

(** Rounding is the same on both sides of zero, so a difference has one
    magnitude whichever way it is taken. *)
Lemma Abs_round_aux s s' m e l :
  Abs (binary_round_aux prec emax s m e l) = Abs (binary_round_aux prec emax s' m e l).
Proof.
  unfold binary_round_aux. repeat case_match; simplify_eq; done.
Qed.

Lemma Abs_normalize_opp m e s s' :
  Abs (binary_normalize prec emax (- m) e s) = Abs (binary_normalize prec emax m e s').
Proof. destruct m; simpl; [done| |]; unfold binary_round; case_match; apply Abs_round_aux. Qed.

Lemma Abs_fsub_comm a b : Abs (fsub a b) = Abs (fsub b a).
Proof.
  destruct a as [sa|sa| |sa ma ea], b as [sb|sb| |sb mb eb]; try destruct sa; try destruct sb;
    try done.
  all: unfold fsub, SFsub; cbv zeta; rewrite (Z.min_comm eb ea);
    match goal with |- Abs (binary_normalize _ _ (?x - ?y) _ _) = _ =>
      replace (x - y) with (- (y - x)) by lia end; apply Abs_normalize_opp.
Qed.

Lemma fsub_self x : is_finite x = true → Abs (fsub x x) = fzero.
Proof.
  destruct x as [[]| | |s m e]; try done. intros _.
  unfold fsub, SFsub. cbv zeta. by rewrite Z.sub_diag.
Qed.

End GoFloat.
