(* ===== verification/GoString.v ===== *)
(** * The parts of Go's [strings], [encoding/hex] and [strconv] the program uses

    Go strings are byte strings.  Case mapping and the white space of
    [TrimSpace] are those of ASCII; bytes from 128 on are left alone. *)

From Corelib Require Import SpecFloat.
From Stdlib Require Import Ascii.
From S2P Require Import Prelude GoFloat.
Import GoFloat.

Module GoString.

(** ** Bytes *)

Definition byte_of (c : ascii) : Z := Z.of_N (N_of_ascii c).
Definition of_byte (z : Z) : ascii := ascii_of_N (Z.to_N (z mod 256)).

Definition between (lo hi : ascii) (c : ascii) : bool :=
  (byte_of lo <=? byte_of c) && (byte_of c <=? byte_of hi).
Definition is_digit (c : ascii) : bool := between "0" "9" c.

Definition lower (c : ascii) : ascii :=
  if between "A" "Z" c then of_byte (byte_of c + 32) else c.
Definition upper (c : ascii) : ascii :=
  if between "a" "z" c then of_byte (byte_of c - 32) else c.

Definition is_space (c : ascii) : bool :=
  (byte_of c =? 32) || ((9 <=? byte_of c) && (byte_of c <=? 13)).

(** ** [strings] *)

Fixpoint smap (f : ascii → ascii) (s : string) : string :=
  match s with EmptyString => EmptyString | String c s => String (f c) (smap f s) end.

Definition ToLower : string → string := smap lower.
Definition ToUpper : string → string := smap upper.
Definition EqualFold (a b : string) : bool := String.eqb (ToLower a) (ToLower b).

Fixpoint HasPrefix (s p : string) : bool :=
  match p, s with
  | EmptyString, _ => true
  | String c p, String d s => Ascii.eqb c d && HasPrefix s p
  | _, _ => false
  end.

Fixpoint sdrop (n : nat) (s : string) : string :=
  match n, s with
  | S n, String _ s => sdrop n s
  | _, _ => s
  end.

Definition TrimPrefix (s p : string) : string :=
  if HasPrefix s p then sdrop (String.length p) s else s.

Fixpoint Contains (s sub : string) : bool :=
  HasPrefix s sub ||
  match s with EmptyString => false | String _ s => Contains s sub end.

Fixpoint srev_app (s acc : string) : string :=
  match s with EmptyString => acc | String c s => srev_app s (String c acc) end.
Definition srev (s : string) : string := srev_app s EmptyString.

Definition HasSuffix (s suf : string) : bool := HasPrefix (srev s) (srev suf).
Definition TrimSuffix (s suf : string) : string :=
  if HasSuffix s suf then srev (sdrop (String.length suf) (srev s)) else s.

Fixpoint TrimLeftSpace (s : string) : string :=
  match s with
  | String c s' => if is_space c then TrimLeftSpace s' else s
  | EmptyString => EmptyString
  end.
Definition TrimSpace (s : string) : string :=
  srev (TrimLeftSpace (srev (TrimLeftSpace s))).

(** [strings.ReplaceAll(s, old, "")] for a one-byte [old]. *)
Fixpoint RemoveAll (c : ascii) (s : string) : string :=
  match s with
  | EmptyString => EmptyString
  | String d s => if Ascii.eqb c d then RemoveAll c s else String d (RemoveAll c s)
  end.

(** [strings.Compare]: bytewise lexicographic, [-1], [0] or [1]. *)
Definition scompare (a b : string) : Z :=
  match String.compare a b with Lt => -1 | Eq => 0 | Gt => 1 end.

(** ** [encoding/hex] *)

Definition hex_digit (n : Z) : ascii :=
  of_byte (if n <? 10 then byte_of "0" + n else byte_of "a" + (n - 10)).

Fixpoint EncodeToString (bs : list Z) : string :=
  match bs with
  | [] => EmptyString
  | b :: bs =>
    String (hex_digit (Z.shiftr b 4))
      (String (hex_digit (Z.land b 15)) (EncodeToString bs))
  end.

Definition from_hex (c : ascii) : option Z :=
  if is_digit c then Some (byte_of c - byte_of "0")
  else if between "a" "f" c then Some (byte_of c - byte_of "a" + 10)
  else if between "A" "F" c then Some (byte_of c - byte_of "A" + 10)
  else None.

(** [None] is the error of a bad digit or of an odd length. *)
Fixpoint DecodeString (s : string) : option (list Z) :=
  match s with
  | EmptyString => Some []
  | String _ EmptyString => None
  | String a (String b s) =>
    x ← from_hex a; y ← from_hex b; rest ← DecodeString s;
    Some (Z.lor (Z.shiftl x 4) y :: rest)
  end.

(** ** [strconv.ParseFloat(s, 64)]

    [None] stands for a non-nil error: bad syntax or a value out of range. *)

Record scan := mkScan {
  sc_mant : Z;         (* digits read so far, as an integer *)
  sc_frac : Z;         (* digits after the point *)
  sc_dot : bool;
  sc_digits : bool;
  sc_under : bool;
}.

Fixpoint scan_mantissa (hex : bool) (st : scan) (s : string) : scan * string :=
  match s with
  | EmptyString => (st, s)
  | String c s' =>
    let base := if hex then 16 else 10 in
    let digit v := scan_mantissa hex
      (mkScan (sc_mant st * base + v) (if sc_dot st then sc_frac st + 1 else sc_frac st)
         (sc_dot st) true (sc_under st)) s' in
    if Ascii.eqb c "_" then
      scan_mantissa hex (mkScan (sc_mant st) (sc_frac st) (sc_dot st) (sc_digits st) true) s'
    else if Ascii.eqb c "." then
      if sc_dot st then (st, s)
      else scan_mantissa hex (mkScan (sc_mant st) (sc_frac st) true (sc_digits st) (sc_under st)) s'
    else if is_digit c then digit (byte_of c - byte_of "0")
    else if hex && between "a" "f" (lower c) then digit (byte_of (lower c) - byte_of "a" + 10)
    else (st, s)
  end.

Fixpoint scan_exponent (e : Z) (under : bool) (s : string) : Z * bool * string :=
  match s with
  | String c s' =>
    if Ascii.eqb c "_" then scan_exponent e true s'
    else if is_digit c then
      scan_exponent (if e <? 10000 then e * 10 + (byte_of c - byte_of "0") else e) under s'
    else (e, under, s)
  | EmptyString => (e, under, s)
  end.

(** [underscoreOK]: the state is the class of the previous byte. *)
Inductive saw := saw_start | saw_digit | saw_under | saw_other.

Fixpoint underscore_scan (hex : bool) (st : saw) (s : string) : bool :=
  match s with
  | EmptyString => match st with saw_under => false | _ => true end
  | String c s =>
    if is_digit c || (hex && between "a" "f" (lower c)) then underscore_scan hex saw_digit s
    else if Ascii.eqb c "_" then
      match st with saw_digit => underscore_scan hex saw_under s | _ => false end
    else match st with saw_under => false | _ => underscore_scan hex saw_other s end
  end.

Definition strip_sign (s : string) : bool * string :=
  match s with
  | String c s' =>
    if Ascii.eqb c "+" then (false, s') else if Ascii.eqb c "-" then (true, s') else (false, s)
  | EmptyString => (false, s)
  end.

Definition underscoreOK (s : string) : bool :=
  let s := (strip_sign s).2 in
  match s with
  | String "0" (String c s') =>
    let l := lower c in
    if Ascii.eqb l "x" then underscore_scan true saw_digit s'
    else if Ascii.eqb l "b" || Ascii.eqb l "o" then underscore_scan false saw_digit s'
    else underscore_scan false saw_start s
  | _ => underscore_scan false saw_start s
  end.

(** The nearest float of [m * 10^e] or [m * 2^e]; [None] when it overflows. *)
Definition in_range (x : f64) : option f64 := if is_inf x 0 then None else Some x.

Definition decimal (neg : bool) (m e : Z) : option f64 :=
  match m with
  | Z.pos p =>
    in_range (if 0 <=? e then binary_round prec emax neg (Z.to_pos (m * 10 ^ e)) 0
              else fdiv (S754_finite neg p 0) (S754_finite false (Z.to_pos (10 ^ (- e))) 0))
  | _ => Some (S754_zero neg)
  end.
Definition binary (neg : bool) (m e : Z) : option f64 :=
  match m with
  | Z.pos p => in_range (binary_round prec emax neg p e)
  | _ => Some (S754_zero neg)
  end.

Definition read_float (full : string) : option f64 :=
  let '(neg, s) := strip_sign full in
  let '(hex, s) :=
    match s with
    | String "0" (String c (String d s')) =>
      if Ascii.eqb (lower c) "x" then (true, String d s') else (false, s)
    | _ => (false, s)
    end in
  let '(st, rest) := scan_mantissa hex (mkScan 0 0 false false false) s in
  if negb (sc_digits st) then None
  else
    let finish e under rest :=
      match rest with
      | EmptyString =>
        if under && negb (underscoreOK full) then None
        else if hex then binary neg (sc_mant st) (e - 4 * sc_frac st)
        else decimal neg (sc_mant st) (e - sc_frac st)
      | _ => None
      end in
    match rest with
    | String c rest' =>
      if Ascii.eqb (lower c) (if hex then "p" else "e")%char then
        let '(eneg, digits) := strip_sign rest' in
        match digits with
        | String d _ =>
          if is_digit d then
            let '(e, under, rest) := scan_exponent 0 (sc_under st) digits in
            finish (if eneg then - e else e) under rest
          else None
        | EmptyString => None
        end
      else None
    | EmptyString => if hex then None else finish 0 (sc_under st) EmptyString
    end.

Definition special (s : string) : option f64 :=
  let l := ToLower s in
  let '(neg, body) := strip_sign l in
  if String.eqb body "inf" || String.eqb body "infinity" then Some (S754_infinity neg)
  else if String.eqb l "nan" then Some fnan
  else None.

Definition ParseFloat (s : string) : option f64 :=
  match special s with Some x => Some x | None => read_float s end.

Example ParseFloat_1 : ParseFloat "1e-6" = Some (f_dec 1 6).
Proof. vm_compute; reflexivity. Qed.
Example ParseFloat_2 : ParseFloat "-12.50" = Some (fneg (f_dec 125 1)).
Proof. vm_compute; reflexivity. Qed.
Example ParseFloat_3 : ParseFloat "0x1p-2" = Some (f_dec 25 2).
Proof. vm_compute; reflexivity. Qed.
Example ParseFloat_4 : ParseFloat "1e400" = None ∧ ParseFloat "1,5" = None ∧ ParseFloat "" = None.
Proof. vm_compute; done. Qed.

(** ** [strconv] and [fmt] output *)

Fixpoint digits_loop (fuel : nat) (n : Z) (acc : string) : string :=
  match fuel with
  | O => acc
  | S fuel =>
    let acc := String (of_byte (byte_of "0" + n mod 10)) acc in
    if n <? 10 then acc else digits_loop fuel (n / 10) acc
  end.

(** The decimal digits of a non-negative integer; the fuel is its bit length. *)
Definition digits (n : Z) : string := digits_loop (S (Z.to_nat (Z.log2 n))) n EmptyString.

(** [strconv.Itoa] and [%d]. *)
Definition Itoa (n : Z) : string :=
  if n <? 0 then "-" +:+ digits (- n) else digits n.

Fixpoint pad_zeros (n : nat) (s : string) : string :=
  match n with O => s | S n => String "0" (pad_zeros n s) end.

(** [n/d] rounded to the nearest integer, ties to even. *)
Definition div_even (n d : Z) : Z :=
  let q := n / d in
  let r := n mod d in
  match Z.compare (2 * r) d with
  | Lt => q
  | Gt => q + 1
  | Eq => if Z.even q then q else q + 1
  end.

(** [%.4f] and its likes: the exact value of the float, correctly rounded. *)
Definition FormatFixed (places : Z) (x : f64) : string :=
  let body (s : bool) (n : Z) :=
    let int := digits (n / 10 ^ places) in
    let frac := digits (n mod 10 ^ places) in
    (if s then "-" else "") +:+ int +:+ "." +:+
      pad_zeros (Z.to_nat places - String.length frac) frac in
  match x with
  | SpecFloat.S754_nan => "NaN"
  | SpecFloat.S754_infinity s => if s then "-Inf" else "+Inf"
  | SpecFloat.S754_zero s => body s 0
  | SpecFloat.S754_finite s m e =>
    body s (if 0 <=? e then Z.pos m * 2 ^ e * 10 ^ places
            else div_even (Z.pos m * 10 ^ places) (2 ^ (- e)))
  end.

Example itoa_1234 : Itoa (-1230) = "-1230".
Proof. vm_compute. reflexivity. Qed.

Example format_small : FormatFixed 4 (f_dec 12345678 6) = "12.3457".
Proof. vm_compute. reflexivity. Qed.

Example format_pad : FormatFixed 4 (fneg (f_dec 5 3)) = "-0.0050".
Proof. vm_compute. reflexivity. Qed.

(** ** Facts *)

Lemma byte_of_range c : 0 ≤ byte_of c < 256.
Proof. unfold byte_of. pose proof (N_ascii_bounded c). lia. Qed.

Lemma of_byte_of c : of_byte (byte_of c) = c.
Proof.
  unfold of_byte. rewrite Z.mod_small by apply byte_of_range.
  unfold byte_of. by rewrite N2Z.id, ascii_N_embedding.
Qed.

Lemma byte_of_of_byte z : 0 ≤ z < 256 → byte_of (of_byte z) = z.
Proof.
  intros Hz. unfold byte_of, of_byte. rewrite Z.mod_small by done.
  rewrite N_ascii_embedding by lia. lia.
Qed.

(** Every statement about one byte is decided by trying them all. *)
Lemma all_bytes (P : ascii → bool) :
  forallb P (map (λ n, ascii_of_nat n) (seq 0 256)) = true → ∀ c, P c = true.
Proof.
  intros H c. rewrite forallb_forall in H. apply H.
  apply in_map_iff. exists (nat_of_ascii c). split; [apply ascii_nat_embedding|].
  apply in_seq. pose proof (nat_ascii_bounded c). lia.
Qed.

Lemma lower_idemp c : lower (lower c) = lower c.
Proof. apply Ascii.eqb_eq. revert c. by apply all_bytes; vm_compute. Qed.

Lemma ToLower_idemp s : ToLower (ToLower s) = ToLower s.
Proof. unfold ToLower. induction s as [|c s IH]; simpl; [done|]. by rewrite lower_idemp, IH. Qed.

Lemma EqualFold_refl a : EqualFold a a = true.
Proof. apply String.eqb_refl. Qed.

Lemma EqualFold_sym a b : EqualFold a b = EqualFold b a.
Proof. apply String.eqb_sym. Qed.

Lemma string_compare_refl s : String.compare s s = Eq.
Proof.
  induction s as [|c s IH]; simpl; [done|].
  unfold Ascii.compare. by rewrite N.compare_refl.
Qed.

Lemma scompare_eq a b : scompare a b = 0 ↔ a = b.
Proof.
  unfold scompare. split; [|intros ->; by rewrite string_compare_refl].
  destruct (String.compare a b) eqn:E; try done. intros _. by apply String.compare_eq_iff.
Qed.

(** ** Concatenation *)

Lemma append_assoc s t u : ((s +:+ t) +:+ u = s +:+ (t +:+ u))%string.
Proof. induction s as [|c s IH]; [done|]. exact (f_equal (String c) IH). Qed.

Lemma append_nil s : (s +:+ EmptyString = s)%string.
Proof. induction s as [|c s IH]; [done|]. exact (f_equal (String c) IH). Qed.

Lemma srev_app_acc s acc : srev_app s acc = (srev s +:+ acc)%string.
Proof.
  unfold srev. revert acc. induction s as [|c s IH]; intros acc; [done|]. cbn.
  rewrite IH, (IH (String c EmptyString)), append_assoc. done.
Qed.

Lemma srev_cons c s : srev (String c s) = (srev s +:+ String c EmptyString)%string.
Proof. unfold srev at 1. cbn. apply srev_app_acc. Qed.

Lemma srev_append s t : srev (s +:+ t) = (srev t +:+ srev s)%string.
Proof.
  induction s as [|c s IH]; [symmetry; apply append_nil|].
  change (String c s +:+ t)%string with (String c (s +:+ t)). by rewrite !srev_cons, IH, append_assoc.
Qed.

Lemma srev_involutive s : srev (srev s) = s.
Proof. induction s as [|c s IH]; [done|]. by rewrite srev_cons, srev_append, IH. Qed.
End GoString.
