(* ===== verification/GoNet.v ===== *)
(** * The parts of Go's [net], [net/netip] and [net/url] the program uses

    As they are in Go 1.25.0, the version [go.mod] names.  Errors carry no text
    here: no caller looks at it.  Of a parsed URL only the scheme and the host are
    kept; what the rest of it must satisfy is checked. *)

From Stdlib Require Import Ascii.
From S2P Require Import Prelude GoString.
Import GoString.

Module GoNet.

(** ** Searching strings *)

Definition eqc (c d : ascii) : bool := Ascii.eqb c d.

Fixpoint all_chars (p : ascii → bool) (s : string) : bool :=
  match s with EmptyString => true | String c s => p c && all_chars p s end.

Definition has (c : ascii) (s : string) : bool := negb (all_chars (λ d, negb (eqc c d)) s).

(** What comes before the first byte that satisfies [p], and the rest from it on. *)
Fixpoint break (p : ascii → bool) (s : string) : string * string :=
  match s with
  | EmptyString => (EmptyString, EmptyString)
  | String c s' =>
    if p c then (EmptyString, s) else let '(a, b) := break p s' in (String c a, b)
  end.

(** What comes before and after the last [c]. *)
Fixpoint split_last (c : ascii) (s : string) : option (string * string) :=
  match s with
  | EmptyString => None
  | String d s' =>
    match split_last c s' with
    | Some (a, b) => Some (String d a, b)
    | None => if eqc c d then Some (EmptyString, s') else None
    end
  end.

(** What comes before the first [sub], and the rest from it on. *)
Fixpoint split_at (sub s : string) : option (string * string) :=
  if HasPrefix s sub then Some (EmptyString, s)
  else match s with
       | EmptyString => None
       | String c s => match split_at sub s with Some (a, b) => Some (String c a, b) | None => None end
       end.

(** [strings.FieldsFunc] *)
Fixpoint FieldsFunc (sep : ascii → bool) (s : string) : list string :=
  match s with
  | EmptyString => []
  | String c s' =>
    if sep c then FieldsFunc sep s'
    else match s' with
         | EmptyString => [String c EmptyString]
         | String d _ =>
           if sep d then String c EmptyString :: FieldsFunc sep s'
           else match FieldsFunc sep s' with
                | w :: ws => String c w :: ws
                | [] => [String c EmptyString]
                end
         end
  end.

(** [strings.Split] at a single byte. *)
Fixpoint Split (c : ascii) (s : string) : list string :=
  match s with
  | EmptyString => [EmptyString]
  | String d s =>
    if eqc c d then EmptyString :: Split c s
    else match Split c s with w :: ws => String d w :: ws | [] => [String d EmptyString] end
  end.

Lemma app_cons c s t : String c s +:+ t = String c (s +:+ t).
Proof. done. Qed.
Lemma app_nil_l s : EmptyString +:+ s = s.
Proof. done. Qed.
Lemma all_app p s t : all_chars p (s +:+ t) = all_chars p s && all_chars p t.
Proof. induction s as [|c s IH]; [done|]. rewrite app_cons. cbn. by rewrite IH, andb_assoc. Qed.

Definition is_letter (c : ascii) : bool := between "a" "z" c || between "A" "Z" c.
Definition is_alnum (c : ascii) : bool := is_letter c || is_digit c.
Definition one_of (chars : string) (c : ascii) : bool := has c chars.
Definition is_hex (c : ascii) : bool := bool_decide (is_Some (from_hex c)).

(** ** [net.SplitHostPort] *)

Definition SplitHostPort (hostport : string) : option (string * string) :=
  '(before, port) ← split_last ":" hostport;
  match hostport with
  | String "[" inner =>
    match break (eqc "]") inner with
    | (host, String _ after) =>
      match after with
      | String c p =>
        if eqc ":" c && negb (has ":" p) && negb (has "[" inner) && negb (has "]" after)
        then Some (host, p) else None
      | EmptyString => None
      end
    | _ => None
    end
  | _ =>
    if has ":" before || has "[" hostport || has "]" hostport then None else Some (before, port)
  end.

(** ** [net.ParseIP]: whether the text is an address; one with a zone is not *)

Fixpoint dec_value (acc : Z) (s : string) : Z :=
  match s with EmptyString => acc | String c s => dec_value (acc * 10 + (byte_of c - byte_of "0")) s end.

(** No sign, no leading zero, at most 255. *)
Definition octet (s : string) : bool :=
  negb (String.eqb s "") && all_chars is_digit s &&
  match s with String c (String _ _) => negb (eqc "0" c) | _ => true end && (dec_value 0 s <=? 255).

Definition parseIPv4 (s : string) : bool :=
  match Split "." s with
  | [a; b; c; d] => octet a && octet b && octet c && octet d
  | _ => false
  end.

(** The groups of an IPv6 address, of which there is still room for some.  What is
    left of it at the end, and whether there was an ellipsis. *)
Fixpoint groups (room : nat) (ellipsis : bool) (s : string) : option (nat * bool) :=
  match room with
  | O => if String.eqb s "" then Some (O, ellipsis) else None
  | S room' =>
    let '(digits, rest) := break (λ c, negb (is_hex c)) s in
    if String.eqb digits "" || (4 <? String.length digits)%nat then None
    else
      match rest with
      | EmptyString => Some (room', ellipsis)
      | String c rest =>
        if eqc "." c then
          if (room <? 2)%nat || (negb ellipsis && negb (room =? 2)%nat) then None
          else if parseIPv4 s then Some ((room - 2)%nat, ellipsis) else None
        else if negb (eqc ":" c) then None
        else
          match rest with
          | EmptyString => None
          | String d rest' =>
            if eqc ":" d then
              if ellipsis then None
              else if String.eqb rest' "" then Some (room', true) else groups room' true rest'
            else groups room' ellipsis rest
          end
      end
  end.

Definition parseIPv6 (s : string) : bool :=
  match (if HasPrefix s "::"
         then if String.eqb (sdrop 2 s) "" then Some (8%nat, true) else groups 8 true (sdrop 2 s)
         else groups 8 false s) with
  | Some (O, ellipsis) => negb ellipsis
  | Some (S _, ellipsis) => ellipsis
  | None => false
  end.

Definition ParseIP (s : string) : bool :=
  if has "%" s then false
  else match (break (λ c, eqc "." c || eqc ":" c) s).2 with
       | EmptyString => false
       | String c _ => if eqc "." c then parseIPv4 s else parseIPv6 s
       end.

(** ** [url.Parse] *)

Inductive encoding := encodePath | encodeFragment | encodeUserPassword | encodeHost | encodeZone.

Definition in_host (mode : encoding) : bool :=
  match mode with encodeHost | encodeZone => true | _ => false end.

(** The bytes that a host may not have as they are. *)
Definition shouldEscape (c : ascii) : bool :=
  negb (is_alnum c || one_of "!$&'()*+,;=:[]<>-_.~" c || (byte_of c =? 34)).

Fixpoint unescape (mode : encoding) (s : string) : option string :=
  match s with
  | EmptyString => Some EmptyString
  | String c s =>
    if eqc "%" c then
      match s with
      | String a (String b s) =>
        x ← from_hex a; y ← from_hex b;
        let percent := eqc "2" a && eqc "5" b in
        let v := of_byte (Z.lor (Z.shiftl x 4) y) in
        if match mode with
           | encodeHost => (x <? 8) && negb percent
           | encodeZone => negb percent && negb (byte_of v =? 32) && shouldEscape v
           | _ => false
           end then None
        else rest ← unescape mode s; Some (String v rest)
      | _ => None
      end
    else if in_host mode && (byte_of c <? 128) && shouldEscape c then None
    else rest ← unescape mode s; Some (String c rest)
  end.

Record URL := mkURL { u_Scheme : string; u_Host : string }.

(** The scheme and what follows; [None] is a URL that starts with a colon. *)
Definition getScheme (raw : string) : option (string * string) :=
  match break (λ c, negb (is_alnum c || one_of "+-." c)) raw with
  | (EmptyString, String c _) => if eqc ":" c then None else Some (EmptyString, raw)
  | (String a _ as scheme, String c rest) =>
    if eqc ":" c && is_letter a then Some (scheme, rest) else Some (EmptyString, raw)
  | _ => Some (EmptyString, raw)
  end.

Definition validOptionalPort (port : string) : bool :=
  match port with EmptyString => true | String c p => eqc ":" c && all_chars is_digit p end.

Definition parseHost (host : string) : option string :=
  match host with
  | String "[" _ =>
    '(inside, port) ← split_last "]" host;
    if negb (validOptionalPort port) then None
    else match split_at "%25" inside with
         | Some (name, zone) =>
           a ← unescape encodeHost name; b ← unescape encodeZone zone;
           c ← unescape encodeHost (String "]" port);
           Some (a +:+ b +:+ c)
         | None => unescape encodeHost host
         end
  | _ =>
    match split_last ":" host with
    | Some (_, port) => if all_chars is_digit port then unescape encodeHost host else None
    | None => unescape encodeHost host
    end
  end.

Definition validUserinfo : string → bool :=
  all_chars (λ c, is_alnum c || one_of "-._:~!$&'()*+,;=%@" c).

Definition parseAuthority (authority : string) : option string :=
  match split_last "@" authority with
  | None => parseHost authority
  | Some (userinfo, host) =>
    host ← parseHost host;
    if negb (validUserinfo userinfo) then None
    else
      let '(username, password) := break (eqc ":") userinfo in
      _ ← unescape encodeUserPassword username; _ ← unescape encodeUserPassword password;
      Some host
  end.

(** Without the fragment; a request must have a path or a scheme. *)
Definition parse (viaRequest : bool) (raw : string) : option URL :=
  if negb (all_chars (λ c, (32 <=? byte_of c) && negb (byte_of c =? 127)) raw) then None
  else if viaRequest && String.eqb raw "" then None
  else if String.eqb raw "*" then Some (mkURL "" "")
  else
    '(scheme, rest) ← getScheme raw;
    let scheme := ToLower scheme in
    let rest := (break (eqc "?") rest).1 in
    if negb (HasPrefix rest "/") then
      if negb (String.eqb scheme "") then Some (mkURL scheme "")
      else if viaRequest || has ":" (break (eqc "/") rest).1 then None
      else _ ← unescape encodePath rest; Some (mkURL scheme "")
    else if (negb (String.eqb scheme "") || negb viaRequest && negb (HasPrefix rest "///")) && HasPrefix rest "//" then
      let '(authority, path) := break (eqc "/") (sdrop 2 rest) in
      host ← parseAuthority authority;
      _ ← unescape encodePath path; Some (mkURL scheme host)
    else _ ← unescape encodePath rest; Some (mkURL scheme "").

Definition Parse (raw : string) : option URL :=
  let '(u, fragment) := break (eqc "#") raw in
  url ← parse false u;
  match fragment with
  | EmptyString => Some url
  | String _ fragment => _ ← unescape encodeFragment fragment; Some url
  end.

(** Of no fragment: a [#] is part of what is parsed. *)
Definition ParseRequestURI : string → option URL := parse true.

Definition Hostname (u : URL) : string :=
  let host := u_Host u in
  let host := match split_last ":" host with
              | Some (name, port) => if all_chars is_digit port then name else host
              | None => host
              end in
  if HasPrefix host "[" && HasSuffix host "]" then (* it has both: the brackets go *)
    match host with
    | String _ (String _ _ as inner) => TrimSuffix inner "]"
    | _ => EmptyString
    end
  else host.

Example parse_ip : (ParseIP <$> ["127.0.0.1"; "::1"; "1:2:3:4:5:6:7:8"; "::ffff:1.2.3.4"; "fe80::"]) =
  [true; true; true; true; true].
Proof. vm_compute. reflexivity. Qed.
Example parse_ip_not : (ParseIP <$> [""; "256.0.0.1"; "01.2.3.4"; "1.2.3"; "1.2.3.4.5"; "1:2:3:4:5:6:7:8::";
  "1:::2"; "fe80::1%eth0"; "example.com"; "12345::"; "1:2:3:4:5:6:7:1.2.3.4"]) = replicate 11 false.
Proof. vm_compute. reflexivity. Qed.
Example split_host_port : (SplitHostPort <$> ["[::1]:80"; ":8080"; "a:b:c"; "[a]"; "a]:1"; "localhost:"]) =
  [Some ("::1", "80"); Some ("", "8080"); None; None; None; Some ("localhost", "")].
Proof. vm_compute. reflexivity. Qed.
Example parse_url : (Parse <$> ["HTTPS://u:p@Example.com:443/x?q#f"; "example.com:80"; "http://a b"; "http://a:x";
  "http://[fe80::1%25en0]:80"; "//host"; "mailto:x"; "http://%41"; "http://%C3%A9"; "a b:c"]) =
  [Some (mkURL "https" "Example.com:443"); Some (mkURL "example.com" ""); None; None;
   Some (mkURL "http" "[fe80::1%en0]:80"); Some (mkURL "" "host"); Some (mkURL "mailto" ""); None;
   Some (mkURL "http" (String (of_byte 195) (String (of_byte 169) EmptyString))); None].
Proof. vm_compute. reflexivity. Qed.
Example parse_request : (ParseRequestURI <$> ["https://api.example.com/x#y"; "/path"; "*"; "api.example.com"; ""; "x y:z";
  "localhost:8080"; "///a"; "http://a:b"]) =
  [Some (mkURL "https" "api.example.com"); Some (mkURL "" ""); Some (mkURL "" ""); None; None; None;
   Some (mkURL "localhost" ""); Some (mkURL "" ""); None].
Proof. vm_compute. reflexivity. Qed.

End GoNet.
