(* ===== verification/Origin.v ===== *)
(** * The origins a browser may come from: [internal/origin/origin.go]

    The server accepts requests and passkeys from a list of origins, and passkeys
    belong to one relying party, the name of a host.  Both are made of the address
    the server listens on and of the public origins it is given. *)

From Stdlib Require Import Ascii.
From S2P Require Import Prelude GoString GoNet.
Import GoString GoNet.

Module Origin.

Definition DefaultOrigin : string := "http://localhost:8080".

Definition is_separator (c : ascii) : bool :=
  one_of ",; " c || (byte_of c =? 10) || (byte_of c =? 13) || (byte_of c =? 9).

Definition parseOriginList (origin : string) : list string :=
  let trimmed := TrimSpace origin in
  if String.eqb trimmed "" then []
  else filter (λ part, part ≠ ""%string) (TrimSpace <$> FieldsFunc is_separator trimmed).

(** Empty when the origin is refused. *)
Definition normalizeOrigin (origin : string) : string :=
  let origin := TrimSpace origin in
  if String.eqb origin "" then ""
  else match Parse origin with
       | None => ""
       | Some parsed =>
         if String.eqb (u_Scheme parsed) "" || String.eqb (u_Host parsed) "" then ""
         else TrimSuffix (ToLower (u_Scheme parsed) +:+ "://" +:+ ToLower (u_Host parsed)) "/"
       end.

(** The address as [SplitHostPort] is given it. *)
Definition listen_addr (host : string) : string :=
  if HasPrefix host ":" then "127.0.0.1" +:+ host
  else if negb (has ":" host) then host +:+ ":" else host.

Definition originsFromListen (listenAddr : string) : list string :=
  let host := TrimSpace listenAddr in
  if String.eqb host "" then []
  else match SplitHostPort (listen_addr host) with
       | None => []
       | Some (parsedHost, port) =>
         if String.eqb port "" then []
         else
           let candidates :=
             ["localhost"; "127.0.0.1"] ++
             (if negb (String.eqb parsedHost "") && negb (String.eqb parsedHost "0.0.0.0") &&
                 negb (String.eqb parsedHost "::") then [parsedHost] else []) in
           candidates ≫= λ candidate,
             let candidate := TrimSpace candidate in
             if String.eqb candidate "" then []
             else
               let hostLabel :=
                 if has ":" candidate && negb (HasPrefix candidate "[")
                 then "[" +:+ candidate +:+ "]" else candidate in
               ["http://" +:+ hostLabel +:+ ":" +:+ port]
       end.

Definition normalizeRPIDHost (host : string) : string :=
  let host := TrimSpace host in
  if String.eqb host "" then ""
  else if String.eqb host "0.0.0.0" || String.eqb host "::" then "localhost"
  else if ParseIP host then "localhost" else host.

Definition hostFromOrigin (origin : string) : string :=
  let origin := TrimSpace origin in
  if String.eqb origin "" then ""
  else match Parse origin with
       | None => ""
       | Some parsed => normalizeRPIDHost (Hostname parsed)
       end.

Definition hostFromListen (listenAddr : string) : string :=
  let host := TrimSpace listenAddr in
  if String.eqb host "" then "localhost"
  else match SplitHostPort (listen_addr host) with
       | None => "localhost"
       | Some (parsedHost, _) => normalizeRPIDHost parsedHost
       end.

(** The closure of [BuildAllowedOrigins]: the origins in order, and those seen. *)
Definition origin_set : Type := list string * gset string.
Definition addNormalized (origin : string) (st : origin_set) : origin_set :=
  if String.eqb origin "" then st
  else if decide (origin ∈ st.2) then st
  else (st.1 ++ [origin], {[ origin ]} ∪ st.2).

(** The loops over raw origins; whether one was added is told too. *)
Fixpoint add_origins (origins : list string) (st : origin_set) (added : bool) : origin_set * bool :=
  match origins with
  | [] => (st, added)
  | origin :: origins =>
    let normalized := normalizeOrigin origin in
    if String.eqb normalized "" then add_origins origins st added
    else add_origins origins (addNormalized normalized st) true
  end.

Definition BuildAllowedOrigins (listenAddr publicOrigin : string) : list string :=
  let '(st, addedPublic) := add_origins (parseOriginList publicOrigin) ([], ∅) false in
  if (addedPublic : bool) then st.1
  else
    let st := addNormalized DefaultOrigin st in
    let '(st, _) := add_origins (originsFromListen listenAddr) st false in
    (if decide (st.1 = []) then addNormalized DefaultOrigin st else st).1.

(** The first non-empty host that satisfies [p]. *)
Fixpoint first_host (p : string → bool) (origins : list string) : option string :=
  match origins with
  | [] => None
  | origin :: origins =>
    let host := hostFromOrigin origin in
    if negb (String.eqb host "") && p host then Some host else first_host p origins
  end.

Definition DeriveRPID (listenAddr publicOrigin : string) : string :=
  let publicOrigins := parseOriginList publicOrigin in
  match first_host (λ host, negb (String.eqb host "localhost")) publicOrigins with
  | Some host => host
  | None =>
    match first_host (λ _, true) publicOrigins with
    | Some host => host
    | None =>
      let host := hostFromListen listenAddr in
      if String.eqb host "" then "localhost" else host
    end
  end.

Example origins_of_tests :
  BuildAllowedOrigins ":3000" "https://foo.example, http://Bar.example:8080, ," =
    ["https://foo.example"; "http://bar.example:8080"] ∧
  BuildAllowedOrigins ":9090" "" = [DefaultOrigin; "http://localhost:9090"; "http://127.0.0.1:9090"] ∧
  DeriveRPID "0.0.0.0:8080" "" = "localhost" ∧ DeriveRPID "example.com:8080" "" = "example.com" ∧
  hostFromListen "[::1]:8080" = "localhost" ∧ normalizeOrigin "http://invalid host" = "" ∧
  normalizeOrigin "://missing" = "" ∧ normalizeOrigin "ftp://" = "".
Proof. vm_compute. done. Qed.

End Origin.
