(* ===== verification/WebUi.v ===== *)
(** * The web interface: [webui/embed.go]

    The interface is a set of embedded files, served by a library, and a script that
    tells it where the API is. *)

From Stdlib Require Import Ascii.
From S2P Require Import Prelude GoString GoNet.
Import GoString GoNet.

Module WebUi.

(** [available] says whether the binary has the build tag of the debug mode. *)
Definition SetDebug (available enabled : bool) : bool := enabled && available.

(** [strings.TrimRight] with a single byte. *)
Fixpoint TrimLeft1 (c : ascii) (s : string) : string :=
  match s with
  | String d s' => if eqc c d then TrimLeft1 c s' else s
  | EmptyString => EmptyString
  end.
Definition TrimRight (c : ascii) (s : string) : string := srev (TrimLeft1 c (srev s)).

(** What [SplitHostPort] is given: a host, and a port even if there is none. *)
Definition ui_addr (host defaultPort : string) : string :=
  let addr := if HasPrefix host ":" then "localhost" +:+ host else host in
  if has ":" addr then addr else addr +:+ ":" +:+ defaultPort.

Definition resolveOpsAPIOrigin (listen publicOrigin : string) (tls : bool) : string :=
  let trimmed := TrimSpace publicOrigin in
  if negb (String.eqb trimmed "") then
    match Parse trimmed with
    | Some parsed =>
      if negb (String.eqb (u_Scheme parsed) "") && negb (String.eqb (u_Host parsed) "")
      then u_Scheme parsed +:+ "://" +:+ u_Host parsed else TrimRight "/" trimmed
    | None => TrimRight "/" trimmed
    end
  else
    let '(scheme, defaultPort) := if tls then ("https", "443") else ("http", "80") in
    let host := TrimSpace listen in
    if String.eqb host "" then scheme +:+ "://localhost:8080"
    else
      match SplitHostPort (ui_addr host defaultPort) with
      | None => scheme +:+ "://" +:+ host
      | Some (h, port) =>
        let h := if String.eqb h "" || String.eqb h "0.0.0.0" || String.eqb h "::" || ParseIP h
                 then "localhost" else h in
        let hostLabel := if has ":" h && negb (HasPrefix h "[") then "[" +:+ h +:+ "]" else h in
        if String.eqb port defaultPort then scheme +:+ "://" +:+ hostLabel
        else scheme +:+ "://" +:+ hostLabel +:+ ":" +:+ port
      end.

(** The script of [configHandler]: what it says. *)
Record config_script := mkScript { sc_OPS_API_ORIGIN : string; sc_DEBUG_LOGS : bool; sc_DEBUG_MODE : bool }.
Definition configHandler (origin : string) (debug : bool) : config_script := mkScript origin debug debug.

(** The path served: the script, or a file. *)
Definition Handler (listen publicOrigin : string) (tls debug : bool) (path : string) : option config_script :=
  if String.eqb path "/config.js" then Some (configHandler (resolveOpsAPIOrigin listen publicOrigin tls) debug) else None.

End WebUi.
