(* ===== verification/OrderId.v ===== *)
(** * Order identifiers: [orderid/orderid.go]

    An identifier is 16 bytes: three big-endian [uint32] components and the
    CRC-32 of the preceding twelve bytes; its text is ["0x"] and hex digits. *)

From Stdlib Require Import Ascii.
From S2P Require Import Prelude GoFloat GoString.
Import GoString.

Module OrderId.

Record OrderId := mkOrderId { BotID : Z; DealID : Z; BotEventID : Z }.

#[global] Instance OrderId_eq_dec : EqDecision OrderId.
Proof. solve_decision. Defined.
#[global] Instance OrderId_countable : Countable OrderId.
Proof.
  refine (inj_countable' (λ o, (BotID o, DealID o, BotEventID o))
            (λ '(a, b, c), mkOrderId a b c) _).
  by intros [].
Defined.
#[global] Instance OrderId_inhabited : Inhabited OrderId := populate (mkOrderId 0 0 0).

Definition zero : OrderId := mkOrderId 0 0 0.

(** The components are [uint32] values. *)
Definition is_u32 (z : Z) : bool := (0 <=? z) && (z <? 2 ^ 32).
Definition valid (o : OrderId) : bool :=
  is_u32 (BotID o) && is_u32 (DealID o) && is_u32 (BotEventID o).

Inductive error := ErrHexTooShort | ErrIncorrectChecksum | ErrDecode.

(** ** [encoding/binary] and [hash/crc32] *)

Definition byte_at (v sh : Z) : Z := Z.land (Z.shiftr v sh) 255.
Definition AppendUint32 (b : list Z) (v : Z) : list Z :=
  b ++ [byte_at v 24; byte_at v 16; byte_at v 8; byte_at v 0].

Definition Uint32 (b : list Z) : Z :=
  match b with
  | b0 :: b1 :: b2 :: b3 :: _ =>
    Z.lor b3 (Z.lor (Z.shiftl b2 8) (Z.lor (Z.shiftl b1 16) (Z.shiftl b0 24)))
  | _ => 0
  end.

#[local] Arguments Uint32 : simpl never.
#[local] Arguments byte_at : simpl never.

Definition IEEE : Z := 0xedb88320.

Definition crc_bit (c : Z) : Z :=
  if Z.odd c then Z.lxor (Z.shiftr c 1) IEEE else Z.shiftr c 1.
(** The entry of the table for a byte. *)
Definition crc_table (b : Z) : Z := Nat.iter 8 crc_bit b.
Definition crc_byte (c b : Z) : Z :=
  Z.lxor (crc_table (Z.lxor (Z.land c 255) b)) (Z.shiftr c 8).
Definition crc_update (c : Z) (bs : list Z) : Z := fold_left crc_byte bs c.

Definition Checksum (bs : list Z) : Z :=
  Z.lxor (crc_update 0xffffffff bs) 0xffffffff.

(** ** Operations *)

Definition AsHex (id : OrderId) : list Z :=
  let out := AppendUint32 [] (u32 (BotID id)) in
  let out := AppendUint32 out (u32 (DealID id)) in
  let out := AppendUint32 out (u32 (BotEventID id)) in
  AppendUint32 out (Checksum out).

Definition Hex (id : OrderId) : string := "0x" +:+ EncodeToString (AsHex id).

(** The pointer of [HexAsPointer] is to a fresh string. *)
Definition HexAsPointer (id : OrderId) : option string := Some (Hex id).

Definition FromHex (v : list Z) : result error OrderId :=
  if negb (Nat.eqb (length v) 16) then Err ErrHexTooShort
  else if negb (Checksum (take 12 v) =? Uint32 (drop 12 v)) then Err ErrIncorrectChecksum
  else Ok (mkOrderId (Uint32 v) (Uint32 (drop 4 v)) (Uint32 (drop 8 v))).

Definition FromHexString (s : string) : result error OrderId :=
  let s := TrimPrefix s "0x" in
  let s := RemoveAll " " s in
  match DecodeString s with
  | None => Err ErrDecode
  | Some b => FromHex b
  end.

(** ** Bytes and words *)

Definition is_byte (b : Z) : Prop := 0 ≤ b < 256.

Lemma byte_at_byte v sh : is_byte (byte_at v sh).
Proof.
  unfold byte_at, is_byte. change 255 with (Z.ones 8). rewrite Z.land_ones by lia.
  apply Z.mod_pos_bound. lia.
Qed.

(** Equality of naturals below [2^32] from their 32 bits. *)
Lemma bits32 a b :
  0 ≤ a < 2 ^ 32 → 0 ≤ b < 2 ^ 32 →
  (∀ i, 0 ≤ i < 32 → Z.testbit a i = Z.testbit b i) → a = b.
Proof.
  intros Ha Hb Hi. apply Z.bits_inj'. intros i Hi0.
  destruct (decide (i < 32)) as [|Hge]; [by apply Hi|].
  rewrite !Z.bits_above_log2; try done; try lia.
  - destruct (decide (b = 0)) as [->|]; [simpl; lia|].
    apply Z.log2_lt_pow2; [lia|]. eapply Z.lt_le_trans; [apply Hb|]. apply Z.pow_le_mono_r; lia.
  - destruct (decide (a = 0)) as [->|]; [simpl; lia|].
    apply Z.log2_lt_pow2; [lia|]. eapply Z.lt_le_trans; [apply Ha|]. apply Z.pow_le_mono_r; lia.
Qed.

Lemma byte_at_mod v sh : byte_at v sh = (v ≫ sh) `mod` 256.
Proof. unfold byte_at. change 255 with (Z.ones 8). by rewrite Z.land_ones. Qed.

(** A byte has no bit above the seventh. *)
Lemma byte_high b i : is_byte b → 8 ≤ i → Z.testbit b i = false.
Proof.
  intros [Hb0 Hb] Hi. destruct (decide (b = 0)) as [->|]; [apply Z.bits_0|].
  apply Z.bits_above_log2; [lia|]. assert (Z.log2 b < 8); [|lia].
  apply Z.log2_lt_pow2; lia.
Qed.

(** The bits of a combination of shifted bytes, at a literal position. *)
Ltac bits_at :=
  repeat first
    [ rewrite Z.lor_spec | rewrite Z.land_spec | rewrite Z.shiftr_spec by lia
    | rewrite Z.shiftl_spec by lia ];
  repeat match goal with
  | |- context [Z.testbit ?b ?e] =>
    let v := eval vm_compute in e in
    progress change (Z.testbit b e) with (Z.testbit b v)
  end;
  repeat match goal with
  | |- context [Z.testbit ?b (Z.neg ?p)] => rewrite (Z.testbit_neg_r b (Z.neg p)) by lia
  | H : is_byte ?b |- context [Z.testbit ?b (Z.pos ?p)] =>
    rewrite (byte_high b (Z.pos p)) by (assumption || lia)
  | |- context [Z.testbit 255 ?i] =>
    let v := eval vm_compute in (Z.testbit 255 i) in change (Z.testbit 255 i) with v
  end;
  rewrite ?andb_true_r, ?andb_false_r, ?orb_false_r, ?orb_false_l; try reflexivity.

Lemma below_cases (n : nat) i (P : Z → Prop) :
  0 ≤ i < Z.of_nat n → Forall (λ k, P (Z.of_nat k)) (seq 0 n) → P i.
Proof.
  intros Hi HF. rewrite Forall_forall in HF. rewrite <- (Z2Nat.id i) by lia.
  apply HF, elem_of_seq. lia.
Qed.

(** Bits of a word put together from four bytes. *)
Lemma Uint32_range b0 b1 b2 b3 rest :
  is_byte b0 → is_byte b1 → is_byte b2 → is_byte b3 →
  0 ≤ Uint32 (b0 :: b1 :: b2 :: b3 :: rest) < 2 ^ 32.
Proof.
  intros H0 H1 H2 H3. unfold Uint32.
  split; [rewrite !Z.lor_nonneg, !Z.shiftl_nonneg; unfold is_byte in *; lia|].
  assert (Hz : Z.shiftr (Z.lor b3 (Z.lor (b2 ≪ 8) (Z.lor (b1 ≪ 16) (b0 ≪ 24)))) 32 = 0).
  { apply Z.bits_inj'. intros i Hi. rewrite Z.bits_0, Z.shiftr_spec by lia.
    rewrite !Z.lor_spec, !Z.shiftl_spec by lia. rewrite !byte_high by (done || lia). done. }
  rewrite Z.shiftr_div_pow2 in Hz by lia.
  apply Z.div_small_iff in Hz; [|lia]. destruct Hz; [lia|].
  unfold is_byte in *. lia.
Qed.

Lemma Uint32_bytes v rest :
  0 ≤ v < 2 ^ 32 →
  Uint32 (byte_at v 24 :: byte_at v 16 :: byte_at v 8 :: byte_at v 0 :: rest) = v.
Proof.
  intros Hv.
  apply bits32; [apply Uint32_range; apply byte_at_byte|done|].
  intros i Hi. apply (below_cases 32 i (λ i, _ i = _ i)); [lia|].
  unfold Uint32, byte_at. repeat constructor; bits_at.
Qed.

Lemma bits8 a b :
  is_byte a → is_byte b → (∀ i, 0 ≤ i < 8 → Z.testbit a i = Z.testbit b i) → a = b.
Proof.
  intros Ha Hb Hi. apply Z.bits_inj'. intros i Hi0.
  destruct (decide (i < 8)) as [|Hge]; [by apply Hi|].
  rewrite !byte_high by (done || lia). done.
Qed.

Lemma bytes_Uint32 b0 b1 b2 b3 rest :
  is_byte b0 → is_byte b1 → is_byte b2 → is_byte b3 →
  let v := Uint32 (b0 :: b1 :: b2 :: b3 :: rest) in
  byte_at v 24 = b0 ∧ byte_at v 16 = b1 ∧ byte_at v 8 = b2 ∧ byte_at v 0 = b3.
Proof.
  intros H0 H1 H2 H3 v. subst v. unfold Uint32.
  split_and!; (apply bits8; [apply byte_at_byte|done|]);
    intros i Hi; apply (below_cases 8 i (λ i, _ i = _ i)); [lia| |lia| |lia| |lia|];
    unfold byte_at; repeat constructor; bits_at.
Qed.

(** ** The checksum *)

Lemma byte_bits_in (P : Z → bool) :
  forallb P (Z.of_nat <$> seq 0 256) = true → ∀ b, is_byte b → P b = true.
Proof.
  intros HP b Hb. rewrite forallb_forall in HP. apply HP.
  apply list_elem_of_In, list_elem_of_fmap. exists (Z.to_nat b).
  unfold is_byte in Hb. split; [lia|]. apply elem_of_seq. lia.
Qed.

Lemma crc_table_range b : is_byte b → 0 ≤ crc_table b < 2 ^ 32.
Proof.
  intros Hb.
  pose proof (byte_bits_in (λ b, (0 <=? crc_table b) && (crc_table b <? 2 ^ 32))
                ltac:(vm_compute; reflexivity) b Hb) as H.
  simpl in H. apply andb_true_iff in H as [??]. z_bools. lia.
Qed.

(** The top byte of a table entry determines the entry's index. *)
Definition crc_index (t : Z) : Z :=
  default 0 (list_find (λ b, crc_table b ≫ 24 = t) (Z.of_nat <$> seq 0 256) ≫= λ p, Some p.2).

Lemma crc_index_table b : is_byte b → crc_index (crc_table b ≫ 24) = b.
Proof.
  intros Hb. apply Z.eqb_eq.
  apply (byte_bits_in (λ b, crc_index (crc_table b ≫ 24) =? b)); [|done].
  vm_compute. reflexivity.
Qed.

Definition is_word (c : Z) : Prop := 0 ≤ c < 2 ^ 32.

Lemma land_255_byte c : is_byte (Z.land c 255).
Proof. apply (byte_at_byte c 0). Qed.

Lemma lxor_byte a b : is_byte a → is_byte b → is_byte (Z.lxor a b).
Proof.
  intros Ha Hb. split.
  - apply Z.lxor_nonneg. unfold is_byte in *. lia.
  - assert (Hz : Z.lxor a b ≫ 8 = 0).
    { apply Z.bits_inj'. intros i Hi. rewrite Z.bits_0, Z.shiftr_spec by lia.
      rewrite Z.lxor_spec, !byte_high by (done || lia). done. }
    rewrite Z.shiftr_div_pow2 in Hz by lia.
    apply Z.div_small_iff in Hz; [|lia]. lia.
Qed.

Lemma lxor_word a b : is_word a → is_word b → is_word (Z.lxor a b).
Proof.
  intros Ha Hb. split.
  - apply Z.lxor_nonneg. unfold is_word in *. lia.
  - assert (Hz : Z.lxor a b ≫ 32 = 0).
    { rewrite Z.shiftr_lxor, !Z.shiftr_div_pow2 by lia.
      rewrite !Z.div_small by done. done. }
    rewrite Z.shiftr_div_pow2 in Hz by lia.
    apply Z.div_small_iff in Hz; [|lia]. lia.
Qed.

Lemma crc_shift_small c : is_word c → (c ≫ 8) ≫ 24 = 0.
Proof.
  intros Hc. rewrite Z.shiftr_shiftr by lia. rewrite Z.shiftr_div_pow2 by lia.
  by apply Z.div_small.
Qed.

Lemma crc_byte_word c b : is_word c → is_byte b → is_word (crc_byte c b).
Proof.
  intros Hc Hb. apply lxor_word.
  - apply crc_table_range, lxor_byte; [apply land_255_byte|done].
  - unfold is_word in *. rewrite Z.shiftr_div_pow2 by lia. split.
    + apply Z.div_pos; lia.
    + apply Z.le_lt_trans with c; [|lia]. apply Z.div_le_upper_bound; lia.
Qed.

(** A step of the checksum determines its table index and the shifted state. *)
Lemma crc_byte_inj c1 b1 c2 b2 :
  is_word c1 → is_word c2 → is_byte b1 → is_byte b2 →
  crc_byte c1 b1 = crc_byte c2 b2 →
  Z.lxor (Z.land c1 255) b1 = Z.lxor (Z.land c2 255) b2 ∧ c1 ≫ 8 = c2 ≫ 8.
Proof.
  intros Hc1 Hc2 Hb1 Hb2 H. unfold crc_byte in H.
  pose proof (lxor_byte _ _ (land_255_byte c1) Hb1) as Hx.
  pose proof (lxor_byte _ _ (land_255_byte c2) Hb2) as Hy.
  set (x := Z.lxor (Z.land c1 255) b1) in *. set (y := Z.lxor (Z.land c2 255) b2) in *.
  assert (Htop : crc_table x ≫ 24 = crc_table y ≫ 24).
  { pose proof (f_equal (λ z, z ≫ 24) H) as H'. simpl in H'.
    rewrite !Z.shiftr_lxor, !crc_shift_small, !Z.lxor_0_r in H' by done. done. }
  assert (Hxy : x = y).
  { rewrite <- (crc_index_table x), <- (crc_index_table y) by done. by rewrite Htop. }
  split; [done|]. rewrite Hxy in H.
  apply (f_equal (Z.lxor (crc_table y))) in H.
  by rewrite <- !Z.lxor_assoc, Z.lxor_nilpotent, !Z.lxor_0_l in H.
Qed.

Lemma lxor_cancel_l a b c : Z.lxor a b = Z.lxor a c → b = c.
Proof.
  intros H. apply (f_equal (Z.lxor a)) in H.
  by rewrite <- !Z.lxor_assoc, Z.lxor_nilpotent, !Z.lxor_0_l in H.
Qed.

Lemma crc_byte_inj_byte c b1 b2 :
  is_word c → is_byte b1 → is_byte b2 → crc_byte c b1 = crc_byte c b2 → b1 = b2.
Proof.
  intros Hc H1 H2 H. apply crc_byte_inj in H as [H _]; [|done..].
  by apply lxor_cancel_l in H.
Qed.

Lemma crc_byte_inj_state c1 c2 b :
  is_word c1 → is_word c2 → is_byte b → crc_byte c1 b = crc_byte c2 b → c1 = c2.
Proof.
  intros H1 H2 Hb H. apply crc_byte_inj in H as [Hl Hh]; [|done..].
  rewrite !(Z.lxor_comm _ b) in Hl. apply lxor_cancel_l in Hl.
  rewrite (Z.div_mod c1 (2 ^ 8)), (Z.div_mod c2 (2 ^ 8)) by lia.
  rewrite <- !Z.shiftr_div_pow2, <- !Z.land_ones by lia.
  change (Z.ones 8) with 255. by rewrite Hh, Hl.
Qed.

Lemma crc_update_word bs c : is_word c → Forall is_byte bs → is_word (crc_update c bs).
Proof.
  revert c. induction bs as [|b bs IH]; intros c Hc HF; [done|]. simpl.
  apply Forall_cons_1 in HF as [??]. apply IH; [by apply crc_byte_word|done].
Qed.

Lemma crc_update_inj_state bs c1 c2 :
  is_word c1 → is_word c2 → Forall is_byte bs →
  crc_update c1 bs = crc_update c2 bs → c1 = c2.
Proof.
  revert c1 c2. induction bs as [|b bs IH]; intros c1 c2 H1 H2 HF H; [done|].
  apply Forall_cons_1 in HF as [Hb HF]. simpl in H.
  apply IH in H; [|by apply crc_byte_word..|done].
  by apply crc_byte_inj_state in H.
Qed.

(** A changed byte changes the checksum. *)
Lemma Checksum_change l r b1 b2 :
  Forall is_byte l → Forall is_byte r → is_byte b1 → is_byte b2 →
  Checksum (l ++ b1 :: r) = Checksum (l ++ b2 :: r) → b1 = b2.
Proof.
  intros Hl Hr H1 H2 H. unfold Checksum in H.
  rewrite !(Z.lxor_comm _ 0xffffffff) in H. apply lxor_cancel_l in H.
  unfold crc_update in H. rewrite !fold_left_app in H. simpl in H.
  assert (Hw : is_word (crc_update 0xffffffff l)) by (apply crc_update_word; done).
  unfold crc_update in Hw.
  apply crc_update_inj_state in H; [|by apply crc_byte_word..|done].
  by apply crc_byte_inj_byte in H.
Qed.

Lemma Checksum_word bs : Forall is_byte bs → is_word (Checksum bs).
Proof. intros. apply lxor_word; [by apply crc_update_word|done]. Qed.

(** ** Encoding and decoding *)

Lemma valid_words id :
  valid id = true → is_word (BotID id) ∧ is_word (DealID id) ∧ is_word (BotEventID id).
Proof.
  unfold valid, is_u32, is_word. intros H. rewrite !andb_true_iff in H.
  destruct H as [[[??] [??]] [??]]. z_bools. lia.
Qed.

Lemma words_valid a b c :
  is_word a → is_word b → is_word c → valid (mkOrderId a b c) = true.
Proof.
  unfold valid, is_u32, is_word. simpl. intros. rewrite !andb_true_iff, !Z.leb_le, !Z.ltb_lt. lia.
Qed.

Lemma AppendUint32_bytes b v : Forall is_byte b → Forall is_byte (AppendUint32 b v).
Proof.
  intros. apply Forall_app. split; [done|]. repeat constructor; apply byte_at_byte.
Qed.

(** The twelve bytes before the checksum. *)
Definition body (id : OrderId) : list Z :=
  AppendUint32 (AppendUint32 (AppendUint32 [] (u32 (BotID id))) (u32 (DealID id)))
    (u32 (BotEventID id)).

Lemma body_bytes id : Forall is_byte (body id).
Proof. repeat apply AppendUint32_bytes. constructor. Qed.

Lemma AsHex_body id : AsHex id = AppendUint32 (body id) (Checksum (body id)).
Proof. reflexivity. Qed.

Lemma AsHex_bytes id : Forall is_byte (AsHex id).
Proof. rewrite AsHex_body. apply AppendUint32_bytes, body_bytes. Qed.

Lemma FromHex_ok v id :
  Forall is_byte v → FromHex v = Ok id ↔ valid id = true ∧ AsHex id = v.
Proof.
  intros Hv. split.
  - unfold FromHex. intros H.
    destruct (Nat.eqb (length v) 16) eqn:Hl; [|done]. apply Nat.eqb_eq in Hl.
    destruct (Checksum (take 12 v) =? Uint32 (drop 12 v)) eqn:Hc; [|done]. z_bools.
    injection H as <-.
    do 16 (destruct v as [|?b v]; [done|]). destruct v; [|done].
    cbn [take drop BotID DealID BotEventID] in *.
    repeat match goal with H : Forall is_byte (_ :: _) |- _ => apply Forall_cons_1 in H as [? H] end.
    split; [apply words_valid; unfold is_word; apply Uint32_range; done|].
    unfold AsHex, AppendUint32. cbn [app BotID DealID BotEventID].
    rewrite !u32_id by (apply Uint32_range; done).
    repeat match goal with |- context [Uint32 (?a :: ?b :: ?c :: ?d :: ?r)] =>
      destruct (bytes_Uint32 a b c d r) as (-> & -> & -> & ->); [done..|] end.
    rewrite Hc.
    repeat match goal with |- context [Uint32 (?a :: ?b :: ?c :: ?d :: ?r)] =>
      destruct (bytes_Uint32 a b c d r) as (-> & -> & -> & ->); [done..|] end.
    done.
  - intros [Hid <-]. apply valid_words in Hid as (Ha & Hb & Hc).
    unfold FromHex.
    change (take 12 (AsHex id)) with (body id).
    change (drop 12 (AsHex id)) with (AppendUint32 [] (Checksum (body id))).
    change (length (AsHex id)) with 16%nat. cbn [Nat.eqb negb].
    unfold AppendUint32 at 1. cbn [app].
    rewrite Uint32_bytes by apply Checksum_word, body_bytes.
    rewrite Z.eqb_refl. cbn [negb].
    unfold AsHex, AppendUint32. cbn [app drop].
    rewrite !u32_id, !Uint32_bytes by done. by destruct id.
Qed.

(** [DecodeString] inverts [EncodeToString]. *)
Lemma hex_byte b :
  is_byte b →
  (x ← from_hex (hex_digit (Z.shiftr b 4)); y ← from_hex (hex_digit (Z.land b 15));
   Some (Z.lor (Z.shiftl x 4) y)) = Some b.
Proof.
  intros Hb.
  assert (HB : forallb (λ b, bool_decide ((x ← from_hex (hex_digit (Z.shiftr b 4));
    y ← from_hex (hex_digit (Z.land b 15)); Some (Z.lor (Z.shiftl x 4) y)) = Some b))
    (Z.of_nat <$> seq 0 256) = true) by (vm_compute; reflexivity).
  by pose proof (byte_bits_in _ HB b Hb) as H%bool_decide_eq_true.
Qed.

Lemma DecodeString_Encode bs : Forall is_byte bs → DecodeString (EncodeToString bs) = Some bs.
Proof.
  induction 1 as [|b bs Hb _ IH]; [done|]. simpl.
  pose proof (hex_byte b Hb) as H.
  destruct (from_hex (hex_digit (b ≫ 4))) as [x|]; [|done].
  destruct (from_hex (hex_digit (Z.land b 15))) as [y|]; [|done].
  simpl in *. rewrite IH. simpl. congruence.
Qed.

Lemma TrimPrefix_0x s : TrimPrefix ("0x" +:+ s) "0x" = s.
Proof. unfold TrimPrefix. simpl. destruct s; reflexivity. Qed.

Lemma hex_digit_not_space b :
  is_byte b →
  Ascii.eqb " " (hex_digit (Z.shiftr b 4)) || Ascii.eqb " " (hex_digit (Z.land b 15)) = false.
Proof.
  intros Hb. apply negb_true_iff.
  apply (byte_bits_in (λ b, negb (Ascii.eqb " " (hex_digit (Z.shiftr b 4)) ||
    Ascii.eqb " " (hex_digit (Z.land b 15))))); [vm_compute; reflexivity|done].
Qed.

Lemma RemoveAll_Encode bs :
  Forall is_byte bs → RemoveAll " " (EncodeToString bs) = EncodeToString bs.
Proof.
  induction 1 as [|b bs Hb _ IH]; [done|]. cbn [EncodeToString RemoveAll].
  apply hex_digit_not_space in Hb. apply orb_false_iff in Hb as [-> ->].
  by rewrite IH.
Qed.

Lemma FromHexString_spaced id s :
  valid id = true → RemoveAll " " s = EncodeToString (AsHex id) →
  FromHexString ("0x" +:+ s) = Ok id.
Proof.
  intros Hid Hs. unfold FromHexString. rewrite TrimPrefix_0x, Hs.
  rewrite DecodeString_Encode by apply AsHex_bytes.
  by apply FromHex_ok; [apply AsHex_bytes|].
Qed.

Lemma FromHexString_Hex id : valid id = true → FromHexString (Hex id) = Ok id.
Proof. intros Hid. apply FromHexString_spaced, RemoveAll_Encode, AsHex_bytes. done. Qed.

(** ** Properties *)

(** C9.  FromHex accepts exactly the 16-byte forms that AsHex produces: it returns
    [id] if and only if [id] has [uint32] components and [AsHex id] is the
    input. *)
Theorem FromHex_exact (v : list Z) (Hv : Forall is_byte v) (id : OrderId) :
  FromHex v = Ok id ↔ valid id = true ∧ AsHex id = v.
Proof. by apply FromHex_ok. Qed.

(** The text of an identifier is read back as that identifier, with its ["0x"]
    or without it, and with spaces inserted anywhere after the prefix. *)
Theorem FromHexString_roundtrip (id : OrderId) (Hid : valid id = true) :
  FromHexString (Hex id) = Ok id ∧
  (∀ s, RemoveAll " " s = EncodeToString (AsHex id) → FromHexString ("0x" +:+ s) = Ok id).
Proof. split; [by apply FromHexString_Hex|]. intros s. by apply FromHexString_spaced. Qed.

(** The checksum detects the corruption of any one of the sixteen bytes. *)
Theorem corrupted_byte_rejected (id : OrderId) (i : nat) (b : Z)
    (Hi : (i < 16)%nat) (Hb : is_byte b) (Hne : AsHex id !! i ≠ Some b) :
  FromHex (<[i := b]> (AsHex id)) = Err ErrIncorrectChecksum.
Proof.
  assert (Hlen : (i < length (AsHex id))%nat) by done.
  destruct (lookup_lt_is_Some_2 _ _ Hlen) as [b0 Hb0].
  assert (b0 ≠ b) by congruence.
  pose proof (AsHex_bytes id) as HF.
  assert (is_byte b0) by (eapply Forall_lookup_1; eauto).
  unfold FromHex. rewrite length_insert. change (length (AsHex id)) with 16%nat.
  cbn [Nat.eqb negb].
  assert (Hck : Uint32 (drop 12 (AsHex id)) = Checksum (take 12 (AsHex id))).
  { change (take 12 (AsHex id)) with (body id).
    change (drop 12 (AsHex id)) with (AppendUint32 [] (Checksum (body id))).
    unfold AppendUint32. apply Uint32_bytes, Checksum_word, body_bytes. }
  assert (Hneq : Checksum (take 12 (<[i := b]> (AsHex id))) ≠
                 Uint32 (drop 12 (<[i := b]> (AsHex id)))).
  { destruct (decide (i < 12)%nat) as [Hi12|Hi12].
    - rewrite drop_insert_lt, Hck by lia. rewrite take_insert_lt by lia.
      assert (H12 : take 12 (AsHex id) !! i = Some b0) by (rewrite lookup_take_lt; done).
      rewrite (insert_take_drop _ _ _ (lookup_lt_Some _ _ _ H12)).
      rewrite <- (take_drop_middle _ _ _ H12) at 3.
      intros Hc. apply Checksum_change in Hc; [done| | |done..];
        by repeat apply Forall_take || apply Forall_drop.
    - rewrite take_insert_ge, <- Hck by lia. rewrite drop_insert_ge by lia.
      assert (Hl : drop 12 (AsHex id) !! (i - 12)%nat = Some b0).
      { rewrite lookup_drop. by replace (12 + (i - 12))%nat with i by lia. }
      revert Hl. pose proof (Forall_drop _ 12 _ HF) as HF'. revert HF'.
      change (drop 12 (AsHex id)) with (AppendUint32 [] (Checksum (body id))).
      unfold AppendUint32. cbn [app]. generalize (byte_at (Checksum (body id))) as f.
      intros f HF'. rewrite !Forall_cons in HF'. destruct HF' as (?&?&?&?&_).
      assert (Hk : (i - 12 < 4)%nat) by lia. revert Hk. generalize (i - 12)%nat as k.
      intros k Hk Hl Heq.
      pose proof (bytes_Uint32 (f 24) (f 16) (f 8) (f 0) []) as B1.
      destruct B1 as (B10&B11&B12&B13); [done..|].
      do 4 (destruct k as [|k]; [simpl in Hl; injection Hl as <-; cbn in Heq;
        match type of Heq with _ = Uint32 [?w;?x;?y;?z] =>
          destruct (bytes_Uint32 w x y z []) as (C0&C1&C2&C3); [done..|] end;
        rewrite Heq in *; congruence|]).
      lia. }
  apply Z.eqb_neq in Hneq. by rewrite Hneq.
Qed.

Definition sample : OrderId := mkOrderId 16511317 2376446063 3940649977.

Lemma FromHex_exact_witness :
  Forall is_byte (AsHex sample) ∧
  (FromHex (AsHex sample) = Ok sample ↔ valid sample = true ∧ AsHex sample = AsHex sample).
Proof.
  assert (H : Forall is_byte (AsHex sample)) by (repeat constructor; by vm_compute).
  split; [exact H|]. refine (FromHex_exact _ H _).
Defined.

Lemma FromHexString_roundtrip_witness :
  valid sample = true ∧ FromHexString (Hex sample) = Ok sample.
Proof.
  assert (H : valid sample = true) by (vm_compute; reflexivity).
  split; [exact H|]. refine (proj1 (FromHexString_roundtrip _ H)).
Defined.

Lemma corrupted_byte_rejected_witness :
  AsHex sample !! 3%nat ≠ Some 7 ∧
  FromHex (<[3%nat := 7]> (AsHex sample)) = Err ErrIncorrectChecksum.
Proof.
  assert (H : AsHex sample !! 3%nat ≠ Some 7) by (vm_compute; discriminate).
  split; [exact H|]. refine (corrupted_byte_rejected sample 3 7 _ _ H); [lia|by vm_compute].
Defined.

End OrderId.
