(* ===== verification/RateLimit.v ===== *)
(** * The 3Commas rate limiter: [ratelimit/limiter.go] and [ratelimit/client.go]

    Every method of [Limiter] takes the mutex, so each critical section is one
    atomic function from the limiter to the limiter.  The methods that release
    the mutex and block ([Reserve], [Extend]) are split at that point.  A
    reservation is a heap object: [activeReservations] maps a workflow to a
    pointer, which [Extend] keeps across its wait.  Channels are numbers; a
    closed channel is a member of [closed].  A critical section that reads the
    clock takes the readings as a function [clk] of their position. *)

From S2P Require Import Prelude.

Module RateLimit.

(** ** Data *)

Inductive error :=
| ErrInvalidWorkflowID
| ErrReservationNotHeld
| ErrAlreadyReserved
| ErrInsufficientCapacity
| ErrConsumeExceedsLimit
| ErrAdjustBelowConsumed
| ErrExtendNegative
| ErrCountNotPositive (count : Z)
| ErrContext.

Record Config := mkConfig {
  RequestsPerMinute : Z;
  WindowDuration : Z;
  PrioritySlots : Z;
}.

Record reservation := mkReservation {
  r_workflowID : string;
  slotsReserved : Z;
  slotsConsumed : Z;
  r_createdAt : Z;
  completed : bool;
}.

Record waitingWorkflow := mkWaiting {
  w_workflowID : string;
  requestedSlots : Z;
  w_createdAt : Z;
  ready : nat;
}.

Record Limiter := mkLimiter {
  limit : Z;
  window : Z;
  prioritySlots : Z;
  tickInterval : Z;
  windowStart : Z;
  consumed : Z;
  activeReservations : gmap string nat;
  objects : gmap nat reservation;
  nextObject : nat;
  waitQueue : list waitingWorkflow;
  closed : gset nat;
  nextChan : nat;
  stopped : bool;
}.

(** Field updates. *)

Definition set_window (start c : Z) (l : Limiter) : Limiter :=
  mkLimiter (limit l) (window l) (prioritySlots l) (tickInterval l) start c
    (activeReservations l) (objects l) (nextObject l) (waitQueue l) (closed l)
    (nextChan l) (stopped l).
Definition set_consumed (c : Z) (l : Limiter) : Limiter :=
  set_window (windowStart l) c l.
Definition set_reservations (a : gmap string nat) (o : gmap nat reservation)
    (n : nat) (l : Limiter) : Limiter :=
  mkLimiter (limit l) (window l) (prioritySlots l) (tickInterval l)
    (windowStart l) (consumed l) a o n (waitQueue l) (closed l) (nextChan l)
    (stopped l).
Definition set_object (p : nat) (r : reservation) (l : Limiter) : Limiter :=
  set_reservations (activeReservations l) (<[p := r]> (objects l))
    (nextObject l) l.
Definition set_queue (q : list waitingWorkflow) (cl : gset nat) (n : nat)
    (l : Limiter) : Limiter :=
  mkLimiter (limit l) (window l) (prioritySlots l) (tickInterval l)
    (windowStart l) (consumed l) (activeReservations l) (objects l)
    (nextObject l) q cl n (stopped l).

Definition with_reserved (n : Z) (r : reservation) : reservation :=
  mkReservation (r_workflowID r) n (slotsConsumed r) (r_createdAt r) (completed r).
Definition with_consumed (n : Z) (r : reservation) : reservation :=
  mkReservation (r_workflowID r) (slotsReserved r) n (r_createdAt r) (completed r).
Definition with_completed (r : reservation) : reservation :=
  mkReservation (r_workflowID r) (slotsReserved r) (slotsConsumed r) (r_createdAt r) true.

(** [l.activeReservations[workflowID]]: the pointer and the object it points to. *)
Definition lookup_reservation (wf : string) (l : Limiter) : option (nat * reservation) :=
  p ← activeReservations l !! wf; r ← objects l !! p; Some (p, r).

(** [l.activeReservations[wf] = &reservation{...}]. *)
Definition store_reservation (wf : string) (count now : Z) (l : Limiter) : Limiter :=
  let p := nextObject l in
  set_reservations (<[wf := p]> (activeReservations l))
    (<[p := mkReservation wf count 0 now false]> (objects l)) (S p) l.

(** ** Construction *)


Definition NewLimiter (cfg : Config) (now : Z) : Limiter :=
  let windowDuration :=
    if WindowDuration cfg <=? 0 then 60 * second else WindowDuration cfg in
  let tick := windowDuration /go 10 in
  let tick := if tick <? 100 * millisecond then 100 * millisecond else tick in
  mkLimiter (RequestsPerMinute cfg) windowDuration (PrioritySlots cfg) tick
    now 0 ∅ ∅ 0 [] ∅ 0 false.

(** ** Helpers called with the lock held *)

Definition resetWindowIfNeeded (now : Z) (l : Limiter) : Limiter * bool :=
  if window l <=? time_sub now (windowStart l)
  then (set_window now 0 l, true)
  else (l, false).

Definition calculateTotalReserved (l : Limiter) : Z :=
  map_fold (λ _ p total,
    match objects l !! p with
    | Some res => i64 (total + slotsReserved res)
    | None => total
    end) 0 (activeReservations l).

(** [l.consumed+totalReserved+count <= l.limit], in 64-bit arithmetic. *)
Definition fits (count : Z) (totalReserved : Z) (l : Limiter) : bool :=
  i64 (i64 (consumed l + totalReserved) + count) <=? limit l.

Fixpoint tryGrantFuel (fuel i : nat) (clk : nat → Z) (l : Limiter) : Limiter * nat :=
  match fuel with
  | O => (l, O)
  | S fuel =>
    match waitQueue l with
    | [] => (l, O)
    | next :: rest =>
      let l := (resetWindowIfNeeded (clk (2 * i)%nat) l).1 in
      let totalReserved := calculateTotalReserved l in
      if fits (requestedSlots next) totalReserved l then
        let l := store_reservation (w_workflowID next) (requestedSlots next)
                   (clk (2 * i + 1)%nat) l in
        let l := set_queue rest ({[ready next]} ∪ closed l) (nextChan l) l in
        let '(l, granted) := tryGrantFuel fuel (S i) clk l in
        (l, S granted)
      else (l, O)
    end
  end.

Definition tryGrantWaiting (clk : nat → Z) (l : Limiter) : Limiter * nat :=
  tryGrantFuel (length (waitQueue l)) 0 clk l.

Fixpoint removeFirst (wf : string) (q : list waitingWorkflow) : list waitingWorkflow :=
  match q with
  | [] => []
  | w :: q => if String.eqb (w_workflowID w) wf then q else w :: removeFirst wf q
  end.

Definition removeFromQueue (wf : string) (l : Limiter) : Limiter :=
  set_queue (removeFirst wf (waitQueue l)) (closed l) (nextChan l) l.

(** ** Operations *)

(** The first half of [Reserve], up to the point where it blocks. *)
Inductive reserve_outcome :=
| Granted
| Rejected (e : error)
| Queued (ch : nat).

Definition Reserve (wf : string) (count : Z) (clk : nat → Z) (l : Limiter)
    : reserve_outcome * Limiter :=
  if String.eqb wf "" then (Rejected ErrInvalidWorkflowID, l)
  else if count <=? 0 then (Rejected (ErrCountNotPositive count), l)
  else match activeReservations l !! wf with
  | Some _ => (Rejected ErrAlreadyReserved, l)
  | None =>
    let totalReserved := calculateTotalReserved l in
    let l := (resetWindowIfNeeded (clk 0%nat) l).1 in
    if fits count totalReserved l then
      (Granted, store_reservation wf count (clk 1%nat) l)
    else
      let ch := nextChan l in
      (Queued ch,
       set_queue (waitQueue l ++ [mkWaiting wf count (clk 1%nat) ch])
         (closed l) (S ch) l)
  end.

(** The [case <-ctx.Done()] branch of [Reserve]'s select. *)
Definition ReserveCancelled (wf : string) (l : Limiter) : result error unit * Limiter :=
  (Err ErrContext, removeFromQueue wf l).

Definition ConsumeWithOperation (wf : string) (now : Z) (l : Limiter)
    : result error unit * Limiter :=
  if String.eqb wf "" then (Err ErrInvalidWorkflowID, l)
  else match lookup_reservation wf l with
  | None => (Err ErrReservationNotHeld, l)
  | Some (p, res) =>
    if slotsReserved res <=? slotsConsumed res then (Err ErrConsumeExceedsLimit, l)
    else
      let l := (resetWindowIfNeeded now l).1 in
      let l := set_consumed (i64 (consumed l + 1)) l in
      (Ok tt, set_object p (with_consumed (i64 (slotsConsumed res + 1)) res) l)
  end.

Definition Consume (wf : string) (now : Z) (l : Limiter) := ConsumeWithOperation wf now l.

Definition AdjustDown (wf : string) (newTotal : Z) (clk : nat → Z) (l : Limiter)
    : result error unit * Limiter :=
  if String.eqb wf "" then (Err ErrInvalidWorkflowID, l)
  else match lookup_reservation wf l with
  | None => (Err ErrReservationNotHeld, l)
  | Some (p, res) =>
    if newTotal <? slotsConsumed res then (Err ErrAdjustBelowConsumed, l)
    else if slotsReserved res <=? newTotal then (Ok tt, l)
    else
      let l := set_object p (with_reserved newTotal res) l in
      (Ok tt, (tryGrantWaiting clk l).1)
  end.

(** [Extend] before it blocks.  A wait keeps the pointer and the new size. *)
Inductive extend_outcome :=
| ExtendDone (r : result error unit)
| ExtendWait (p : nat) (newReservation : Z).

(** [l.consumed+newReservation-res.slotsConsumed <= l.limit]. *)
Definition extend_fits (newReservation : Z) (res : reservation) (l : Limiter) : bool :=
  i64 (i64 (consumed l + newReservation) - slotsConsumed res) <=? limit l.

Definition Extend (wf : string) (additional now : Z) (l : Limiter)
    : extend_outcome * Limiter :=
  if String.eqb wf "" then (ExtendDone (Err ErrInvalidWorkflowID), l)
  else if additional <? 0 then (ExtendDone (Err ErrExtendNegative), l)
  else if additional =? 0 then (ExtendDone (Ok tt), l)
  else match lookup_reservation wf l with
  | None => (ExtendDone (Err ErrReservationNotHeld), l)
  | Some (p, res) =>
    let newReservation := i64 (slotsReserved res + additional) in
    let l := (resetWindowIfNeeded now l).1 in
    if extend_fits newReservation res l then
      (ExtendDone (Ok tt), set_object p (with_reserved newReservation res) l)
    else (ExtendWait p newReservation, l)
  end.

(** The retry after the wait: it writes through the kept pointer, whether or
    not the reservation is still active. *)
Definition ExtendRetry (p : nat) (newReservation now : Z) (l : Limiter)
    : result error unit * Limiter :=
  let l := (resetWindowIfNeeded now l).1 in
  match objects l !! p with
  | None => (Err ErrInsufficientCapacity, l)
  | Some res =>
    if extend_fits newReservation res l then
      (Ok tt, set_object p (with_reserved newReservation res) l)
    else (Err ErrInsufficientCapacity, l)
  end.

Definition SignalComplete (wf : string) (clk : nat → Z) (l : Limiter)
    : result error unit * Limiter :=
  if String.eqb wf "" then (Err ErrInvalidWorkflowID, l)
  else match lookup_reservation wf l with
  | None => (Err ErrReservationNotHeld, l)
  | Some (p, res) =>
    let l := set_object p (with_completed res) l in
    (Ok tt, (tryGrantWaiting clk l).1)
  end.

Definition Release (wf : string) (clk : nat → Z) (l : Limiter)
    : result error unit * Limiter :=
  if String.eqb wf "" then (Err ErrInvalidWorkflowID, l)
  else match lookup_reservation wf l with
  | None => (Err ErrReservationNotHeld, l)
  | Some _ =>
    let l := set_reservations (delete wf (activeReservations l)) (objects l)
               (nextObject l) l in
    (Ok tt, (tryGrantWaiting clk l).1)
  end.

Definition Stats (now : Z) (l : Limiter) : (Z * Z * nat * bool) * Limiter :=
  let l := (resetWindowIfNeeded now l).1 in
  ((consumed l, limit l, length (waitQueue l),
    negb (bool_decide (activeReservations l = ∅))), l).

(** One tick of [windowResetWatcher]. *)
Definition windowResetWatcher_tick (now : Z) (clk : nat → Z) (l : Limiter) : Limiter :=
  match waitQueue l with
  | [] => l
  | _ =>
    let '(l, reset) := resetWindowIfNeeded now l in
    if reset then (tryGrantWaiting clk l).1 else l
  end.

(** Closing [done] twice panics: [None]. *)
Definition Stop (l : Limiter) : option Limiter :=
  if stopped l then None
  else Some (mkLimiter (limit l) (window l) (prioritySlots l) (tickInterval l)
    (windowStart l) (consumed l) (activeReservations l) (objects l)
    (nextObject l) (waitQueue l) (closed l) (nextChan l) true).

(** ** The limiter and the goroutines that use it

    [blocked] holds the callers parked in [Reserve]'s select, by the channel
    they wait on; [extending] the callers parked in [Extend]. *)

Record Sys := mkSys {
  lim : Limiter;
  blocked : gmap nat string;
  extending : list (nat * Z);
}.

Inductive action :=
| AReserve (wf : string) (count : Z) (clk : nat → Z)
| AWake (ch : nat)
| ACancel (ch : nat)
| AConsume (wf : string) (now : Z)
| AAdjustDown (wf : string) (newTotal : Z) (clk : nat → Z)
| AExtend (wf : string) (additional now : Z)
| AExtendRetry (i : nat) (now : Z)
| AExtendCancelled (i : nat)
| ASignalComplete (wf : string) (clk : nat → Z)
| ARelease (wf : string) (clk : nat → Z)
| AStats (now : Z)
| ATick (now : Z) (clk : nat → Z)
| AStop.

Definition with_lim (l : Limiter) (s : Sys) : Sys := mkSys l (blocked s) (extending s).

(** One atomic step; [None] when the step is not enabled.  A caller whose
    channel is closed and whose context is done may take either branch of the
    select, as Go allows. *)
Definition step (a : action) (s : Sys) : option Sys :=
  match a with
  | AReserve wf count clk =>
    let '(o, l) := Reserve wf count clk (lim s) in
    match o with
    | Queued ch => Some (mkSys l (<[ch := wf]> (blocked s)) (extending s))
    | _ => Some (with_lim l s)
    end
  | AWake ch =>
    match blocked s !! ch with
    | Some _ =>
      if decide (ch ∈ closed (lim s))
      then Some (mkSys (lim s) (delete ch (blocked s)) (extending s)) else None
    | None => None
    end
  | ACancel ch =>
    match blocked s !! ch with
    | Some wf =>
      Some (mkSys (ReserveCancelled wf (lim s)).2 (delete ch (blocked s)) (extending s))
    | None => None
    end
  | AConsume wf now => Some (with_lim (Consume wf now (lim s)).2 s)
  | AAdjustDown wf n clk => Some (with_lim (AdjustDown wf n clk (lim s)).2 s)
  | AExtend wf n now =>
    let '(o, l) := Extend wf n now (lim s) in
    match o with
    | ExtendWait p k => Some (mkSys l (blocked s) (extending s ++ [(p, k)]))
    | ExtendDone _ => Some (with_lim l s)
    end
  | AExtendRetry i now =>
    match extending s !! i with
    | Some (p, k) =>
      Some (mkSys (ExtendRetry p k now (lim s)).2 (blocked s) (delete i (extending s)))
    | None => None
    end
  | AExtendCancelled i =>
    match extending s !! i with
    | Some _ => Some (mkSys (lim s) (blocked s) (delete i (extending s)))
    | None => None
    end
  | ASignalComplete wf clk => Some (with_lim (SignalComplete wf clk (lim s)).2 s)
  | ARelease wf clk => Some (with_lim (Release wf clk (lim s)).2 s)
  | AStats now => Some (with_lim (Stats now (lim s)).2 s)
  | ATick now clk =>
    if stopped (lim s) then None
    else Some (with_lim (windowResetWatcher_tick now clk (lim s)) s)
  | AStop => l ← Stop (lim s); Some (with_lim l s)
  end.

Definition init (cfg : Config) (now : Z) : Sys := mkSys (NewLimiter cfg now) ∅ [].

Fixpoint run (acts : list action) (s : Sys) : option Sys :=
  match acts with
  | [] => Some s
  | a :: acts => s' ← step a s; run acts s'
  end.

(** ** The rate-limited 3Commas client: [ratelimit/client.go]

    The wrapped SDK client is a parameter: a function from the request to its
    response.  A wrapper returns the response, or an error when the request was
    never sent, with the limiter and the requests sent upstream. *)

Inductive client_error :=
| ErrNoWorkflowID (method : string)
| ErrRateLimitConsume (e : error).

(** [WorkflowIDFromContext]: the empty string when the context carries none. *)
Definition WithWorkflowID (wf : string) (ctx : option string) : option string := Some wf.
Definition WorkflowIDFromContext (ctx : option string) : string :=
  match ctx with Some wf => wf | None => "" end.

Section Client.
  Context {Req Resp : Type} (client : Req → Resp).

Definition limited (method : string) (ctx : option string) (req : Req) (now : Z)
    (l : Limiter) : result client_error Resp * Limiter * list Req :=
  let wf := WorkflowIDFromContext ctx in
  if String.eqb wf "" then (Err (ErrNoWorkflowID method), l, [])
  else match ConsumeWithOperation wf now l with
  | (Err e, l) => (Err (ErrRateLimitConsume e), l, [])
  | (Ok _, l) => (Ok (client req), l, [req])
  end.

Definition ListBots := limited "ListBots".
Definition GetListOfDeals := limited "GetListOfDeals".
Definition GetDealForID := limited "GetDealForID".

End Client.

End RateLimit.
