(* ===== verification/RateLimitFacts.v ===== *)
(** * What the rate limiter guarantees

    The view of the active reservations, the invariant of every critical
    section, the abstract quota desk the limiter implements reply for reply, and
    the behaviours of its queue. *)

From S2P Require Import Prelude RateLimit.
Import RateLimit.

Module RateLimitFacts.

(** ** Definitions used by the statements *)

(** The reservations a caller sees through [activeReservations]. *)
Definition reservations_of (a : gmap string nat) (o : gmap nat reservation)
    : gmap string reservation := omap (λ p, o !! p) a.
Definition reservations (l : Limiter) : gmap string reservation :=
  reservations_of (activeReservations l) (objects l).

Definition outstanding (r : reservation) : Z := slotsReserved r - slotsConsumed r.

Definition total_reserved (l : Limiter) : Z := map_sum slotsReserved (reservations l).
Definition total_outstanding (l : Limiter) : Z := map_sum outstanding (reservations l).

(** The pointers of distinct workflows are distinct and allocated. *)
Record heap_ok (l : Limiter) : Prop := {
  heap_alloc : ∀ k p, activeReservations l !! k = Some p → is_Some (objects l !! p);
  heap_inj : ∀ k k' p, activeReservations l !! k = Some p →
    activeReservations l !! k' = Some p → k = k';
  heap_fresh : ∀ p, is_Some (objects l !! p) → (p < nextObject l)%nat;
}.

Definition reservation_ok (r : reservation) : Prop :=
  0 ≤ slotsConsumed r ≤ slotsReserved r.

(** Requests whose sum with two window quotas stays below [2^63]. *)
Definition max_limit : Z := 2 ^ 60.
Definition max_request : Z := 2 ^ 62.

Definition waiting_ok (w : waitingWorkflow) : Prop := 0 < requestedSlots w ≤ max_request.

Record inv (l : Limiter) : Prop := {
  inv_heap : heap_ok l;
  inv_res : ∀ k r, reservations l !! k = Some r → reservation_ok r;
  inv_limit : 0 ≤ limit l ≤ max_limit;
  inv_consumed : 0 ≤ consumed l;
  inv_reserved : total_reserved l ≤ limit l;
  inv_quota : consumed l + total_outstanding l ≤ limit l;
  inv_queue : Forall waiting_ok (waitQueue l);
}.

(** A critical section keeps the invariant and the quota. *)
Definition sound (l l' : Limiter) : Prop := inv l → inv l' ∧ limit l' = limit l.

(** The actions the theorems admit: requests of a sane size, and no [Extend]. *)
Definition action_ok (a : action) : bool :=
  match a with
  | AReserve _ count _ => count <=? max_request
  | AExtend _ _ _ => false
  | _ => true
  end.

(** ** The quota desk: what the limiter promises

    The abstract limiter has no heap, no channels and no machine integers.  A
    desk lends the calls of a window: a promise is a pair of the calls held for
    a workflow and the calls it already made; requests that do not fit stand in
    a line, each with a ticket, and a ticket is called when its request is
    granted.  [serve] is one action with the reply its caller sees, [None] when
    the action cannot happen. *)

Record desk := mkDesk {
  d_quota : Z;
  d_span : Z;
  d_opened : Z;
  d_made : Z;
  d_promises : gmap string (Z * Z);
  d_line : list (string * Z * nat);
  d_called : gset nat;
  d_tickets : nat;
  d_shut : bool;
  d_parked : gmap nat string;
}.

Inductive reply :=
| RDone
| RGranted
| RTicket (t : nat)
| RError (e : error)
| RStats (made quota : Z) (waiting : nat) (lent : bool).

Definition d_window (now made : Z) (d : desk) : desk :=
  mkDesk (d_quota d) (d_span d) now made (d_promises d) (d_line d) (d_called d)
    (d_tickets d) (d_shut d) (d_parked d).
Definition d_lend (p : gmap string (Z * Z)) (d : desk) : desk :=
  mkDesk (d_quota d) (d_span d) (d_opened d) (d_made d) p (d_line d) (d_called d)
    (d_tickets d) (d_shut d) (d_parked d).
Definition d_stand (q : list (string * Z * nat)) (c : gset nat) (t : nat) (d : desk) : desk :=
  mkDesk (d_quota d) (d_span d) (d_opened d) (d_made d) (d_promises d) q c
    t (d_shut d) (d_parked d).
Definition d_park (p : gmap nat string) (d : desk) : desk :=
  mkDesk (d_quota d) (d_span d) (d_opened d) (d_made d) (d_promises d) (d_line d) (d_called d)
    (d_tickets d) (d_shut d) p.
Definition d_close (d : desk) : desk :=
  mkDesk (d_quota d) (d_span d) (d_opened d) (d_made d) (d_promises d) (d_line d) (d_called d)
    (d_tickets d) true (d_parked d).

(** The calls nobody made and nobody holds.  A call made out of a promise counts
    twice until the promise is given back, as in the code. *)
Definition d_free (d : desk) : Z := d_quota d - d_made d - map_sum fst (d_promises d).

Definition d_over (now : Z) (d : desk) : bool := d_span d <=? time_sub now (d_opened d).
Definition d_roll (now : Z) (d : desk) : desk :=
  if d_over now d then d_window now 0 d else d.

(** The line is called from its head while the requests fit. *)
Fixpoint d_call (line : list (string * Z * nat)) (i : nat) (clk : nat → Z) (d : desk) : desk :=
  match line with
  | [] => d
  | (wf, n, t) :: rest =>
    let d := d_roll (clk (2 * i)%nat) d in
    if n <=? d_free d then
      d_call rest (S i) clk
        (d_stand rest ({[t]} ∪ d_called d) (d_tickets d)
           (d_lend (<[wf := (n, 0)]> (d_promises d)) d))
    else d
  end.
Definition d_next (clk : nat → Z) (d : desk) : desk := d_call (d_line d) 0 clk d.

Fixpoint d_leave (wf : string) (line : list (string * Z * nat)) : list (string * Z * nat) :=
  match line with
  | [] => []
  | e :: line => if decide (e.1.1 = wf) then line else e :: d_leave wf line
  end.

(** An operation of a workflow on its own promise. *)
Definition with_promise (wf : string) (d : desk) (k : Z → Z → reply * desk) : reply * desk :=
  if decide (wf = "") then (RError ErrInvalidWorkflowID, d)
  else match d_promises d !! wf with
       | Some (held, made) => k held made
       | None => (RError ErrReservationNotHeld, d)
       end.

Definition d_reserve (wf : string) (n : Z) (clk : nat → Z) (d : desk) : reply * desk :=
  if decide (wf = "") then (RError ErrInvalidWorkflowID, d)
  else if n <=? 0 then (RError (ErrCountNotPositive n), d)
  else if decide (is_Some (d_promises d !! wf)) then (RError ErrAlreadyReserved, d)
  else
    let d := d_roll (clk 0%nat) d in
    if n <=? d_free d then (RGranted, d_lend (<[wf := (n, 0)]> (d_promises d)) d)
    else (RTicket (d_tickets d),
          d_park (<[d_tickets d := wf]> (d_parked d))
            (d_stand (d_line d ++ [(wf, n, d_tickets d)]) (d_called d) (S (d_tickets d)) d)).

Definition serve (a : action) (d : desk) : option (reply * desk) :=
  match a with
  | AReserve wf n clk => Some (d_reserve wf n clk d)
  | AWake t =>
    if decide (is_Some (d_parked d !! t) ∧ t ∈ d_called d)
    then Some (RGranted, d_park (delete t (d_parked d)) d) else None
  | ACancel t =>
    wf ← d_parked d !! t;
    Some (RError ErrContext,
      d_park (delete t (d_parked d))
        (d_stand (d_leave wf (d_line d)) (d_called d) (d_tickets d) d))
  | AConsume wf now => Some (with_promise wf d (λ held made,
      if held <=? made then (RError ErrConsumeExceedsLimit, d)
      else let d := d_roll now d in
           (RDone, d_lend (<[wf := (held, made + 1)]> (d_promises d))
                     (d_window (d_opened d) (d_made d + 1) d))))
  | AAdjustDown wf n clk => Some (with_promise wf d (λ held made,
      if n <? made then (RError ErrAdjustBelowConsumed, d)
      else if held <=? n then (RDone, d)
      else (RDone, d_next clk (d_lend (<[wf := (n, made)]> (d_promises d)) d))))
  | ASignalComplete wf clk => Some (with_promise wf d (λ _ _, (RDone, d_next clk d)))
  | ARelease wf clk => Some (with_promise wf d (λ _ _,
      (RDone, d_next clk (d_lend (delete wf (d_promises d)) d))))
  | AStats now =>
    let d := d_roll now d in
    Some (RStats (d_made d) (d_quota d) (length (d_line d))
            (negb (bool_decide (d_promises d = ∅))), d)
  | ATick now clk =>
    if d_shut d then None
    else Some (RDone, if bool_decide (d_line d = []) || negb (d_over now d) then d
                      else d_next clk (d_roll now d))
  | AStop => if d_shut d then None else Some (RDone, d_close d)
  | AExtend _ _ _ | AExtendRetry _ _ | AExtendCancelled _ => None
  end.

Fixpoint serve_all (acts : list action) (d : desk) : option (list reply * desk) :=
  match acts with
  | [] => Some ([], d)
  | a :: acts =>
    '(r, d) ← serve a d; '(rs, d) ← serve_all acts d; Some (r :: rs, d)
  end.

Definition open_desk (cfg : Config) (now : Z) : desk :=
  mkDesk (RequestsPerMinute cfg) (window (NewLimiter cfg now)) now 0 ∅ [] ∅ 0 false ∅.

(** The desk a limiter and its parked callers show. *)
Definition promise_of (r : reservation) : Z * Z := (slotsReserved r, slotsConsumed r).
Definition ticket_of (w : waitingWorkflow) : string * Z * nat :=
  (w_workflowID w, requestedSlots w, ready w).
Definition desk_of (l : Limiter) (parked : gmap nat string) : desk :=
  mkDesk (limit l) (window l) (windowStart l) (consumed l) (promise_of <$> reservations l)
    (ticket_of <$> waitQueue l) (closed l) (nextChan l) (stopped l) parked.

(** What the caller of an action of the limiter sees. *)
Definition replied (r : result error unit) : reply :=
  match r with Ok _ => RDone | Err e => RError e end.
Definition answer (a : action) (s : Sys) : reply :=
  match a with
  | AReserve wf n clk =>
    match (Reserve wf n clk (lim s)).1 with
    | Granted => RGranted | Rejected e => RError e | Queued t => RTicket t
    end
  | AWake _ => RGranted
  | ACancel ch => replied (ReserveCancelled (default "" (blocked s !! ch)) (lim s)).1
  | AConsume wf now => replied (Consume wf now (lim s)).1
  | AAdjustDown wf n clk => replied (AdjustDown wf n clk (lim s)).1
  | ASignalComplete wf clk => replied (SignalComplete wf clk (lim s)).1
  | ARelease wf clk => replied (Release wf clk (lim s)).1
  | AStats now => let '(m, q, n, b) := (Stats now (lim s)).1 in RStats m q n b
  | _ => RDone
  end.

(** A run with the replies its callers see. *)
Fixpoint observed (acts : list action) (s : Sys) : option (list reply * Sys) :=
  match acts with
  | [] => Some ([], s)
  | a :: acts =>
    s' ← step a s; '(rs, s'') ← observed acts s'; Some (answer a s :: rs, s'')
  end.

(** ** The view under the heap updates *)

Section view.

Lemma reservations_lookup l k r :
  reservations l !! k = Some r ↔
  ∃ p, activeReservations l !! k = Some p ∧ objects l !! p = Some r.
Proof. unfold reservations, reservations_of. rewrite lookup_omap_Some. naive_solver. Qed.

Lemma lookup_reservation_view wf l p r :
  lookup_reservation wf l = Some (p, r) ↔
  activeReservations l !! wf = Some p ∧ objects l !! p = Some r.
Proof.
  unfold lookup_reservation. destruct (activeReservations l !! wf) as [q|]; simpl; [|naive_solver].
  destruct (objects l !! q) eqn:E; simpl; naive_solver.
Qed.

Lemma total_of_view a o :
  map_fold (λ _ p total,
    match o !! p with
    | Some res => i64 (total + slotsReserved res)
    | None => total
    end) 0 a = i64 (map_sum slotsReserved (reservations_of a o)).
Proof.
  unfold reservations_of.
  induction a as [|k p a Hk IH] using map_ind; [done|].
  rewrite map_fold_insert_L; [|intros; repeat case_match; autorewrite with go_int; f_equal; lia|done].
  rewrite IH. destruct (o !! p) as [r|] eqn:Hp.
  - rewrite (omap_insert_Some _ _ _ _ r) by done.
    rewrite map_sum_insert by (rewrite lookup_omap, Hk; done).
    autorewrite with go_int. f_equal. lia.
  - rewrite omap_insert_None by done.
    rewrite delete_id; [done|]. by rewrite lookup_omap, Hk.
Qed.

Lemma calculateTotalReserved_view l :
  calculateTotalReserved l = i64 (total_reserved l).
Proof. apply total_of_view. Qed.

Lemma reservations_store wf n now l :
  heap_ok l →
  reservations (store_reservation wf n now l) =
    <[wf := mkReservation wf n 0 now false]> (reservations l).
Proof.
  intros [Ha Hi Hf]. apply map_eq. intros k. apply option_eq. intros r.
  rewrite reservations_lookup. simpl.
  destruct (decide (k = wf)) as [->|Hne].
  - rewrite lookup_insert_eq. split.
    + intros (p & Hp & Hr). by simplify_map_eq.
    + intros [= <-]. exists (nextObject l). by simplify_map_eq.
  - rewrite !lookup_insert_ne by done. rewrite reservations_lookup.
    split; intros (p & Hp & Hr); exists p; (split; [by simplify_map_eq|]).
    + rewrite lookup_insert_ne in Hr; [done|]. intros <-.
      destruct (Ha _ _ Hp) as [x Hx]. pose proof (Hf _ (mk_is_Some _ _ Hx)). lia.
    + rewrite lookup_insert_ne; [done|]. intros <-.
      pose proof (Hf _ (mk_is_Some _ _ Hr)). lia.
Qed.

Lemma heap_ok_store wf n now l : heap_ok l → heap_ok (store_reservation wf n now l).
Proof.
  intros [Ha Hi Hf].
  assert (Hlt : ∀ k p, activeReservations l !! k = Some p → (p < nextObject l)%nat).
  { intros k p Hp. apply Hf. eauto. }
  split; simpl.
  - intros k p. rewrite lookup_insert. case_decide.
    + intros [= <-]. rewrite lookup_insert_eq. eauto.
    + intros Hp. rewrite lookup_insert_ne; [eauto|]. apply Hlt in Hp. lia.
  - intros k k' p. rewrite !lookup_insert.
    repeat case_decide; intros; simplify_eq; try done; eauto;
      match goal with H : activeReservations l !! _ = Some _ |- _ => apply Hlt in H end; lia.
  - intros p. rewrite lookup_insert. case_decide; intros Hp; [lia|].
    apply Hf in Hp. lia.
Qed.

Lemma reservations_set_object k p r r' l :
  heap_ok l → activeReservations l !! k = Some p → objects l !! p = Some r →
  reservations (set_object p r' l) = <[k := r']> (reservations l).
Proof.
  intros [Ha Hi Hf] Hk Hp. apply map_eq. intros j. apply option_eq. intros x.
  rewrite reservations_lookup. simpl.
  destruct (decide (j = k)) as [->|Hne].
  - rewrite lookup_insert_eq. split.
    + intros (q & Hq & Hx). by simplify_map_eq.
    + intros [= <-]. exists p. by simplify_map_eq.
  - rewrite lookup_insert_ne by done. rewrite reservations_lookup.
    split; intros (q & Hq & Hx); exists q; (split; [done|]);
      rewrite lookup_insert_ne in *; try done; intros ->; eauto.
Qed.

Lemma heap_ok_set_object p r r' l :
  heap_ok l → objects l !! p = Some r → heap_ok (set_object p r' l).
Proof.
  intros [Ha Hi Hf] Hp. split; simpl.
  - intros k q Hq. rewrite lookup_insert. case_decide; eauto.
  - eauto.
  - intros q. rewrite lookup_insert. case_decide; intros Hq; [subst|]; eauto.
Qed.

Lemma reservations_delete wf l :
  reservations (set_reservations (delete wf (activeReservations l)) (objects l) (nextObject l) l)
  = delete wf (reservations l).
Proof. unfold reservations, reservations_of. simpl. by rewrite omap_delete. Qed.

Lemma heap_ok_delete wf l :
  heap_ok l →
  heap_ok (set_reservations (delete wf (activeReservations l)) (objects l) (nextObject l) l).
Proof.
  intros [Ha Hi Hf]. split; simpl; [| |done].
  - intros k p Hk. apply lookup_delete_Some in Hk as [_ Hk]. eauto.
  - intros k k' p Hk Hk'. apply lookup_delete_Some in Hk as [_ Hk].
    apply lookup_delete_Some in Hk' as [_ Hk']. eauto.
Qed.

End view.

(** ** Soundness of the critical sections *)

Create HintDb limiter.

Lemma sound_refl l : sound l l.
Proof. intros H. by split. Qed.

Lemma sound_trans l1 l2 l3 : sound l1 l2 → sound l2 l3 → sound l1 l3.
Proof.
  intros H12 H23 Hi. destruct (H12 Hi) as (Hi2 & Hl2).
  destruct (H23 Hi2) as (Hi3 & Hl3). split; [done|congruence].
Qed.

Lemma outstanding_nonneg l :
  inv l → ∀ k r, reservations l !! k = Some r → 0 ≤ outstanding r.
Proof. intros Hi k r Hr. apply (inv_res l Hi) in Hr as [? ?]. unfold outstanding. lia. Qed.

Lemma reserved_nonneg l :
  inv l → ∀ k r, reservations l !! k = Some r → 0 ≤ slotsReserved r.
Proof. intros Hi k r Hr. apply (inv_res l Hi) in Hr as [? ?]. lia. Qed.

Lemma total_outstanding_bounds l :
  inv l → 0 ≤ total_outstanding l ≤ total_reserved l.
Proof.
  intros Hi. split.
  - apply map_sum_nonneg, outstanding_nonneg, Hi.
  - apply map_sum_mono. intros k r Hr. apply (inv_res l Hi) in Hr as [? ?].
    unfold outstanding. lia.
Qed.

Lemma total_reserved_nonneg l : inv l → 0 ≤ total_reserved l.
Proof. intros Hi. pose proof (total_outstanding_bounds l Hi). lia. Qed.

Lemma consumed_le_limit l : inv l → consumed l ≤ limit l.
Proof. intros Hi. pose proof (total_outstanding_bounds l Hi). pose proof (inv_quota l Hi). lia. Qed.

Lemma slots_le_limit l k r :
  inv l → reservations l !! k = Some r → slotsReserved r ≤ limit l.
Proof.
  intros Hi Hv. etrans; [|apply inv_reserved, Hi].
  apply (map_sum_elem_le slotsReserved _ k); [by apply reserved_nonneg|done].
Qed.

Lemma fits_spec n l :
  inv l → 0 < n ≤ max_request →
  fits n (calculateTotalReserved l) l = (consumed l + total_reserved l + n <=? limit l).
Proof.
  intros Hi Hn. unfold fits. rewrite calculateTotalReserved_view.
  autorewrite with go_int. f_equal. apply i64_id.
  pose proof (total_reserved_nonneg l Hi). pose proof (consumed_le_limit l Hi).
  destruct Hi as [_ _ [? ?] ? ? _ _]. unfold max_limit, max_request in *. lia.
Qed.

Lemma heap_ok_frame l l' :
  heap_ok l → activeReservations l' = activeReservations l →
  objects l' = objects l → nextObject l' = nextObject l → heap_ok l'.
Proof. intros [] Ha Ho Hn. split; rewrite ?Ha, ?Ho, ?Hn; eauto. Qed.

Lemma heap_ok_reset now l : heap_ok l → heap_ok (resetWindowIfNeeded now l).1.
Proof.
  intros Hh. unfold resetWindowIfNeeded. case_match; [by eapply heap_ok_frame|done].
Qed.

Lemma sound_reset now l : sound l (resetWindowIfNeeded now l).1.
Proof.
  unfold resetWindowIfNeeded. case_match; simpl; [|apply sound_refl].
  intros Hi. split; [|done].
  pose proof (consumed_le_limit l Hi). destruct Hi. split; simpl; try done.
  - by eapply heap_ok_frame.
  - change (total_outstanding (set_window now 0 l)) with (total_outstanding l). lia.
Qed.

Lemma reset_frame now l :
  reservations (resetWindowIfNeeded now l).1 = reservations l ∧
  activeReservations (resetWindowIfNeeded now l).1 = activeReservations l ∧
  objects (resetWindowIfNeeded now l).1 = objects l ∧
  waitQueue (resetWindowIfNeeded now l).1 = waitQueue l ∧
  closed (resetWindowIfNeeded now l).1 = closed l ∧
  nextChan (resetWindowIfNeeded now l).1 = nextChan l ∧
  limit (resetWindowIfNeeded now l).1 = limit l ∧
  calculateTotalReserved (resetWindowIfNeeded now l).1 = calculateTotalReserved l.
Proof. unfold resetWindowIfNeeded. by case_match. Qed.

Lemma sound_queue q cl n l : Forall waiting_ok q → sound l (set_queue q cl n l).
Proof.
  intros Hq Hi. split; [|done]. destruct Hi. split; try done.
  by eapply heap_ok_frame.
Qed.

Lemma sound_grant wf n now l :
  0 < n ≤ max_request → fits n (calculateTotalReserved l) l = true →
  sound l (store_reservation wf n now l).
Proof.
  intros Hn Hfit Hi. rewrite fits_spec in Hfit by done. z_bools.
  pose proof (inv_heap l Hi) as Hh.
  pose proof (total_outstanding_bounds l Hi) as Hb.
  pose proof (reservations_store wf n now l Hh) as Hv.
  pose proof (outstanding_nonneg l Hi) as Hon.
  pose proof (reserved_nonneg l Hi) as Hrn.
  set (r := mkReservation wf n 0 now false) in *.
  assert (Hrn' : outstanding r = n) by (unfold outstanding; simpl; lia).
  assert (Hr : total_reserved (store_reservation wf n now l) ≤ total_reserved l + n).
  { unfold total_reserved. rewrite Hv. by apply (map_sum_insert_le slotsReserved _ wf r). }
  assert (Ho : ∃ d, 0 ≤ d ≤ total_outstanding l ∧
    total_outstanding (store_reservation wf n now l) = total_outstanding l - d + n).
  { unfold total_outstanding in Hb |- *. rewrite Hv. destruct (reservations l !! wf) as [x|] eqn:Hx.
    - exists (outstanding x). split; [split; [by eapply Hon|]|].
      + by apply (map_sum_elem_le outstanding _ wf).
      + rewrite (map_sum_replace _ _ wf x r Hx). lia.
    - exists 0. split; [lia|]. rewrite map_sum_insert by done. lia. }
  destruct Ho as (d & Hd & Ho). split; [|done].
  pose proof (consumed_le_limit l Hi). destruct Hi. split.
  - by apply heap_ok_store.
  - intros k x. rewrite Hv, lookup_insert. case_decide; [intros [= <-]|eauto].
    unfold r, reservation_ok; simpl; lia.
  - done.
  - done.
  - change (limit (store_reservation wf n now l)) with (limit l). lia.
  - change (consumed (store_reservation wf n now l)) with (consumed l).
    change (limit (store_reservation wf n now l)) with (limit l). lia.
  - done.
Qed.

(** Rewriting the object of an active reservation. *)
Lemma totals_set_object k p r r' l :
  heap_ok l → activeReservations l !! k = Some p → objects l !! p = Some r →
  total_reserved (set_object p r' l) = total_reserved l - slotsReserved r + slotsReserved r' ∧
  total_outstanding (set_object p r' l) = total_outstanding l - outstanding r + outstanding r'.
Proof.
  intros Hh Hk Hp. unfold total_reserved, total_outstanding.
  rewrite (reservations_set_object k p r r' l) by done.
  assert (reservations l !! k = Some r) by (apply reservations_lookup; eauto).
  split; by apply map_sum_replace.
Qed.

Lemma inv_set_object k p r r' l :
  inv l → activeReservations l !! k = Some p → objects l !! p = Some r →
  reservation_ok r' → slotsReserved r' ≤ slotsReserved r → outstanding r' ≤ outstanding r →
  inv (set_object p r' l).
Proof.
  intros Hi Hk Hp Hr' Hle Hlo.
  destruct (totals_set_object k p r r' l (inv_heap l Hi) Hk Hp) as [Ht Ho].
  pose proof (reservations_set_object k p r r' l (inv_heap l Hi) Hk Hp) as Hv.
  destruct Hi. split; try done.
  - by eapply heap_ok_set_object.
  - intros j x. rewrite Hv, lookup_insert. case_decide; [by intros [= <-]|eauto].
  - rewrite Ht. simpl. lia.
  - rewrite Ho. simpl. lia.
Qed.

Lemma sound_set_object k p r r' l :
  activeReservations l !! k = Some p → objects l !! p = Some r →
  reservation_ok r' → slotsReserved r' ≤ slotsReserved r → outstanding r' ≤ outstanding r →
  sound l (set_object p r' l).
Proof.
  intros Hk Hp Hr' Hle Hlo Hi. split; [by eapply inv_set_object|done].
Qed.

(** [ConsumeWithOperation] turns one promised call into a used one. *)
Lemma sound_use k p r l :
  activeReservations l !! k = Some p → objects l !! p = Some r →
  slotsConsumed r < slotsReserved r →
  sound l (set_object p (with_consumed (i64 (slotsConsumed r + 1)) r)
             (set_consumed (i64 (consumed l + 1)) l)).
Proof.
  intros Hk Hp Hlt Hi.
  pose proof (consumed_le_limit l Hi) as Hcl. pose proof (inv_limit l Hi) as Hlim.
  pose proof (total_outstanding_bounds l Hi) as Hb.
  assert (Hv : reservations l !! k = Some r) by (apply reservations_lookup; eauto).
  pose proof (inv_res l Hi _ _ Hv) as Hr. pose proof (inv_consumed l Hi) as Hc0.
  pose proof (slots_le_limit l k r Hi Hv) as Hrl.
  assert (Hol : outstanding r ≤ total_outstanding l)
    by (apply (map_sum_elem_le outstanding _ k); [by apply outstanding_nonneg|done]).
  unfold max_limit, reservation_ok in *.
  rewrite !i64_id by lia.
  set (r' := with_consumed (slotsConsumed r + 1) r).
  set (l1 := set_consumed (consumed l + 1) l).
  assert (Hh1 : heap_ok l1) by (eapply heap_ok_frame; [apply inv_heap, Hi|done..]).
  destruct (totals_set_object k p r r' l1 Hh1 Hk Hp) as [Ht Ho].
  change (total_reserved l1) with (total_reserved l) in Ht.
  change (total_outstanding l1) with (total_outstanding l) in Ho.
  assert (Ho' : total_outstanding (set_object p r' l1) = total_outstanding l - 1)
    by (rewrite Ho; unfold outstanding; simpl; lia).
  pose proof (reservations_set_object k p r r' l1 Hh1 Hk Hp) as Hv'.
  split; [|done]. destruct Hi. split; try done.
  - by eapply heap_ok_set_object.
  - intros j x. rewrite Hv', lookup_insert. case_decide; [intros [= <-]|by eauto].
    unfold reservation_ok; simpl; lia.
  - simpl. lia.
  - rewrite Ht. simpl. lia.
  - rewrite Ho'. simpl. lia.
Qed.

Lemma sound_release wf l :
  sound l (set_reservations (delete wf (activeReservations l)) (objects l) (nextObject l) l).
Proof.
  intros Hi. pose proof (reservations_delete wf l) as Hv.
  set (l' := set_reservations _ _ _ l) in *.
  assert (∃ d, 0 ≤ d ≤ total_outstanding l ∧ total_outstanding l' = total_outstanding l - d ∧
    total_reserved l' ≤ total_reserved l) as (d & Hd & Ho & Ht).
  { unfold total_outstanding, total_reserved. rewrite Hv.
    destruct (reservations l !! wf) as [r|] eqn:Hr.
    - rewrite !(map_sum_delete _ _ _ _ Hr). exists (outstanding r).
      pose proof (outstanding_nonneg l Hi _ _ Hr). pose proof (reserved_nonneg l Hi _ _ Hr).
      split_and!; [lia| |lia|lia].
      pose proof (map_sum_elem_le outstanding _ _ _ (outstanding_nonneg l Hi) Hr).
      rewrite (map_sum_delete _ _ _ _ Hr) in *. lia.
    - rewrite delete_id by done. exists 0.
      pose proof (total_outstanding_bounds l Hi). unfold total_outstanding in *. lia. }
  split; [|done]. destruct Hi. split; try done.
  - by apply heap_ok_delete.
  - intros k r. rewrite Hv. intros Hk%lookup_delete_Some. naive_solver.
  - simpl. lia.
  - rewrite Ho. simpl. lia.
Qed.

Lemma sound_tryGrantFuel fuel : ∀ i clk l, sound l (tryGrantFuel fuel i clk l).1.
Proof.
  induction fuel as [|fuel IH]; intros i clk l; simpl; [apply sound_refl|].
  destruct (waitQueue l) as [|next rest] eqn:Hq; [apply sound_refl|].
  set (l1 := (resetWindowIfNeeded _ l).1).
  destruct (fits _ _ l1) eqn:Hf; [|apply sound_reset].
  destruct (tryGrantFuel fuel _ clk _) as [l3 g] eqn:Hrec. simpl.
  intros Hi. pose proof (inv_queue l Hi) as Hw. rewrite Hq in Hw.
  apply Forall_cons_1 in Hw as [Hw1 Hw2].
  refine (sound_trans l l1 l3 (sound_reset _ _) _ Hi).
  eapply sound_trans; [by apply sound_grant; [exact Hw1|exact Hf]|].
  eapply sound_trans; [by apply sound_queue; exact Hw2|].
  change l3 with (l3, g).1. rewrite <- Hrec. apply IH.
Qed.

Lemma sound_tryGrantWaiting clk l : sound l (tryGrantWaiting clk l).1.
Proof. apply sound_tryGrantFuel. Qed.

#[export] Hint Resolve sound_refl sound_reset sound_tryGrantWaiting sound_release
  sound_queue : limiter.

(** ** Soundness of the operations *)

Lemma removeFirst_sublist wf q : Forall waiting_ok q → Forall waiting_ok (removeFirst wf q).
Proof. induction 1; simpl; [done|]. case_match; auto. Qed.

Lemma sound_Reserve wf n clk l : n ≤ max_request → sound l (Reserve wf n clk l).2.
Proof.
  intros Hn. unfold Reserve.
  repeat case_match; simplify_eq/=; auto with limiter; z_bools.
  - eapply sound_trans; [apply sound_reset|]. apply sound_grant; [lia|].
    destruct (reset_frame (clk 0%nat) l) as (_&_&_&_&_&_&_& ->). done.
  - eapply sound_trans; [apply (sound_reset (clk 0%nat))|]. intros Hi.
    apply sound_queue; [|done]. apply Forall_app; split; [apply inv_queue, Hi|].
    repeat constructor; simpl; lia.
Qed.

Lemma sound_Consume wf now l : sound l (Consume wf now l).2.
Proof.
  unfold Consume, ConsumeWithOperation.
  destruct (String.eqb wf ""); [apply sound_refl|].
  destruct (lookup_reservation wf l) as [[p r]|] eqn:Hl; [|apply sound_refl].
  apply lookup_reservation_view in Hl as [Hk Hp].
  case_match; [apply sound_refl|]. z_bools. simpl.
  eapply sound_trans; [apply (sound_reset now)|].
  destruct (reset_frame now l) as (_&Ha&Ho&_).
  apply (sound_use wf); [by rewrite Ha|by rewrite Ho|lia].
Qed.

Lemma sound_AdjustDown wf n clk l : sound l (AdjustDown wf n clk l).2.
Proof.
  unfold AdjustDown. destruct (String.eqb wf ""); [apply sound_refl|].
  destruct (lookup_reservation wf l) as [[p r]|] eqn:Hl; [|apply sound_refl].
  apply lookup_reservation_view in Hl as [Hk Hp].
  repeat case_match; auto with limiter. z_bools. simpl.
  intros Hi. eapply sound_trans; [|apply sound_tryGrantWaiting|done].
  assert (reservation_ok r) by (apply (inv_res l Hi wf), reservations_lookup; eauto).
  unfold reservation_ok in *.
  apply (sound_set_object wf p r); try done; unfold reservation_ok, outstanding; simpl; lia.
Qed.

Lemma sound_SignalComplete wf clk l : sound l (SignalComplete wf clk l).2.
Proof.
  unfold SignalComplete. destruct (String.eqb wf ""); [apply sound_refl|].
  destruct (lookup_reservation wf l) as [[p r]|] eqn:Hl; [|apply sound_refl].
  apply lookup_reservation_view in Hl as [Hk Hp]. simpl.
  intros Hi. eapply sound_trans; [|apply sound_tryGrantWaiting|done].
  assert (reservation_ok r) by (apply (inv_res l Hi wf), reservations_lookup; eauto).
  by apply (sound_set_object wf p r).
Qed.

Lemma sound_Release wf clk l : sound l (Release wf clk l).2.
Proof.
  unfold Release. repeat case_match; auto with limiter. simpl.
  eapply sound_trans; [apply sound_release|apply sound_tryGrantWaiting].
Qed.

Lemma sound_tick now clk l : sound l (windowResetWatcher_tick now clk l).
Proof.
  unfold windowResetWatcher_tick. case_match; [apply sound_refl|].
  destruct (resetWindowIfNeeded now l) as [l1 b] eqn:Hr.
  pose proof (sound_reset now l) as Hs. rewrite Hr in Hs. simpl in Hs.
  case_match; [|done]. eapply sound_trans; [exact Hs|apply sound_tryGrantWaiting].
Qed.

Lemma sound_Stop l l' : Stop l = Some l' → sound l l'.
Proof.
  unfold Stop. case_match; [done|]. intros [= <-] Hi. split; [|done].
  destruct Hi. split; try done. by eapply heap_ok_frame.
Qed.

#[export] Hint Resolve sound_Reserve sound_Consume sound_AdjustDown sound_SignalComplete
  sound_Release sound_tick sound_Stop : limiter.

(** Every admitted step of the system is sound and keeps the list of suspended
    [Extend] calls empty. *)
Lemma step_sound a s s' :
  action_ok a = true → extending s = [] → step a s = Some s' →
  sound (lim s) (lim s') ∧ extending s' = [].
Proof.
  intros Hok He Hs. destruct a; simpl in *; try done.
  - destruct (Reserve wf count clk (lim s)) as [o l] eqn:Hr. z_bools.
    pose proof (sound_Reserve wf count clk (lim s) Hok) as Hsound. rewrite Hr in Hsound.
    destruct o; simplify_eq/=; done.
  - repeat case_match; simplify_eq/=. split; [apply sound_refl|done].
  - repeat case_match; simplify_eq/=. split; [|done]. intros Hi.
    apply sound_queue; [|done]. apply removeFirst_sublist, inv_queue, Hi.
  - simplify_eq/=; auto with limiter.
  - simplify_eq/=; auto with limiter.
  - by rewrite He, lookup_nil in Hs.
  - by rewrite He, lookup_nil in Hs.
  - simplify_eq/=; auto with limiter.
  - simplify_eq/=; auto with limiter.
  - simplify_eq/=; auto with limiter.
  - case_match; simplify_eq/=; auto with limiter.
  - destruct (Stop (lim s)) eqn:Hst; simplify_eq/=. split; [|done]. by apply sound_Stop.
Qed.

Lemma run_sound acts : ∀ s s',
  Forall (λ a, action_ok a = true) acts → extending s = [] → run acts s = Some s' →
  sound (lim s) (lim s') ∧ extending s' = [].
Proof.
  induction acts as [|a acts IH]; intros s s' Hok He Hr; simplify_eq/=.
  - split; [apply sound_refl|done].
  - apply Forall_cons_1 in Hok as [Ha Hok].
    destruct (step a s) as [s1|] eqn:Hs; simplify_eq/=.
    destruct (step_sound a s s1 Ha He Hs) as [Hs1 He1].
    destruct (IH s1 s' Hok He1 Hr) as [Hs2 He2].
    split; [by eapply sound_trans|done].
Qed.

Lemma init_inv cfg now :
  0 ≤ RequestsPerMinute cfg ≤ max_limit → inv (lim (init cfg now)).
Proof.
  intros Hl. set (l := lim (init cfg now)).
  assert (Hv : reservations l = ∅) by apply omap_empty.
  split; unfold total_reserved, total_outstanding; rewrite ?Hv, ?map_sum_empty; try done.
  - split; simpl; intros *; rewrite ?lookup_empty; try done.
  - simpl. lia.
  - simpl. lia.
Qed.

(** ** The wait queue *)

Lemma store_frame wf n now l :
  waitQueue (store_reservation wf n now l) = waitQueue l ∧
  closed (store_reservation wf n now l) = closed l ∧
  nextChan (store_reservation wf n now l) = nextChan l.
Proof. done. Qed.

(** The loop never runs out of fuel: any fuel past the queue's length gives the
    same result. *)
Lemma tryGrantFuel_enough fuel : ∀ i clk l,
  (length (waitQueue l) ≤ fuel)%nat →
  tryGrantFuel fuel i clk l = tryGrantFuel (length (waitQueue l)) i clk l.
Proof.
  induction fuel as [|fuel IH]; intros i clk l Hlen.
  - destruct (waitQueue l); simpl in *; [done|lia].
  - destruct (waitQueue l) as [|next rest] eqn:Hq; simpl; rewrite Hq; [done|].
    case_match; [|done]. rewrite IH; [done|]. simpl in *. lia.
Qed.

Lemma set_queue_reservations q cl n l :
  reservations (set_queue q cl n l) = reservations l.
Proof. done. Qed.

(** What one pass over the queue does, as a relation between the limiter
    before and after it and the entries it granted. *)
Record drained (l l' : Limiter) (granted : list waitingWorkflow) : Prop := {
  dr_queue : waitQueue l = granted ++ waitQueue l';
  dr_closed : closed l' = list_to_set (ready <$> granted) ∪ closed l;
  dr_stuck : ∀ next rest, waitQueue l' = next :: rest →
    fits (requestedSlots next) (calculateTotalReserved l') l' = false;
  dr_heap : heap_ok l';
  dr_other : ∀ wf, wf ∉ (w_workflowID <$> granted) →
    reservations l' !! wf = reservations l !! wf;
  dr_granted : ∀ wf, wf ∈ (w_workflowID <$> granted) →
    ∃ w r, w ∈ granted ∧ w_workflowID w = wf ∧
      reservations l' !! wf = Some r ∧
      slotsReserved r = requestedSlots w ∧ slotsConsumed r = 0;
}.

Lemma tryGrantFuel_drained fuel : ∀ i clk l l' n,
  (length (waitQueue l) ≤ fuel)%nat → heap_ok l →
  tryGrantFuel fuel i clk l = (l', n) →
  ∃ granted, length granted = n ∧ drained l l' granted ∧ nextChan l' = nextChan l.
Proof.
  induction fuel as [|fuel IH]; intros i clk l l' n Hlen Hh Hrun; cbn [tryGrantFuel] in Hrun.
  { destruct (waitQueue l) eqn:Hq; simpl in *; [|lia]. simplify_eq. exists []. split; [done|].
    split; [|done]. split; try done; rewrite ?Hq; try done; [set_solver|].
    intros wf Hwf. by apply elem_of_nil in Hwf. }
  destruct (waitQueue l) as [|next rest] eqn:Hq; simplify_eq.
  { exists []. split; [done|]. split; [|done]. split; try done; rewrite ?Hq; try done; [set_solver|].
    intros wf Hwf. by apply elem_of_nil in Hwf. }
  destruct (reset_frame (clk (2 * i)%nat) l) as (Hv&Ha&Ho&Hwq&Hcl&Hnc&Hlim&Htot).
  pose proof (heap_ok_reset (clk (2 * i)%nat) l Hh) as Hh1.
  set (l1 := (resetWindowIfNeeded _ l).1) in *.
  destruct (fits (requestedSlots next) (calculateTotalReserved l1) l1) eqn:Hf.
  - set (now := clk (2 * i + 1)%nat) in *.
    set (l2 := store_reservation (w_workflowID next) (requestedSlots next) now l1) in *.
    set (l3 := set_queue rest ({[ready next]} ∪ closed l2) (nextChan l2) l2) in *.
    destruct (tryGrantFuel fuel (S i) clk l3) as [l4 g] eqn:Hrec. injection Hrun as -> <-.
    assert (Hv3 : reservations l3 = <[w_workflowID next :=
      mkReservation (w_workflowID next) (requestedSlots next) 0 now false]> (reservations l)).
    { unfold l3. rewrite set_queue_reservations. unfold l2. by rewrite reservations_store, Hv. }
    assert (Hh3 : heap_ok l3).
    { eapply heap_ok_frame; [by apply (heap_ok_store (w_workflowID next) (requestedSlots next) now l1)|done..]. }
    assert (Hlen3 : (length (waitQueue l3) ≤ fuel)%nat) by (simpl in *; lia).
    destruct (IH (S i) clk l3 l' g Hlen3 Hh3 Hrec) as (gr & Hgl & [Dq Dc Ds Dh Do Dg] & Hn).
    exists (next :: gr). split; [by rewrite <- Hgl|]. split; [|by rewrite Hn; unfold l3; simpl].
    split.
    + rewrite Hq. simpl in *. by f_equal.
    + rewrite Dc. simpl. rewrite <- Hcl. set_solver.
    + done.
    + done.
    + intros wf Hwf. rewrite fmap_cons, not_elem_of_cons in Hwf.
      rewrite Do by naive_solver. rewrite Hv3, lookup_insert_ne by naive_solver. done.
    + intros wf Hwf. destruct (decide (wf ∈ w_workflowID <$> gr)) as [Hin|Hout].
      * destruct (Dg wf Hin) as (w & r & Hw & ?). exists w, r. split; [by right|done].
      * rewrite fmap_cons, elem_of_cons in Hwf. destruct Hwf as [->|?]; [|done].
        exists next, (mkReservation (w_workflowID next) (requestedSlots next) 0 now false).
        split; [by left|]. split; [done|]. split; [|done].
        rewrite (Do _ Hout), Hv3. apply lookup_insert_eq.
  - injection Hrun as <- <-. exists []. split; [done|]. split; [|done]. split; try done; simpl.
    + rewrite Hcl. set_solver.
    + intros next' rest'. rewrite Hwq, Hq. intros; simplify_eq. done.
    + intros wf _. by rewrite Hv.
    + intros wf Hwf. by apply elem_of_nil in Hwf.
Qed.

(** ** Blocked callers

    The queue and the closed channels only move together: what leaves the head
    of the queue has its channel closed. *)

Definition advances (l l' : Limiter) : Prop :=
  ∃ granted, waitQueue l = granted ++ waitQueue l' ∧
    closed l' = list_to_set (ready <$> granted) ∪ closed l ∧
    nextChan l' = nextChan l.

Lemma advances_same l l' :
  waitQueue l' = waitQueue l → closed l' = closed l → nextChan l' = nextChan l →
  advances l l'.
Proof.
  intros Hq Hc Hn. exists []. rewrite Hq, Hc. split_and!; [done| |done].
  simpl. by rewrite (left_id_L ∅ (∪)).
Qed.

Lemma advances_trans l1 l2 l3 : advances l1 l2 → advances l2 l3 → advances l1 l3.
Proof.
  intros (g1 & Hq1 & Hc1 & Hn1) (g2 & Hq2 & Hc2 & Hn2). exists (g1 ++ g2).
  split_and!; [by rewrite Hq1, Hq2, (assoc_L (++))| |congruence].
  - rewrite Hc2, Hc1, fmap_app, list_to_set_app_L.
    by rewrite (assoc_L (∪)), (comm_L (∪) (list_to_set (ready <$> g2))).
Qed.

Lemma advances_reset now l : advances l (resetWindowIfNeeded now l).1.
Proof. destruct (reset_frame now l) as (_&_&_&?&?&?&_). by apply advances_same. Qed.

Lemma advances_tryGrantFuel fuel : ∀ i clk l, advances l (tryGrantFuel fuel i clk l).1.
Proof.
  induction fuel as [|fuel IH]; intros i clk l; cbn [tryGrantFuel]; [by apply advances_same|].
  destruct (waitQueue l) as [|next rest] eqn:Hq; [by apply advances_same|].
  destruct (fits _ _ _); [|apply advances_reset].
  destruct (tryGrantFuel fuel _ clk _) as [l3 g] eqn:Hrec. simpl.
  eapply advances_trans; [apply (advances_reset (clk (2 * i)%nat))|].
  destruct (reset_frame (clk (2 * i)%nat) l) as (_&_&_&Hwq&_).
  set (l1 := (resetWindowIfNeeded _ l).1) in *.
  eapply advances_trans; [|change l3 with (l3, g).1; rewrite <- Hrec; apply IH].
  exists [next]. simpl. split_and!; [by rewrite Hwq, Hq| |done].
  by rewrite (right_id_L ∅ (∪)).
Qed.

Lemma advances_tryGrantWaiting clk l : advances l (tryGrantWaiting clk l).1.
Proof. apply advances_tryGrantFuel. Qed.

#[export] Hint Resolve advances_same advances_reset advances_tryGrantWaiting : limiter.

(** Closes [advances] goals whose result goes through a pass over the queue. *)
Ltac advances_op :=
  repeat case_match; simplify_eq/=; eauto with limiter;
  try (eapply advances_trans; [|apply advances_tryGrantWaiting]; by apply advances_same);
  try (eapply advances_trans; [apply advances_reset|by apply advances_same]).

Lemma advances_Consume wf now l : advances l (Consume wf now l).2.
Proof.
  unfold Consume, ConsumeWithOperation.
  destruct (String.eqb wf ""); [by apply advances_same|].
  destruct (lookup_reservation wf l) as [[p r]|]; [|by apply advances_same].
  destruct (_ <=? _); [by apply advances_same|].
  eapply advances_trans; [apply (advances_reset now)|by apply advances_same].
Qed.
Lemma advances_AdjustDown wf n clk l : advances l (AdjustDown wf n clk l).2.
Proof. unfold AdjustDown. advances_op. Qed.
Lemma advances_SignalComplete wf clk l : advances l (SignalComplete wf clk l).2.
Proof. unfold SignalComplete. advances_op. Qed.
Lemma advances_Release wf clk l : advances l (Release wf clk l).2.
Proof. unfold Release. advances_op. Qed.
Lemma advances_Extend wf n now l : advances l (Extend wf n now l).2.
Proof.
  unfold Extend.
  destruct (String.eqb wf ""), (n <? 0), (n =? 0); try by apply advances_same.
  destruct (lookup_reservation wf l) as [[p r]|]; [|by apply advances_same].
  destruct (extend_fits _ _ _); [|apply advances_reset].
  eapply advances_trans; [apply (advances_reset now)|by apply advances_same].
Qed.
Lemma advances_ExtendRetry p n now l : advances l (ExtendRetry p n now l).2.
Proof.
  unfold ExtendRetry. destruct (objects _ !! p) as [r|]; [|apply advances_reset].
  destruct (extend_fits _ _ _); [|apply advances_reset].
  eapply advances_trans; [apply (advances_reset now)|by apply advances_same].
Qed.
Lemma advances_tick now clk l : advances l (windowResetWatcher_tick now clk l).
Proof.
  unfold windowResetWatcher_tick. destruct (waitQueue l) eqn:Hq; [by apply advances_same|].
  pose proof (advances_reset now l) as Hr.
  destruct (resetWindowIfNeeded now l) as [l1 []]; simpl in *; [|done].
  eapply advances_trans; [exact Hr|apply advances_tryGrantWaiting].
Qed.
Lemma advances_Stop l l' : Stop l = Some l' → advances l l'.
Proof. unfold Stop. case_match; intros; simplify_eq. by apply advances_same. Qed.

#[export] Hint Resolve advances_Consume advances_AdjustDown advances_SignalComplete
  advances_Release advances_Extend advances_ExtendRetry advances_tick advances_Stop : limiter.

(** No caller asks for a workflow that is already waiting. *)
Definition waits (wf : string) (s : Sys) : bool :=
  existsb (λ kv, String.eqb kv.2 wf) (map_to_list (blocked s)).

Definition disciplined (a : action) (s : Sys) : bool :=
  match a with AReserve wf _ _ => negb (waits wf s) | _ => true end.

Fixpoint disciplined_run (acts : list action) (s : Sys) : bool :=
  match acts with
  | [] => true
  | a :: acts =>
    disciplined a s &&
    match step a s with Some s' => disciplined_run acts s' | None => true end
  end.

Lemma waits_false wf s : waits wf s = false → ∀ ch, blocked s !! ch ≠ Some wf.
Proof.
  intros Hw ch Hch. assert (waits wf s = true); [|congruence].
  apply existsb_exists. exists (ch, wf). split; [|apply String.eqb_refl].
  by apply list_elem_of_In, elem_of_map_to_list.
Qed.

Record wake_inv (s : Sys) : Prop := {
  wi_blocked : ∀ ch wf, blocked s !! ch = Some wf →
    ch ∈ closed (lim s) ∨
    ∃ w, w ∈ waitQueue (lim s) ∧ ready w = ch ∧ w_workflowID w = wf;
  wi_queued : ∀ w, w ∈ waitQueue (lim s) → blocked s !! ready w = Some (w_workflowID w);
  wi_inj : ∀ ch ch' wf, blocked s !! ch = Some wf → blocked s !! ch' = Some wf → ch = ch';
  wi_fresh : ∀ ch wf, blocked s !! ch = Some wf → (ch < nextChan (lim s))%nat;
  wi_nodup : NoDup (w_workflowID <$> waitQueue (lim s));
  wi_open : ∀ w, w ∈ waitQueue (lim s) → ready w ∉ closed (lim s);
  wi_closed : ∀ ch, ch ∈ closed (lim s) → (ch < nextChan (lim s))%nat;
}.

Lemma wake_inv_init cfg now : wake_inv (init cfg now).
Proof.
  split; simpl; intros *; rewrite ?lookup_empty; try done;
    try (by intros ?%elem_of_nil). constructor.
Qed.

Lemma wake_inv_advance s l' e :
  wake_inv s → advances (lim s) l' → wake_inv (mkSys l' (blocked s) e).
Proof.
  intros [Hb Hq Hi Hf Hn Ho Hcn] (g & Hg & Hc & Hle).
  assert (Hin : ∀ w, w ∈ waitQueue l' → w ∈ waitQueue (lim s))
    by (intros; rewrite Hg; apply elem_of_app; by right).
  assert (Hin' : ∀ w, w ∈ g → w ∈ waitQueue (lim s))
    by (intros; rewrite Hg; apply elem_of_app; by left).
  split; simpl.
  - intros ch wf Hch. destruct (Hb ch wf Hch) as [Hcl|(w & Hw & Hr & Hid)].
    + left. rewrite Hc. set_solver.
    + rewrite Hg in Hw. apply elem_of_app in Hw as [Hw|Hw].
      * left. rewrite Hc, <- Hr. apply elem_of_union_l, elem_of_list_to_set.
        by apply list_elem_of_fmap_2.
      * right. eauto.
  - intros w Hw. apply Hq. rewrite Hg. apply elem_of_app. by right.
  - done.
  - intros ch wf Hch. apply Hf in Hch. lia.
  - rewrite Hg, fmap_app in Hn. by apply NoDup_app in Hn as (_ & _ & ?).
  - intros w Hw. rewrite Hc, not_elem_of_union. split; [|auto].
    rewrite elem_of_list_to_set. intros (x & Hx & Hxg)%list_elem_of_fmap.
    pose proof (Hq w (Hin w Hw)) as Hw1. pose proof (Hq x (Hin' x Hxg)) as Hx1.
    rewrite Hx in Hw1. rewrite Hg, fmap_app in Hn. apply NoDup_app in Hn as (_ & Hdis & _).
    apply (Hdis (w_workflowID x)); [by apply list_elem_of_fmap_2|].
    replace (w_workflowID x) with (w_workflowID w) by congruence.
    by apply list_elem_of_fmap_2.
  - intros ch. rewrite Hc, elem_of_union, elem_of_list_to_set.
    intros [(x & -> & Hxg)%list_elem_of_fmap|Hch]; [|apply Hcn in Hch; lia].
    pose proof (Hf _ _ (Hq x (Hin' x Hxg))). lia.
Qed.

Lemma removeFirst_elem wf q w : w ∈ removeFirst wf q → w ∈ q.
Proof.
  induction q as [|x q IH]; simpl; [done|]. case_match; [by right|].
  rewrite !elem_of_cons. naive_solver.
Qed.

Lemma removeFirst_keeps wf q w : w ∈ q → w_workflowID w ≠ wf → w ∈ removeFirst wf q.
Proof.
  induction q as [|x q IH]; simpl; [done|]. intros Hw Hne.
  destruct (String.eqb_spec (w_workflowID x) wf); rewrite elem_of_cons in *; naive_solver.
Qed.

Lemma removeFirst_ids wf q : NoDup (w_workflowID <$> q) →
  NoDup (w_workflowID <$> removeFirst wf q) ∧ wf ∉ (w_workflowID <$> removeFirst wf q).
Proof.
  induction q as [|x q IH]; simpl; [intros _; split; [constructor|apply not_elem_of_nil]|].
  rewrite NoDup_cons. intros [Hx Hq]. destruct (IH Hq) as [Hn Hout].
  destruct (String.eqb_spec (w_workflowID x) wf) as [<-|Hne]; [done|].
  rewrite fmap_cons, NoDup_cons, not_elem_of_cons. split_and!; try done.
  intros (y & Hy & Hin)%list_elem_of_fmap. apply Hx.
  rewrite Hy. by apply list_elem_of_fmap_2, (removeFirst_elem wf).
Qed.

Lemma wake_inv_cancel s ch wf :
  wake_inv s → blocked s !! ch = Some wf →
  wake_inv (mkSys (ReserveCancelled wf (lim s)).2 (delete ch (blocked s)) (extending s)).
Proof.
  intros [Hb Hq Hi Hf Hn Ho Hcn] Hch. destruct (removeFirst_ids wf _ Hn) as [Hn' Hout].
  split; simpl; [..|done| |done].
  - intros c w [Hne Hc]%lookup_delete_Some.
    destruct (Hb c w Hc) as [Hcl|(x & Hx & Hr & Hid)]; [by left|right].
    exists x. split; [|done]. apply removeFirst_keeps; [done|]. rewrite Hid. intros ->.
    apply Hne. by eapply Hi.
  - intros x Hx. pose proof (Hq x (removeFirst_elem _ _ _ Hx)) as Hbx.
    apply lookup_delete_Some. split; [|done]. intros ->. rewrite Hch in Hbx. simplify_eq.
    apply Hout. by apply list_elem_of_fmap_2.
  - intros c c' w [_ Hc]%lookup_delete_Some [_ Hc']%lookup_delete_Some. eauto.
  - intros c w [_ Hc]%lookup_delete_Some. eauto.
  - intros w Hw. by apply Ho, (removeFirst_elem wf).
Qed.

Lemma wake_inv_wake s ch :
  wake_inv s → ch ∈ closed (lim s) →
  wake_inv (mkSys (lim s) (delete ch (blocked s)) (extending s)).
Proof.
  intros [Hb Hq Hi Hf Hn Ho Hcn] Hcl. split; simpl; [..|done|done|done].
  - intros c w [_ Hc]%lookup_delete_Some. eauto.
  - intros w Hw. apply lookup_delete_Some. split; [|by apply Hq].
    intros ->. by eapply Ho.
  - intros c c' w [_ Hc]%lookup_delete_Some [_ Hc']%lookup_delete_Some. eauto.
  - intros c w [_ Hc]%lookup_delete_Some. eauto.
Qed.

Lemma wake_inv_enqueue s wf n now l :
  wake_inv s → waits wf s = false → advances (lim s) l →
  wake_inv (mkSys (set_queue (waitQueue l ++ [mkWaiting wf n now (nextChan l)])
                     (closed l) (S (nextChan l)) l)
              (<[nextChan l := wf]> (blocked s)) (extending s)).
Proof.
  intros Hw Hwf Ha.
  destruct (wake_inv_advance s l (extending s) Hw Ha) as [Hb Hq Hi Hf Hn Ho Hcn]; simpl in *.
  pose proof (waits_false _ _ Hwf) as Hnone.
  set (ch := nextChan l) in *.
  assert (Hfresh : blocked s !! ch = None).
  { destruct (blocked s !! ch) as [x|] eqn:E; [|done]. apply Hf in E. lia. }
  split; simpl.
  - intros c w. rewrite lookup_insert. case_decide as Hc; intros.
    + simplify_eq. right. eexists. rewrite elem_of_app, list_elem_of_singleton.
      split_and!; [by right|done..].
    + destruct (Hb c w) as [?|(x & ? & ? & ?)]; [done|by left|].
      right. exists x. rewrite elem_of_app. auto.
  - intros w. rewrite elem_of_app, list_elem_of_singleton. intros [Hin| ->]; simpl.
    + rewrite lookup_insert_ne; [auto|]. intros ->. rewrite (Hq _ Hin) in Hfresh. done.
    + apply lookup_insert_eq.
  - intros c c' w. rewrite !lookup_insert.
    repeat case_decide; intros; simplify_eq;
      first [done | by exfalso; eapply Hnone | by eapply Hi].
  - intros c w. rewrite lookup_insert. case_decide; intros Hc; [subst; lia|]. apply Hf in Hc. lia.
  - rewrite fmap_app, NoDup_app. split_and!; [done| |apply NoDup_singleton].
    intros x (y & -> & Hy)%list_elem_of_fmap Heq%list_elem_of_singleton.
    apply (Hnone (ready y)). rewrite (Hq _ Hy). by f_equal.
  - intros w. rewrite elem_of_app, list_elem_of_singleton. intros [Hin| ->]; [auto|].
    simpl. intros Hc%Hcn. lia.
  - intros c Hc%Hcn. lia.
Qed.

Lemma step_wake_inv a s s' :
  wake_inv s → disciplined a s = true → step a s = Some s' → wake_inv s'.
Proof.
  intros Hw Hd Hs. destruct a; simpl in *; simplify_eq.
  - unfold Reserve in Hs. apply negb_true_iff in Hd.
    repeat case_match; simplify_eq/=; try by apply wake_inv_advance; auto with limiter.
    + apply wake_inv_advance; [done|]. eapply advances_trans; [apply (advances_reset (clk 0%nat))|].
      by apply advances_same.
    + apply wake_inv_enqueue; auto with limiter.
  - repeat case_match; simplify_eq. by apply wake_inv_wake.
  - repeat case_match; simplify_eq. by apply wake_inv_cancel.
  - apply wake_inv_advance; auto with limiter.
  - apply wake_inv_advance; auto with limiter.
  - pose proof (advances_Extend wf additional now (lim s)) as Ha.
    destruct (Extend wf additional now (lim s)) as [[] l]; simplify_eq;
      by apply wake_inv_advance.
  - repeat case_match; simplify_eq. apply wake_inv_advance; auto with limiter.
  - repeat case_match; simplify_eq. apply wake_inv_advance; auto with limiter.
  - apply wake_inv_advance; auto with limiter.
  - apply wake_inv_advance; auto with limiter.
  - apply wake_inv_advance; auto with limiter.
  - repeat case_match; simplify_eq. apply wake_inv_advance; auto with limiter.
  - destruct (Stop (lim s)) eqn:Hst; simplify_eq/=. apply wake_inv_advance; auto with limiter.
Qed.

Lemma run_wake_inv acts : ∀ s s',
  wake_inv s → disciplined_run acts s = true → run acts s = Some s' → wake_inv s'.
Proof.
  induction acts as [|a acts IH]; intros s s' Hw Hd Hr; simplify_eq/=; [done|].
  apply andb_true_iff in Hd as [Ha Hd].
  destruct (step a s) as [s1|] eqn:Hs; simplify_eq/=.
  eapply IH; [|done..]. by eapply step_wake_inv.
Qed.

(** ** The limiter shows the desk *)

Definition desk_shown (s : Sys) : desk := desk_of (lim s) (blocked s).

Lemma desk_roll now l pk :
  d_roll now (desk_of l pk) = desk_of (resetWindowIfNeeded now l).1 pk ∧
  d_over now (desk_of l pk) = (resetWindowIfNeeded now l).2.
Proof. unfold d_roll, d_over, resetWindowIfNeeded. simpl. by case_match. Qed.

Lemma desk_free n l pk :
  inv l → 0 < n ≤ max_request →
  (n <=? d_free (desk_of l pk)) = fits n (calculateTotalReserved l) l.
Proof.
  intros Hi Hn. rewrite fits_spec by done. unfold d_free. simpl.
  rewrite map_sum_fmap. change (map_sum _ (reservations l)) with (total_reserved l).
  apply eq_true_iff_eq. rewrite !Z.leb_le. lia.
Qed.

Lemma desk_lend wf n now l pk :
  heap_ok l →
  d_lend (<[wf := (n, 0)]> (d_promises (desk_of l pk))) (desk_of l pk)
  = desk_of (store_reservation wf n now l) pk.
Proof.
  intros Hh. unfold desk_of, d_lend. rewrite reservations_store by done. simpl.
  by rewrite fmap_insert.
Qed.

Lemma desk_write wf p r r' l pk :
  heap_ok l → activeReservations l !! wf = Some p → objects l !! p = Some r →
  d_lend (<[wf := promise_of r']> (d_promises (desk_of l pk))) (desk_of l pk)
  = desk_of (set_object p r' l) pk.
Proof.
  intros Hh Hk Hp. unfold desk_of, d_lend.
  rewrite (reservations_set_object wf p r r' l) by done. simpl. by rewrite fmap_insert.
Qed.

Lemma desk_call q : ∀ i clk l pk, inv l → waitQueue l = q →
  d_call (ticket_of <$> q) i clk (desk_of l pk)
  = desk_of (tryGrantFuel (length q) i clk l).1 pk.
Proof.
  induction q as [|w q IH]; intros i clk l pk Hi Hq; [done|].
  cbn [length tryGrantFuel fmap list_fmap d_call]. rewrite Hq. simpl.
  destruct (desk_roll (clk (2 * i)%nat) l pk) as [Hr _]. simpl in Hr. rewrite Hr.
  destruct (sound_reset (clk (2 * i)%nat) l Hi) as [Hi1 _]. simpl in Hi1.
  destruct (reset_frame (clk (2 * i)%nat) l) as (_&_&_&Hwq&_). simpl in Hwq.
  set (l1 := (resetWindowIfNeeded _ l).1) in *.
  pose proof (inv_queue l Hi) as Hw. rewrite Hq in Hw. apply Forall_cons_1 in Hw as [Hw Hws].
  rewrite desk_free by done. destruct (fits _ _ l1) eqn:Hf; [|done].
  set (now := clk _).
  rewrite (desk_lend _ _ now) by apply Hi1.
  set (l2 := store_reservation _ _ now l1).
  assert (Hi2 : inv l2) by (by apply sound_grant).
  set (l3 := set_queue q _ _ l2).
  destruct (tryGrantFuel _ (S i) clk l3) as [l4 g] eqn:Hrec. simpl.
  change l4 with (l4, g).1. rewrite <- Hrec, <- (IH (S i) clk l3 pk); [done| |done].
  by apply sound_queue.
Qed.

Lemma desk_next clk l pk :
  inv l → d_next clk (desk_of l pk) = desk_of (tryGrantWaiting clk l).1 pk.
Proof. intros Hi. by apply desk_call. Qed.

Lemma desk_leave wf q :
  d_leave wf (ticket_of <$> q) = ticket_of <$> removeFirst wf q.
Proof.
  induction q as [|w q IH]; [done|]. simpl.
  destruct (String.eqb_spec (w_workflowID w) wf); case_decide; simpl in *; try done.
  by f_equal.
Qed.

Lemma desk_promise wf l pk :
  d_promises (desk_of l pk) !! wf = promise_of ∘ snd <$> lookup_reservation wf l.
Proof.
  simpl. rewrite lookup_fmap. unfold lookup_reservation, reservations, reservations_of.
  rewrite lookup_omap.
  destruct (activeReservations l !! wf) as [p|]; [|done]. simpl. by destruct (objects l !! p).
Qed.

(** An operation on a workflow's own reservation is the desk's operation on its
    promise, if they agree once the reservation is found. *)
Lemma desk_with wf l pk (F : result error unit * Limiter)
    (f : nat → reservation → result error unit * Limiter) k :
  F = (if String.eqb wf "" then (Err ErrInvalidWorkflowID, l)
       else match lookup_reservation wf l with
            | None => (Err ErrReservationNotHeld, l)
            | Some (p, r) => f p r
            end) →
  (∀ p r, activeReservations l !! wf = Some p → objects l !! p = Some r →
     k (slotsReserved r) (slotsConsumed r) = (replied (f p r).1, desk_of (f p r).2 pk)) →
  with_promise wf (desk_of l pk) k = (replied F.1, desk_of F.2 pk).
Proof.
  intros -> Hk. unfold with_promise. destruct (String.eqb_spec wf ""); case_decide; try done.
  rewrite desk_promise. destruct (lookup_reservation wf l) as [[p r]|] eqn:Hl; [|done].
  apply lookup_reservation_view in Hl as [? ?]. by apply Hk.
Qed.

Lemma desk_Reserve wf n clk l pk :
  inv l → n ≤ max_request →
  d_reserve wf n clk (desk_of l pk) =
    (answer (AReserve wf n clk) (mkSys l pk []),
     match (Reserve wf n clk l).1 with
     | Queued t => desk_of (Reserve wf n clk l).2 (<[t := wf]> pk)
     | _ => desk_of (Reserve wf n clk l).2 pk
     end).
Proof.
  intros Hi Hn. unfold d_reserve, answer, Reserve.
  destruct (String.eqb_spec wf ""); case_decide; try done.
  destruct (n <=? 0) eqn:Hn0; [done|]. z_bools.
  assert (Hh : is_Some (d_promises (desk_of l pk) !! wf) ↔ is_Some (activeReservations l !! wf)).
  { rewrite desk_promise, fmap_is_Some. unfold lookup_reservation.
    destruct (activeReservations l !! wf) as [p|] eqn:Hp; simpl; [|done].
    destruct (heap_alloc l (inv_heap l Hi) _ _ Hp) as [r ->]. simpl. split; eauto. }
  simpl lim. destruct (activeReservations l !! wf) as [p|] eqn:Hp; simpl in Hh |- *.
  { rewrite decide_True by (apply Hh; eauto). done. }
  rewrite decide_False by (rewrite Hh; by intros [? [=]]).
  destruct (desk_roll (clk 0%nat) l pk) as [Hr _]. simpl in Hr. rewrite Hr.
  destruct (sound_reset (clk 0%nat) l Hi) as [Hi1 _]. simpl in Hi1.
  destruct (reset_frame (clk 0%nat) l) as (_&_&_&_&_&_&_&Ht). simpl in Ht. rewrite <- Ht.
  set (l1 := (resetWindowIfNeeded _ l).1) in *.
  rewrite desk_free by (try done; lia). destruct (fits _ _ l1); simpl.
  - f_equal. apply (desk_lend wf n (clk 1%nat)), Hi1.
  - unfold desk_of. simpl. by rewrite fmap_app.
Qed.

Lemma desk_Consume wf now l pk :
  inv l →
  serve (AConsume wf now) (desk_of l pk)
  = Some (replied (Consume wf now l).1, desk_of (Consume wf now l).2 pk).
Proof.
  intros Hi. simpl. f_equal. eapply desk_with; [reflexivity|]. intros p r Hk Hp. simpl.
  destruct (slotsReserved r <=? slotsConsumed r) eqn:Hc; [done|]. z_bools. simpl. f_equal.
  destruct (desk_roll now l pk) as [Hr _]. simpl in Hr. rewrite Hr.
  destruct (sound_reset now l Hi) as [Hi1 _]. simpl in Hi1.
  destruct (reset_frame now l) as (Hv&Ha&Ho&_). simpl in *.
  set (l1 := (resetWindowIfNeeded now l).1) in *.
  pose proof (consumed_le_limit l1 Hi1). pose proof (inv_consumed l1 Hi1).
  pose proof (inv_limit l1 Hi1).
  assert (Hvw : reservations l !! wf = Some r) by (apply reservations_lookup; eauto).
  pose proof (inv_res l Hi _ _ Hvw). pose proof (slots_le_limit l wf r Hi Hvw).
  pose proof (inv_limit l Hi).
  unfold max_limit, reservation_ok in *. rewrite !i64_id by lia.
  set (l2 := set_consumed (consumed l1 + 1) l1).
  rewrite <- (desk_write wf p r (with_consumed (slotsConsumed r + 1) r) l2 pk); try done.
  - by eapply heap_ok_frame; [apply inv_heap, Hi1|..].
  - simpl. by rewrite Ha.
  - simpl. by rewrite Ho.
Qed.

Lemma desk_AdjustDown wf n clk l pk :
  inv l →
  serve (AAdjustDown wf n clk) (desk_of l pk)
  = Some (replied (AdjustDown wf n clk l).1, desk_of (AdjustDown wf n clk l).2 pk).
Proof.
  intros Hi. simpl. f_equal. eapply desk_with; [reflexivity|]. intros p r Hk Hp. simpl.
  destruct (n <? slotsConsumed r) eqn:?, (slotsReserved r <=? n) eqn:?; try done. z_bools. simpl.
  assert (reservation_ok r) by (apply (inv_res l Hi wf), reservations_lookup; eauto).
  rewrite <- desk_next.
  - by rewrite <- (desk_write wf p r (with_reserved n r) l pk) by (done || apply Hi).
  - unfold reservation_ok in *.
    apply (inv_set_object wf p r); try done; unfold reservation_ok, outstanding; simpl; lia.
Qed.

Lemma desk_SignalComplete wf clk l pk :
  inv l →
  serve (ASignalComplete wf clk) (desk_of l pk)
  = Some (replied (SignalComplete wf clk l).1, desk_of (SignalComplete wf clk l).2 pk).
Proof.
  intros Hi. simpl. f_equal. eapply desk_with; [reflexivity|]. intros p r Hk Hp. simpl.
  assert (Hvw : reservations l !! wf = Some r) by (apply reservations_lookup; eauto).
  assert (reservation_ok r) by (by apply (inv_res l Hi wf)).
  rewrite <- desk_next by (by apply (inv_set_object wf p r)).
  rewrite <- (desk_write wf p r (with_completed r) l pk) by (done || apply Hi).
  unfold d_lend. rewrite insert_id; [done|]. simpl. by rewrite lookup_fmap, Hvw.
Qed.

Lemma desk_Release wf clk l pk :
  inv l →
  serve (ARelease wf clk) (desk_of l pk)
  = Some (replied (Release wf clk l).1, desk_of (Release wf clk l).2 pk).
Proof.
  intros Hi. simpl. f_equal. eapply desk_with.
  { unfold Release. destruct (String.eqb wf ""); [done|].
    destruct (lookup_reservation wf l) as [[p r]|]; reflexivity. }
  intros p r Hk Hp. simpl. rewrite <- desk_next by (by apply sound_release).
  unfold desk_of, d_lend. rewrite reservations_delete. simpl. by rewrite fmap_delete.
Qed.

Lemma promises_empty l pk :
  heap_ok l → d_promises (desk_of l pk) = ∅ ↔ activeReservations l = ∅.
Proof.
  intros Hh. rewrite !map_empty. apply forall_proper. intros wf. rewrite desk_promise, fmap_None.
  unfold lookup_reservation. destruct (activeReservations l !! wf) as [p|] eqn:Hp; simpl; [|done].
  destruct (heap_alloc l Hh _ _ Hp) as [r ->]. done.
Qed.

Lemma desk_Stats now l pk :
  inv l →
  serve (AStats now) (desk_of l pk)
  = Some (let '(m, q, n, b) := (Stats now l).1 in RStats m q n b,
          desk_of (Stats now l).2 pk).
Proof.
  intros Hi. unfold serve. destruct (desk_roll now l pk) as [-> _].
  destruct (sound_reset now l Hi) as [Hi1 _]. unfold Stats. simpl.
  rewrite length_fmap. repeat f_equal. apply bool_decide_ext.
  exact (promises_empty _ pk (inv_heap _ Hi1)).
Qed.

Lemma desk_tick now clk l pk :
  inv l →
  (if bool_decide (d_line (desk_of l pk) = []) || negb (d_over now (desk_of l pk))
   then desk_of l pk else d_next clk (d_roll now (desk_of l pk)))
  = desk_of (windowResetWatcher_tick now clk l) pk.
Proof.
  intros Hi. destruct (desk_roll now l pk) as [-> ->].
  unfold windowResetWatcher_tick. simpl. destruct (waitQueue l) as [|w q] eqn:Hq; [done|]. simpl.
  pose proof (sound_reset now l Hi) as [Hi1 _]. unfold resetWindowIfNeeded in *.
  destruct (window l <=? _); simpl in *; [by apply desk_next|done].
Qed.

(** One step of the limiter is one action of the desk, with the same reply. *)
Lemma step_served a s :
  action_ok a = true → extending s = [] → inv (lim s) →
  serve a (desk_shown s) = (λ s', (answer a s, desk_shown s')) <$> step a s.
Proof.
  unfold desk_shown. intros Hok He Hi. destruct a; try done.
  - simpl. rewrite desk_Reserve by (try done; simpl in Hok; z_bools; lia). simpl.
    destruct (Reserve wf count clk (lim s)) as [[] l]; done.
  - unfold serve, step. cbn [desk_of d_parked d_called].
    destruct (blocked s !! ch) as [wf|]; repeat case_decide; naive_solver.
  - simpl. destruct (blocked s !! ch) as [wf|]; simpl; [|done].
    unfold desk_of. simpl. by rewrite desk_leave.
  - by rewrite desk_Consume.
  - by rewrite desk_AdjustDown.
  - simpl. by rewrite He, lookup_nil.
  - simpl. by rewrite He, lookup_nil.
  - by rewrite desk_SignalComplete.
  - by rewrite desk_Release.
  - by rewrite desk_Stats.
  - unfold serve, step. change (d_shut _) with (stopped (lim s)).
    destruct (stopped (lim s)); [done|]. by rewrite desk_tick.
  - simpl. unfold Stop. by destruct (stopped (lim s)).
Qed.

Lemma observed_served acts : ∀ s,
  Forall (λ a, action_ok a = true) acts → extending s = [] → inv (lim s) →
  serve_all acts (desk_shown s) = prod_map id desk_shown <$> observed acts s.
Proof.
  induction acts as [|a acts IH]; intros s Hok He Hi; [done|].
  apply Forall_cons_1 in Hok as [Ha Hok]. cbn [serve_all observed].
  rewrite step_served by done. destruct (step a s) as [s1|] eqn:Hs; [|done]. simpl.
  destruct (step_sound a s s1 Ha He Hs) as [Hsd He1]. destruct (Hsd Hi) as [Hi1 _].
  rewrite IH by done. by destruct (observed acts s1) as [[rs s2]|].
Qed.

(** ** Properties *)

(** C2.  Whatever the interleaving of workflows, cancellations, window resets and
    ticks (with requests of a sane size and without [Extend]), the calls made in
    the current window plus the calls promised to active reservations never
    exceed the plan's quota; in particular the window's calls stay within
    [RequestsPerMinute], and so do the reserved slots. *)
Theorem limiter_window_quota cfg now acts s :
  0 ≤ RequestsPerMinute cfg ≤ max_limit →
  Forall (λ a, action_ok a = true) acts →
  run acts (init cfg now) = Some s →
  consumed (lim s) + total_outstanding (lim s) ≤ RequestsPerMinute cfg ∧
  0 ≤ consumed (lim s) ≤ RequestsPerMinute cfg ∧
  total_reserved (lim s) ≤ RequestsPerMinute cfg.
Proof.
  intros Hl Hok Hr. destruct (run_sound acts (init cfg now) s Hok eq_refl Hr) as [Hs _].
  destruct (Hs (init_inv cfg now Hl)) as (Hi & Hlim). simpl in Hlim. rewrite <- Hlim.
  pose proof (consumed_le_limit _ Hi). destruct Hi. lia.
Qed.

(** C13.  The limiter is the quota desk.  For any sequence of the limiter's
    operations without [Extend] (with requests of a sane size, at any clock
    readings and in any order, the waiting callers' wake-ups and cancellations
    and the watcher's ticks among them), every caller gets the reply the desk
    gives, the sequence can happen exactly when the desk can serve it, and the
    state in the end is the desk's: the calls of the window, each workflow's
    promise, the line with its tickets and the parked callers.  So a call is
    taken out of its own workflow's promise and no other, a request is granted
    exactly when it fits what is neither made nor held, the line moves from its
    head only, and a rejected operation changes nothing. *)
Theorem limiter_refines_quota cfg now acts :
  0 ≤ RequestsPerMinute cfg ≤ max_limit →
  Forall (λ a, action_ok a = true) acts →
  serve_all acts (open_desk cfg now)
  = prod_map id desk_shown <$> observed acts (init cfg now).
Proof.
  intros Hl Hok. rewrite <- observed_served by (try done; by apply init_inv). done.
Qed.

(** [tryGrantWaiting] serves the queue in FIFO order and stops only at a head
    that does not fit: it grants a prefix, closes exactly those waiters'
    channels, gives each granted workflow a fresh reservation of the size it
    asked for, and leaves every other reservation alone. *)
Theorem tryGrantWaiting_fifo clk l l' n :
  heap_ok l → tryGrantWaiting clk l = (l', n) →
  ∃ granted, length granted = n ∧ drained l l' granted.
Proof.
  intros Hh Hr. destruct (tryGrantFuel_drained _ 0 clk l l' n (le_n _) Hh Hr)
    as (g & ? & ? & _). eauto.
Qed.

(** A waiter is not starved by an idle limiter: when no reservation is active
    and the window has run out, one watcher tick grants the head of the queue,
    provided its request fits a whole window at all. *)
Theorem tick_wakes_head now clk l next rest :
  inv l → activeReservations l = ∅ → waitQueue l = next :: rest →
  requestedSlots next ≤ limit l → window l ≤ time_sub now (windowStart l) →
  0 ≤ time_sub (clk 0%nat) now < window l →
  ready next ∈ closed (windowResetWatcher_tick now clk l).
Proof.
  intros Hi Ha Hq Hfit Hw Hclk. unfold windowResetWatcher_tick, resetWindowIfNeeded.
  rewrite Hq. rewrite (proj2 (Z.leb_le _ _) Hw).
  set (l1 := set_window now 0 l).
  assert (Hi1 : inv l1).
  { pose proof (sound_reset now l Hi) as (H & _). unfold resetWindowIfNeeded in H.
    by rewrite (proj2 (Z.leb_le _ _) Hw) in H. }
  unfold tryGrantWaiting. change (waitQueue l1) with (waitQueue l).
  rewrite Hq. cbn [length tryGrantFuel]. change (waitQueue l1) with (waitQueue l). rewrite Hq.
  change (clk (2 * 0)%nat) with (clk 0%nat).
  assert (Hno : (resetWindowIfNeeded (clk 0%nat) l1).1 = l1).
  { unfold resetWindowIfNeeded. change (window l1) with (window l).
    change (windowStart l1) with now. case_match; [|done]. z_bools. lia. }
  rewrite Hno. pose proof (inv_queue l Hi) as Hwq. rewrite Hq in Hwq.
  apply Forall_cons_1 in Hwq as [Hn _].
  rewrite fits_spec by done.
  assert (Hz : total_reserved l1 = 0).
  { unfold total_reserved, reservations, reservations_of. simpl. by rewrite Ha, omap_empty. }
  rewrite Hz. change (consumed l1) with 0. change (limit l1) with (limit l).
  rewrite (proj2 (Z.leb_le _ _)) by lia.
  set (l2 := set_queue _ _ _ _).
  destruct (tryGrantFuel _ 1 clk l2) as [l3 g] eqn:Hrec.
  pose proof (advances_tryGrantFuel (length rest) 1 clk l2) as (gr & _ & Hc & _).
  rewrite Hrec in Hc. simpl in *. rewrite Hc. set_solver.
Qed.

(** No wake-up is lost: as long as no caller asks for a workflow that is
    already waiting, every caller blocked in [Reserve] either has its channel
    closed (it can return) or is still queued, once. *)
Theorem blocked_callers_reachable cfg now acts s ch wf :
  disciplined_run acts (init cfg now) = true → run acts (init cfg now) = Some s →
  blocked s !! ch = Some wf →
  NoDup (w_workflowID <$> waitQueue (lim s)) ∧
  ((ch ∈ closed (lim s) ∧ wf ∉ (w_workflowID <$> waitQueue (lim s))) ∨
   (ch ∉ closed (lim s) ∧
    ∃ w, w ∈ waitQueue (lim s) ∧ ready w = ch ∧ w_workflowID w = wf)).
Proof.
  intros Hd Hr Hb. pose proof (run_wake_inv acts _ _ (wake_inv_init cfg now) Hd Hr) as Hw.
  split; [apply Hw|]. destruct (wi_blocked _ Hw _ _ Hb) as [Hc|(w & Hin & Hrd & Hid)].
  - left. split; [done|]. intros (w & -> & Hin)%list_elem_of_fmap.
    pose proof (wi_queued _ Hw _ Hin) as Hbw.
    pose proof (wi_inj _ Hw _ _ _ Hb Hbw). subst. by eapply (wi_open _ Hw).
  - right. split; [|eauto]. subst. by apply (wi_open _ Hw).
Qed.

(** A rejected operation changes nothing: whenever [Reserve], [Consume],
    [AdjustDown], [SignalComplete], [Release] or [Extend] reports an error
    without waiting, the limiter is exactly as before. *)
Theorem rejected_unchanged wf n now clk l e :
  ((Reserve wf n clk l).1 = Rejected e → (Reserve wf n clk l).2 = l) ∧
  ((Consume wf now l).1 = Err e → (Consume wf now l).2 = l) ∧
  ((AdjustDown wf n clk l).1 = Err e → (AdjustDown wf n clk l).2 = l) ∧
  ((SignalComplete wf clk l).1 = Err e → (SignalComplete wf clk l).2 = l) ∧
  ((Release wf clk l).1 = Err e → (Release wf clk l).2 = l) ∧
  ((Extend wf n now l).1 = ExtendDone (Err e) → (Extend wf n now l).2 = l).
Proof.
  unfold Reserve, Consume, ConsumeWithOperation, AdjustDown, SignalComplete, Release, Extend.
  split_and!; repeat case_match; by intros; simplify_eq/=.
Qed.

(** The wrapped client sends a request upstream exactly when the workflow held
    an unused slot, and the request used that slot up: one call per consumed
    slot. *)
Theorem client_sends_only_reserved {Req Resp} (client : Req → Resp) m ctx req now l
    r l' sent :
  limited client m ctx req now l = (r, l', sent) →
  (sent = [] ∧ l' = l ∧ is_ok r = false) ∨
  (sent = [req] ∧ r = Ok (client req) ∧
   ∃ p res, lookup_reservation (WorkflowIDFromContext ctx) l = Some (p, res) ∧
     slotsConsumed res < slotsReserved res ∧
     lookup_reservation (WorkflowIDFromContext ctx) l' =
       Some (p, with_consumed (i64 (slotsConsumed res + 1)) res)).
Proof.
  unfold limited, ConsumeWithOperation. set (wf := WorkflowIDFromContext ctx).
  destruct (String.eqb wf ""); [intros; simplify_eq; by left|].
  destruct (lookup_reservation wf l) as [[p res]|] eqn:Hl; [|intros; simplify_eq; by left].
  destruct (slotsReserved res <=? slotsConsumed res) eqn:Hc; intros; simplify_eq; [by left|].
  right. z_bools. split_and!; try done. exists p, res. split_and!; try done.
  apply lookup_reservation_view in Hl as [Hk Hp]. apply lookup_reservation_view.
  destruct (reset_frame now l) as (_&Ha&_). simpl. by rewrite Ha, lookup_insert_eq.
Qed.

(** ** Where the limiter falls short *)

Definition starter : Config := mkConfig 5 0 1.
Definition at_ (t : Z) : nat → Z := λ _, t.

(** [Extend] ignores the other reservations: with the starter quota of 5, two
    workflows holding 3 and 2 slots can end up making 8 calls in one window. *)
Theorem extend_exceeds_quota :
  ∃ acts s, run acts (init starter 0) = Some s ∧
    limit (lim s) = 5 ∧ windowStart (lim s) = 0 ∧ consumed (lim s) = 8.
Proof.
  exists ([AReserve "a" 3 (at_ 1); AReserve "b" 2 (at_ 1); AExtend "b" 3 1]
          ++ replicate 3 (AConsume "a" 2) ++ replicate 5 (AConsume "b" 2)).
  eexists. split; [vm_compute; reflexivity|]. by vm_compute.
Qed.

(** A caller whose context ends after its request was granted returns an error
    while its reservation stays active: nobody holds it, and every later
    [Reserve] for that workflow is rejected. *)
Theorem cancelled_grant_leaks s ch wf p n clk s' :
  wake_inv s → blocked s !! ch = Some wf → ch ∈ closed (lim s) →
  activeReservations (lim s) !! wf = Some p →
  0 < n → wf ≠ "" →
  step (ACancel ch) s = Some s' →
  activeReservations (lim s') !! wf = Some p ∧
  waits wf s' = false ∧
  (Reserve wf n clk (lim s')).1 = Rejected ErrAlreadyReserved.
Proof.
  intros Hw Hb Hc Ha Hn Hne Hs. simpl in Hs. rewrite Hb in Hs. simplify_eq/=.
  split_and!; [done| |].
  - apply not_true_is_false. intros (kv & Hin & Hkv)%existsb_exists.
    apply list_elem_of_In in Hin. destruct kv as [c w].
    apply elem_of_map_to_list in Hin. simpl in Hin. apply lookup_delete_Some in Hin as [Hcne Hin].
    apply String.eqb_eq in Hkv. simpl in Hkv. subst. apply Hcne.
    by apply (wi_inj _ Hw _ _ wf).
  - unfold Reserve. rewrite (proj2 (String.eqb_neq _ _) Hne).
    rewrite (proj2 (Z.leb_gt _ _)) by lia. simpl. by rewrite Ha.
Qed.

(** Two callers waiting for the same workflow: cancelling the second removes
    the first one's queue entry, and the first is left blocked on a channel that
    is neither closed nor queued, while the entry of the cancelled one stays.  And a [Stats] call that rolls the window does
    not wake anyone: with capacity free and a waiter queued, the next tick of
    the same window grants nothing. *)
Theorem wakeups_lost :
  (∃ acts s, run acts (init starter 0) = Some s ∧
     blocked s = {[ 0%nat := "w" ]} ∧ map ready (waitQueue (lim s)) = [1%nat] ∧
     closed (lim s) = ∅) ∧
  (∃ acts s s', run acts (init starter 0) = Some s ∧
     map requestedSlots (waitQueue (lim s)) = [3] ∧
     activeReservations (lim s) = ∅ ∧ consumed (lim s) = 0 ∧
     step (ATick (70 * second) (at_ (70 * second))) s = Some s' ∧
     closed (lim s') = ∅).
Proof.
  split.
  - exists [AReserve "a" 5 (at_ 1); AReserve "w" 2 (at_ 1); AReserve "w" 2 (at_ 1); ACancel 1].
    eexists. split; [vm_compute; reflexivity|]. by vm_compute.
  - exists ([AReserve "a" 5 (at_ 1)] ++ replicate 5 (AConsume "a" 1) ++
            [AReserve "w" 3 (at_ 1); ARelease "a" (at_ 1); AStats (60 * second)]).
    eexists _, _. split; [vm_compute; reflexivity|]. by vm_compute.
Qed.

(** ** Witnesses *)

Definition demo_acts : list action :=
  [AReserve "a" 3 (at_ 1); AReserve "b" 4 (at_ 2); AConsume "a" 3;
   ARelease "a" (at_ 4); AWake 0; AConsume "b" 5].
Definition demo_queued : list action := [AReserve "a" 3 (at_ 1); AReserve "b" 4 (at_ 2)].
Definition demo_state (acts : list action) : Sys :=
  default (init starter 0) (run acts (init starter 0)).

Lemma limiter_window_quota_witness :
  consumed (lim (demo_state demo_acts)) + total_outstanding (lim (demo_state demo_acts))
    ≤ RequestsPerMinute starter.
Proof.
  refine (proj1 (limiter_window_quota starter 0 demo_acts (demo_state demo_acts) _ _ _)).
  - by vm_compute.
  - repeat constructor.
  - vm_compute; reflexivity.
Defined.

Lemma limiter_refines_quota_witness :
  fst <$> serve_all demo_acts (open_desk starter 0)
  = Some [RGranted; RTicket 0; RDone; RDone; RGranted; RDone].
Proof.
  rewrite (limiter_refines_quota starter 0 demo_acts).
  - vm_compute; reflexivity.
  - by vm_compute.
  - repeat constructor.
Defined.

Lemma demo_heap_ok acts : Forall (λ a, action_ok a = true) acts →
  is_Some (run acts (init starter 0)) → inv (lim (demo_state acts)).
Proof.
  intros Hok [s Hs]. unfold demo_state. rewrite Hs. simpl.
  destruct (run_sound acts _ s Hok (eq_refl [] : extending (init starter 0) = []) Hs) as [H _].
  apply H. by apply init_inv.
Qed.

Lemma tryGrantWaiting_fifo_witness :
  ∃ granted, length granted = 0%nat ∧
    drained (lim (demo_state demo_queued)) (lim (demo_state demo_queued)) granted.
Proof.
  refine (tryGrantWaiting_fifo (at_ 3) _ _ 0 _ _).
  - apply inv_heap, demo_heap_ok; [repeat constructor|vm_compute; eauto].
  - vm_compute; reflexivity.
Defined.

Definition demo_idle : list action :=
  [AReserve "a" 3 (at_ 1)] ++ replicate 3 (AConsume "a" 1) ++
  [AReserve "b" 4 (at_ 2); ARelease "a" (at_ 3)].

Lemma tick_wakes_head_witness :
  ready (mkWaiting "b" 4 2 0) ∈ closed (windowResetWatcher_tick (60 * second) (at_ (60 * second))
                (lim (demo_state demo_idle))).
Proof.
  refine (tick_wakes_head (60 * second) (at_ (60 * second)) (lim (demo_state demo_idle))
           (mkWaiting "b" 4 2 0) [] _ _ _ _ _ _).
  - apply demo_heap_ok; [repeat constructor|vm_compute; eauto].
  - vm_compute; reflexivity.
  - vm_compute; reflexivity.
  - by vm_compute.
  - by vm_compute.
  - by vm_compute.
Defined.

Lemma blocked_callers_reachable_witness :
  NoDup (w_workflowID <$> waitQueue (lim (demo_state demo_queued))).
Proof.
  refine (proj1 (blocked_callers_reachable starter 0 demo_queued _ 0 "b" _ _ _));
    vm_compute; reflexivity.
Defined.

Lemma rejected_unchanged_witness :
  (Consume "" 0 (NewLimiter starter 0)).2 = NewLimiter starter 0.
Proof.
  refine (proj1 (proj2 (rejected_unchanged "" 1 0 (at_ 0) (NewLimiter starter 0)
    ErrInvalidWorkflowID)) _).
  reflexivity.
Defined.

Lemma client_sends_only_reserved_witness :
  let l := lim (demo_state demo_queued) in
  let out := limited (λ n : Z, n + 1) "ListBots" (WithWorkflowID "a" None) 7 3 l in
  out.2 = [7].
Proof.
  intros l out.
  destruct (client_sends_only_reserved (λ n : Z, n + 1) "ListBots" (WithWorkflowID "a" None)
              7 3 l out.1.1 out.1.2 out.2) as [(H & _ & H')|(H & _)].
  - vm_compute; reflexivity.
  - vm_compute in H'. discriminate.
  - exact H.
Defined.

Definition demo_granted : list action :=
  [AReserve "a" 3 (at_ 1); AReserve "b" 4 (at_ 2); ARelease "a" (at_ 3)].

Lemma cancelled_grant_leaks_witness :
  (Reserve "b" 1 (at_ 9) (lim (demo_state (demo_granted ++ [ACancel 0])))).1
    = Rejected ErrAlreadyReserved.
Proof.
  refine (proj2 (proj2 (cancelled_grant_leaks (demo_state demo_granted) 0 "b" 1 1 (at_ 9)
    (demo_state (demo_granted ++ [ACancel 0])) _ _ _ _ _ _ _))).
  - refine (run_wake_inv demo_granted (init starter 0) _ (wake_inv_init starter 0) _ _);
      vm_compute; reflexivity.
  - vm_compute; reflexivity.
  - by vm_compute.
  - vm_compute; reflexivity.
  - by vm_compute.
  - done.
  - vm_compute; reflexivity.
Defined.

End RateLimitFacts.
