(* ===== verification/Domain.v ===== *)
(** * The shared data of the program: [recomma/recomma.go] and the plan tiers

    Orders, actions and events as the components pass them around.  The 3Commas
    and Hyperliquid SDKs are third-party modules: their records are given by the
    fields the program reads or writes, and their constants and fingerprint
    functions are the members of the class [SDK]. *)

From S2P Require Import Prelude GoFloat GoString OrderId.
Import GoFloat GoString.

Module Domain.

(** ** Records of the 3Commas SDK *)

Record TcBotEvent := mkTcBotEvent {
  ev_CreatedAt : Z;
  ev_Action : string;
  ev_Coin : string;
  ev_Type : string;
  ev_Status : string;
  ev_Price : f64;
  ev_Size : f64;
  ev_OrderType : string;
  ev_OrderSize : Z;
  ev_OrderPosition : Z;
  ev_IsMarket : bool;
}.

Definition zero_event : TcBotEvent :=
  mkTcBotEvent zero_time "" "" "" "" fzero fzero "" 0 0 false.

(** A deal; [dl_Events] is the value of its method [Events()]. *)
Record TcDeal := mkTcDeal {
  dl_Id : Z;
  dl_BotId : Z;
  dl_Finished : bool;
  dl_Status : string;
  dl_ToCurrency : string;
  dl_UpdatedAt : Z;
  dl_Events : list TcBotEvent;
}.

(** ** Records of the Hyperliquid SDK *)

Record Trigger := mkTrigger { tr_TriggerPx : f64; tr_IsMarket : bool; tr_Tpsl : string }.

(** [OrderType.Limit] is given by its [Tif]. *)
Record OrderType := mkOrderType { ot_Limit : option string; ot_Trigger : option Trigger }.

Record CreateOrderRequest := mkCreate {
  co_Coin : string;
  co_IsBuy : bool;
  co_Price : f64;
  co_Size : f64;
  co_ReduceOnly : bool;
  co_OrderType : OrderType;
  co_ClientOrderID : option string;
}.

Record ModifyOrderRequest := mkModify {
  mo_Cloid : option string;
  mo_Order : CreateOrderRequest;
}.

Record CancelOrderRequestByCloid := mkCancel { ca_Coin : string; ca_Cloid : string }.

Record WsBasicOrder := mkWsBasicOrder {
  wb_Coin : string;
  wb_Side : string;
  wb_LimitPx : string;
  wb_Sz : string;
  wb_Oid : Z;
  wb_Timestamp : Z;
  wb_OrigSz : string;
  wb_Cloid : option string;
}.

Record WsOrder := mkWsOrder {
  ws_Order : WsBasicOrder;
  ws_Status : string;
  ws_StatusTimestamp : Z;
}.

(** The order of a query result carries the same payload as a stream update. *)
Record OrderQueryResult := mkQueryResult {
  qr_Status : string;
  qr_Order : WsOrder;
}.

#[global] Instance TcBotEvent_eq_dec : EqDecision TcBotEvent.
Proof. solve_decision. Defined.
#[global] Instance Trigger_eq_dec : EqDecision Trigger.
Proof. solve_decision. Defined.
#[global] Instance OrderType_eq_dec : EqDecision OrderType.
Proof. solve_decision. Defined.
#[global] Instance CreateOrderRequest_eq_dec : EqDecision CreateOrderRequest.
Proof. solve_decision. Defined.
#[global] Instance ModifyOrderRequest_eq_dec : EqDecision ModifyOrderRequest.
Proof. solve_decision. Defined.
#[global] Instance CancelOrderRequest_eq_dec : EqDecision CancelOrderRequestByCloid.
Proof. solve_decision. Defined.
#[global] Instance WsBasicOrder_eq_dec : EqDecision WsBasicOrder.
Proof. solve_decision. Defined.
#[global] Instance WsOrder_eq_dec : EqDecision WsOrder.
Proof. solve_decision. Defined.

(** Constants and functions of the SDKs the program uses. *)
Class SDK := {
  BUY : string;
  Active : string;
  Cancelled : string;
  Filled : string;
  Finished : string;
  TakeProfit : string;
  BotEventActionPlace : string;
  BotEventActionCancel : string;
  BotEventActionCancelled : string;
  BotEventActionModify : string;
  FingerprintAsID : TcBotEvent → Z;
  Fingerprint : TcBotEvent → string;
  PlanStarter : string;
  PlanPro : string;
  PlanExpert : string;
  TifIoc : string;
  TifGtc : string;
  OrderQueryStatusSuccess : string;
  OrderStatusValueOpen : string;
  OrderStatusValueFilled : string;
  OrderStatusValueCanceled : string;
}.

(** What the code relies on: the deal states and the times in force are told
    apart, and an open or filled order is not spelled as a cancelled one. *)
Class SDKLaws (sdk : SDK) := {
  states_distinct : NoDup [Active; Cancelled; Filled; Finished];
  tif_distinct : TifIoc ≠ TifGtc;
  values_distinct : NoDup [OrderStatusValueOpen; OrderStatusValueFilled; OrderStatusValueCanceled];
}.

(** ** [recomma/recomma.go] *)

Definition VenueID : Type := string.
#[global] Instance VenueID_eq_dec : EqDecision VenueID := String.eq_dec.
#[global] Instance VenueID_countable : Countable VenueID := String.countable.

Record OrderIdentifier := NewOrderIdentifier {
  oi_VenueID : VenueID;
  oi_Wallet : string;
  oi_OrderId : OrderId.OrderId;
}.

#[global] Instance OrderIdentifier_eq_dec : EqDecision OrderIdentifier.
Proof. solve_decision. Defined.
#[global] Instance OrderIdentifier_countable : Countable OrderIdentifier.
Proof.
  refine (inj_countable' (λ o, (oi_VenueID o, oi_Wallet o, oi_OrderId o))
            (λ '(a, b, c), NewOrderIdentifier a b c) _).
  by intros [].
Defined.

Definition zero_identifier : OrderIdentifier := NewOrderIdentifier "" "" OrderId.zero.

Definition Venue (oi : OrderIdentifier) : string := oi_VenueID oi.
Definition Hex (oi : OrderIdentifier) : string := OrderId.Hex (oi_OrderId oi).

Inductive ActionType := ActionNone | ActionCreate | ActionModify | ActionCancel.
#[global] Instance ActionType_eq_dec : EqDecision ActionType.
Proof. solve_decision. Defined.

Definition ActionType_String (t : ActionType) : string :=
  match t with
  | ActionCreate => "create"
  | ActionModify => "modify"
  | ActionCancel => "cancel"
  | ActionNone => "none"
  end.

Definition zero_create : CreateOrderRequest :=
  mkCreate "" false fzero fzero false (mkOrderType None None) None.
Definition zero_modify : ModifyOrderRequest := mkModify None zero_create.
Definition zero_cancel : CancelOrderRequestByCloid := mkCancel "" "".

Record Action := mkAction {
  ac_Type : ActionType;
  ac_Create : CreateOrderRequest;
  ac_Modify : ModifyOrderRequest;
  ac_Cancel : CancelOrderRequestByCloid;
  ac_Reason : string;
}.
#[global] Instance Action_eq_dec : EqDecision Action.
Proof. solve_decision. Defined.

Definition zero_action : Action := mkAction ActionNone zero_create zero_modify zero_cancel "".

(** Composite literals of [recomma.Action] with the other fields zero. *)
Definition action_none (reason : string) : Action :=
  mkAction ActionNone zero_create zero_modify zero_cancel reason.
Definition action_create (req : CreateOrderRequest) (reason : string) : Action :=
  mkAction ActionCreate req zero_modify zero_cancel reason.
Definition action_modify (req : ModifyOrderRequest) (reason : string) : Action :=
  mkAction ActionModify zero_create req zero_cancel reason.
Definition action_cancel (req : CancelOrderRequestByCloid) (reason : string) : Action :=
  mkAction ActionCancel zero_create zero_modify req reason.

(** [recomma.BotEvent] embeds the SDK's event. *)
Record BotEvent := mkBotEvent { be_RowID : Z; be_Event : TcBotEvent }.
#[global] Instance BotEvent_eq_dec : EqDecision BotEvent.
Proof. solve_decision. Defined.

Definition zero_botevent : BotEvent := mkBotEvent 0 zero_event.

Record OrderWork := mkOrderWork {
  ow_Identifier : OrderIdentifier;
  ow_OrderId : OrderId.OrderId;
  ow_Action : Action;
  ow_BotEvent : BotEvent;
}.
#[global] Instance OrderWork_eq_dec : EqDecision OrderWork.
Proof. solve_decision. Defined.

Record BotEventLog := mkBotEventLog {
  bl_RowID : Z;
  bl_BotEvent : TcBotEvent;
  bl_OrderId : OrderId.OrderId;
  bl_BotID : Z;
  bl_DealID : Z;
  bl_BoteventID : Z;
  bl_CreatedAt : Z;
  bl_ObservedAt : Z;
}.

Definition ToThreeCommasBotEvent (l : list BotEvent) : list TcBotEvent := be_Event <$> l.

(** Assignments to fields of a request. *)
Definition with_size (q : f64) (c : CreateOrderRequest) : CreateOrderRequest :=
  mkCreate (co_Coin c) (co_IsBuy c) (co_Price c) q (co_ReduceOnly c) (co_OrderType c)
    (co_ClientOrderID c).
Definition with_price (p : f64) (c : CreateOrderRequest) : CreateOrderRequest :=
  mkCreate (co_Coin c) (co_IsBuy c) p (co_Size c) (co_ReduceOnly c) (co_OrderType c)
    (co_ClientOrderID c).
Definition with_reduce_only (b : bool) (c : CreateOrderRequest) : CreateOrderRequest :=
  mkCreate (co_Coin c) (co_IsBuy c) (co_Price c) (co_Size c) b (co_OrderType c)
    (co_ClientOrderID c).
Definition modify_order (f : CreateOrderRequest → CreateOrderRequest) (m : ModifyOrderRequest)
  : ModifyOrderRequest := mkModify (mo_Cloid m) (f (mo_Order m)).

Definition with_action_create (c : CreateOrderRequest) (a : Action) : Action :=
  mkAction (ac_Type a) c (ac_Modify a) (ac_Cancel a) (ac_Reason a).
Definition with_action_modify (m : ModifyOrderRequest) (a : Action) : Action :=
  mkAction (ac_Type a) (ac_Create a) m (ac_Cancel a) (ac_Reason a).
Definition with_action_type (t : ActionType) (a : Action) : Action :=
  mkAction t (ac_Create a) (ac_Modify a) (ac_Cancel a) (ac_Reason a).
Definition with_ow_action (a : Action) (w : OrderWork) : OrderWork :=
  mkOrderWork (ow_Identifier w) (ow_OrderId w) a (ow_BotEvent w).

Definition ev_with_size_price (size price : f64) (e : TcBotEvent) : TcBotEvent :=
  mkTcBotEvent (ev_CreatedAt e) (ev_Action e) (ev_Coin e) (ev_Type e) (ev_Status e) price size
    (ev_OrderType e) (ev_OrderSize e) (ev_OrderPosition e) (ev_IsMarket e).

(** The outcome of [Emitter.Emit]: [ErrOrderAlreadySatisfied] is told apart
    from the other errors. *)
Inductive emit_error := ErrOrderAlreadySatisfied | ErrEmit (msg : string).

(** ** Iteration over Go maps

    The order of [range] over a map is left to the runtime: [go_range i m] is
    the order in which the [i]-th loop of an operation visits [m]. *)
Class GoRange := go_range : ∀ (K A : Type) (E : EqDecision K) (C : Countable K),
  nat → gmap K A → list (K * A).
Arguments go_range {_ K A E C} i m.

Class FairRange (R : GoRange) := range_perm :
  ∀ (K A : Type) (E : EqDecision K) (C : Countable K) i (m : gmap K A),
    go_range i m ≡ₚ map_to_list m.

(** A concrete order, for evaluation. *)
Definition list_range : GoRange := λ K A E C i m, map_to_list m.
#[global] Instance list_range_fair : FairRange list_range.
Proof. by intros K A E C i m. Qed.

Lemma elem_of_range {R : GoRange} {HR : FairRange R} {K A} `{Countable K} i (m : gmap K A) k x :
  (k, x) ∈ go_range i m ↔ m !! k = Some x.
Proof. rewrite range_perm. apply elem_of_map_to_list. Qed.

Lemma range_NoDup {R : GoRange} {HR : FairRange R} {K A} `{Countable K} i (m : gmap K A) :
  NoDup (go_range i m).*1.
Proof. rewrite range_perm. apply NoDup_fst_map_to_list. Qed.

(** ** [recomma/threecommas_plan.go] *)

Definition ThreeCommasPlanTier : Type := string.
Definition ThreeCommasPlanTierStarter : ThreeCommasPlanTier := "starter".
Definition ThreeCommasPlanTierPro : ThreeCommasPlanTier := "pro".
Definition ThreeCommasPlanTierExpert : ThreeCommasPlanTier := "expert".

Record RateLimitConfig := mkRateLimitConfig {
  RequestsPerMinute : Z;
  PrioritySlots : Z;
  DealWorkers : Z;
  ProduceConcurrency : Z;
  ResyncInterval : Z;
}.

Inductive plan_error := ErrTierRequired | ErrTierInvalid (raw : string).

Definition DefaultThreeCommasPlanTier : ThreeCommasPlanTier := ThreeCommasPlanTierExpert.

Definition normalizeThreeCommasPlanTier (raw : string) : string := ToLower (TrimSpace raw).

Definition ParseThreeCommasPlanTier (raw : string) : result plan_error ThreeCommasPlanTier :=
  let normalized := normalizeThreeCommasPlanTier raw in
  if String.eqb normalized "" then Err ErrTierRequired
  else if String.eqb normalized ThreeCommasPlanTierStarter then Ok ThreeCommasPlanTierStarter
  else if String.eqb normalized ThreeCommasPlanTierPro then Ok ThreeCommasPlanTierPro
  else if String.eqb normalized ThreeCommasPlanTierExpert then Ok ThreeCommasPlanTierExpert
  else Err (ErrTierInvalid raw).

Definition ParseThreeCommasPlanTierOrDefault (raw : string)
    : result plan_error (ThreeCommasPlanTier * bool) :=
  let normalized := normalizeThreeCommasPlanTier raw in
  if String.eqb normalized "" then Ok (DefaultThreeCommasPlanTier, true)
  else match ParseThreeCommasPlanTier normalized with
  | Ok parsed => Ok (parsed, false)
  | Err e => Err e
  end.

Definition SDKTier `{SDK} (t : ThreeCommasPlanTier) : string :=
  if String.eqb t ThreeCommasPlanTierStarter then PlanStarter
  else if String.eqb t ThreeCommasPlanTierPro then PlanPro
  else PlanExpert.

Definition RateLimitConfig_of (t : ThreeCommasPlanTier) : RateLimitConfig :=
  if String.eqb t ThreeCommasPlanTierStarter then mkRateLimitConfig 5 1 1 1 (60 * second)
  else if String.eqb t ThreeCommasPlanTierPro then mkRateLimitConfig 50 5 5 10 (30 * second)
  else mkRateLimitConfig 120 10 25 32 (15 * second).

End Domain.
