(* ===== verification/Store.v ===== *)
(** * What the components ask of the storage layer

    The types of [storage] that travel between components, and the queries a
    component makes as the members of an interface class.  An error of a query
    is [Err]; [ErrNoRows] is told apart where the callers do. *)

From S2P Require Import Prelude GoFloat GoString OrderId Domain.
Import GoFloat Domain.

Module Store.

Record VenueAssignment := mkAssignment {
  va_VenueID : VenueID;
  va_Wallet : string;
  va_IsPrimary : bool;
}.

Record ScaledOrderAudit := mkAudit {
  sa_VenueID : string;
  sa_Wallet : string;
  sa_OrderId : OrderId.OrderId;
  sa_DealID : Z;
  sa_BotID : Z;
  sa_OriginalSize : f64;
  sa_ScaledSize : f64;
  sa_Multiplier : f64;
  sa_RoundingDelta : f64;
  sa_StackIndex : Z;
  sa_OrderSide : string;
  sa_MultiplierUpdatedBy : string;
  sa_CreatedAt : Z;
  sa_SubmittedOrderID : option string;
  sa_Skipped : bool;
  sa_SkipReason : option string;
}.

Record OrderScalerState := mkScalerState {
  st_Multiplier : f64;
  st_UpdatedAt : Z;
  st_UpdatedBy : string;
  st_Notes : option string;
}.

Record BotOrderScalerOverride := mkOverride {
  bo_BotID : Z;
  bo_Multiplier : option f64;
  bo_Notes : option string;
  bo_EffectiveFrom : Z;
  bo_UpdatedAt : Z;
  bo_UpdatedBy : string;
}.

Inductive OrderScalerSource := OrderScalerSourceDefault | OrderScalerSourceBotOverride.

Record EffectiveOrderScaler := mkEffective {
  ef_OrderId : OrderId.OrderId;
  ef_Multiplier : f64;
  ef_Source : OrderScalerSource;
  ef_Default : OrderScalerState;
  ef_Override : option BotOrderScalerOverride;
}.

Definition Actor (e : EffectiveOrderScaler) : string :=
  match ef_Source e, ef_Override e with
  | OrderScalerSourceBotOverride, Some o =>
    if String.eqb (bo_UpdatedBy o) "" then st_UpdatedBy (ef_Default e) else bo_UpdatedBy o
  | _, _ => st_UpdatedBy (ef_Default e)
  end.

Definition UpdatedAt (e : EffectiveOrderScaler) : Z :=
  match ef_Source e, ef_Override e with
  | OrderScalerSourceBotOverride, Some o =>
    if IsZero (bo_UpdatedAt o) then st_UpdatedAt (ef_Default e) else bo_UpdatedAt o
  | _, _ => st_UpdatedAt (ef_Default e)
  end.

Record RecordScaledOrderParams := mkRecordParams {
  rp_Identifier : OrderIdentifier;
  rp_DealID : Z;
  rp_BotID : Z;
  rp_OriginalSize : f64;
  rp_ScaledSize : f64;
  rp_AppliedMultiplier : option f64;
  rp_StackIndex : Z;
  rp_OrderSide : string;
  rp_CreatedAt : Z;
  rp_SubmittedOrderID : option string;
  rp_Skipped : bool;
  rp_SkipReason : option string;
}.

Inductive store_error := ErrNoRows | ErrStore (msg : string).

(** The queries of the fill tracker, answered from the contents of the
    database at the time of the operation. *)
Class TrackerStore := {
  ListDealIDs : result store_error (list Z);
  LoadThreeCommasBotEvent : OrderId.OrderId → result store_error (option TcBotEvent);
  LoadThreeCommasDeal : Z → result store_error (option TcDeal);
  ListOrderIdsForDeal : Z → result store_error (list OrderId.OrderId);
  ListSubmissionIdentifiersForOrder : OrderId.OrderId → result store_error (list OrderIdentifier);
  ListScaledOrdersByOrderId : OrderId.OrderId → result store_error (list ScaledOrderAudit);
  LoadHyperliquidStatus : OrderIdentifier → result store_error (option WsOrder);
  LoadHyperliquidSubmission : OrderIdentifier → result store_error (option Action);
  LoadTakeProfitForDeal : Z → result store_error (OrderId.OrderId * TcBotEvent);
}.

(** An empty database. *)
Definition empty_store : TrackerStore := {|
  ListDealIDs := Ok [];
  LoadThreeCommasBotEvent := λ _, Ok None;
  LoadThreeCommasDeal := λ _, Ok None;
  ListOrderIdsForDeal := λ _, Ok [];
  ListSubmissionIdentifiersForOrder := λ _, Ok [];
  ListScaledOrdersByOrderId := λ _, Ok [];
  LoadHyperliquidStatus := λ _, Ok None;
  LoadHyperliquidSubmission := λ _, Ok None;
  LoadTakeProfitForDeal := λ _, Err ErrNoRows |}.

(** A list result whose error the caller logs and otherwise reads as empty. *)
Definition or_empty {E A} (r : result E (list A)) : list A :=
  match r with Ok l => l | Err _ => [] end.

End Store.
