(* ===== verification/Tables.v ===== *)
(** * The database: [storage/sqlc/schema.sql] and the statements of [storage/sqlcgen]

    A table with a primary key of its own is a finite map, an AUTOINCREMENT
    table the list of its rows in the order of their ids and the last id given
    out.  Statements that only read are functions of the database; a statement
    that writes answers with the new database or fails with the message of the
    constraint it breaks, and then changes nothing.  Foreign keys are not
    enforced: SQLite does so only after [PRAGMA foreign_keys = ON], which no
    code issues.  Where a SELECT has no ORDER BY its rows come in the order of
    [go_range], which is left open.  Times are milliseconds; [now] is the value
    of [unixepoch('now')]. *)

From S2P Require Import Prelude GoFloat GoString OrderId Domain Store.
Import GoFloat GoString Domain Store.

Module Tables.

(** ** JSON

    A payload is the bytes of a JSON text.  [encoding/json] on the records of the
    SDKs is the members of [Codec]; SQLite's [json] (which normalises a text or
    fails), and [json_extract] with a cast of what it finds, of [SqliteJSON]. *)

Class Codec (A : Type) := {
  Marshal : A → option string;
  Unmarshal : string → option A;
}.

Class SqliteJSON := {
  json : string → option string;
  json_text : string → string → option string;
  json_integer : string → string → option Z;
  json_real : string → string → option f64;
}.

(** What the code relies on: what was marshalled is not empty, reads back, and
    SQLite takes it for JSON; a normalised text has the same value. *)
Class CodecLaws `{SqliteJSON} (A : Type) `{Codec A} := {
  marshal_nonempty : ∀ (a : A) raw, Marshal a = Some raw → raw ≠ "";
  marshal_json : ∀ (a : A) raw, Marshal a = Some raw → is_Some (json raw);
  unmarshal_marshal : ∀ (a : A) raw, Marshal a = Some raw → Unmarshal raw = Some a;
  unmarshal_json : ∀ raw raw', json raw = Some raw' → raw' ≠ "" ∧ Unmarshal (A := A) raw' = Unmarshal raw;
}.

(** ** Rows *)

Record botevent_row := mkEventRow {
  er_id : Z;
  er_order_id : string;
  er_bot_id : Z;
  er_deal_id : Z;
  er_botevent_id : Z;
  er_created_at_utc : Z;
  er_observed_at_utc : Z;
  er_payload : string;
}.

Record bot_row := mkBotRow { bo_payload : string; bo_last_synced_utc : Z }.

Record deal_row := mkDealRow {
  de_bot_id : Z;
  de_created_at_utc : Z;
  de_updated_at_utc : Z;
  de_payload : string;
}.

Record venue_row := mkVenueRow {
  vr_type : string;
  vr_display_name : string;
  vr_wallet : string;
  vr_flags : string;
}.

Record assignment_row := mkAssignRow { ar_is_primary : Z; ar_assigned_at_utc : Z }.

(** [modify_payloads] is a JSON array, given by the texts of its elements. *)
Record submission_row := mkSubRow {
  sr_action_kind : string;
  sr_create_payload : option string;
  sr_modify_payloads : list string;
  sr_cancel_payload : option string;
  sr_payload_type : string;
  sr_payload_blob : string;
  sr_updated_at_utc : Z;
  sr_botevent_row_id : Z;
}.

Record status_row := mkStatusRow { tr_payload_type : string; tr_payload_blob : string }.

Record scaler_row := mkScalerRow {
  cr_multiplier : f64;
  cr_updated_at_utc : Z;
  cr_updated_by : string;
  cr_notes : option string;
}.

Record bot_scaler_row := mkBotScalerRow {
  bs_multiplier : option f64;
  bs_notes : option string;
  bs_effective_from_utc : Z;
  bs_updated_at_utc : Z;
  bs_updated_by : string;
}.

Record scaled_row := mkScaledRow {
  cd_deal_id : Z;
  cd_bot_id : Z;
  cd_original_size : f64;
  cd_scaled_size : f64;
  cd_multiplier : f64;
  cd_rounding_delta : f64;
  cd_stack_index : Z;
  cd_order_side : string;
  cd_multiplier_updated_by : string;
  cd_created_at_utc : Z;
  cd_skipped : Z;
  cd_skip_reason : option string;
  cd_payload_type : option string;
  cd_payload_blob : option string;
}.

(** ** The database *)

Record auto (A : Type) := mkAuto { au_rows : list A; au_seq : Z }.
Arguments mkAuto {A}.
Arguments au_rows {A}.
Arguments au_seq {A}.

(** The key [(venue_id, wallet, order_id)]. *)
Definition order_key : Type := string * string * string.

Record Database := mkDatabase {
  db_botevents : auto botevent_row;
  db_botevents_log : auto botevent_row;
  db_bots : gmap Z bot_row;
  db_deals : gmap Z deal_row;
  db_venues : gmap string venue_row;
  db_assignments : gmap (Z * string) assignment_row;
  db_submissions : gmap order_key submission_row;
  db_statuses : gmap (order_key * Z) status_row;
  db_scaler : option scaler_row;
  db_bot_scalers : gmap Z bot_scaler_row;
  db_scaled : gmap order_key scaled_row;
}.

Definition with_botevents (t : auto botevent_row) (d : Database) : Database :=
  mkDatabase t (db_botevents_log d) (db_bots d) (db_deals d) (db_venues d) (db_assignments d)
    (db_submissions d) (db_statuses d) (db_scaler d) (db_bot_scalers d) (db_scaled d).
Definition with_botevents_log (t : auto botevent_row) (d : Database) : Database :=
  mkDatabase (db_botevents d) t (db_bots d) (db_deals d) (db_venues d) (db_assignments d)
    (db_submissions d) (db_statuses d) (db_scaler d) (db_bot_scalers d) (db_scaled d).
Definition with_bots (t : gmap Z bot_row) (d : Database) : Database :=
  mkDatabase (db_botevents d) (db_botevents_log d) t (db_deals d) (db_venues d) (db_assignments d)
    (db_submissions d) (db_statuses d) (db_scaler d) (db_bot_scalers d) (db_scaled d).
Definition with_deals (t : gmap Z deal_row) (d : Database) : Database :=
  mkDatabase (db_botevents d) (db_botevents_log d) (db_bots d) t (db_venues d) (db_assignments d)
    (db_submissions d) (db_statuses d) (db_scaler d) (db_bot_scalers d) (db_scaled d).
Definition with_venues (t : gmap string venue_row) (d : Database) : Database :=
  mkDatabase (db_botevents d) (db_botevents_log d) (db_bots d) (db_deals d) t (db_assignments d)
    (db_submissions d) (db_statuses d) (db_scaler d) (db_bot_scalers d) (db_scaled d).
Definition with_assignments (t : gmap (Z * string) assignment_row) (d : Database) : Database :=
  mkDatabase (db_botevents d) (db_botevents_log d) (db_bots d) (db_deals d) (db_venues d) t
    (db_submissions d) (db_statuses d) (db_scaler d) (db_bot_scalers d) (db_scaled d).
Definition with_submissions (t : gmap order_key submission_row) (d : Database) : Database :=
  mkDatabase (db_botevents d) (db_botevents_log d) (db_bots d) (db_deals d) (db_venues d)
    (db_assignments d) t (db_statuses d) (db_scaler d) (db_bot_scalers d) (db_scaled d).
Definition with_statuses (t : gmap (order_key * Z) status_row) (d : Database) : Database :=
  mkDatabase (db_botevents d) (db_botevents_log d) (db_bots d) (db_deals d) (db_venues d)
    (db_assignments d) (db_submissions d) t (db_scaler d) (db_bot_scalers d) (db_scaled d).
Definition with_scaler (t : option scaler_row) (d : Database) : Database :=
  mkDatabase (db_botevents d) (db_botevents_log d) (db_bots d) (db_deals d) (db_venues d)
    (db_assignments d) (db_submissions d) (db_statuses d) t (db_bot_scalers d) (db_scaled d).
Definition with_bot_scalers (t : gmap Z bot_scaler_row) (d : Database) : Database :=
  mkDatabase (db_botevents d) (db_botevents_log d) (db_bots d) (db_deals d) (db_venues d)
    (db_assignments d) (db_submissions d) (db_statuses d) (db_scaler d) t (db_scaled d).
Definition with_scaled (t : gmap order_key scaled_row) (d : Database) : Database :=
  mkDatabase (db_botevents d) (db_botevents_log d) (db_bots d) (db_deals d) (db_venues d)
    (db_assignments d) (db_submissions d) (db_statuses d) (db_scaler d) (db_bot_scalers d) t.

Definition empty_database : Database :=
  mkDatabase (mkAuto [] 0) (mkAuto [] 0) ∅ ∅ ∅ ∅ ∅ ∅ None ∅ ∅.

(** The schema as [New] applies it to an existing file: the tables are kept, the
    row of the default scaler is added unless it is there, and [scaled_orders]
    is dropped and made anew. *)
Definition schemaDDL (now : Z) (d : Database) : Database :=
  with_scaled ∅
    (match db_scaler d with
     | None => with_scaler (Some (mkScalerRow fone now "system" None)) d
     | Some _ => d
     end).

Definition unique_message (columns : string) : store_error :=
  ErrStore ("constraint failed: UNIQUE constraint failed: " +:+ columns +:+ " (2067)").
Definition malformed_json : store_error := ErrStore "malformed JSON".

Definition sql_bool (b : bool) : Z := if b then 1 else 0.

(** [ORDER BY] with the order [le]. *)
Definition order_by {A} (le : A → A → bool) (l : list A) : list A :=
  merge_sort (λ a b, Is_true (le a b)) l.

(** The order of columns of text and of integers, one after the other. *)
Definition lex_le {A} (cs : list (A → A → Z)) (a b : A) : bool :=
  match filter (λ z, z ≠ 0) ((λ c, c a b) <$> cs) with
  | [] => true
  | z :: _ => z <? 0
  end.
Definition by_int {A} (f : A → Z) (a b : A) : Z := f a - f b.
Definition by_text {A} (f : A → string) (a b : A) : Z := scompare (f a) (f b).
Definition desc {A} (c : A → A → Z) (a b : A) : Z := - c a b.

(** [:one]: the first row, or [sql.ErrNoRows]. *)
Definition one {A} (l : list A) : result store_error A :=
  match l with x :: _ => Ok x | [] => Err ErrNoRows end.
Definition one_of {A} (o : option A) : result store_error A :=
  match o with Some x => Ok x | None => Err ErrNoRows end.

End Tables.
