(* ===== verification/Log.v ===== *)
(** * Logging: [log/], [pkg/sqllogger/] and [storage/log_sink.go]

    Records of [log/slog] go through a tree of handlers; one of them queues them for
    a goroutine that inserts them into the [app_logs] table.  A [slog.Value] is its
    dynamic kind; [encoding/json] on the tree of attributes is a codec. *)

From S2P Require Import Prelude GoFloat GoString Tables.
Import GoFloat GoString Tables.

Module Log.

(** ** [log/slog] *)

Definition LevelDebug : Z := -4.
Definition LevelInfo : Z := 0.
Definition LevelWarn : Z := 4.
Definition LevelError : Z := 8.

(** [Level.String]. *)
Definition level_text (l : Z) : string :=
  let str base val :=
    if val =? 0 then base else base +:+ (if 0 <? val then "+" else "") +:+ Itoa val in
  if l <? LevelInfo then str "DEBUG" (l - LevelDebug)
  else if l <? LevelWarn then str "INFO" (l - LevelInfo)
  else if l <? LevelError then str "WARN" (l - LevelWarn)
  else str "ERROR" (l - LevelError).

(** What [json.Marshal] is given: values, and maps from strings. *)
Inductive any :=
| AString (s : string)
| AInt64 (z : Z)
| AUint64 (z : Z)
| AFloat64 (f : f64)
| ABool (b : bool)
| ADuration (d : Z)
| ATime (t : Z)
| AMap (m : list (string * any))
| AOther (description : string).

(** A value of [KindAny] may be a map or something else; a [LogValuer] stands for
    another value. *)
Inductive Value :=
| KindLeaf (v : any)
| KindGroup (attrs : list (string * Value))
| KindLogValuer (v : Value).

Definition Attr : Type := string * Value.

(** [Value.Resolve] gives up after so many rounds. *)
Definition maxLogValues : nat := 100.
Definition unresolved : any := AOther "LogValue called too many times".

Record Frame := mkFrame { fr_File : string; fr_Line : Z; fr_Function : string }.

Record Record_ := mkRecord {
  rc_Time : Z;
  rc_Level : Z;
  rc_Message : string;
  rc_Attrs : list Attr;
  rc_Source : option Frame;
}.

(** ** Attributes: the tree of a record *)

Definition jmap : Type := list (string * any).

(** [m[k] = v]; the order of a map's entries means nothing. *)
Fixpoint put (k : string) (v : any) (m : jmap) : jmap :=
  match m with
  | [] => [(k, v)]
  | (k', v') :: m => if String.eqb k k' then (k, v) :: m else (k', v') :: put k v m
  end.
Fixpoint get (k : string) (m : jmap) : option any :=
  match m with
  | [] => None
  | (k', v') :: m => if String.eqb k k' then Some v' else get k m
  end.

(** [ensureGroup] and then [f] on the map it found or made. *)
Fixpoint ensureGroup (groups : list string) (f : jmap → jmap) (dst : jmap) : jmap :=
  match groups with
  | [] => f dst
  | name :: groups =>
    if String.eqb name "" then ensureGroup groups f dst
    else
      let next := match get name dst with Some (AMap m) => m | _ => [] end in
      put name (AMap (ensureGroup groups f next)) dst
  end.

(** [insertAttr] of what [resolveAttr] makes of a value, which resolves the members
    of groups, too; [n] rounds of [Resolve] are left. *)
Fixpoint insertAttr (n : nat) (key : string) (v : Value) (dst : jmap) : jmap :=
  match v with
  | KindLogValuer v =>
    match n with
    | S (S _ as n) => insertAttr n key v dst
    | _ => if String.eqb key "" then dst else put key unresolved dst
    end
  | KindGroup attrs =>
    ensureGroup (if String.eqb key "" then [] else [key])
      ((fix append (l : list (string * Value)) (groupTarget : jmap) : jmap :=
          match l with
          | [] => groupTarget
          | (k, v) :: l => append l (insertAttr maxLogValues k v groupTarget)
          end) attrs) dst
  | KindLeaf a => if String.eqb key "" then dst else put key a dst
  end.

Definition appendAttr (groups : list string) (attr : Attr) (dst : jmap) : jmap :=
  ensureGroup groups (insertAttr maxLogValues attr.1 attr.2) dst.

Section Handlers.
Context {json_map : Codec jmap}.

Definition encodeAttrsJSON (groups : list string) (attrs : list Attr) : string :=
  let root := fold_left (λ m a, appendAttr groups a m) attrs [] in
  match root with
  | [] => "{}"
  | root => match Marshal root with Some data => data | None => "{}" end
  end.

(** ** [sqllogger.Handler] *)

Record InsertLogEntryParams := mkLogEntry {
  le_TimestampMillis : Z;
  le_LevelText : string;
  le_Scope : string;
  le_Message : string;
  le_AttrsJSON : string;
  le_SourceFile : string;
  le_SourceLine : Z;
  le_SourceFunction : string;
}.

Fixpoint join (sep : string) (l : list string) : string :=
  match l with
  | [] => ""
  | [s] => s
  | s :: l => s +:+ sep +:+ join sep l
  end.

Definition joinScope (groups : list string) : string :=
  join "." (filter (λ g, g ≠ "") groups).

(** A handler without its core. *)
Record Handler := mkHandler { hn_attrs : list Attr; hn_groups : list string }.

Definition WithAttrs (attrs : list Attr) (h : Handler) : Handler :=
  mkHandler (hn_attrs h ++ attrs) (hn_groups h).
Definition WithGroup (name : string) (h : Handler) : Handler :=
  if String.eqb name "" then h else mkHandler (hn_attrs h) (hn_groups h ++ [name]).

Definition collectAttrs (h : Handler) (record : Record_) : list Attr :=
  hn_attrs h ++ rc_Attrs record.

Definition buildParams (now : Z) (h : Handler) (record : Record_) : InsertLogEntryParams :=
  let ts := unix_milli (rc_Time record) in
  let ts := if ts =? 0 then unix_milli now else ts in
  let frame := default (mkFrame "" 0 "") (rc_Source record) in
  mkLogEntry ts (level_text (rc_Level record)) (joinScope (hn_groups h)) (rc_Message record)
    (encodeAttrsJSON (hn_groups h) (collectAttrs h record))
    (fr_File frame) (fr_Line frame) (fr_Function frame).

End Handlers.

(** ** The queue and its goroutine *)

Definition defaultQueueSize : Z := 256.

Inductive handle_error := ErrQueueFull | ErrHandlerClosed | ErrContext.

(** The goroutine of [run]: in its loop, in [drainQueue], or returned. *)
Inductive worker := Looping | Draining | Returned.

(** [L] is what the insert function writes to; [co_handling] and [co_worker] stand
    for the two wait groups. *)
Record handlerCore (L : Type) := mkCore {
  co_minLevel : Z;
  co_cap : nat;
  co_queue : list InsertLogEntryParams;
  co_handling : Z;
  co_closed : bool;
  co_cancelled : bool;
  co_worker : worker;
  co_log : L;
  co_reports : list string;
}.
Arguments mkCore {L}. Arguments co_minLevel {L}. Arguments co_cap {L}. Arguments co_queue {L}.
Arguments co_handling {L}. Arguments co_closed {L}. Arguments co_cancelled {L}. Arguments co_worker {L}.
Arguments co_log {L}. Arguments co_reports {L}.

Section Core.
Context {json_map : Codec jmap} {L : Type} (insertFn : InsertLogEntryParams → L → result string unit * L).
Implicit Types (c : handlerCore L).

(** [NewHandler]; the default level is [LevelInfo]. *)
Definition NewHandler (minLevel queueSize : option Z) (hasInsertFn : bool) (log : L)
    : result string (handlerCore L) :=
  if negb hasInsertFn then Err "sqllogger: insert function is required"%string
  else
    let size := match queueSize with Some n => if 0 <? n then n else defaultQueueSize | None => defaultQueueSize end in
    Ok (mkCore (default LevelInfo minLevel) (Z.to_nat size) [] 0 false false Looping log []).

Definition Enabled (level : Z) c : bool := co_minLevel c <=? level.

Definition with_queue (q : list InsertLogEntryParams) c : handlerCore L :=
  mkCore (co_minLevel c) (co_cap c) q (co_handling c) (co_closed c) (co_cancelled c) (co_worker c)
    (co_log c) (co_reports c).
Definition with_handling (n : Z) c : handlerCore L :=
  mkCore (co_minLevel c) (co_cap c) (co_queue c) n (co_closed c) (co_cancelled c) (co_worker c)
    (co_log c) (co_reports c).
Definition with_worker (w : worker) c : handlerCore L :=
  mkCore (co_minLevel c) (co_cap c) (co_queue c) (co_handling c) (co_closed c) (co_cancelled c) w
    (co_log c) (co_reports c).
Definition set_closed c : handlerCore L :=
  mkCore (co_minLevel c) (co_cap c) (co_queue c) (co_handling c) true (co_cancelled c) (co_worker c)
    (co_log c) (co_reports c).
Definition cancel c : handlerCore L :=
  mkCore (co_minLevel c) (co_cap c) (co_queue c) (co_handling c) (co_closed c) true (co_worker c)
    (co_log c) (co_reports c).

(** [enqueue]: a [select] with several cases that are ready takes any of them;
    [pick] says that it takes the send. *)
Definition enqueue (ctx_done pick : bool) (entry : InsertLogEntryParams) c
    : result handle_error unit * handlerCore L :=
  if (length (co_queue c) <? co_cap c)%nat && (negb ctx_done || pick)
  then (Ok tt, with_queue (co_queue c ++ [entry]) c)
  else if ctx_done then (Err ErrContext, c)
  else (Err ErrQueueFull, c).

(** [process] of an entry that was received, the [queue] left behind. *)
Definition process (entry : InsertLogEntryParams) (queue : list InsertLogEntryParams) c
    : handlerCore L :=
  let '(r, log) := insertFn entry (co_log c) in
  mkCore (co_minLevel c) (co_cap c) queue (co_handling c) (co_closed c) (co_cancelled c)
    (co_worker c) log (co_reports c ++ match r with Err msg => [msg] | Ok _ => [] end).

(** The next round of [run] and of [drainQueue]; [None] when the goroutine waits or
    has returned. *)
Definition worker_step (pick : bool) c : option (option InsertLogEntryParams * handlerCore L) :=
  match co_worker c with
  | Looping =>
    match co_queue c with
    | entry :: queue =>
      if negb (co_cancelled c) || pick then Some (Some entry, process entry queue c)
      else Some (None, with_worker Draining c)
    | [] => if co_cancelled c then Some (None, with_worker Draining c) else None
    end
  | Draining =>
    match co_queue c with
    | entry :: queue => Some (Some entry, process entry queue c)
    | [] => Some (None, with_worker Returned c)
    end
  | Returned => None
  end.

(** A call of [Handle] or [Close], by how far it is; each look at the shared state
    is a step. *)
Inductive thread :=
| HandleCalled (h : Handler) (record : Record_)
| HandleSeenOpen (h : Handler) (record : Record_)
| HandleCounted (h : Handler) (record : Record_)
| HandleAdmitted (h : Handler) (record : Record_)
| HandleLeaving (r : result handle_error (option InsertLogEntryParams))
| HandleReturned (r : result handle_error (option InsertLogEntryParams))
| CloseCalled
| CloseWaiting
| CloseCancelled
| CloseReturned (first : bool) (r : result handle_error unit).

(** One step of a call at the time [now]: the entry it put on the queue, its new
    position, the new state; [None] while it is blocked or when it has returned. *)
Definition thread_step (now : Z) (ctx_done pick : bool) (th : thread) c
    : option (option InsertLogEntryParams * thread * handlerCore L) :=
  match th with
  | HandleCalled h record =>
    if negb (Enabled (rc_Level record) c) then Some (None, HandleReturned (Ok None), c)
    else if co_closed c then Some (None, HandleReturned (Err ErrHandlerClosed), c)
    else Some (None, HandleSeenOpen h record, c)
  | HandleSeenOpen h record =>
    Some (None, HandleCounted h record, with_handling (co_handling c + 1) c)
  | HandleCounted h record =>
    if co_closed c then Some (None, HandleLeaving (Err ErrHandlerClosed), c)
    else Some (None, HandleAdmitted h record, c)
  | HandleAdmitted h record =>
    let entry := buildParams now h record in
    match enqueue ctx_done pick entry c with
    | (Ok _, c) => Some (Some entry, HandleLeaving (Ok (Some entry)), c)
    | (Err e, c) => Some (None, HandleLeaving (Err e), c)
    end
  | HandleLeaving r => Some (None, HandleReturned r, with_handling (co_handling c - 1) c)
  | CloseCalled =>
    if co_closed c then Some (None, CloseReturned false (Ok tt), c)
    else Some (None, CloseWaiting, set_closed c)
  | CloseWaiting =>
    if co_handling c =? 0 then Some (None, CloseCancelled, cancel c) else None
  | CloseCancelled =>
    match co_worker c with
    | Returned =>
      if negb ctx_done || pick then Some (None, CloseReturned true (Ok tt), c)
      else Some (None, CloseReturned true (Err ErrContext), c)
    | _ => if ctx_done then Some (None, CloseReturned true (Err ErrContext), c) else None
    end
  | HandleReturned _ | CloseReturned _ _ => None
  end.

(** ** All calls and the goroutine together *)

Record system := mkSystem { ss_core : handlerCore L; ss_threads : list thread }.

(** What a step did to the entries. *)
Inductive event := Accepted (entry : InsertLogEntryParams) | Written (entry : InsertLogEntryParams).

Definition accepted (tr : list event) : list InsertLogEntryParams :=
  omap (λ e, match e with Accepted x => Some x | Written _ => None end) tr.
Definition written (tr : list event) : list InsertLogEntryParams :=
  omap (λ e, match e with Written x => Some x | Accepted _ => None end) tr.

(** A running call takes its next step, or the goroutine. *)
Inductive internal : system → list event → system → Prop :=
| step_thread now ctx_done pick i th th' o c c' ths :
    ths !! i = Some th → thread_step now ctx_done pick th c = Some (o, th', c') →
    internal (mkSystem c ths) (Accepted <$> option_list o) (mkSystem c' (<[i := th']> ths))
| step_worker pick o c c' ths :
    worker_step pick c = Some (o, c') →
    internal (mkSystem c ths) (Written <$> option_list o) (mkSystem c' ths).

(** Or a new call of [Handle] or [Close] is made. *)
Definition entering (th : thread) : Prop :=
  match th with HandleCalled _ _ | CloseCalled => True | _ => False end.
Inductive step : system → list event → system → Prop :=
| step_internal s tr s' : internal s tr s' → step s tr s'
| step_call th c ths : entering th → step (mkSystem c ths) [] (mkSystem c (ths ++ [th])).

Inductive runs (s : system) : list event → system → Prop :=
| runs_end : runs s [] s
| runs_step tr s1 tr' s2 : runs s tr s1 → step s1 tr' s2 → runs s (tr ++ tr') s2.

(** What follows from a new handler. *)
Definition reached (c0 : handlerCore L) : list event → system → Prop := runs (mkSystem c0 []).

End Core.

(** ** [storage/log_sink.go] *)

Record log_row := mkLogRow {
  lr_id : Z;
  lr_timestamp_utc : Z;
  lr_level : string;
  lr_scope : option string;
  lr_message : string;
  lr_attrs : string;
  lr_source_file : option string;
  lr_source_line : option Z;
  lr_source_func : option string;
}.

(** The statement has no constraint to break: nothing of it is null and the columns
    are not unique. *)
Definition InsertAppLogEntry (row : Z → log_row) (t : auto log_row) : auto log_row :=
  mkAuto (au_rows t ++ [row (au_seq t + 1)]) (au_seq t + 1).

Definition stringPtr (val : string) : option string := if String.eqb val "" then None else Some val.
Definition nullableInt64 (v : Z) : option Z := if v <=? 0 then None else Some v.

Definition log_row_of (entry : InsertLogEntryParams) (id : Z) : log_row :=
  mkLogRow id (le_TimestampMillis entry) (le_LevelText entry) (stringPtr (le_Scope entry))
    (le_Message entry) (le_AttrsJSON entry) (stringPtr (le_SourceFile entry))
    (nullableInt64 (le_SourceLine entry)) (stringPtr (le_SourceFunction entry)).

Definition LogInsertFunc (entry : InsertLogEntryParams) (t : auto log_row)
    : result string unit * auto log_row :=
  (Ok tt, InsertAppLogEntry (log_row_of entry) t).


(** ** The fan-out: [log/multi_handler.go], [log/group_filter.go] *)

(** A tree of handlers.  A leaf is a handler of somebody else's, named by its core,
    with the attributes and groups it was given since; [own] says that it is the
    object itself, whose pointer [Remove] compares. *)
Inductive tree :=
| Leaf (core : nat) (own : bool) (h : Handler)
| MultiHandler (children : list tree)
| GroupFilterHandler (next : tree) (allowed : list string) (groups : list string).

Definition NewMultiHandler (handlers : list (option tree)) : tree := MultiHandler (omap id handlers).

Definition NewGroupFilterHandler (next : tree) (allowedGroups : list string) : tree :=
  match filter (λ g, g ≠ "") ((TrimSpace ∘ ToLower) <$> allowedGroups) with
  | [] => next
  | allowed => GroupFilterHandler next allowed []
  end.

Fixpoint tree_WithAttrs (attrs : list Attr) (t : tree) : tree :=
  match t with
  | Leaf core _ h => Leaf core false (WithAttrs attrs h)
  | MultiHandler children => MultiHandler (tree_WithAttrs attrs <$> children)
  | GroupFilterHandler next allowed groups =>
    GroupFilterHandler (tree_WithAttrs attrs next) allowed groups
  end.

(** A leaf returns itself for an empty name, the filter too; the fan-out is copied. *)
Fixpoint tree_WithGroup (name : string) (t : tree) : tree :=
  match t with
  | Leaf core own h => if String.eqb name "" then t else Leaf core false (WithGroup name h)
  | MultiHandler children => MultiHandler (tree_WithGroup name <$> children)
  | GroupFilterHandler next allowed groups =>
    if String.eqb name "" then t
    else GroupFilterHandler (tree_WithGroup name next) allowed (groups ++ [ToLower name])
  end.

Definition shouldEmit (allowed groups : list string) : bool :=
  match allowed with [] => true | _ => existsb (λ g, bool_decide (g ∈ allowed)) groups end.

Section Tree.
Context (enabled : nat → Z → bool) (handle : nat → Handler → Record_ → option string).

Fixpoint tree_Enabled (level : Z) (t : tree) : bool :=
  match t with
  | Leaf core _ _ => enabled core level
  | MultiHandler children => existsb (tree_Enabled level) children
  | GroupFilterHandler next _ _ => tree_Enabled level next
  end.

(** The leaves that get the record, in order, and the first error. *)
Fixpoint tree_Handle (record : Record_) (t : tree) : list (nat * Handler) * option string :=
  match t with
  | Leaf core _ h => ([(core, h)], handle core h record)
  | MultiHandler children =>
    (fix all (l : list tree) : list (nat * Handler) * option string :=
       match l with
       | [] => ([], None)
       | child :: l =>
         if tree_Enabled (rc_Level record) child then
           let '(got, err) := tree_Handle record child in
           let '(rest, err') := all l in
           (got ++ rest, match err with Some e => Some e | None => err' end)
         else all l
       end) children
  | GroupFilterHandler next allowed groups =>
    if shouldEmit allowed groups then tree_Handle record next else ([], None)
  end.

End Tree.

(** [Remove] drops the first child that is the object itself. *)
Fixpoint remove_first (core : nat) (l : list tree) : list tree :=
  match l with
  | [] => []
  | Leaf c true h :: l => if (c =? core)%nat then l else Leaf c true h :: remove_first core l
  | t :: l => t :: remove_first core l
  end.
Definition Remove (core : nat) (t : tree) : tree :=
  match t with MultiHandler children => MultiHandler (remove_first core children) | t => t end.

End Log.
