(* ===== verification/Config.v ===== *)
(** * The configuration: [cmd/recomma/internal/config]

    The flags are parsed by pflag into the configuration; which of them were given,
    the environment, and whether the binary has the build tag [debugmode], are
    arguments here. *)

From Stdlib Require Import Ascii.
From S2P Require Import Prelude GoFloat GoString GoNet Log.
Import GoFloat GoString GoNet.

Module Config.

(** ** [strconv] *)

Definition Atoi (s : string) : option Z :=
  let '(neg, digits) := strip_sign s in
  if String.eqb digits "" || negb (all_chars is_digit digits) then None
  else
    let n := (if neg then -1 else 1) * dec_value 0 digits in
    if (- 2 ^ 63 <=? n) && (n <? 2 ^ 63) then Some n else None.

Definition ParseBool (s : string) : option bool :=
  if existsb (String.eqb s) ["1"; "t"; "T"; "TRUE"; "true"; "True"] then Some true
  else if existsb (String.eqb s) ["0"; "f"; "F"; "FALSE"; "false"; "False"] then Some false
  else None.

(** ** [Level.UnmarshalText] of [log/slog] *)

Definition parse_level (s : string) : option Z :=
  let '(name, offset) := break (one_of "+-") s in
  offset ← (if String.eqb offset "" then Some 0 else Atoi offset);
  let name := ToUpper name in
  level ← (if String.eqb name "DEBUG" then Some Log.LevelDebug
           else if String.eqb name "INFO" then Some Log.LevelInfo
           else if String.eqb name "WARN" then Some Log.LevelWarn
           else if String.eqb name "ERROR" then Some Log.LevelError
           else None);
  Some (i64 (level + offset)).

Definition ParseLevelOrDefault (value : string) (def : Z) : Z :=
  if String.eqb value "" then def else default def (parse_level value).

(** nil is the empty list. *)
Definition ParseLogGroups (value : string) : list string :=
  if String.eqb (TrimSpace value) "" then []
  else ToLower <$> filter (λ part, part ≠ ""%string) (TrimSpace <$> Split "," value).

(** ** The configuration *)

Record AppConfig := mkAppConfig {
  StoragePath : string;
  OrderWorkers : Z;
  HTTPListen : string;
  PublicOrigin : string;
  LogLevel : string;
  LogFormatJSON : bool;
  LogToStorage : bool;
  LogStorageLevel : string;
  LogGroups : string;
  Debug : bool;
  HyperliquidIOCInitialOffsetBps : f64;
  OrderScalerMaxMultiplier : f64;
  SystemStreamMinLevel : string;
}.

Definition DefaultConfig : AppConfig := {|
  StoragePath := "db.sqlite3";
  OrderWorkers := 5;
  HTTPListen := ":8080";
  PublicOrigin := "";
  LogLevel := "info";
  LogFormatJSON := false;
  LogToStorage := true;
  LogStorageLevel := "info";
  LogGroups := "";
  Debug := false;
  HyperliquidIOCInitialOffsetBps := fzero;
  OrderScalerMaxMultiplier := f_dec 5 0;
  SystemStreamMinLevel := "info";
|}.

Inductive config_error :=
| DebugNotParsed (value : string)
| DebugNeedsBuildTag
| MaxMultiplierNotPositive.

Section Env.
(** The build tag, the flags that were given, and the variables that are set. *)
Context (debugmode : bool) (flagSet : gset string) (env : string → option string).

Definition setString (name envKey target : string) : string :=
  if decide (name ∈ flagSet) then target
  else match env envKey with
       | Some v => if String.eqb v "" then target else v
       | None => target
       end.

(** [setInt], [setBool] and [setFloat]; a value that is not understood is ignored. *)
Definition set_parsed {A} (parse : string → option A) (name envKey : string) (target : A) : A :=
  if decide (name ∈ flagSet) then target else default target (v ← env envKey; parse v).
Definition setInt : string → string → Z → Z := set_parsed Atoi.
Definition setBool : string → string → bool → bool := set_parsed ParseBool.
Definition setFloat : string → string → f64 → f64 := set_parsed ParseFloat.

Definition with_debug (debug : bool) (cfg : AppConfig) : AppConfig := {|
  StoragePath := StoragePath cfg; OrderWorkers := OrderWorkers cfg; HTTPListen := HTTPListen cfg;
  PublicOrigin := PublicOrigin cfg; LogLevel := LogLevel cfg; LogFormatJSON := LogFormatJSON cfg;
  LogToStorage := LogToStorage cfg; LogStorageLevel := LogStorageLevel cfg;
  LogGroups := LogGroups cfg; Debug := debug;
  HyperliquidIOCInitialOffsetBps := HyperliquidIOCInitialOffsetBps cfg;
  OrderScalerMaxMultiplier := OrderScalerMaxMultiplier cfg;
  SystemStreamMinLevel := SystemStreamMinLevel cfg |}.

(** With the tag: a variable that is not understood is ignored. *)
Definition applyDebugEnvDefaults_enabled (cfg : AppConfig) : AppConfig :=
  if decide ("debug"%string ∈ flagSet) then cfg
  else match v ← env "RECOMMA_DEBUG"; ParseBool v with
       | Some parsed => with_debug parsed cfg
       | None => cfg
       end.

(** Without it the flag [debug] and its variable can only say no. *)
Definition applyDebugEnvDefaults (cfg : AppConfig) : result config_error AppConfig :=
  let cfg := with_debug false cfg in
  if decide ("debug"%string ∈ flagSet) then Ok cfg
  else match env "RECOMMA_DEBUG" with
       | None | Some EmptyString => Ok cfg
       | Some v =>
         match ParseBool v with
         | None => Err (DebugNotParsed v)
         | Some true => Err DebugNeedsBuildTag
         | Some false => Ok cfg
         end
       end.

Definition ApplyEnvDefaults (cfg : AppConfig) : result config_error AppConfig :=
  (if debugmode then λ cfg, Ok (applyDebugEnvDefaults_enabled cfg) else applyDebugEnvDefaults) {|
    StoragePath := setString "storage-path" "RECOMMA_STORAGE_PATH" (StoragePath cfg);
    OrderWorkers := setInt "order-workers" "RECOMMA_ORDER_WORKERS" (OrderWorkers cfg);
    HTTPListen := setString "http-listen" "RECOMMA_HTTP_LISTEN" (HTTPListen cfg);
    PublicOrigin := setString "public-origin" "RECOMMA_PUBLIC_ORIGIN" (PublicOrigin cfg);
    LogLevel := setString "log-level" "RECOMMA_LOG_LEVEL" (LogLevel cfg);
    LogFormatJSON := setBool "log-json" "RECOMMA_LOG_JSON" (LogFormatJSON cfg);
    LogToStorage := setBool "log-to-storage" "RECOMMA_LOG_TO_STORAGE" (LogToStorage cfg);
    LogStorageLevel := setString "log-storage-level" "RECOMMA_LOG_STORAGE_LEVEL" (LogStorageLevel cfg);
    LogGroups := setString "log-groups" "RECOMMA_LOG_GROUPS" (LogGroups cfg);
    Debug := Debug cfg;
    HyperliquidIOCInitialOffsetBps := setFloat "hyperliquid-ioc-offset-bps"
      "RECOMMA_HYPERLIQUID_IOC_OFFSET_BPS" (HyperliquidIOCInitialOffsetBps cfg);
    OrderScalerMaxMultiplier := setFloat "order-scaler-max-multiplier"
      "RECOMMA_ORDER_SCALER_MAX_MULTIPLIER" (OrderScalerMaxMultiplier cfg);
    SystemStreamMinLevel := setString "system-stream-min-level"
      "RECOMMA_SYSTEM_STREAM_MIN_LEVEL" (SystemStreamMinLevel cfg) |}.

End Env.

(** The list of missing parameters that the function also knows stays empty. *)
Definition ValidateConfig (cfg : AppConfig) : result config_error unit :=
  if fle (OrderScalerMaxMultiplier cfg) fzero then Err MaxMultiplierNotPositive
  else Ok tt.

(** The level of the handler, and whether it writes JSON. *)
Definition GetLogHandler (cfg : AppConfig) : Z * bool :=
  (ParseLevelOrDefault (LogLevel cfg) Log.LevelInfo, LogFormatJSON cfg).

(** What [main] does with its configuration before the program is built. *)
Definition configure (debugmode : bool) (flagSet : gset string) (env : string → option string) (parsed : AppConfig)
    : result config_error AppConfig :=
  cfg ← ApplyEnvDefaults debugmode flagSet env parsed;
  _ ← ValidateConfig cfg;
  Ok cfg.

End Config.
