(* ===== verification/Queries.v ===== *)
(** * The statements of [storage/sqlcgen/queries.sql.go]

    One definition per generated query: what its SQL text reads from the
    database, or the database it makes.  The statements on the vault tables are
    in [VaultStore]. *)

From Stdlib Require Import Ascii.
From S2P Require Import Prelude GoFloat GoString OrderId Domain Store Tables.
Import GoFloat GoString Domain Store Tables.

Module Queries.

Section Queries.
Context {sqlite : SqliteJSON} {R : GoRange}.

(** ** Bot events *)

Definition insert_event (now : Z) (order_id : string) (bot_id deal_id botevent_id created : Z)
    (payload : string) (t : auto botevent_row) : result store_error (Z * auto botevent_row) :=
  if existsb (λ r, String.eqb (er_order_id r) order_id && (er_botevent_id r =? botevent_id) &&
                   (er_created_at_utc r =? created)) (au_rows t)
  then Err ErrNoRows
  else
    let id := au_seq t + 1 in
    Ok (id, mkAuto (au_rows t ++
              [mkEventRow id order_id bot_id deal_id botevent_id created now payload]) id).

Definition InsertThreeCommasBotEvent (now : Z) (order_id : string)
    (bot_id deal_id botevent_id created : Z) (payload : string) (d : Database)
    : result store_error (Z * Database) :=
  '(id, t) ← insert_event now order_id bot_id deal_id botevent_id created payload (db_botevents d);
  Ok (id, with_botevents t d).

Definition InsertThreeCommasBotEventLog (now : Z) (order_id : string)
    (bot_id deal_id botevent_id created : Z) (payload : string) (d : Database)
    : result store_error (Z * Database) :=
  '(id, t) ← insert_event now order_id bot_id deal_id botevent_id created payload
               (db_botevents_log d);
  Ok (id, with_botevents_log t d).

Definition ListThreeCommasBotEventsForOrder (bot_id deal_id botevent_id : Z) (d : Database)
    : list botevent_row :=
  order_by (lex_le [by_int er_created_at_utc; by_int er_observed_at_utc; by_int er_id])
    (filter (λ r, er_bot_id r = bot_id ∧ er_deal_id r = deal_id ∧ er_botevent_id r = botevent_id)
       (au_rows (db_botevents d))).

Definition HasThreeCommasOrderId (order_id : string) (d : Database) : Z :=
  sql_bool (existsb (λ r, String.eqb (er_order_id r) order_id) (au_rows (db_botevents d))).

Definition distinct {A} `{EqDecision A} (l : list A) : list A := rev (remove_dups (rev l)).

Definition GetOrderIdForDeal (deal_id : Z) (d : Database) : list string :=
  distinct (er_order_id <$> filter (λ r, er_deal_id r = deal_id) (au_rows (db_botevents d))).

Definition FetchThreeCommasBotEvent (order_id : string) (d : Database)
    : result store_error string :=
  er_payload <$> one (order_by (lex_le [desc (by_int er_observed_at_utc); desc (by_int er_id)])
    (filter (λ r, er_order_id r = order_id) (au_rows (db_botevents d)))).

(** The query written out in [fetchBotEventByRowIDLocked]. *)
Definition select_payload (row_id : Z) (d : Database) : result store_error string :=
  er_payload <$> one (filter (λ r, er_id r = row_id) (au_rows (db_botevents d))).

Definition ListThreeCommasBotEventLogs (d : Database) : list botevent_row :=
  order_by (lex_le [by_int er_created_at_utc; by_int er_id]) (au_rows (db_botevents_log d)).

Definition ListThreeCommasBotEventLogsForOrderId (order_id : string) (from to : Z) (d : Database)
    : list botevent_row :=
  order_by (lex_le [by_int er_observed_at_utc; by_int er_id])
    (filter (λ r, er_order_id r = order_id ∧ from <= er_observed_at_utc r <= to)
       (au_rows (db_botevents_log d))).

Definition GetTPForDeal (deal_id : Z) (d : Database) : result store_error botevent_row :=
  one (order_by (lex_le [desc (by_int er_created_at_utc)])
    (filter (λ r, er_deal_id r = deal_id ∧
                  json_text (er_payload r) "$.OrderType" = Some "Take Profit"%string)
       (au_rows (db_botevents d)))).

(** The rows with [rn = 1]: of each position the last row by time and id. *)
Definition ListLatestTakeProfitStackSizes (deal_id order_size : Z) (d : Database)
    : list (Z * option f64) :=
  let candidates := omap (λ r,
    match json_text (er_payload r) "$.OrderType", json_integer (er_payload r) "$.OrderPosition" with
    | Some ty, Some pos =>
      if bool_decide (er_deal_id r = deal_id) && String.eqb ty "Take Profit" &&
         (1 <=? pos) && (pos <=? order_size)
      then Some (pos, r) else None
    | _, _ => None
    end) (au_rows (db_botevents d)) in
  let ranked := order_by (lex_le [by_int fst; desc (by_int (er_created_at_utc ∘ snd));
                                  desc (by_int (er_id ∘ snd))]) candidates in
  fold_right (λ x acc,
    let '(pos, r) := x in
    (pos, json_real (er_payload r) "$.Size") :: filter (λ y, y.1 ≠ pos) acc) [] ranked.

(** [s LIKE pattern]: ['%'] stands for any text, ['_'] for any character, and the
    case of letters does not matter. *)
Fixpoint like (pattern s : string) : bool :=
  match pattern with
  | EmptyString => match s with EmptyString => true | _ => false end
  | String "%" p =>
    (fix any (s : string) : bool :=
       like p s || match s with EmptyString => false | String _ s => any s end) s
  | String c p =>
    match s with
    | EmptyString => false
    | String x s => (Ascii.eqb c "_" || Ascii.eqb (lower c) (lower x)) && like p s
    end
  end.

(** Page of [ListOrders]: the filters that are given, newest first. *)
Definition given {A} (o : option A) (P : A → bool) : bool :=
  match o with Some a => P a | None => true end.

Definition ListThreeCommasBotEventsForAPI (bot_id deal_id bot_event_id from to : option Z)
    (prefix : option string) (cursor : option (Z * Z)) (limit : Z) (d : Database)
    : list botevent_row :=
  take (Z.to_nat limit)
    (order_by (lex_le [desc (by_int er_observed_at_utc); desc (by_int er_id)])
       (filter (λ r,
          Is_true (given bot_id (λ b, er_bot_id r =? b) && given deal_id (λ b, er_deal_id r =? b) &&
           given bot_event_id (λ b, er_botevent_id r =? b) &&
           given from (λ t, t <=? er_observed_at_utc r) && given to (λ t, er_observed_at_utc r <=? t) &&
           given prefix (λ p, like (ToLower p +:+ "%") (ToLower (er_order_id r))) &&
           given cursor (λ '(obs, id), (er_observed_at_utc r <? obs) ||
                                       ((er_observed_at_utc r =? obs) && (er_id r <? id)))))
          (au_rows (db_botevents d)))).

(** ** Bots and deals *)

Definition UpsertBot (bot_id : Z) (payload : string) (last_synced : Z) (d : Database) : Database :=
  with_bots (<[bot_id := mkBotRow payload last_synced]> (db_bots d)) d.

Definition FetchBot (bot_id : Z) (d : Database) : result store_error bot_row :=
  one_of (db_bots d !! bot_id).

Definition UpdateBotSync (bot_id last_synced : Z) (d : Database) : Database :=
  with_bots (alter (λ b, mkBotRow (bo_payload b) last_synced) bot_id (db_bots d)) d.

Definition UpsertDeal (deal_id bot_id created updated : Z) (payload : string) (d : Database)
    : Database :=
  with_deals (<[deal_id := mkDealRow bot_id created updated payload]> (db_deals d)) d.

Definition FetchDeal (deal_id : Z) (d : Database) : result store_error string :=
  de_payload <$> one_of (db_deals d !! deal_id).

Definition ListDealIDs (d : Database) : list Z := (go_range 0 (db_deals d)).*1.

(** ** Venues and assignments *)

Definition UpsertVenue (id type display_name wallet flags : string) (d : Database)
    : result store_error Database :=
  match json flags with
  | None => Err malformed_json
  | Some flags =>
    if existsb (λ '(id', v), negb (String.eqb id' id) && String.eqb (vr_type v) type &&
                             String.eqb (vr_wallet v) wallet) (map_to_list (db_venues d))
    then Err (unique_message "venues.type, venues.wallet")
    else Ok (with_venues (<[id := mkVenueRow type display_name wallet flags]> (db_venues d)) d)
  end.

Definition DeleteVenue (id : string) (d : Database) : Database :=
  with_venues (delete id (db_venues d)) d.

Definition GetVenue (id : string) (d : Database) : result store_error venue_row :=
  one_of (db_venues d !! id).

Definition ListVenues (d : Database) : list (string * venue_row) :=
  order_by (lex_le [by_text fst]) (map_to_list (db_venues d)).

Definition GetVenueByTypeAndWallet (type wallet : string) (d : Database)
    : result store_error (string * venue_row) :=
  one (filter (λ v, vr_type v.2 = type ∧ vr_wallet v.2 = wallet) (map_to_list (db_venues d))).

Definition other_primary (bot_id : Z) (venue_id : string) (d : Database) : bool :=
  existsb (λ '((b, v), a), (b =? bot_id) && negb (String.eqb v venue_id) && (ar_is_primary a =? 1))
    (map_to_list (db_assignments d)).

Definition UpsertBotVenueAssignment (now bot_id : Z) (venue_id : string) (is_primary : Z)
    (d : Database) : result store_error Database :=
  if (is_primary =? 1) && other_primary bot_id venue_id d
  then Err (unique_message "bot_venue_assignments.bot_id")
  else Ok (with_assignments (<[(bot_id, venue_id) := mkAssignRow is_primary now]>
                               (db_assignments d)) d).

Definition DeleteBotVenueAssignment (bot_id : Z) (venue_id : string) (d : Database) : Database :=
  with_assignments (delete (bot_id, venue_id) (db_assignments d)) d.

Definition ListBotVenueAssignments (bot_id : Z) (d : Database)
    : list (Z * string * assignment_row) :=
  order_by (lex_le [by_text (snd ∘ fst)])
    (filter (λ a, a.1.1 = bot_id) (map_to_list (db_assignments d))).

Definition ListVenueAssignments (venue_id : string) (d : Database)
    : list (Z * string * assignment_row) :=
  order_by (lex_le [by_int (fst ∘ fst)])
    (filter (λ a, a.1.2 = venue_id) (map_to_list (db_assignments d))).

Definition GetPrimaryVenueForBot (bot_id : Z) (d : Database) : result store_error string :=
  one ((snd ∘ fst) <$> filter (λ a, a.1.1 = bot_id ∧ ar_is_primary a.2 = 1)
                         (go_range 0 (db_assignments d))).

(** The statement [UpsertVenueAssignment] runs in its transaction. *)
Definition clear_primary (bot_id : Z) (d : Database) : Database :=
  with_assignments (map_imap (λ k a, Some (if k.1 =? bot_id
    then mkAssignRow 0 (ar_assigned_at_utc a) else a)) (db_assignments d)) d.

(** ** Submissions *)

Definition UpsertHyperliquidCreate (now : Z) (k : order_key) (create_payload : string)
    (payload_type payload_blob : string) (row_id : Z) (d : Database)
    : result store_error Database :=
  match json create_payload with
  | None => Err malformed_json
  | Some p =>
    let row :=
      match db_submissions d !! k with
      | None => mkSubRow "create" (Some p) [] None payload_type payload_blob now row_id
      | Some r => mkSubRow "create" (Some p) (sr_modify_payloads r) (sr_cancel_payload r)
                    payload_type payload_blob now (sr_botevent_row_id r)
      end in
    Ok (with_submissions (<[k := row]> (db_submissions d)) d)
  end.

Definition AppendHyperliquidModify (now : Z) (k : order_key) (modify_payload : string)
    (payload_type payload_blob : string) (row_id : Z) (d : Database)
    : result store_error Database :=
  match json modify_payload with
  | None => Err malformed_json
  | Some p =>
    let row :=
      match db_submissions d !! k with
      | None => mkSubRow "modify" None [p] None payload_type payload_blob now row_id
      | Some r => mkSubRow "modify" (sr_create_payload r) (sr_modify_payloads r ++ [p])
                    (sr_cancel_payload r) payload_type payload_blob now (sr_botevent_row_id r)
      end in
    Ok (with_submissions (<[k := row]> (db_submissions d)) d)
  end.

Definition UpsertHyperliquidCancel (now : Z) (k : order_key) (cancel_payload : string)
    (payload_type payload_blob : string) (row_id : Z) (d : Database)
    : result store_error Database :=
  match json cancel_payload with
  | None => Err malformed_json
  | Some p =>
    let row :=
      match db_submissions d !! k with
      | None => mkSubRow "cancel" None [] (Some p) payload_type payload_blob now row_id
      | Some r => mkSubRow "cancel" (sr_create_payload r) (sr_modify_payloads r) (Some p)
                    payload_type payload_blob now (sr_botevent_row_id r)
      end in
    Ok (with_submissions (<[k := row]> (db_submissions d)) d)
  end.

Definition FetchHyperliquidSubmission (k : order_key) (d : Database)
    : result store_error submission_row :=
  one_of (db_submissions d !! k).

Definition FetchLatestHyperliquidSubmissionAnyIdentifier (order_id : string) (d : Database)
    : result store_error (order_key * submission_row) :=
  one (order_by (lex_le [desc (by_int (sr_updated_at_utc ∘ snd))])
    (filter (λ s, s.1.2 = order_id) (go_range 0 (db_submissions d)))).

Definition ListHyperliquidOrderIds (venue_id : string) (d : Database) : list order_key :=
  order_by (lex_le [by_text (fst ∘ fst); by_text (snd ∘ fst); by_text snd])
    (filter (λ k, k.1.1 = venue_id) (map_to_list (db_submissions d)).*1).

(** The two queries written out in [ListSubmissionIdentifiersForOrder]. *)
Definition submission_holders (order_id : string) (d : Database) : list (string * string) :=
  fst ∘ fst <$> filter (λ s, ToLower s.1.2 = order_id) (go_range 0 (db_submissions d)).
Definition status_holders (order_id : string) (d : Database) : list (string * string) :=
  fst ∘ fst ∘ fst <$> filter (λ s, ToLower s.1.1.2 = order_id) (go_range 1 (db_statuses d)).

(** ** Statuses *)

Definition status_taken : store_error :=
  unique_message ("hyperliquid_status_history.venue_id, hyperliquid_status_history.wallet, " +:+
    "hyperliquid_status_history.order_id, hyperliquid_status_history.recorded_at_utc").

Definition InsertHyperliquidStatus (k : order_key) (payload_type payload_blob : string)
    (recorded : Z) (d : Database) : result store_error Database :=
  match db_statuses d !! (k, recorded) with
  | Some _ => Err status_taken
  | None =>
    Ok (with_statuses (<[(k, recorded) := mkStatusRow payload_type payload_blob]>
                         (db_statuses d)) d)
  end.

Definition status_rows (k : order_key) (d : Database) : list (order_key * Z * status_row) :=
  filter (λ s, s.1.1 = k) (map_to_list (db_statuses d)).

Definition FetchLatestHyperliquidStatus (k : order_key) (d : Database)
    : result store_error status_row :=
  snd <$> one (order_by (lex_le [desc (by_int (snd ∘ fst))]) (status_rows k d)).

Definition ListHyperliquidStatuses (k : order_key) (d : Database) : list status_row :=
  snd <$> order_by (lex_le [by_int (snd ∘ fst)]) (status_rows k d).

Definition FetchLatestHyperliquidStatusAnyIdentifier (order_id : string) (d : Database)
    : result store_error (order_key * Z * status_row) :=
  one (order_by (lex_le [desc (by_int (snd ∘ fst))])
    (filter (λ s, s.1.1.2 = order_id) (go_range 0 (db_statuses d)))).

Definition ListHyperliquidStatusesForOrderId (k : order_key) (from to : Z) (d : Database)
    : list (order_key * Z * status_row) :=
  order_by (lex_le [by_int (snd ∘ fst)])
    (filter (λ s, from <= s.1.2 <= to) (status_rows k d)).

Record safety_row := mkSafetyRow {
  sf_order_id : string;
  sf_bot_id : Z;
  sf_deal_id : Z;
  sf_order_type : string;
  sf_order_position : option Z;
  sf_order_size : option Z;
  sf_hl_status : option string;
  sf_hl_status_timestamp : option Z;
  sf_recorded_at_utc : Z;
}.

(** The rows of [ranked_status] with [rn = 1]: the last one of each order. *)
Definition latest_statuses (d : Database) : list (order_key * Z * status_row) :=
  filter (λ s, Forall (λ s', s'.1.1 = s.1.1 → s'.1.2 <= s.1.2) (map_to_list (db_statuses d)))
    (map_to_list (db_statuses d)).

(** NULL sorts before every integer. *)
Definition by_position (a b : safety_row) : Z :=
  match sf_order_position a, sf_order_position b with
  | None, None => 0
  | None, Some _ => -1
  | Some _, None => 1
  | Some x, Some y => x - y
  end.

Definition ListLatestHyperliquidSafetyStatuses (venue_id : string) (deal_id : Z)
    (wallet : option string) (d : Database) : list safety_row :=
  order_by (lex_le [by_position])
    (latest ← latest_statuses d;
     let '((v, w, o), recorded, st) := latest in
     match db_submissions d !! (v, w, o) with
     | None => []
     | Some s =>
       b ← filter (λ b, er_id b = sr_botevent_row_id s) (au_rows (db_botevents d));
       match json_text (er_payload b) "$.OrderType" with
       | Some ty =>
         if String.eqb v venue_id && (er_deal_id b =? deal_id) && String.eqb ty "Safety" &&
            given wallet (String.eqb w)
         then [mkSafetyRow (er_order_id b) (er_bot_id b) (er_deal_id b) ty
                 (json_integer (er_payload b) "$.OrderPosition")
                 (json_integer (er_payload b) "$.OrderSize")
                 (json_text (tr_payload_blob st) "$.status")
                 (json_integer (tr_payload_blob st) "$.statusTimestamp") recorded]
         else []
       | None => []
       end
     end).

(** ** Moving an account's rows to another wallet *)

Definition of_wallet (venue_id wallet : string) (k : order_key) : bool :=
  String.eqb k.1.1 venue_id && String.eqb k.1.2 wallet.
Definition set_wallet (wallet : string) (k : order_key) : order_key := (k.1.1, wallet, k.2).

(** INSERT ... SELECT ... ON CONFLICT DO NOTHING *)
Definition cloned {A} (to venue_id from : string) (t : gmap order_key A) : gmap order_key A :=
  t ∪ list_to_map (prod_map (set_wallet to) id <$>
         filter (λ r, Is_true (of_wallet venue_id from r.1)) (map_to_list t)).

Definition CloneHyperliquidSubmissionsToWallet (to venue_id from : string) (d : Database)
    : Database :=
  with_submissions (cloned to venue_id from (db_submissions d)) d.
Definition CloneScaledOrdersToWallet (to venue_id from : string) (d : Database) : Database :=
  with_scaled (cloned to venue_id from (db_scaled d)) d.
Definition CloneHyperliquidStatusesToWallet (to venue_id from : string) (d : Database)
    : Database :=
  with_statuses (db_statuses d ∪
    list_to_map (prod_map (prod_map (set_wallet to) id) id <$>
      filter (λ r, Is_true (of_wallet venue_id from r.1.1)) (map_to_list (db_statuses d)))) d.

Definition DeleteHyperliquidStatusesForWallet (venue_id wallet : string) (d : Database)
    : Database :=
  with_statuses (filter (λ r, ¬ Is_true (of_wallet venue_id wallet r.1.1)) (db_statuses d)) d.
Definition DeleteHyperliquidSubmissionsForWallet (venue_id wallet : string) (d : Database)
    : Database :=
  with_submissions (filter (λ r, ¬ Is_true (of_wallet venue_id wallet r.1)) (db_submissions d)) d.
Definition DeleteScaledOrdersForWallet (venue_id wallet : string) (d : Database) : Database :=
  with_scaled (filter (λ r, ¬ Is_true (of_wallet venue_id wallet r.1)) (db_scaled d)) d.

(** ** The order scaler *)

Definition GetOrderScaler (d : Database) : result store_error scaler_row := one_of (db_scaler d).

Definition UpsertOrderScaler (now : Z) (multiplier : f64) (updated_by : string)
    (notes : option string) (d : Database) : Database :=
  with_scaler (Some (mkScalerRow multiplier now updated_by notes)) d.

Definition ListBotOrderScalers (d : Database) : list (Z * bot_scaler_row) :=
  order_by (lex_le [by_int fst]) (map_to_list (db_bot_scalers d)).

Definition GetBotOrderScaler (bot_id : Z) (d : Database) : result store_error bot_scaler_row :=
  one_of (db_bot_scalers d !! bot_id).

(** [effective_from_utc] keeps the time of the first insertion. *)
Definition UpsertBotOrderScaler (now bot_id : Z) (multiplier : option f64)
    (notes : option string) (updated_by : string) (d : Database) : Database :=
  let from := match db_bot_scalers d !! bot_id with
              | Some r => bs_effective_from_utc r
              | None => now
              end in
  with_bot_scalers (<[bot_id := mkBotScalerRow multiplier notes from now updated_by]>
                      (db_bot_scalers d)) d.

Definition DeleteBotOrderScaler (bot_id : Z) (d : Database) : Database :=
  with_bot_scalers (delete bot_id (db_bot_scalers d)) d.

Definition InsertScaledOrder (k : order_key) (row : scaled_row) (d : Database)
    : result store_error Database :=
  match db_scaled d !! k with
  | Some _ => Err (unique_message
      "scaled_orders.venue_id, scaled_orders.wallet, scaled_orders.order_id")
  | None => Ok (with_scaled (<[k := row]> (db_scaled d)) d)
  end.

Definition scaled_order : order_key * scaled_row → order_key * scaled_row → bool :=
  lex_le [by_int (cd_created_at_utc ∘ snd); by_text (snd ∘ fst)].

Definition ListScaledOrdersByOrderId (order_id pattern : string) (d : Database)
    : list (order_key * scaled_row) :=
  order_by scaled_order
    (filter (λ s, Is_true (String.eqb s.1.2 order_id || like pattern s.1.2))
       (go_range 0 (db_scaled d))).

Definition ListScaledOrdersByDeal (deal_id : Z) (d : Database) : list (order_key * scaled_row) :=
  order_by scaled_order (filter (λ s, cd_deal_id s.2 = deal_id) (go_range 0 (db_scaled d))).

Definition ListScaledOrderAuditsForOrderId (venue_id order_id pattern : string) (from to : Z)
    (d : Database) : list (order_key * scaled_row) :=
  order_by scaled_order
    (filter (λ s, s.1.1.1 = venue_id ∧
                  Is_true (String.eqb s.1.2 order_id || like pattern s.1.2) ∧
                  from <= cd_created_at_utc s.2 <= to) (go_range 0 (db_scaled d))).

End Queries.

End Queries.
