(* ===== verification/Stream.v ===== *)
(** * The live streams of the API: [internal/api/stream_controller.go], [system_stream.go]

    A controller hands every published event to the subscribers that are
    registered, into a channel of fixed capacity each; when the channel is full
    the event is dropped for that subscriber.  A channel is the list of the
    events that wait in it and whether it is closed. *)

From S2P Require Import Prelude GoFloat GoString OrderId Domain Store.
Import GoFloat GoString Domain.

Module Stream.

(** ** The API's view of the order scaler and of an audit, as streamed *)

Record OrderScalerState := mkApiState {
  as_Multiplier : f64;
  as_Notes : option string;
  as_UpdatedAt : Z;
  as_UpdatedBy : string;
}.

Record OrderScalerOverride := mkApiOverride {
  ao_BotId : Z;
  ao_EffectiveFrom : Z;
  ao_Multiplier : option f64;
  ao_Notes : option string;
  ao_UpdatedAt : Z;
  ao_UpdatedBy : string;
}.

Record EffectiveOrderScaler := mkApiEffective {
  ae_Default : OrderScalerState;
  ae_Multiplier : f64;
  ae_OrderId : string;
  ae_Override : option OrderScalerOverride;
  ae_Source : Store.OrderScalerSource;
}.

Record ScaledOrderAudit := mkApiAudit {
  aa_BotId : Z;
  aa_CreatedAt : Z;
  aa_DealId : Z;
  aa_Multiplier : f64;
  aa_MultiplierUpdatedBy : string;
  aa_OrderSide : string;
  aa_OriginalSize : f64;
  aa_RoundingDelta : f64;
  aa_ScaledSize : f64;
  aa_SkipReason : option string;
  aa_Skipped : bool;
  aa_StackIndex : Z;
  aa_SubmittedOrderId : option string;
}.

Inductive OrderLogEntryType :=
| ThreeCommasEvent
| HyperliquidSubmission
| HyperliquidStatus
| OrderScalerConfigEntry
| ScaledOrderAuditEntry.
#[global] Instance OrderLogEntryType_eq_dec : EqDecision OrderLogEntryType.
Proof. solve_decision. Defined.

(** The dynamic types an [interface{}] submission takes. *)
Inductive Submission :=
| SubmittedCreate (req : CreateOrderRequest)
| SubmittedModify (req : ModifyOrderRequest)
| SubmittedCancel (req : CancelOrderRequestByCloid).

Record StreamEvent := mkStreamEvent {
  se_Type : OrderLogEntryType;
  se_OrderID : OrderId.OrderId;
  se_Identifier : option OrderIdentifier;
  se_ObservedAt : Z;
  se_BotEvent : option TcBotEvent;
  se_Submission : option Submission;
  se_Status : option WsOrder;
  se_Sequence : option Z;
  se_ScalerConfig : option EffectiveOrderScaler;
  se_ScaledOrderAudit : option ScaledOrderAudit;
  se_Actor : option string;
}.

Definition with_observed (t : Z) (e : StreamEvent) : StreamEvent :=
  mkStreamEvent (se_Type e) (se_OrderID e) (se_Identifier e) t (se_BotEvent e) (se_Submission e)
    (se_Status e) (se_Sequence e) (se_ScalerConfig e) (se_ScaledOrderAudit e) (se_Actor e).
Definition with_sequence (n : Z) (e : StreamEvent) : StreamEvent :=
  mkStreamEvent (se_Type e) (se_OrderID e) (se_Identifier e) (se_ObservedAt e) (se_BotEvent e)
    (se_Submission e) (se_Status e) (Some n) (se_ScalerConfig e) (se_ScaledOrderAudit e)
    (se_Actor e).

(** ** Channels *)

(** A buffered channel; a send on a full one is not attempted by the code. *)
Record chan (A : Type) := mkChan { ch_buf : list A; ch_cap : nat; ch_closed : bool }.
Arguments mkChan {A}.
Arguments ch_buf {A}.
Arguments ch_cap {A}.
Arguments ch_closed {A}.

Definition make_chan {A} (cap : Z) : chan A := mkChan [] (Z.to_nat cap) false.

(** [select { case ch <- x: default: }] on an open channel. *)
Definition try_send {A} (x : A) (c : chan A) : chan A :=
  if (length (ch_buf c) <? ch_cap c)%nat then mkChan (ch_buf c ++ [x]) (ch_cap c) (ch_closed c)
  else c.
Definition close_chan {A} (c : chan A) : chan A := mkChan (ch_buf c) (ch_cap c) true.

(** A receive that does not wait: the next event, or that there is none. *)
Definition try_recv {A} (c : chan A) : option A * chan A :=
  match ch_buf c with
  | [] => (None, c)
  | x :: rest => (Some x, mkChan rest (ch_cap c) (ch_closed c))
  end.

(** ** Orders: [stream_controller.go] *)

Definition defaultStreamBuffer : Z := 64.

Record StreamFilter := mkFilter {
  sf_OrderIdPrefix : option string;
  sf_BotID : option Z;
  sf_DealID : option Z;
  sf_BotEventID : option Z;
  sf_ObservedFrom : option Z;
}.

Record streamSubscriber := mkSubscriber { ss_filter : StreamFilter; ss_ch : chan StreamEvent }.

(** [sc_gone] keeps the channels of subscribers that have left, which their
    readers still drain. *)
Record StreamController := mkController {
  sc_subscribers : gmap Z streamSubscriber;
  sc_gone : gmap Z (chan StreamEvent);
  sc_nextSubID : Z;
  sc_sequence : Z;
  sc_bufferSize : Z;
}.

Definition WithStreamBufferSize (size : Z) (c : StreamController) : StreamController :=
  if 0 <? size then
    mkController (sc_subscribers c) (sc_gone c) (sc_nextSubID c) (sc_sequence c) size
  else c.

Definition NewStreamController (opts : list (StreamController → StreamController))
  : StreamController :=
  fold_left (λ c opt, opt c) opts (mkController ∅ ∅ 0 0 defaultStreamBuffer).

Definition matchesFilter (filter : StreamFilter) (evt : StreamEvent) : bool :=
  let miss_prefix :=
    match sf_OrderIdPrefix filter with
    | Some p =>
      let prefix := ToLower (TrimSpace p) in
      negb (String.eqb prefix "") &&
      negb (HasPrefix (ToLower (OrderId.Hex (se_OrderID evt))) prefix)
    | None => false
    end in
  let differs (want : option Z) (got : Z) :=
    match want with Some w => negb (got =? u32 w) | None => false end in
  if miss_prefix then false
  else if differs (sf_BotID filter) (OrderId.BotID (se_OrderID evt)) then false
  else if differs (sf_DealID filter) (OrderId.DealID (se_OrderID evt)) then false
  else if differs (sf_BotEventID filter) (OrderId.BotEventID (se_OrderID evt)) then false
  else match sf_ObservedFrom filter with
       | Some from => negb (se_ObservedAt evt <? from)
       | None => true
       end.

(** [ctx_nil] says that the caller passed no context. *)
Definition Subscribe (ctx_nil : bool) (filter : StreamFilter) (c : StreamController)
    : option Z * StreamController :=
  if ctx_nil then (None, c)
  else
    let id := i64 (sc_nextSubID c + 1) in
    let sub := mkSubscriber filter (make_chan (sc_bufferSize c)) in
    (Some id, mkController (<[id := sub]> (sc_subscribers c)) (sc_gone c) id (sc_sequence c)
                (sc_bufferSize c)).

(** What [awaitCancellation] does once the context of the subscriber is done. *)
Definition awaitCancellation (id : Z) (c : StreamController) : StreamController :=
  match sc_subscribers c !! id with
  | Some sub =>
    mkController (delete id (sc_subscribers c)) (<[id := close_chan (ss_ch sub)]> (sc_gone c))
      (sc_nextSubID c) (sc_sequence c) (sc_bufferSize c)
  | None => c
  end.

(** What one subscriber does with an event; the loop of [Publish] does it for
    each of them, in an order that does not matter. *)
Definition offer (evt : StreamEvent) (sub : streamSubscriber) : streamSubscriber :=
  if matchesFilter (ss_filter sub) evt then mkSubscriber (ss_filter sub) (try_send evt (ss_ch sub))
  else sub.

Definition Publish (evt : StreamEvent) (c : StreamController) : StreamController :=
  let sequence := i64 (sc_sequence c + 1) in
  let evtCopy := with_sequence sequence evt in
  mkController (offer evtCopy <$> sc_subscribers c) (sc_gone c) (sc_nextSubID c) sequence
    (sc_bufferSize c).

Definition Flush (c : StreamController) : StreamController :=
  mkController ∅ ((close_chan ∘ ss_ch <$> sc_subscribers c) ∪ sc_gone c) (sc_nextSubID c)
    (sc_sequence c) (sc_bufferSize c).

(** The reader of a subscription takes the next event. *)
Definition receive (id : Z) (c : StreamController) : option StreamEvent * StreamController :=
  match sc_subscribers c !! id with
  | Some sub =>
    let '(x, ch) := try_recv (ss_ch sub) in
    (x, mkController (<[id := mkSubscriber (ss_filter sub) ch]> (sc_subscribers c)) (sc_gone c)
          (sc_nextSubID c) (sc_sequence c) (sc_bufferSize c))
  | None =>
    match sc_gone c !! id with
    | Some ch =>
      let '(x, ch) := try_recv ch in
      (x, mkController (sc_subscribers c) (<[id := ch]> (sc_gone c)) (sc_nextSubID c)
            (sc_sequence c) (sc_bufferSize c))
    | None => (None, c)
    end
  end.

(** ** System events: [system_stream.go] *)

Definition defaultSystemStreamBuffer : Z := 100.
Definition defaultSystemEventHistory : nat := 50.
Definition defaultSystemEventMaxAge : Z := 300 * second.

(** A [SystemEventLevel] is a string; the levels that are named have a rank and
    any other ranks as the zero value. *)
Definition SystemEventLevel : Type := string.
Definition SystemEventDebug : SystemEventLevel := "debug".
Definition SystemEventInfo : SystemEventLevel := "info".
Definition SystemEventWarn : SystemEventLevel := "warn".
Definition SystemEventError : SystemEventLevel := "error".

Definition levelRank (l : SystemEventLevel) : Z :=
  if String.eqb l SystemEventDebug then 0
  else if String.eqb l SystemEventInfo then 1
  else if String.eqb l SystemEventWarn then 2
  else if String.eqb l SystemEventError then 3
  else 0.

Record SystemEvent := mkSystemEvent {
  sy_Level : SystemEventLevel;
  sy_Timestamp : Z;
  sy_Source : string;
  sy_Message : string;
  sy_Details : gmap string string;
}.

(** [sm_pending] holds, per subscriber, the history its goroutine has still to
    send; [sm_gone] the channels of subscribers that have left. *)
Record SystemStreamController := mkSystem {
  sm_subscribers : gmap Z (chan SystemEvent);
  sm_pending : gmap Z (list SystemEvent);
  sm_gone : gmap Z (chan SystemEvent);
  sm_nextSubID : Z;
  sm_sequence : Z;
  sm_bufferSize : Z;
  sm_minLevel : SystemEventLevel;
  sm_eventHistory : list SystemEvent;
  sm_maxHistorySize : nat;
  sm_maxHistoryAge : Z;
}.

Definition NewSystemStreamController (minLevel : SystemEventLevel) : SystemStreamController :=
  mkSystem ∅ ∅ ∅ 0 0 defaultSystemStreamBuffer minLevel [] defaultSystemEventHistory
    defaultSystemEventMaxAge.

Definition shouldPublish (c : SystemStreamController) (level : SystemEventLevel) : bool :=
  levelRank (sm_minLevel c) <=? levelRank level.

Definition getRecentHistory (now : Z) (c : SystemStreamController) : list SystemEvent :=
  filter (λ evt, now - sm_maxHistoryAge c < sy_Timestamp evt) (sm_eventHistory c).

(** The events before the first one younger than the cutoff are cut; when there
    is none nothing is. *)
Fixpoint prune_age (cutoff : Z) (whole l : list SystemEvent) : list SystemEvent :=
  match l with
  | [] => whole
  | e :: rest => if cutoff <? sy_Timestamp e then l else prune_age cutoff whole rest
  end.

Definition addToHistory (now : Z) (evt : SystemEvent) (c : SystemStreamController)
    : list SystemEvent :=
  let h := sm_eventHistory c ++ [evt] in
  let h := if (sm_maxHistorySize c <? length h)%nat
           then drop (length h - sm_maxHistorySize c) h else h in
  prune_age (now - sm_maxHistoryAge c) h h.

(** The subscriber's [trySend]: a closed one takes nothing. *)
Definition trySend (evt : SystemEvent) (ch : chan SystemEvent) : chan SystemEvent :=
  if ch_closed ch then ch else try_send evt ch.

Definition SystemSubscribe (now : Z) (c : SystemStreamController) : Z * SystemStreamController :=
  let id := i64 (sm_nextSubID c + 1) in
  (id, mkSystem (<[id := make_chan (sm_bufferSize c)]> (sm_subscribers c))
         (<[id := getRecentHistory now c]> (sm_pending c)) (sm_gone c) id (sm_sequence c)
         (sm_bufferSize c) (sm_minLevel c) (sm_eventHistory c) (sm_maxHistorySize c)
         (sm_maxHistoryAge c)).

(** The next event of the history goroutine of a subscriber; [done] says that
    the context is done or that the channel is closed, which ends it. *)
Definition send_history (id : Z) (done : bool) (c : SystemStreamController)
    : SystemStreamController :=
  match sm_pending c !! id with
  | Some (evt :: rest) =>
    let stop := done || match sm_subscribers c !! id with
                        | Some ch => ch_closed ch
                        | None => true
                        end in
    if stop then
      mkSystem (sm_subscribers c) (delete id (sm_pending c)) (sm_gone c) (sm_nextSubID c)
        (sm_sequence c) (sm_bufferSize c) (sm_minLevel c) (sm_eventHistory c)
        (sm_maxHistorySize c) (sm_maxHistoryAge c)
    else
      mkSystem (alter (trySend evt) id (sm_subscribers c)) (<[id := rest]> (sm_pending c))
        (sm_gone c) (sm_nextSubID c) (sm_sequence c) (sm_bufferSize c) (sm_minLevel c)
        (sm_eventHistory c) (sm_maxHistorySize c) (sm_maxHistoryAge c)
  | _ => c
  end.

Definition system_awaitCancellation (id : Z) (c : SystemStreamController)
    : SystemStreamController :=
  match sm_subscribers c !! id with
  | Some ch =>
    mkSystem (delete id (sm_subscribers c)) (sm_pending c) (<[id := close_chan ch]> (sm_gone c))
      (sm_nextSubID c) (sm_sequence c) (sm_bufferSize c) (sm_minLevel c) (sm_eventHistory c)
      (sm_maxHistorySize c) (sm_maxHistoryAge c)
  | None => c
  end.

Definition SystemPublish (now : Z) (evt : SystemEvent) (c : SystemStreamController)
    : SystemStreamController :=
  if negb (shouldPublish c (sy_Level evt)) then c
  else
    mkSystem (trySend evt <$> sm_subscribers c) (sm_pending c) (sm_gone c) (sm_nextSubID c)
      (i64 (sm_sequence c + 1)) (sm_bufferSize c) (sm_minLevel c) (addToHistory now evt c)
      (sm_maxHistorySize c) (sm_maxHistoryAge c).

Definition SystemFlush (c : SystemStreamController) : SystemStreamController :=
  mkSystem ∅ (sm_pending c) ((close_chan <$> sm_subscribers c) ∪ sm_gone c) (sm_nextSubID c)
    (sm_sequence c) (sm_bufferSize c) (sm_minLevel c) (sm_eventHistory c) (sm_maxHistorySize c)
    (sm_maxHistoryAge c).

End Stream.
