(* ===== verification/Storage.v ===== *)
(** * The storage service: [storage/storage.go]

    The operations of [Storage] over the statements of [Queries].  The service
    is the database and, when a stream is attached, the events it has published
    there.  Every operation holds the lock of the service from its first query to
    its last, so that it is one step.  [now] is [time.Now()]; the clock of the
    database shows the same millisecond.  A statement fails only for a constraint
    or for text that is not JSON: failures of the file are not modelled. *)

From S2P Require Import Prelude GoFloat GoString OrderId Domain Store Tables Queries Stream.
Import GoFloat GoString Domain Store Tables.

Module Storage.

Definition defaultHyperliquidVenueID : VenueID := "hyperliquid:default".
Definition defaultHyperliquidVenueType : string := "hyperliquid".
Definition defaultHyperliquidName : string := "Default Hyperliquid Venue".
Definition defaultHyperliquidWallet : string := "default".
Definition primaryHyperliquidFlagKey : string := "is_primary".

Definition hyperliquidCreatePayloadType : string := "hyperliquid.create.v1".
Definition hyperliquidModifyPayloadType : string := "hyperliquid.modify.v1".
Definition hyperliquidCancelPayloadType : string := "hyperliquid.cancel.v1".
Definition hyperliquidStatusPayloadType : string := "hyperliquid.status.v1".

Definition hyperliquidSubmissionActionCreate : string := "create".
Definition hyperliquidSubmissionActionModify : string := "modify".
Definition hyperliquidSubmissionActionCancel : string := "cancel".

Definition errPrimaryHyperliquidVenueNotFound : store_error :=
  ErrStore "storage: primary hyperliquid venue not found".

(** ** The service and its operations *)

Record Storage := mkStorage {
  sg_db : Database;
  sg_stream : option (list Stream.StreamEvent);
}.

Definition Sto (A : Type) : Type := Storage → result store_error A * Storage.

#[export] Instance sto_ret : MRet Sto := λ A a s, (Ok a, s).
#[export] Instance sto_bind : MBind Sto := λ A B f m s,
  match m s with
  | (Ok a, s') => f a s'
  | (Err e, s') => (Err e, s')
  end.

#[export] Instance sto_fmap : FMap Sto := λ A B f m, a ← m; mret (f a).

Definition fail {A} (e : store_error) : Sto A := λ s, (Err e, s).
(** A query, and a query whose error the caller looks at. *)
Definition ask {A} (f : Database → A) : Sto A := λ s, (Ok (f (sg_db s)), s).
Definition query {A} (f : Database → result store_error A) : Sto A := λ s, (f (sg_db s), s).
(** A statement that writes. *)
Definition exec (f : Database → result store_error Database) : Sto unit := λ s,
  match f (sg_db s) with
  | Ok d => (Ok tt, mkStorage d (sg_stream s))
  | Err e => (Err e, s)
  end.
Definition exec_returning {A} (f : Database → result store_error (A * Database)) : Sto A := λ s,
  match f (sg_db s) with
  | Ok (a, d) => (Ok a, mkStorage d (sg_stream s))
  | Err e => (Err e, s)
  end.
(** The outcome of an operation as a value. *)
Definition attempt {A} (m : Sto A) : Sto (result store_error A) := λ s,
  let '(r, s') := m s in (Ok r, s').
(** [BeginTx] ... [Commit]: an error rolls the database back. *)
Definition transaction {A} (m : Sto A) : Sto A := λ s,
  match m s with
  | (Ok a, s') => (Ok a, s')
  | (Err e, s') => (Err e, mkStorage (sg_db s) (sg_stream s'))
  end.
Definition or_fail {A} (o : option A) (msg : string) : Sto A :=
  match o with Some a => mret a | None => fail (ErrStore msg) end.

Definition publishStreamEventLocked (now : Z) (evt : Stream.StreamEvent) : Sto unit := λ s,
  match sg_stream s with
  | None => (Ok tt, s)
  | Some l =>
    let evt := if IsZero (Stream.se_ObservedAt evt) then Stream.with_observed now evt else evt in
    (Ok tt, mkStorage (sg_db s) (Some (l ++ [evt])))
  end.

(** Runs the operations of a program on its state. *)
Ltac sto_run :=
  cbv beta iota zeta delta [mbind sto_bind mret sto_ret fmap sto_fmap query ask exec exec_returning
    or_fail fail attempt transaction]; cbn beta iota delta [sg_db sg_stream].

(** ** Identifiers *)

Definition ensureIdentifier (ident : OrderIdentifier) : OrderIdentifier :=
  NewOrderIdentifier
    (if String.eqb (oi_VenueID ident) "" then defaultHyperliquidVenueID else oi_VenueID ident)
    (if String.eqb (oi_Wallet ident) "" then defaultHyperliquidWallet else oi_Wallet ident)
    (oi_OrderId ident).

(** The key of the tables of orders. *)
Definition key_of (ident : OrderIdentifier) : order_key :=
  (Venue ident, oi_Wallet ident, Hex ident).

(** [err.Error()]. *)
Definition err_text (e : store_error) : string :=
  match e with ErrNoRows => "sql: no rows in result set" | ErrStore msg => msg end.

Definition isUniqueConstraintError (e : store_error) : bool :=
  Contains (err_text e) "UNIQUE constraint failed".

(** ** Flags of a venue *)

Inductive flag := FlagBool (b : bool) | FlagNumber (f : f64) | FlagString (s : string) | FlagOther.

(** [strconv.ParseBool]. *)
Definition ParseBool (s : string) : option bool :=
  if bool_decide (s ∈ ["1"; "t"; "T"; "true"; "TRUE"; "True"]%string) then Some true
  else if bool_decide (s ∈ ["0"; "f"; "F"; "false"; "FALSE"; "False"]%string) then Some false
  else None.

Definition isPrimaryVenueFlagged (flags : gmap string flag) : bool :=
  match flags !! primaryHyperliquidFlagKey with
  | None => false
  | Some (FlagBool v) => v
  | Some (FlagNumber v) => negb (feq v fzero)
  | Some (FlagString v) =>
    if String.eqb v "" then false
    else match ParseBool v with Some b => b | None => false end
  | Some FlagOther => false
  end.

Section Storage.
Context {sqlite : SqliteJSON} {R : GoRange}.
Context {json_event : Codec TcBotEvent} {json_deal : Codec TcDeal} {json_status : Codec WsOrder}.
Context {json_create : Codec CreateOrderRequest} {json_modify : Codec ModifyOrderRequest}
  {json_cancel : Codec CancelOrderRequestByCloid} {json_flags : Codec (gmap string flag)}.

Definition decodeVenueFlags (raw : string) : result store_error (gmap string flag) :=
  if String.eqb raw "" then Ok ∅
  else match Unmarshal raw with Some flags => Ok flags | None => Err (ErrStore "decode flags") end.

(** ** Decoding submissions; [nil] is the empty text *)

Definition decode_request {A} `{Codec A} (raw : string) : result store_error (option A) :=
  if String.eqb raw "" then Ok None
  else match Unmarshal raw with
       | Some decoded => Ok (Some decoded)
       | None => Err (ErrStore "decode request")
       end.
Definition decodeCreateRequest (raw : string) : result store_error (option CreateOrderRequest) :=
  decode_request raw.
Definition decodeCancelRequest (raw : string)
    : result store_error (option CancelOrderRequestByCloid) := decode_request raw.

Definition decodeLatestModifyRequest (history : list string) (fallback : string)
    : result store_error (option ModifyOrderRequest) :=
  match mapM Unmarshal history with
  | None => Err (ErrStore "decode request")
  | Some decoded =>
    match last decoded with
    | Some m => Ok (Some m)
    | None => decode_request fallback
    end
  end.

(** A nullable column read into a byte slice. *)
Definition column (o : option string) : string := default "" o.

(** ** The default venue *)

(** Each table that is keyed by wallet is copied first and emptied last. *)
Definition migrateDefaultVenueWalletLocked (fromWallet toWallet : string) (d : Database)
    : Database :=
  if String.eqb fromWallet toWallet then d
  else
    let v := defaultHyperliquidVenueID in
    let d := Queries.CloneHyperliquidSubmissionsToWallet toWallet v fromWallet d in
    let d := Queries.CloneHyperliquidStatusesToWallet toWallet v fromWallet d in
    let d := Queries.CloneScaledOrdersToWallet toWallet v fromWallet d in
    let d := Queries.DeleteHyperliquidStatusesForWallet v fromWallet d in
    let d := Queries.DeleteHyperliquidSubmissionsForWallet v fromWallet d in
    Queries.DeleteScaledOrdersForWallet v fromWallet d.

Definition upsertDefaultVenueLocked (wallet : string) : Sto unit :=
  let wallet := if String.eqb wallet "" then defaultHyperliquidWallet else wallet in
  existing ← ask (Queries.GetVenueByTypeAndWallet defaultHyperliquidVenueType wallet);
  let hasConflictingVenue :=
    match existing with
    | Ok (id, _) => negb (String.eqb id defaultHyperliquidVenueID)
    | Err _ => false
    end in
  row ← ask (Queries.GetVenue defaultHyperliquidVenueID);
  let currentWallet :=
    match row with
    | Ok v => if String.eqb (vr_wallet v) "" then defaultHyperliquidWallet else vr_wallet v
    | Err _ => defaultHyperliquidWallet
    end in
  outcome ← attempt (transaction (
    _ ← exec (Queries.UpsertVenue defaultHyperliquidVenueID defaultHyperliquidVenueType
                defaultHyperliquidName wallet "{}");
    if String.eqb currentWallet wallet then mret tt
    else exec (λ d, Ok (migrateDefaultVenueWalletLocked currentWallet wallet d))));
  match outcome with
  | Err e =>
    if hasConflictingVenue && Contains (err_text e) "UNIQUE constraint failed" then mret tt
    else fail e
  | Ok _ => mret tt
  end.

Definition ensureDefaultVenue : Sto unit := upsertDefaultVenueLocked defaultHyperliquidWallet.
Definition EnsureDefaultVenueWallet (wallet : string) : Sto unit := upsertDefaultVenueLocked wallet.

(** [New] on a database file with the contents [d]: [None] when it fails. *)
Definition New (now : Z) (stream : bool) (d : Database) : result store_error Storage :=
  match ensureDefaultVenue (mkStorage (schemaDDL now d) (if stream then Some [] else None)) with
  | (Ok _, s) => Ok s
  | (Err e, _) => Err e
  end.

(** ** Venues of a bot *)

Definition UpsertBotVenueAssignment (now botID : Z) (venueID : VenueID) (isPrimary : bool)
    : Sto unit :=
  exec (Queries.UpsertBotVenueAssignment (unix_milli now) botID venueID
          (if isPrimary then 1 else 0)).

Definition HasPrimaryVenueAssignment (botID : Z) : Sto bool :=
  r ← ask (Queries.GetPrimaryVenueForBot botID);
  match r with
  | Ok _ => mret true
  | Err ErrNoRows => mret false
  | Err e => fail e
  end.

(** The loop over the venues; the first flagged one wins, and flags that do not
    decode stop it. *)
Fixpoint find_primary (rows : list (string * venue_row)) : result store_error VenueAssignment :=
  match rows with
  | [] => Err errPrimaryHyperliquidVenueNotFound
  | (id, row) :: rows =>
    if negb (EqualFold (vr_type row) defaultHyperliquidVenueType) then find_primary rows
    else
      match decodeVenueFlags (vr_flags row) with
      | Err e => Err (ErrStore ("decode venue flags: " +:+ err_text e))
      | Ok flags =>
        if negb (isPrimaryVenueFlagged flags) then find_primary rows
        else
          let wallet := if String.eqb (vr_wallet row) "" then defaultHyperliquidWallet
                        else vr_wallet row in
          Ok (mkAssignment id wallet true)
      end
  end.

Definition findPrimaryHyperliquidVenueLocked : Sto VenueAssignment :=
  query (λ d, find_primary (Queries.ListVenues d)).

Definition defaultVenueAssignmentLocked : Sto VenueAssignment :=
  r ← ask (Queries.GetVenue defaultHyperliquidVenueID);
  match r with
  | Err ErrNoRows => mret (mkAssignment defaultHyperliquidVenueID defaultHyperliquidWallet true)
  | Err e => fail e
  | Ok row =>
    let wallet := if String.eqb (vr_wallet row) "" then defaultHyperliquidWallet
                  else vr_wallet row in
    let assignment := mkAssignment defaultHyperliquidVenueID wallet true in
    if negb (String.eqb wallet defaultHyperliquidWallet) then mret assignment
    else
      primary ← attempt findPrimaryHyperliquidVenueLocked;
      match primary with
      | Ok primary => mret primary
      | Err e =>
        if String.eqb (err_text e) (err_text errPrimaryHyperliquidVenueNotFound)
        then mret assignment else fail e
      end
  end.

Definition ResolveDefaultAlias : Sto VenueAssignment := defaultVenueAssignmentLocked.

Definition ListVenuesForBot (botID : Z) : Sto (list VenueAssignment) :=
  assignments ← ask (Queries.ListBotVenueAssignments botID);
  match assignments with
  | [] => a ← defaultVenueAssignmentLocked; mret [a]
  | _ =>
    venues ← ask (λ d, omap (λ a,
      match Queries.GetVenue a.1.2 d with
      | Err _ => None
      | Ok row =>
        let wallet := if String.eqb (vr_wallet row) "" then defaultHyperliquidWallet
                      else vr_wallet row in
        Some (mkAssignment a.1.2 wallet (negb (ar_is_primary a.2 =? 0)))
      end) assignments);
    match venues with
    | [] => a ← defaultVenueAssignmentLocked; mret [a]
    | _ => mret venues
    end
  end.

(** The identifiers in the order they are met, each once. *)
Definition append_identifiers (oid : OrderId.OrderId) (seen : list OrderIdentifier)
    (rows : list (string * string)) : list OrderIdentifier :=
  fold_left (λ identifiers '(venueID, wallet),
    let ident := ensureIdentifier (NewOrderIdentifier venueID wallet oid) in
    if bool_decide (ident ∈ identifiers) then identifiers else identifiers ++ [ident]) rows seen.

Definition ListSubmissionIdentifiersForOrder (oid : OrderId.OrderId) : Sto (list OrderIdentifier) :=
  let hex := ToLower (OrderId.Hex oid) in
  subRows ← ask (Queries.submission_holders hex);
  statusRows ← ask (Queries.status_holders hex);
  mret (append_identifiers oid (append_identifiers oid [] subRows) statusRows).

(** ** Bot events *)

Definition RecordThreeCommasBotEvent (now : Z) (oid : OrderId.OrderId) (order : TcBotEvent)
    : Sto Z :=
  raw ← or_fail (Marshal order) "marshal";
  lastInsertId ← exec_returning (Queries.InsertThreeCommasBotEvent (unix_milli now)
    (OrderId.Hex oid) (OrderId.BotID oid) (OrderId.DealID oid) (OrderId.BotEventID oid)
    (unix_milli (ev_CreatedAt order)) raw);
  _ ← (if negb (lastInsertId =? 0) then
         publishStreamEventLocked now
           (Stream.mkStreamEvent Stream.ThreeCommasEvent oid
              (Some (ensureIdentifier (NewOrderIdentifier "" "" oid))) zero_time (Some order)
              None None None None None None)
       else mret tt);
  mret lastInsertId.

Definition RecordThreeCommasBotEventLog (now : Z) (oid : OrderId.OrderId) (order : TcBotEvent)
    : Sto Z :=
  raw ← or_fail (Marshal order) "marshal";
  exec_returning (Queries.InsertThreeCommasBotEventLog (unix_milli now)
    (OrderId.Hex oid) (OrderId.BotID oid) (OrderId.DealID oid) (OrderId.BotEventID oid)
    (unix_milli (ev_CreatedAt order)) raw).

Definition decode_event (r : botevent_row) : option BotEvent :=
  mkBotEvent (er_id r) <$> Unmarshal (er_payload r).

Definition ListEventsForOrder (botID dealID botEventID : Z) : Sto (list BotEvent) :=
  rows ← ask (Queries.ListThreeCommasBotEventsForOrder botID dealID botEventID);
  or_fail (mapM decode_event rows) "decode bot event".

Definition decode_log_row (r : botevent_row) : result store_error BotEventLog :=
  match Unmarshal (er_payload r) with
  | None => Err (ErrStore "decode bot event")
  | Some evt =>
    match OrderId.FromHexString (er_order_id r) with
    | Err _ => Err (ErrStore "decode orderid")
    | Ok oid =>
      Ok (mkBotEventLog (er_id r) evt oid (er_bot_id r) (er_deal_id r) (er_botevent_id r)
            (UnixMilli (er_created_at_utc r)) (UnixMilli (er_observed_at_utc r)))
    end
  end.

Definition ListEventsLog : Sto (list BotEventLog) :=
  query (λ d, mapM decode_log_row (Queries.ListThreeCommasBotEventLogs d)).

Definition HasOrderId (oid : OrderId.OrderId) : Sto bool :=
  exists_ ← ask (Queries.HasThreeCommasOrderId (OrderId.Hex oid));
  mret (exists_ =? 1).

Definition LoadThreeCommasBotEvent (oid : OrderId.OrderId) : Sto (option TcBotEvent) :=
  r ← ask (Queries.FetchThreeCommasBotEvent (OrderId.Hex oid));
  match r with
  | Err ErrNoRows => mret None
  | Err e => fail e
  | Ok payload => Some <$> or_fail (Unmarshal payload) "decode bot event"
  end.

Definition fetchBotEventByRowIDLocked (rowID : Z) : Sto TcBotEvent :=
  payload ← query (Queries.select_payload rowID);
  or_fail (Unmarshal payload) "decode bot event".

(** ** Submissions *)

Definition publishHyperliquidSubmissionLocked (now : Z) (ident : OrderIdentifier)
    (submission : Stream.Submission) (boteventRowID : Z) : Sto unit := λ s,
  match sg_stream s with
  | None => (Ok tt, s)
  | Some _ =>
    let ident := ensureIdentifier ident in
    let botEvent :=
      if 0 <? boteventRowID then
        match fetchBotEventByRowIDLocked boteventRowID s with
        | (Ok evt, _) => Some evt
        | (Err _, _) => None
        end
      else None in
    publishStreamEventLocked now
      (Stream.mkStreamEvent Stream.HyperliquidSubmission (oi_OrderId ident) (Some ident) zero_time
         botEvent (Some submission) None None None None None) s
  end.

Definition RecordHyperliquidOrderRequest (now : Z) (ident : OrderIdentifier)
    (req : CreateOrderRequest) (boteventRowId : Z) : Sto unit :=
  raw ← or_fail (Marshal req) "marshal";
  let ident := ensureIdentifier ident in
  _ ← exec (Queries.UpsertHyperliquidCreate (unix_milli now) (key_of ident) raw
              hyperliquidCreatePayloadType raw boteventRowId);
  publishHyperliquidSubmissionLocked now ident (Stream.SubmittedCreate req) boteventRowId.

Definition AppendHyperliquidModify (now : Z) (ident : OrderIdentifier)
    (req : ModifyOrderRequest) (boteventRowId : Z) : Sto unit :=
  raw ← or_fail (Marshal req) "marshal";
  let ident := ensureIdentifier ident in
  _ ← exec (Queries.AppendHyperliquidModify (unix_milli now) (key_of ident) raw
              hyperliquidModifyPayloadType raw boteventRowId);
  publishHyperliquidSubmissionLocked now ident (Stream.SubmittedModify req) boteventRowId.

Definition RecordHyperliquidCancel (now : Z) (ident : OrderIdentifier)
    (req : CancelOrderRequestByCloid) (boteventRowId : Z) : Sto unit :=
  raw ← or_fail (Marshal req) "marshal";
  let ident := ensureIdentifier ident in
  _ ← exec (Queries.UpsertHyperliquidCancel (unix_milli now) (key_of ident) raw
              hyperliquidCancelPayloadType raw boteventRowId);
  publishHyperliquidSubmissionLocked now ident (Stream.SubmittedCancel req) boteventRowId.

Definition LoadHyperliquidSubmission (ident : OrderIdentifier) : Sto (option Action) :=
  let ident := ensureIdentifier ident in
  r ← ask (Queries.FetchHyperliquidSubmission (key_of ident));
  match r with
  | Err ErrNoRows => mret None
  | Err e => fail e
  | Ok row =>
    let actionKind := ToLower (TrimSpace (sr_action_kind row)) in
    let type :=
      if String.eqb actionKind hyperliquidSubmissionActionCreate then ActionCreate
      else if String.eqb actionKind hyperliquidSubmissionActionModify then ActionModify
      else if String.eqb actionKind hyperliquidSubmissionActionCancel then ActionCancel
      else ActionNone in
    createReq ← query (λ _, decodeCreateRequest (column (sr_create_payload row)));
    createReq ← match createReq with
      | None => if String.eqb actionKind hyperliquidSubmissionActionCreate
                then query (λ _, decodeCreateRequest (sr_payload_blob row)) else mret None
      | Some _ => mret createReq
      end;
    modifyReq ← query (λ _, decodeLatestModifyRequest (sr_modify_payloads row) "");
    modifyReq ← match modifyReq with
      | None => if String.eqb actionKind hyperliquidSubmissionActionModify
                then query (λ _, decodeLatestModifyRequest [] (sr_payload_blob row)) else mret None
      | Some _ => mret modifyReq
      end;
    cancelReq ← query (λ _, decodeCancelRequest (column (sr_cancel_payload row)));
    cancelReq ← match cancelReq with
      | None => if String.eqb actionKind hyperliquidSubmissionActionCancel
                then query (λ _, decodeCancelRequest (sr_payload_blob row)) else mret None
      | Some _ => mret cancelReq
      end;
    let empty := bool_decide (type = ActionModify) &&
                 match modifyReq with None => true | Some _ => false end in
    mret (Some (mkAction (if empty then ActionNone else type) (default zero_create createReq)
                  (default zero_modify modifyReq) (default zero_cancel cancelReq)
                  (if empty then "modify history empty" else "")))
  end.

Definition LoadHyperliquidRequest (ident : OrderIdentifier) : Sto (option CreateOrderRequest) :=
  action ← LoadHyperliquidSubmission ident;
  mret (ac_Create <$> action).

(** ** Statuses *)

(** The insertion is tried at five consecutive milliseconds. *)
Fixpoint insert_status (fuel : nat) (k : order_key) (raw : string) (recorded : Z)
    (lastErr : option store_error) : Sto unit :=
  match fuel with
  | O => match lastErr with Some e => fail e | None => mret tt end
  | S fuel =>
    outcome ← attempt (exec (Queries.InsertHyperliquidStatus k hyperliquidStatusPayloadType raw
                               recorded));
    match outcome with
    | Ok _ => mret tt
    | Err e => if isUniqueConstraintError e then insert_status fuel k raw (recorded + 1) (Some e)
               else fail e
    end
  end.

Definition RecordHyperliquidStatus (now : Z) (ident : OrderIdentifier) (status : WsOrder)
    : Sto unit :=
  if String.eqb (oi_VenueID ident) defaultHyperliquidVenueID then mret tt
  else
    raw ← or_fail (Marshal status) "marshal";
    let ident := ensureIdentifier ident in
    _ ← insert_status 5 (key_of ident) raw (unix_milli now) None;
    publishStreamEventLocked now
      (Stream.mkStreamEvent Stream.HyperliquidStatus (oi_OrderId ident) (Some ident) zero_time
         None None (Some status) None None None None).

Definition loadLatestHyperliquidStatusLocked (ident : OrderIdentifier) : Sto (option WsOrder) :=
  let ident := ensureIdentifier ident in
  r ← ask (Queries.FetchLatestHyperliquidStatus (key_of ident));
  match r with
  | Err ErrNoRows => mret None
  | Err e => fail e
  | Ok row => Some <$> or_fail (Unmarshal (tr_payload_blob row)) "decode latest status"
  end.

Definition LoadHyperliquidStatus (ident : OrderIdentifier) : Sto (option WsOrder) :=
  loadLatestHyperliquidStatusLocked ident.

Definition ListHyperliquidStatuses (ident : OrderIdentifier) : Sto (list WsOrder) :=
  let ident := ensureIdentifier ident in
  rows ← ask (Queries.ListHyperliquidStatuses (key_of ident));
  or_fail (mapM (λ row, Unmarshal (tr_payload_blob row)) rows) "decode status".

(** ** Identifiers of orders *)

Definition decode_order_key (k : order_key) : result store_error (list OrderIdentifier) :=
  let '(venue, wallet, hex) := k in
  if String.eqb hex "" then Ok []
  else match OrderId.FromHexString hex with
       | Ok oid => Ok [NewOrderIdentifier venue wallet oid]
       | Err _ => Err (ErrStore ("decode metadata " +:+ hex))
       end.

Definition ListHyperliquidOrderIds : Sto (list OrderIdentifier) :=
  venues ← ask Queries.ListVenues;
  ids ← match venues with
    | [] => a ← defaultVenueAssignmentLocked; mret [va_VenueID a]
    | _ => mret venues.*1
    end;
  query (λ d, mjoin <$> mapM decode_order_key (ids ≫= (λ v, Queries.ListHyperliquidOrderIds v d))).

Definition decode_hex (hex : string) : result store_error (list OrderId.OrderId) :=
  if String.eqb hex "" then Ok []
  else match OrderId.FromHexString hex with
       | Ok oid => Ok [oid]
       | Err _ => Err (ErrStore ("decode orderid " +:+ hex))
       end.

Definition ListOrderIdsForDeal (dealID : Z) : Sto (list OrderId.OrderId) :=
  query (λ d, mjoin <$> mapM decode_hex (Queries.GetOrderIdForDeal dealID d)).

(** ** Safety orders of a deal *)

Record HyperliquidSafetyStatus := mkSafetyStatus {
  hs_OrderId : OrderId.OrderId;
  hs_BotID : Z;
  hs_DealID : Z;
  hs_OrderType : string;
  hs_OrderPosition : Z;
  hs_OrderSize : Z;
  hs_HLStatus : string;
  hs_HLStatusRecorded : Z;
  hs_HLEventTime : Z;
}.

(** A NULL does not scan into the columns of the row. *)
Definition safety_status (row : Queries.safety_row) : result store_error HyperliquidSafetyStatus :=
  match Queries.sf_order_position row, Queries.sf_order_size row, Queries.sf_hl_status row,
        Queries.sf_hl_status_timestamp row with
  | Some pos, Some size, Some status, Some ts =>
    match OrderId.FromHexString (Queries.sf_order_id row) with
    | Err _ => Err (ErrStore ("decode orderid " +:+ Queries.sf_order_id row))
    | Ok oid =>
      Ok (mkSafetyStatus oid (u32 (Queries.sf_bot_id row)) (u32 (Queries.sf_deal_id row))
            (Queries.sf_order_type row) pos size status
            (UnixMilli (Queries.sf_recorded_at_utc row)) (UnixMilli ts))
    end
  | _, _, _, _ => Err (ErrStore "converting NULL is unsupported")
  end.

Definition ListLatestHyperliquidSafetyStatuses (dealID : Z) : Sto (list HyperliquidSafetyStatus) :=
  assignment ← ResolveDefaultAlias;
  query (λ d, mapM safety_status
    (Queries.ListLatestHyperliquidSafetyStatuses (va_VenueID assignment) dealID None d)).

Definition DealSafetiesFilled {sdk : SDK} (dealID : Z) : Sto bool :=
  statuses ← ListLatestHyperliquidSafetyStatuses dealID;
  match statuses with
  | [] => fail (ErrStore "no statuses available for deal")
  | first :: _ =>
    if negb (hs_OrderSize first =? Z.of_nat (length statuses))
    then fail (ErrStore "ordersize does not match amount of statuses")
    else if negb (forallb (λ s, hs_OrderSize first =? hs_OrderSize s) statuses)
    then fail (ErrStore "sizes should be equal across safety orders")
    else mret (forallb (λ s, String.eqb (hs_HLStatus s) OrderStatusValueFilled) statuses)
  end.

(** ** Deals *)

(** The creation time of a deal is stored and not read again. *)
Definition RecordThreeCommasDeal (created : TcDeal → Z) (deal : TcDeal) : Sto unit :=
  raw ← or_fail (Marshal deal) "marshal";
  exec (λ d, Ok (Queries.UpsertDeal (dl_Id deal) (dl_BotId deal) (unix_milli (created deal))
                   (unix_milli (dl_UpdatedAt deal)) raw d)).

Definition LoadThreeCommasDeal (dealID : Z) : Sto (option TcDeal) :=
  r ← ask (Queries.FetchDeal dealID);
  match r with
  | Err ErrNoRows => mret None
  | Err e => fail e
  | Ok payload => Some <$> or_fail (Unmarshal payload) "decode deal"
  end.

Definition ListDealIDs : Sto (list Z) := ask Queries.ListDealIDs.

Definition LoadTakeProfitForDeal (dealID : Z) : Sto (OrderId.OrderId * TcBotEvent) :=
  row ← query (Queries.GetTPForDeal dealID);
  match OrderId.FromHexString (er_order_id row) with
  | Err _ => fail (ErrStore ("decode orderid " +:+ er_order_id row))
  | Ok oid =>
    evt ← or_fail (Unmarshal (er_payload row)) "decode take profit bot event";
    mret (oid, evt)
  end.

(** ** Bots *)

Section Bots.
Context {Bot : Type} {json_bot : Codec Bot} (Id : Bot → Z).

Definition RecordBot (bot : Bot) (syncedAt : Z) : Sto unit :=
  raw ← or_fail (Marshal bot) "marshal";
  exec (λ d, Ok (Queries.UpsertBot (Id bot) raw (unix_milli syncedAt) d)).

Definition LoadBot (botID : Z) : Sto (option (Bot * Z)) :=
  r ← ask (Queries.FetchBot botID);
  match r with
  | Err ErrNoRows => mret None
  | Err e => fail e
  | Ok row =>
    decoded ← or_fail (Unmarshal (bo_payload row)) "decode bot";
    mret (Some (decoded, UnixMilli (bo_last_synced_utc row)))
  end.

Definition TouchBot (botID syncedAt : Z) : Sto unit :=
  exec (λ d, Ok (Queries.UpdateBotSync botID (unix_milli syncedAt) d)).

End Bots.

End Storage.

End Storage.
