(* ===== verification/ScalerStorage.v ===== *)
(** * Multipliers and audits: [storage/order_scalers.go]

    The default multiplier and the overrides of bots, the audit of scaled orders
    and the sizes of a take-profit stack, over the statements of [Queries]. *)

From Stdlib Require Import Ascii.
From S2P Require Import Prelude GoFloat GoString OrderId Domain Store Tables Queries Stream Storage.
Import GoFloat GoString Domain Store Tables Storage.

Module ScalerStorage.

Definition scaledOrderPayloadType : string := "scaled_order.audit.v1".

(** [scaledOrderPayload]. *)
Record scaledOrderPayload := mkPayload { pl_SubmittedOrderID : option string }.

Record ScaledOrderAuditParams := mkAuditParams {
  ap_Identifier : OrderIdentifier;
  ap_DealID : Z;
  ap_BotID : Z;
  ap_OriginalSize : f64;
  ap_ScaledSize : f64;
  ap_Multiplier : f64;
  ap_RoundingDelta : f64;
  ap_StackIndex : Z;
  ap_OrderSide : string;
  ap_MultiplierUpdatedBy : string;
  ap_CreatedAt : Z;
  ap_SubmittedOrderID : option string;
  ap_Skipped : bool;
  ap_SkipReason : option string;
}.

(** The fields of a deal that give the sizes of its take-profit steps. *)
Record TakeProfitStep := mkStep {
  tp_Id : option Z;
  tp_InitialAmount : option string;
  tp_AmountPercentage : option Z;
}.
Record DealVolumes := mkVolumes {
  dv_TakeProfitSteps : list TakeProfitStep;
  dv_BaseOrderVolume : string;
  dv_BoughtAmount : string;
}.

(** ** Conversions *)

Definition boolToInt (v : bool) : Z := if v then 1 else 0.

Definition convertOrderScaler (row : scaler_row) : OrderScalerState :=
  mkScalerState (cr_multiplier row) (UnixMilli (cr_updated_at_utc row)) (cr_updated_by row)
    (cr_notes row).

Definition convertBotOrderScaler (bot_id : Z) (row : bot_scaler_row) : BotOrderScalerOverride :=
  mkOverride (u32 bot_id) (bs_multiplier row) (bs_notes row) (UnixMilli (bs_effective_from_utc row))
    (UnixMilli (bs_updated_at_utc row)) (bs_updated_by row).

Definition toAPIOrderScalerState (state : OrderScalerState) : Stream.OrderScalerState :=
  Stream.mkApiState (st_Multiplier state) (st_Notes state) (st_UpdatedAt state)
    (st_UpdatedBy state).

Definition toAPIOrderScalerOverride (o : BotOrderScalerOverride) : Stream.OrderScalerOverride :=
  Stream.mkApiOverride (bo_BotID o) (bo_EffectiveFrom o) (bo_Multiplier o) (bo_Notes o)
    (bo_UpdatedAt o) (bo_UpdatedBy o).

Definition toAPIEffectiveOrderScaler (e : EffectiveOrderScaler) : Stream.EffectiveOrderScaler :=
  Stream.mkApiEffective (toAPIOrderScalerState (ef_Default e)) (ef_Multiplier e)
    (OrderId.Hex (ef_OrderId e)) (toAPIOrderScalerOverride <$> ef_Override e) (ef_Source e).

Definition toAPIScaledOrderAudit (a : ScaledOrderAudit) : Stream.ScaledOrderAudit :=
  Stream.mkApiAudit (sa_BotID a) (sa_CreatedAt a) (sa_DealID a) (sa_Multiplier a)
    (sa_MultiplierUpdatedBy a) (sa_OrderSide a) (sa_OriginalSize a) (sa_RoundingDelta a)
    (sa_ScaledSize a) (sa_SkipReason a) (sa_Skipped a) (sa_StackIndex a) (sa_SubmittedOrderID a).

(** The text before the first ['#']. *)
Fixpoint before_hash (s : string) : string :=
  match s with
  | EmptyString => EmptyString
  | String "#" _ => EmptyString
  | String c s => String c (before_hash s)
  end.

Section ScalerStorage.
Context {R : GoRange} {json_payload : Codec scaledOrderPayload} {json_volumes : Codec DealVolumes}.
Context {sqlite : SqliteJSON} {json_flags : Codec (gmap string flag)}.

Definition convertScaledOrder (r : order_key * scaled_row) : result store_error ScaledOrderAudit :=
  let '((venue, wallet, orderID), row) := r in
  match OrderId.FromHexString (before_hash orderID) with
  | Err _ => Err (ErrStore ("decode orderid " +:+ orderID))
  | Ok oid =>
    let blob := column (cd_payload_blob row) in
    submitted ←
      (if bool_decide (cd_payload_type row = Some scaledOrderPayloadType) &&
          negb (String.eqb blob "")
       then match Unmarshal blob with
            | Some payload => Ok (pl_SubmittedOrderID payload)
            | None => Err (ErrStore ("decode scaled order payload for " +:+ orderID))
            end
       else Ok None);
    Ok (mkAudit venue wallet oid (u32 (cd_deal_id row)) (u32 (cd_bot_id row))
          (cd_original_size row) (cd_scaled_size row) (cd_multiplier row) (cd_rounding_delta row)
          (cd_stack_index row) (cd_order_side row) (cd_multiplier_updated_by row)
          (UnixMilli (cd_created_at_utc row)) submitted (negb (cd_skipped row =? 0))
          (cd_skip_reason row))
  end.

(** ** Multipliers *)

Definition GetOrderScaler : Sto OrderScalerState :=
  row ← query Queries.GetOrderScaler; mret (convertOrderScaler row).

(** The override that applies to a bot and the multiplier it leaves in force. *)
Definition effective_scaler (oid : OrderId.OrderId) (defaultState : OrderScalerState)
    (override : option BotOrderScalerOverride) : EffectiveOrderScaler :=
  match override ≫= bo_Multiplier with
  | Some m => mkEffective oid m OrderScalerSourceBotOverride defaultState override
  | None => mkEffective oid (st_Multiplier defaultState) OrderScalerSourceDefault defaultState
              override
  end.

Definition ResolveEffectiveOrderScaler (oid : OrderId.OrderId) : Sto EffectiveOrderScaler :=
  stateRow ← query Queries.GetOrderScaler;
  let defaultState := convertOrderScaler stateRow in
  overrideRow ← ask (Queries.GetBotOrderScaler (OrderId.BotID oid));
  match overrideRow with
  | Err ErrNoRows => mret (effective_scaler oid defaultState None)
  | Err e => fail e
  | Ok row =>
    mret (effective_scaler oid defaultState (Some (convertBotOrderScaler (OrderId.BotID oid) row)))
  end.

Definition publishOrderScalerEventLocked (now : Z) (oid : OrderId.OrderId)
    (effective : EffectiveOrderScaler) (actor : string) (observedAt : Z) : Sto unit :=
  let observedAt := if IsZero observedAt then now else observedAt in
  publishStreamEventLocked now
    (Stream.mkStreamEvent Stream.OrderScalerConfigEntry oid
       (Some (ensureIdentifier (NewOrderIdentifier "" "" oid))) observedAt None None None None
       (Some (toAPIEffectiveOrderScaler effective)) None (Some actor)).

Definition UpsertOrderScaler (now : Z) (multiplier : f64) (updatedBy : string)
    (notes : option string) : Sto OrderScalerState :=
  _ ← exec (λ d, Ok (Queries.UpsertOrderScaler (unix_milli now) multiplier updatedBy notes d));
  row ← query Queries.GetOrderScaler;
  let state := convertOrderScaler row in
  _ ← publishOrderScalerEventLocked now OrderId.zero
        (mkEffective OrderId.zero (st_Multiplier state) OrderScalerSourceDefault state None)
        updatedBy (st_UpdatedAt state);
  mret state.

Definition ListBotOrderScalers : Sto (list BotOrderScalerOverride) :=
  rows ← ask Queries.ListBotOrderScalers;
  mret ((λ r, convertBotOrderScaler r.1 r.2) <$> rows).

Definition GetBotOrderScaler (botID : Z) : Sto (option BotOrderScalerOverride) :=
  r ← ask (Queries.GetBotOrderScaler botID);
  match r with
  | Err ErrNoRows => mret None
  | Err e => fail e
  | Ok row => mret (Some (convertBotOrderScaler botID row))
  end.

Definition UpsertBotOrderScaler (now botID : Z) (multiplier : option f64) (notes : option string)
    (updatedBy : string) : Sto BotOrderScalerOverride :=
  _ ← exec (λ d, Ok (Queries.UpsertBotOrderScaler (unix_milli now) botID multiplier notes
                       updatedBy d));
  row ← query (Queries.GetBotOrderScaler botID);
  let override := convertBotOrderScaler botID row in
  stateRow ← query Queries.GetOrderScaler;
  let oid := OrderId.mkOrderId botID 0 0 in
  let effective := effective_scaler oid (convertOrderScaler stateRow) (Some override) in
  _ ← publishOrderScalerEventLocked now oid effective updatedBy (bo_UpdatedAt override);
  mret override.

Definition DeleteBotOrderScaler (now botID : Z) (updatedBy : string) : Sto unit :=
  _ ← exec (λ d, Ok (Queries.DeleteBotOrderScaler botID d));
  stateRow ← query Queries.GetOrderScaler;
  let oid := OrderId.mkOrderId botID 0 0 in
  publishOrderScalerEventLocked now oid
    (effective_scaler oid (convertOrderScaler stateRow) None) updatedBy now.

(** The same operations as the API offers them. *)
Definition GetDefaultOrderScaler : Sto Stream.OrderScalerState :=
  toAPIOrderScalerState <$> GetOrderScaler.
Definition UpsertDefaultOrderScaler (now : Z) (multiplier : f64) (updatedBy : string)
    (notes : option string) : Sto Stream.OrderScalerState :=
  toAPIOrderScalerState <$> UpsertOrderScaler now multiplier updatedBy notes.
Definition GetBotOrderScalerOverride (botID : Z) : Sto (option Stream.OrderScalerOverride) :=
  fmap toAPIOrderScalerOverride <$> GetBotOrderScaler botID.
Definition UpsertBotOrderScalerOverride (now botID : Z) (multiplier : option f64)
    (notes : option string) (updatedBy : string) : Sto Stream.OrderScalerOverride :=
  toAPIOrderScalerOverride <$> UpsertBotOrderScaler now botID multiplier notes updatedBy.
Definition DeleteBotOrderScalerOverride (now botID : Z) (updatedBy : string) : Sto unit :=
  DeleteBotOrderScaler now botID updatedBy.
Definition ResolveEffectiveOrderScalerConfig (oid : OrderId.OrderId)
    : Sto Stream.EffectiveOrderScaler :=
  toAPIEffectiveOrderScaler <$> ResolveEffectiveOrderScaler oid.

(** ** Audits *)

Definition audit_order_id (oid : OrderId.OrderId) (stackIndex createdAt : Z) : string :=
  OrderId.Hex oid +:+ "#" +:+ Itoa stackIndex +:+ "#" +:+ Itoa (i64 createdAt).

Definition InsertScaledOrderAudit (now : Z) (params : ScaledOrderAuditParams)
    : Sto ScaledOrderAudit :=
  let ident := ap_Identifier params in
  let createdAt := if IsZero (ap_CreatedAt params) then now else ap_CreatedAt params in
  payloadBlob ← match ap_SubmittedOrderID params with
    | None => mret None
    | Some _ => Some <$> or_fail (Marshal (mkPayload (ap_SubmittedOrderID params)))
                           "encode scaled order payload"
    end;
  let payloadType := (λ _, scaledOrderPayloadType) <$> ap_SubmittedOrderID params in
  let orderID := audit_order_id (oi_OrderId ident) (ap_StackIndex params) createdAt in
  owner ←
    (if String.eqb (oi_VenueID ident) "" || String.eqb (oi_Wallet ident) "" then
       a ← defaultVenueAssignmentLocked;
       mret (if String.eqb (oi_VenueID ident) "" then va_VenueID a else oi_VenueID ident,
             if String.eqb (oi_Wallet ident) "" then va_Wallet a else oi_Wallet ident)
     else mret (oi_VenueID ident, oi_Wallet ident));
  _ ← exec (Queries.InsertScaledOrder (owner.1, owner.2, orderID)
        (mkScaledRow (ap_DealID params) (ap_BotID params) (ap_OriginalSize params)
           (ap_ScaledSize params) (ap_Multiplier params) (ap_RoundingDelta params)
           (ap_StackIndex params) (ap_OrderSide params) (ap_MultiplierUpdatedBy params)
           (unix_milli createdAt) (boolToInt (ap_Skipped params)) (ap_SkipReason params)
           payloadType payloadBlob));
  let audit := mkAudit "" "" (oi_OrderId ident) (ap_DealID params) (ap_BotID params)
    (ap_OriginalSize params) (ap_ScaledSize params) (ap_Multiplier params)
    (ap_RoundingDelta params) (ap_StackIndex params) (ap_OrderSide params)
    (ap_MultiplierUpdatedBy params) createdAt (ap_SubmittedOrderID params) (ap_Skipped params)
    (ap_SkipReason params) in
  stateRow ← query Queries.GetOrderScaler;
  overrideRow ← ask (Queries.GetBotOrderScaler (ap_BotID params));
  effective ← match overrideRow with
    | Ok row =>
      let override := convertBotOrderScaler (ap_BotID params) row in
      mret (mkEffective (oi_OrderId ident) (ap_Multiplier params)
              (match bo_Multiplier override with
               | Some _ => OrderScalerSourceBotOverride
               | None => OrderScalerSourceDefault
               end) (convertOrderScaler stateRow) (Some override))
    | Err ErrNoRows =>
      mret (mkEffective (oi_OrderId ident) (ap_Multiplier params) OrderScalerSourceDefault
              (convertOrderScaler stateRow) None)
    | Err e => fail e
    end;
  _ ← publishStreamEventLocked now
        (Stream.mkStreamEvent Stream.ScaledOrderAuditEntry (oi_OrderId ident)
           (Some (ensureIdentifier ident)) createdAt None None None None
           (Some (toAPIEffectiveOrderScaler effective)) (Some (toAPIScaledOrderAudit audit))
           (Some (Actor effective)));
  mret audit.

Definition RecordScaledOrder (now : Z) (params : RecordScaledOrderParams)
    : Sto (ScaledOrderAudit * EffectiveOrderScaler) :=
  effective ← ResolveEffectiveOrderScaler (oi_OrderId (rp_Identifier params));
  let multiplier := default (ef_Multiplier effective) (rp_AppliedMultiplier params) in
  let roundingDelta := fsub (rp_ScaledSize params) (fmul (rp_OriginalSize params) multiplier) in
  audit ← InsertScaledOrderAudit now
    (mkAuditParams (rp_Identifier params) (rp_DealID params) (rp_BotID params)
       (rp_OriginalSize params) (rp_ScaledSize params) multiplier roundingDelta
       (rp_StackIndex params) (rp_OrderSide params) (Actor effective) (rp_CreatedAt params)
       (rp_SubmittedOrderID params) (rp_Skipped params) (rp_SkipReason params));
  mret (audit, mkEffective (ef_OrderId effective) multiplier (ef_Source effective)
                 (ef_Default effective) (ef_Override effective)).

Definition ListScaledOrdersByOrderId (oid : OrderId.OrderId) : Sto (list ScaledOrderAudit) :=
  query (λ d, mapM convertScaledOrder
    (Queries.ListScaledOrdersByOrderId (OrderId.Hex oid) (OrderId.Hex oid +:+ "#%") d)).

Definition ListScaledOrdersByDeal (dealID : Z) : Sto (list ScaledOrderAudit) :=
  query (λ d, mapM convertScaledOrder (Queries.ListScaledOrdersByDeal dealID d)).

(** ** The sizes of a stack of take profits *)

Definition nullableString (s : option string) : string := default "" s.

Definition parseNumericString (val : string) : f64 :=
  let val := TrimSpace val in
  if String.eqb val "" then fzero
  else match ParseFloat val with Some f => f | None => fzero end.

(** A step counts at the place its id gives, or at its place in the list. *)
Definition step_position (idx : Z) (step : TakeProfitStep) : Z :=
  match tp_Id step with
  | Some id => if 0 <? id then id - 1 else if id =? 0 then 0 else idx
  | None => idx
  end.

Definition step_size (baseVolume : f64) (step : TakeProfitStep) : f64 :=
  let size := parseNumericString (nullableString (tp_InitialAmount step)) in
  match tp_AmountPercentage step with
  | Some pct =>
    if fle size fzero && fgt baseVolume fzero
    then fdiv (fmul baseVolume (f_of_Z pct)) (f_of_Z 100) else size
  | None => size
  end.

Fixpoint stack_of_steps (baseVolume : f64) (idx : Z) (steps : list TakeProfitStep)
    (acc : gmap Z f64) : gmap Z f64 :=
  match steps with
  | [] => acc
  | step :: steps =>
    let size := step_size baseVolume step in
    stack_of_steps baseVolume (idx + 1) steps
      (if fle size fzero then acc else <[step_position idx step := size]> acc)
  end.

(** The sizes by position; [nil] is the empty map. *)
Definition takeProfitStackFromDeal (deal : DealVolumes) (stackSizeHint : Z) : gmap Z f64 :=
  match dv_TakeProfitSteps deal with
  | [] => ∅
  | steps =>
    let baseVolume := parseNumericString (dv_BaseOrderVolume deal) in
    let baseVolume := if fle baseVolume fzero then parseNumericString (dv_BoughtAmount deal)
                      else baseVolume in
    let result := stack_of_steps baseVolume 0 steps ∅ in
    if (0 <? stackSizeHint) && negb (Z.of_nat (size result) =? stackSizeHint) then
      let normalized := filter (λ x, 0 <= x.1 < stackSizeHint) result in
      if bool_decide (normalized = ∅) then result else normalized
    else result
  end.

(** Positions of the stack that [sizes] lacks are taken from the deal. *)
Definition mergeStackFromDealLocked (oid : OrderId.OrderId) (stackSize : Z) (d : Database)
    (sizes : gmap Z f64) : gmap Z f64 :=
  match Queries.FetchDeal (OrderId.DealID oid) d with
  | Err _ => sizes
  | Ok payload =>
    match Unmarshal payload with
    | None => sizes
    | Some deal =>
      sizes ∪ filter (λ x, 0 <= x.1 < stackSize ∧ fle x.2 fzero = false)
                (takeProfitStackFromDeal deal stackSize)
    end
  end.

(** The positions from [pos] on, up to the first that is missing. *)
Fixpoint stack_prefix (n : nat) (pos : Z) (sizes : gmap Z f64) : list f64 :=
  match n with
  | O => []
  | S n =>
    match sizes !! pos with
    | Some size => if fle size fzero then [] else size :: stack_prefix n (pos + 1) sizes
    | None => []
    end
  end.

(** The sizes by position from the recorded events; a NULL does not scan. *)
Fixpoint by_position (stackSize : Z) (rows : list (Z * option f64)) (acc : gmap Z f64)
    : result store_error (gmap Z f64) :=
  match rows with
  | [] => Ok acc
  | (_, None) :: _ => Err (ErrStore "list take profit stack sizes")
  | (position, Some size) :: rows =>
    let pos := position - 1 in
    by_position stackSize rows
      (if (pos <? 0) || (stackSize <=? pos) || fle size fzero then acc else <[pos := size]> acc)
  end.

Definition ListTakeProfitStackSizes (oid : OrderId.OrderId) (stackSize : Z) : Sto (list f64) :=
  if stackSize <=? 0 then fail (ErrStore "stack size must be positive")
  else
    rows ← ask (Queries.ListLatestTakeProfitStackSizes (OrderId.DealID oid) stackSize);
    byPosition ← query (λ _, by_position stackSize rows ∅);
    sizes ← ask (λ d, if Z.of_nat (size byPosition) <? stackSize
                      then mergeStackFromDealLocked oid stackSize d byPosition else byPosition);
    mret (stack_prefix (Z.to_nat stackSize) 0 sizes).

End ScalerStorage.

End ScalerStorage.
