(* ===== verification/StorageApi.v ===== *)
(** * The listings of the API: [storage/api.go]

    Pages of bots, deals and orders with their tokens, and the operations on
    venues and their assignments. *)

From Stdlib Require Import Ascii.
From S2P Require Import Prelude GoFloat GoString OrderId Domain Store Tables Queries Stream.
From S2P Require Import Storage ScalerStorage.
Import GoFloat GoString Domain Store Tables Storage.

Module StorageApi.

(** ** Page tokens *)

Definition cursorSeparator : ascii := ":".

(** [strings.Split] at a character. *)
Fixpoint split_on (c : ascii) (s : string) : list string :=
  match s with
  | EmptyString => [EmptyString]
  | String x s =>
    if Ascii.eqb x c then EmptyString :: split_on c s
    else match split_on c s with
         | w :: ws => String x w :: ws
         | [] => [String x EmptyString]
         end
  end.

(** [strconv.ParseInt(s, 10, 64)]. *)
Fixpoint parse_digits (acc : Z) (s : string) : option Z :=
  match s with
  | EmptyString => Some acc
  | String c s => if is_digit c then parse_digits (10 * acc + (byte_of c - byte_of "0")) s else None
  end.
Definition parse_magnitude (s : string) : option Z :=
  match s with EmptyString => None | _ => parse_digits 0 s end.
Definition ParseInt (s : string) : option Z :=
  match s with
  | String "-" s' => m ← parse_magnitude s'; if m <=? 2 ^ 63 then Some (- m) else None
  | String "+" s' => m ← parse_magnitude s'; if m <? 2 ^ 63 then Some m else None
  | _ => m ← parse_magnitude s; if m <? 2 ^ 63 then Some m else None
  end.

Definition encodeCursor (primary secondary : Z) : string :=
  Itoa primary +:+ String cursorSeparator (Itoa secondary).

Definition decodeCursor (token : string) : option (Z * Z) :=
  match split_on cursorSeparator token with
  | [a; b] =>
    primary ← ParseInt a;
    secondary ← ParseInt b;
    Some (primary, secondary)
  | _ => None
  end.

(** The cursor of a page: the empty token is the first page. *)
Definition cursor_of (token : string) : result store_error (option (Z * Z)) :=
  if String.eqb token "" then Ok None
  else match decodeCursor token with
       | Some c => Ok (Some c)
       | None => Err (ErrStore "invalid page token")
       end.

(** What is left of the [limit + 1] rows that were asked for, and the token of
    the next page. *)
Definition cut_page {A} (limit : Z) (key : A → Z * Z) (raw : list A) : list A * option string :=
  if limit <? Z.of_nat (length raw) then
    (take (Z.to_nat limit) raw,
     (λ r, encodeCursor (key r).1 (key r).2) <$> raw !! Z.to_nat limit)
  else (raw, None).

Definition page_limit (limit : Z) : Z := if limit <=? 0 then 50 else limit.

(** Newest first, the rows after the cursor. *)
Definition page_rows {A} (key : A → Z * Z) (P : A → bool) (cursor : option (Z * Z)) (limit : Z)
    (rows : list A) : list A :=
  take (Z.to_nat (limit + 1))
    (order_by (lex_le [desc (by_int (fst ∘ key)); desc (by_int (snd ∘ key))])
       (filter (λ r, Is_true (P r && Queries.given cursor (λ c,
          ((key r).1 <? c.1) || (((key r).1 =? c.1) && ((key r).2 <? c.2))))) rows)).

Record ListBotsOptions := mkBotsOptions {
  lb_BotID : option Z;
  lb_UpdatedFrom : option Z;
  lb_UpdatedTo : option Z;
  lb_Limit : Z;
  lb_PageToken : string;
}.
Record ListDealsOptions := mkDealsOptions {
  ld_DealID : option Z;
  ld_BotID : option Z;
  ld_UpdatedFrom : option Z;
  ld_UpdatedTo : option Z;
  ld_Limit : Z;
  ld_PageToken : string;
}.
Record ListOrdersOptions := mkOrdersOptions {
  lo_OrderIdPrefix : option string;
  lo_BotID : option Z;
  lo_DealID : option Z;
  lo_BotEventID : option Z;
  lo_ObservedFrom : option Z;
  lo_ObservedTo : option Z;
  lo_IncludeLog : bool;
  lo_Limit : Z;
  lo_PageToken : string;
}.

Record OrderLogItem := mkLogItem {
  li_Type : Stream.OrderLogEntryType;
  li_OrderId : OrderId.OrderId;
  li_ObservedAt : Z;
  li_Identifier : option OrderIdentifier;
  li_BotEvent : option TcBotEvent;
  li_Submission : option Stream.Submission;
  li_Status : option WsOrder;
  li_ScalerConfig : option Stream.EffectiveOrderScaler;
  li_ScaledAudit : option Stream.ScaledOrderAudit;
  li_Actor : option string;
}.

Record OrderItem := mkOrderItem {
  it_OrderId : OrderId.OrderId;
  it_ObservedAt : Z;
  it_BotEvent : option TcBotEvent;
  it_LatestSubmission : option Stream.Submission;
  it_LatestStatus : option WsOrder;
  it_Identifier : option OrderIdentifier;
  it_LogEntries : list OrderLogItem;
}.

Record VenueRecord := mkVenueRecord {
  ve_VenueId : string;
  ve_Type : string;
  ve_DisplayName : string;
  ve_Wallet : string;
  ve_Flags : option (gmap string flag);
}.
Record VenueUpsertRequest := mkVenueRequest {
  vu_Type : string;
  vu_DisplayName : string;
  vu_Wallet : string;
  vu_Flags : option (gmap string flag);
}.
Record VenueAssignmentRecord := mkAssignRecord {
  vs_BotId : Z;
  vs_VenueId : string;
  vs_IsPrimary : bool;
  vs_AssignedAt : Z;
}.
Record BotVenueAssignmentRecord := mkBotVenueRecord {
  bv_VenueId : string;
  bv_Wallet : string;
  bv_IsPrimary : bool;
}.

Definition ErrVenueNotFound : store_error := ErrStore "api: venue not found".
Definition ErrVenueImmutable : store_error := ErrStore "api: venue immutable".
Definition ErrVenueInvalid : store_error := ErrStore "api: invalid venue payload".
Definition ErrVenueAssignmentNotFound : store_error := ErrStore "api: venue assignment not found".

Section StorageApi.
Context {sqlite : SqliteJSON} {R : GoRange}.
Context {json_event : Codec TcBotEvent} {json_deal : Codec TcDeal} {json_status : Codec WsOrder}.
Context {json_create : Codec CreateOrderRequest} {json_modify : Codec ModifyOrderRequest}
  {json_cancel : Codec CancelOrderRequestByCloid} {json_flags : Codec (gmap string flag)}
  {json_payload : Codec ScalerStorage.scaledOrderPayload}.

(** ** Bots and deals *)

Section Bots.
Context {Bot : Type} {json_bot : Codec Bot}.

Definition bot_key (r : Z * bot_row) : Z * Z := (bo_last_synced_utc r.2, r.1).

Definition bot_wanted (opts : ListBotsOptions) (r : Z * bot_row) : bool :=
  Queries.given (lb_BotID opts) (λ b, r.1 =? b) &&
  Queries.given (lb_UpdatedFrom opts) (λ t, unix_milli t <=? bo_last_synced_utc r.2) &&
  Queries.given (lb_UpdatedTo opts) (λ t, bo_last_synced_utc r.2 <=? unix_milli t).
Definition decode_bot (r : Z * bot_row) : option (Bot * Z) :=
  (λ b, (b, UnixMilli (bo_last_synced_utc r.2))) <$> Unmarshal (bo_payload r.2).

Definition ListBots (opts : ListBotsOptions) : Sto (list (Bot * Z) * option string) :=
  let limit := page_limit (lb_Limit opts) in
  cursor ← query (λ _, cursor_of (lb_PageToken opts));
  raw ← ask (λ d, page_rows bot_key (bot_wanted opts) cursor limit (map_to_list (db_bots d)));
  let '(raw, nextToken) := cut_page limit bot_key raw in
  items ← or_fail (mapM decode_bot raw) "decode bot payload";
  mret (items, nextToken).

End Bots.

Definition deal_key (r : Z * deal_row) : Z * Z := (de_updated_at_utc r.2, r.1).

Definition deal_wanted (opts : ListDealsOptions) (r : Z * deal_row) : bool :=
  Queries.given (ld_DealID opts) (λ b, r.1 =? b) &&
  Queries.given (ld_BotID opts) (λ b, de_bot_id r.2 =? b) &&
  Queries.given (ld_UpdatedFrom opts) (λ t, unix_milli t <=? de_updated_at_utc r.2) &&
  Queries.given (ld_UpdatedTo opts) (λ t, de_updated_at_utc r.2 <=? unix_milli t).
Definition decode_deal (r : Z * deal_row) : option TcDeal := Unmarshal (de_payload r.2).

Definition ListDeals (opts : ListDealsOptions) : Sto (list TcDeal * option string) :=
  let limit := page_limit (ld_Limit opts) in
  cursor ← query (λ _, cursor_of (ld_PageToken opts));
  raw ← ask (λ d, page_rows deal_key (deal_wanted opts) cursor limit (map_to_list (db_deals d)));
  let '(raw, nextToken) := cut_page limit deal_key raw in
  items ← or_fail (mapM decode_deal raw) "decode deal payload";
  mret (items, nextToken).

(** ** Orders *)

Definition event_key (r : botevent_row) : Z * Z := (er_observed_at_utc r, er_id r).

Definition MinInt64 : Z := - 2 ^ 63.
Definition MaxInt64 : Z := 2 ^ 63 - 1.

(** The payload of its own column, and failing that the raw one. *)
Definition or_else {A} (req : option A) (alt : result store_error (option A))
    : result store_error (option A) :=
  match req with None => alt | Some _ => Ok req end.

(** The latest submission of an order, under whichever identifier. *)
Definition latest_submission (row : submission_row) : result store_error (option Stream.Submission) :=
  let actionKind := ToLower (TrimSpace (sr_action_kind row)) in
  if String.eqb actionKind hyperliquidSubmissionActionCreate then
    req ← decodeCreateRequest (column (sr_create_payload row));
    req ← or_else req (decodeCreateRequest (sr_payload_blob row));
    Ok (fmap (M:=option) Stream.SubmittedCreate req)
  else if String.eqb actionKind hyperliquidSubmissionActionModify then
    req ← decodeLatestModifyRequest (sr_modify_payloads row) (sr_payload_blob row);
    Ok (fmap (M:=option) Stream.SubmittedModify req)
  else if String.eqb actionKind hyperliquidSubmissionActionCancel then
    req ← decodeCancelRequest (column (sr_cancel_payload row));
    req ← or_else req (decodeCancelRequest (sr_payload_blob row));
    Ok (fmap (M:=option) Stream.SubmittedCancel req)
  else Ok None.

Definition decode_status (raw : string) : result store_error WsOrder :=
  match Unmarshal raw with
  | Some st => Ok st
  | None => Err (ErrStore "decode latest status")
  end.

(** The latest status under the identifier of the submission, and failing that
    under any; with the identifier it was found under. *)
Definition latest_status (oid : OrderId.OrderId) (hex : string) (ident : OrderIdentifier)
    (d : Database) : result store_error (option WsOrder * OrderIdentifier) :=
  match Queries.FetchLatestHyperliquidStatus (Venue ident, oi_Wallet ident, hex) d with
  | Ok row =>
    if String.eqb (tr_payload_blob row) "" then Ok (None, ident)
    else st ← decode_status (tr_payload_blob row); Ok (Some st, ident)
  | Err ErrNoRows =>
    match Queries.FetchLatestHyperliquidStatusAnyIdentifier hex d with
    | Ok (((venue, wallet), _), _, row) =>
      if String.eqb (tr_payload_blob row) "" then Ok (None, ident)
      else st ← decode_status (tr_payload_blob row);
           Ok (Some st, NewOrderIdentifier venue wallet oid)
    | Err ErrNoRows => Ok (None, ident)
    | Err e => Err e
    end
  | Err e => Err e
  end.

(** [sort.Slice] by time; entries of the same time stay in the order they have. *)
Definition sort_entries (l : list OrderLogItem) : list OrderLogItem :=
  order_by (λ a b, li_ObservedAt a <=? li_ObservedAt b) l.

(** The log of an order, with the status and the identifier its history ends on. *)
Definition log_entries (oid : OrderId.OrderId) (hex : string) (from to : Z)
    (submission : option Stream.Submission) (submissionTime : option Z)
    (latestStatus : option WsOrder) (selected : OrderIdentifier) (d : Database)
    : result store_error (list OrderLogItem * option WsOrder * OrderIdentifier) :=
  events ← mapM (λ r : botevent_row,
    match Unmarshal (er_payload r) with
    | Some evt =>
      Ok (mkLogItem Stream.ThreeCommasEvent oid (UnixMilli (er_observed_at_utc r)) (Some selected)
            (Some evt) None None None None None)
    | None => Err (ErrStore "decode log bot event")
    end) (Queries.ListThreeCommasBotEventLogsForOrderId hex from to d);
  statuses ← mapM (λ '(((venue, wallet), _), recorded, row),
    st ← decode_status (tr_payload_blob row);
    let ident := ensureIdentifier (NewOrderIdentifier venue wallet oid) in
    Ok (mkLogItem Stream.HyperliquidStatus oid (UnixMilli recorded) (Some ident)
          None None (Some st) None None None, ident))
    (Queries.ListHyperliquidStatusesForOrderId (Venue selected, oi_Wallet selected, hex) from to d);
  audits ← mapM (λ r,
    audit ← ScalerStorage.convertScaledOrder r;
    let ident := ensureIdentifier (NewOrderIdentifier r.1.1.1 r.1.1.2 oid) in
    Ok (mkLogItem Stream.ScaledOrderAuditEntry oid (sa_CreatedAt audit) (Some ident) None None None
          None (Some (ScalerStorage.toAPIScaledOrderAudit audit))
          (Some (sa_MultiplierUpdatedBy audit))))
    (Queries.ListScaledOrderAuditsForOrderId (Venue selected) hex (hex +:+ "#%") from to d);
  let latestStatus := match last statuses with
                      | Some (item, _) => li_Status item
                      | None => latestStatus
                      end in
  let selected := match last statuses with Some (_, ident) => ident | None => selected end in
  let submitted := match submission, submissionTime with
    | Some sub, Some t => [mkLogItem Stream.HyperliquidSubmission oid t (Some selected) None
                             (Some sub) None None None None]
    | _, _ => []
    end in
  Ok (sort_entries (events ++ statuses.*1 ++ audits ++ submitted), latestStatus, selected).

(** What the loop over [byOrderId] adds to the items of an order. *)
Definition order_details (opts : ListOrdersOptions) (from to : Z) (alias : VenueAssignment)
    (hex : string) (item : OrderItem) (d : Database) : result store_error OrderItem :=
  let oid := it_OrderId item in
  let found := Queries.FetchLatestHyperliquidSubmissionAnyIdentifier hex d in
  '(submission, submissionTime, selected) ←
    match found with
    | Err ErrNoRows => Ok (None, None, zero_identifier)
    | Err e => Err e
    | Ok (((venue, wallet), _), row) =>
      sub ← latest_submission row;
      Ok (sub, if 0 <? sr_updated_at_utc row then Some (UnixMilli (sr_updated_at_utc row)) else None,
          NewOrderIdentifier venue wallet oid)
    end;
  let selected := if bool_decide (selected = zero_identifier)
                  then NewOrderIdentifier (va_VenueID alias) (va_Wallet alias) oid else selected in
  '(latestStatus, selected) ← latest_status oid hex selected d;
  let selected := ensureIdentifier selected in
  '(entries, latestStatus, selected) ←
    (if lo_IncludeLog opts
     then log_entries oid hex from to submission submissionTime latestStatus selected d
     else Ok ([], latestStatus, selected));
  Ok (mkOrderItem oid (it_ObservedAt item) (it_BotEvent item) submission latestStatus
        (Some selected) entries).

Definition ListOrders (opts : ListOrdersOptions) : Sto (list OrderItem * option string) :=
  let limit := page_limit (lo_Limit opts) in
  cursor ← query (λ _, cursor_of (lo_PageToken opts));
  let observedFrom := unix_milli <$> lo_ObservedFrom opts in
  let observedTo := unix_milli <$> lo_ObservedTo opts in
  let orderIDPrefix := p ← lo_OrderIdPrefix opts;
    let prefix := TrimSpace p in
    if String.eqb prefix "" then None else Some (ToLower prefix) in
  rows ← ask (Queries.ListThreeCommasBotEventsForAPI (lo_BotID opts) (lo_DealID opts)
                (lo_BotEventID opts) observedFrom observedTo orderIDPrefix cursor (limit + 1));
  match rows with
  | [] => mret ([], None)
  | _ =>
    let '(rows, nextToken) := cut_page limit event_key rows in
    items ← query (λ _, mapM (λ r : botevent_row,
      match OrderId.FromHexString (er_order_id r), Unmarshal (er_payload r) with
      | Err _, _ => Err (ErrStore ("decode orderid " +:+ er_order_id r))
      | _, None => Err (ErrStore "decode bot event payload")
      | Ok oid, Some event =>
        Ok (er_order_id r, mkOrderItem oid (UnixMilli (er_observed_at_utc r)) (Some event)
                             None None None [])
      end) rows);
    alias ← defaultVenueAssignmentLocked;
    items ← query (λ d, mapM (λ '(hex, item),
      order_details opts (default MinInt64 observedFrom) (default MaxInt64 observedTo) alias
        hex item d) items);
    mret (items, nextToken)
  end.

(** [ListOrderScalers] of [storage/order_scalers.go]: the scaler in force for the
    orders of a page. *)
Definition ListOrderScalers (opts : ListOrdersOptions)
    : Sto (list (OrderId.OrderId * Z * string * Stream.EffectiveOrderScaler) * option string) :=
  '(rows, next) ← ListOrders (mkOrdersOptions (lo_OrderIdPrefix opts) (lo_BotID opts)
    (lo_DealID opts) (lo_BotEventID opts) None None false (page_limit (lo_Limit opts))
    (lo_PageToken opts));
  items ← query (λ d, mapM (λ row,
    effective ← (ScalerStorage.ResolveEffectiveOrderScaler (it_OrderId row) (mkStorage d None)).1;
    Ok (it_OrderId row, Store.UpdatedAt effective, Store.Actor effective,
        ScalerStorage.toAPIEffectiveOrderScaler effective)) rows);
  mret (items, next).

(** ** Venues *)

Definition venue_record (id : string) (row : venue_row) : VenueRecord :=
  mkVenueRecord id (vr_type row) (vr_display_name row) (vr_wallet row)
    (if String.eqb (vr_flags row) "" then None
     else match Unmarshal (vr_flags row) with
          | Some flags => if bool_decide (flags = ∅) then None else Some flags
          | None => None
          end).

Definition ListVenues : Sto (list VenueRecord) :=
  rows ← ask Queries.ListVenues; mret ((λ r, venue_record r.1 r.2) <$> rows).

Definition UpsertVenue (venueID : string) (payload : VenueUpsertRequest) : Sto VenueRecord :=
  let venueID := TrimSpace venueID in
  let venueType := TrimSpace (vu_Type payload) in
  let displayName := TrimSpace (vu_DisplayName payload) in
  let wallet := TrimSpace (vu_Wallet payload) in
  if String.eqb venueID "" then fail ErrVenueInvalid
  else if String.eqb venueType "" || String.eqb displayName "" || String.eqb wallet ""
  then fail ErrVenueInvalid
  else
    match match vu_Flags payload with None => Some "{}"%string | Some f => Marshal f end with
    | None => fail ErrVenueInvalid
    | Some flagsValue =>
      _ ← exec (Queries.UpsertVenue venueID venueType displayName wallet flagsValue);
      r ← ask (Queries.GetVenue venueID);
      match r with
      | Ok row => mret (venue_record venueID row)
      | Err ErrNoRows => fail ErrVenueNotFound
      | Err e => fail e
      end
    end.

(** The venue must exist. *)
Definition require_venue (venueID : string) : Sto unit :=
  r ← ask (Queries.GetVenue venueID);
  match r with
  | Ok _ => mret tt
  | Err ErrNoRows => fail ErrVenueNotFound
  | Err e => fail e
  end.

Definition DeleteVenue (venueID : string) : Sto unit :=
  let venueID := TrimSpace venueID in
  if String.eqb venueID "" then fail ErrVenueInvalid
  else if String.eqb venueID defaultHyperliquidVenueID then fail ErrVenueImmutable
  else
    _ ← require_venue venueID;
    exec (λ d, Ok (Queries.DeleteVenue venueID d)).

Definition assignment_record (a : Z * string * assignment_row) : VenueAssignmentRecord :=
  mkAssignRecord a.1.1 a.1.2 (negb (ar_is_primary a.2 =? 0)) (UnixMilli (ar_assigned_at_utc a.2)).

Definition ListVenueAssignments (venueID : string) : Sto (list VenueAssignmentRecord) :=
  let venueID := TrimSpace venueID in
  if String.eqb venueID "" then fail ErrVenueInvalid
  else
    _ ← require_venue venueID;
    rows ← ask (Queries.ListVenueAssignments venueID);
    mret (assignment_record <$> rows).

Definition UpsertVenueAssignment (now : Z) (venueID : string) (botID : Z) (isPrimary : bool)
    : Sto VenueAssignmentRecord :=
  let venueID := TrimSpace venueID in
  if String.eqb venueID "" || (botID <=? 0) then fail ErrVenueInvalid
  else
    _ ← require_venue venueID;
    let primary := if isPrimary then 1 else 0 in
    outcome ← attempt (transaction (
      _ ← (if isPrimary then exec (λ d, Ok (Queries.clear_primary botID d)) else mret tt);
      exec (Queries.UpsertBotVenueAssignment (unix_milli now) botID venueID primary)));
    match outcome with
    | Err e => if isUniqueConstraintError e then fail ErrVenueInvalid else fail e
    | Ok _ =>
      assignments ← ask (Queries.ListBotVenueAssignments botID);
      match find (λ a : Z * string * assignment_row, String.eqb a.1.2 venueID) assignments with
      | Some a => mret (assignment_record a)
      | None => fail ErrVenueAssignmentNotFound
      end
    end.

Definition DeleteVenueAssignment (venueID : string) (botID : Z) : Sto unit :=
  let venueID := TrimSpace venueID in
  if String.eqb venueID "" || (botID <=? 0) then fail ErrVenueInvalid
  else
    assignments ← ask (Queries.ListBotVenueAssignments botID);
    if negb (existsb (λ a : Z * string * assignment_row, String.eqb a.1.2 venueID) assignments)
    then fail ErrVenueAssignmentNotFound
    else exec (λ d, Ok (Queries.DeleteBotVenueAssignment botID venueID d)).

Definition ListBotVenues (botID : Z) : Sto (list BotVenueAssignmentRecord) :=
  if botID <=? 0 then fail ErrVenueInvalid
  else if 2 ^ 32 - 1 <? botID then fail ErrVenueInvalid
  else
    venues ← ListVenuesForBot (u32 botID);
    mret ((λ v, mkBotVenueRecord (va_VenueID v) (va_Wallet v) (va_IsPrimary v)) <$> venues).

End StorageApi.

End StorageApi.
