(* ===== verification/Adapter.v ===== *)
(** * Translating bot events into venue actions: [adapter/adapter.go] *)

From S2P Require Import Prelude GoFloat GoString OrderId Domain.
Import GoFloat GoString Domain.

Module Adapter.

Section Adapter.
Context {sdk : SDK}.

(** ** Requests *)

Definition orderTypeFrom3C (event : BotEvent) : OrderType :=
  let tif :=
    if String.eqb (ev_Status (be_Event event)) Active && negb (ev_IsMarket (be_Event event))
    then TifGtc else TifIoc in
  mkOrderType (Some tif) None.

Definition ToCreateOrderRequest (currency : string) (event : BotEvent) (oid : OrderId.OrderId)
    : CreateOrderRequest :=
  let isBuy := String.eqb (ev_Type (be_Event event)) BUY in
  let reduceOnly := negb isBuy && String.eqb (ev_OrderType (be_Event event)) TakeProfit in
  mkCreate currency isBuy (ev_Price (be_Event event)) (ev_Size (be_Event event)) reduceOnly
    (orderTypeFrom3C event) (OrderId.HexAsPointer oid).

Definition ToCancelByCloidRequest (currency : string) (oid : OrderId.OrderId)
    : CancelOrderRequestByCloid :=
  mkCancel currency (OrderId.Hex oid).

Definition ToModifyOrderRequest (currency : string) (next : BotEvent) (oid : OrderId.OrderId)
    : ModifyOrderRequest :=
  mkModify (Some (OrderId.Hex oid)) (ToCreateOrderRequest currency next oid).

(** ** Transitions *)

Inductive orderState := stateUnknown | stateActive | stateCancelled | stateFilled.
#[global] Instance orderState_eq_dec : EqDecision orderState.
Proof. solve_decision. Defined.

Definition classify (event : option BotEvent) : orderState :=
  match event with
  | None => stateUnknown
  | Some e =>
    let s := ev_Status (be_Event e) in
    if String.eqb s Active then stateActive
    else if String.eqb s Cancelled then stateCancelled
    else if String.eqb s Filled || String.eqb s Finished then stateFilled
    else stateUnknown
  end.

Definition floatAbsEpsilon : f64 := f_dec 1 8.
Definition floatRelEpsilon : f64 := f_dec 1 6.

Definition almostEqual (a b : f64) : bool :=
  let diff := Abs (fsub a b) in
  if fle diff floatAbsEpsilon then true
  else
    let largest := Max (Abs a) (Abs b) in
    if feq largest fzero then true
    else fle (fdiv diff largest) floatRelEpsilon.

Definition diffFloat (a b : f64) : bool := negb (almostEqual a b).

Definition needsModify (prev next : option BotEvent) : bool :=
  match prev, next with
  | Some p, Some n =>
    let p := be_Event p in
    let n := be_Event n in
    if negb (String.eqb (ev_Type p) (ev_Type n)) ||
       negb (String.eqb (ev_OrderType p) (ev_OrderType n)) then true
    else if negb (Bool.eqb (ev_IsMarket p) (ev_IsMarket n)) then true
    else diffFloat (ev_Price p) (ev_Price n) || diffFloat (ev_Size p) (ev_Size n)
  | _, _ => false
  end.

Definition BuildAction (currency : string) (prev : option BotEvent) (next : BotEvent)
    (oid : OrderId.OrderId) : Action :=
  let prevState := classify prev in
  let nextState := classify (Some next) in
  match prev, prevState, nextState with
  | None, _, stateActive =>
    action_create (ToCreateOrderRequest currency next oid) ""
  | None, _, _ => action_none "skipped: no prior order submitted"
  | Some _, stateActive, stateCancelled =>
    action_cancel (ToCancelByCloidRequest currency oid) ""
  | Some _, stateActive, stateFilled => action_none "filled locally"
  | Some _, stateActive, stateActive =>
    if needsModify prev (Some next) then
      action_modify (ToModifyOrderRequest currency next oid) ""
    else action_none "no material change"
  | Some _, _, _ => action_none "unsupported transition"
  end.

(** ** Facts *)

Lemma almostEqual_refl x : is_finite x = true → almostEqual x x = true.
Proof. intros H. unfold almostEqual. rewrite fsub_self by done. reflexivity. Qed.

Lemma needsModify_refl e :
  is_finite (ev_Price (be_Event e)) = true → is_finite (ev_Size (be_Event e)) = true →
  needsModify (Some e) (Some e) = false.
Proof.
  intros Hp Hs. unfold needsModify, diffFloat.
  rewrite !String.eqb_refl, eqb_reflx, !almostEqual_refl by done. reflexivity.
Qed.

Context {laws : SDKLaws sdk}.

Lemma states_apart :
  Active ≠ Cancelled ∧ Active ≠ Filled ∧ Active ≠ Finished ∧
  Cancelled ≠ Filled ∧ Cancelled ≠ Finished.
Proof.
  pose proof states_distinct as Hd.
  rewrite !NoDup_cons, !not_elem_of_cons in Hd. tauto.
Qed.

Lemma classify_active e : classify (Some e) = stateActive ↔ ev_Status (be_Event e) = Active.
Proof.
  simpl. pose proof states_apart as (?&?&?&?&?). split.
  - destruct (String.eqb_spec (ev_Status (be_Event e)) Active); [done|].
    destruct (String.eqb _ Cancelled); [done|]. by destruct (_ || _).
  - intros ->. by rewrite String.eqb_refl.
Qed.

Lemma classify_cancelled e :
  classify (Some e) = stateCancelled ↔ ev_Status (be_Event e) = Cancelled.
Proof.
  simpl. pose proof states_apart as (?&?&?&?&?). split.
  - destruct (String.eqb_spec (ev_Status (be_Event e)) Active); [done|].
    destruct (String.eqb_spec (ev_Status (be_Event e)) Cancelled); [done|]. by destruct (_ || _).
  - intros ->. destruct (String.eqb_spec Cancelled Active); [congruence|].
    by rewrite String.eqb_refl.
Qed.

(** Two active snapshots differ materially. *)
Definition material_change (p n : BotEvent) : Prop :=
  let p := be_Event p in
  let n := be_Event n in
  ev_Type p ≠ ev_Type n ∨ ev_OrderType p ≠ ev_OrderType n ∨ ev_IsMarket p ≠ ev_IsMarket n ∨
  almostEqual (ev_Price p) (ev_Price n) = false ∨ almostEqual (ev_Size p) (ev_Size n) = false.

Lemma needsModify_material p n : needsModify (Some p) (Some n) = true ↔ material_change p n.
Proof.
  unfold needsModify, material_change, diffFloat.
  destruct (String.eqb_spec (ev_Type (be_Event p)) (ev_Type (be_Event n))); simpl; [|naive_solver].
  destruct (String.eqb_spec (ev_OrderType (be_Event p)) (ev_OrderType (be_Event n))); simpl;
    [|naive_solver].
  destruct (Bool.eqb (ev_IsMarket (be_Event p)) (ev_IsMarket (be_Event n))) eqn:Hm; simpl.
  - apply eqb_prop in Hm. destruct (almostEqual _ _), (almostEqual (ev_Size _) _); naive_solver.
  - apply eqb_false_iff in Hm. naive_solver.
Qed.

(** ** Properties *)

(** What [BuildAction] decides, on the status strings: an order never seen is
    created exactly when it is active; an active one is cancelled exactly when it
    became cancelled and modified exactly when it stayed active with a material
    change; in every other case nothing is requested.  The request names the
    currency and the order's hexadecimal identifier, carries the price and size
    of the newer event, rests on the book exactly for a limit order, and is
    reduce-only exactly for a selling take profit. *)
Theorem BuildAction_decision (currency : string) (prev : option BotEvent) (next : BotEvent)
    (oid : OrderId.OrderId) :
  let a := BuildAction currency prev next oid in
  let n := be_Event next in
  (ac_Type a = ActionCreate ↔ prev = None ∧ ev_Status n = Active) ∧
  (ac_Type a = ActionCancel ↔
     ∃ p, prev = Some p ∧ ev_Status (be_Event p) = Active ∧ ev_Status n = Cancelled) ∧
  (ac_Type a = ActionModify ↔
     ∃ p, prev = Some p ∧ ev_Status (be_Event p) = Active ∧ ev_Status n = Active ∧
       material_change p next) ∧
  (ac_Type a = ActionCancel → ac_Cancel a = mkCancel currency (OrderId.Hex oid)) ∧
  (ac_Type a = ActionModify → mo_Cloid (ac_Modify a) = Some (OrderId.Hex oid)) ∧
  (∀ req, (ac_Type a = ActionCreate ∧ req = ac_Create a) ∨
          (ac_Type a = ActionModify ∧ req = mo_Order (ac_Modify a)) →
     co_Coin req = currency ∧ co_Price req = ev_Price n ∧ co_Size req = ev_Size n ∧
     co_ClientOrderID req = Some (OrderId.Hex oid) ∧
     (co_IsBuy req = true ↔ ev_Type n = BUY) ∧
     (co_ReduceOnly req = true ↔ ev_Type n ≠ BUY ∧ ev_OrderType n = TakeProfit) ∧
     (ot_Limit (co_OrderType req) = Some TifGtc ↔ ev_IsMarket n = false)).
Proof.
  intros a n.
  assert (Hreq : ev_Status n = Active → ∀ req, req = ToCreateOrderRequest currency next oid →
     co_Coin req = currency ∧ co_Price req = ev_Price n ∧ co_Size req = ev_Size n ∧
     co_ClientOrderID req = Some (OrderId.Hex oid) ∧
     (co_IsBuy req = true ↔ ev_Type n = BUY) ∧
     (co_ReduceOnly req = true ↔ ev_Type n ≠ BUY ∧ ev_OrderType n = TakeProfit) ∧
     (ot_Limit (co_OrderType req) = Some TifGtc ↔ ev_IsMarket n = false)).
  { intros Hact req ->. simpl. subst n. split_and!; try done.
    - apply String.eqb_eq.
    - rewrite andb_true_iff, negb_true_iff, String.eqb_neq, String.eqb_eq. done.
    - rewrite Hact, String.eqb_refl. pose proof tif_distinct.
      destruct (ev_IsMarket (be_Event next)); simpl; naive_solver. }
  pose proof (classify_active next) as Hna. pose proof (classify_cancelled next) as Hnc.
  change (be_Event next) with n in Hna, Hnc. subst a. unfold BuildAction.
  assert (Hlast : ∀ act, ev_Status n = Active ∨ (ac_Type act ≠ ActionCreate ∧ ac_Type act ≠ ActionModify) →
     (ac_Type act = ActionCreate → ac_Create act = ToCreateOrderRequest currency next oid) →
     (ac_Type act = ActionModify → mo_Order (ac_Modify act) = ToCreateOrderRequest currency next oid) →
     ∀ req, (ac_Type act = ActionCreate ∧ req = ac_Create act) ∨
            (ac_Type act = ActionModify ∧ req = mo_Order (ac_Modify act)) →
       req = ToCreateOrderRequest currency next oid ∧ ev_Status n = Active).
  { intros act Hact Hc Hm req [[Ht ->]|[Ht ->]]; (split; [by auto|]); destruct Hact as [?|[??]]; done. }
  destruct prev as [p|].
  - pose proof (classify_active p) as Hpa.
    destruct (classify (Some p)) eqn:Hp; destruct (classify (Some next)) eqn:Hn;
      try (destruct (needsModify (Some p) (Some next)) eqn:Hm;
           [apply needsModify_material in Hm
           |assert (¬ material_change p next) by (rewrite <- needsModify_material; congruence)]);
      split_and!;
      try (intros req Hr; apply Hlast in Hr as [-> ?]; [by apply Hreq|..]; simpl; try done;
           first [left; by apply Hna | by right]);
      clear Hreq Hlast; simpl; naive_solver.
  - destruct (classify (Some next)) eqn:Hn; split_and!;
      try (intros req Hr; apply Hlast in Hr as [-> ?]; [by apply Hreq|..]; simpl; try done;
           first [left; by apply Hna | by right]);
      clear Hreq Hlast; simpl; naive_solver.
Qed.

(** Replaying an active snapshot, or one that differs from it below the
    tolerance, asks nothing of the venue. *)
Theorem BuildAction_replay (currency : string) (e : BotEvent) (oid : OrderId.OrderId)
    (Hp : is_finite (ev_Price (be_Event e)) = true)
    (Hs : is_finite (ev_Size (be_Event e)) = true) :
  ac_Type (BuildAction currency (Some e) e oid) = ActionNone.
Proof.
  unfold BuildAction. destruct (classify (Some e)) eqn:Hc; try done.
  by rewrite needsModify_refl.
Qed.

End Adapter.

(** ** A concrete SDK, for evaluation *)

Definition demo_sdk : SDK := {|
  BUY := "BUY"; Active := "Active"; Cancelled := "Cancelled"; Filled := "Filled";
  Finished := "Finished"; TakeProfit := "Take Profit";
  BotEventActionPlace := "Place"; BotEventActionCancel := "Cancel";
  BotEventActionCancelled := "Cancelled"; BotEventActionModify := "Modify";
  FingerprintAsID := λ e, u32 (ev_OrderPosition e);
  Fingerprint := λ e, ev_OrderType e;
  PlanStarter := "starter"; PlanPro := "pro"; PlanExpert := "expert";
  TifIoc := "Ioc"; TifGtc := "Gtc"; OrderQueryStatusSuccess := "order";
  OrderStatusValueOpen := "open"; OrderStatusValueFilled := "filled";
  OrderStatusValueCanceled := "canceled" |}.

#[global] Instance demo_laws : SDKLaws demo_sdk.
Proof. split; simpl; [|done|]; repeat constructor; set_solver. Qed.

Definition demo_event (status : string) (price : Z) : BotEvent :=
  mkBotEvent 1 (mkTcBotEvent second "Place" "DOGE" "BUY" status (f_of_Z price) (f_of_Z 7)
    "Base" 1 1 false).

Lemma BuildAction_decision_witness :
  SDKLaws demo_sdk ∧
  (ac_Type (BuildAction (sdk:=demo_sdk) "DOGE" (Some (demo_event "Active" 3))
     (demo_event "Active" 4) OrderId.sample) = ActionModify ↔
   ∃ p, Some (demo_event "Active" 3) = Some p ∧ ev_Status (be_Event p) = "Active" ∧
     "Active" = "Active" ∧ material_change p (demo_event "Active" 4)).
Proof.
  split; [exact demo_laws|].
  exact (proj1 (proj2 (proj2 (BuildAction_decision (sdk:=demo_sdk) (laws:=demo_laws) "DOGE"
    (Some (demo_event "Active" 3)) (demo_event "Active" 4) OrderId.sample)))).
Defined.

Lemma BuildAction_replay_witness :
  is_finite (ev_Price (be_Event (demo_event "Active" 3))) = true ∧
  ac_Type (BuildAction (sdk:=demo_sdk) "DOGE" (Some (demo_event "Active" 3))
    (demo_event "Active" 3) OrderId.sample) = ActionNone.
Proof.
  split; [vm_compute; reflexivity|].
  refine (BuildAction_replay (sdk:=demo_sdk) "DOGE" (demo_event "Active" 3) OrderId.sample _ _);
    vm_compute; reflexivity.
Defined.

End Adapter.
