(* ===== verification/Hl.v ===== *)
(** * Venue helpers: [hl/constraints.go], [hl/order.go], [hl/bbo.go]

    Rounding of sizes and prices, the cache of size decimals per coin, and the
    conversions of query results and best bid/offer messages.  A Go panic of an
    index out of range is [None]. *)

From S2P Require Import Prelude GoFloat GoString OrderId Domain.
Import GoFloat GoString Domain.

Module Hl.

(** ** [hl/constraints.go] *)

Record CoinConstraints := mkConstraints {
  cc_Coin : string;
  cc_SizeDecimals : Z;
  cc_SizeStep : f64;
  cc_PriceSigFigs : Z;
  cc_MinNotional : f64;
}.

Definition zero_constraints : CoinConstraints := mkConstraints "" 0 fzero 0 fzero.

Definition RoundSize (c : CoinConstraints) (size : f64) : f64 :=
  if fle (cc_SizeStep c) fzero then size
  else fmul (Round (fdiv size (cc_SizeStep c))) (cc_SizeStep c).

Definition ften : f64 := f_of_Z 10.

Definition roundToDecimals (value : f64) (decimals : Z) : f64 :=
  let pow := Pow ften decimals in
  fdiv (Round (fmul value pow)) pow.

(** [for temp > 0 { temp /= 10; n++ }] on a 64-bit integer. *)
Fixpoint count_digits (fuel : nat) (temp n : Z) : Z :=
  match fuel with
  | O => n
  | S fuel => if 0 <? temp then count_digits fuel (temp /go 10) (n + 1) else n
  end.

(** [for absPrice < 1 { absPrice *= 10; multiplications++ }]. *)
Fixpoint scale_up (fuel : nat) (absPrice : f64) (multiplications : Z) : f64 * Z :=
  match fuel with
  | O => (absPrice, multiplications)
  | S fuel =>
    if flt absPrice fone then scale_up fuel (fmul absPrice ften) (multiplications + 1)
    else (absPrice, multiplications)
  end.

Definition digits_fuel : nat := 19.
Definition scale_fuel : nat := 400.

Definition roundToSignificantFigures (price : f64) (sigFigs : Z) : f64 :=
  if sigFigs <=? 0 then price
  else if feq price fzero then fzero
  else
    let absPrice := Abs price in
    let integerPart := Floor absPrice in
    if fgt integerPart fzero then
      let numIntegerDigits := count_digits digits_fuel (int_of_f integerPart) 0 in
      if sigFigs <=? numIntegerDigits then Copysign integerPart price
      else
        let sigFigsLeft := sigFigs - numIntegerDigits in
        Copysign (roundToDecimals absPrice sigFigsLeft) price
    else
      let '(absPrice, multiplications) := scale_up scale_fuel absPrice 0 in
      let rounded := roundToDecimals absPrice (sigFigs - 1) in
      Copysign (fdiv rounded (Pow ften multiplications)) price.

Definition RoundPrice (c : CoinConstraints) (price : f64) : f64 :=
  let sig := if cc_PriceSigFigs c <=? 0 then 5 else cc_PriceSigFigs c in
  roundToSignificantFigures price sig.

Definition NotionalBelowMinimum (c : CoinConstraints) (size price : f64) : bool :=
  if fle (cc_MinNotional c) fzero then false
  else
    let notional := Abs (fmul size price) in
    flt (fadd notional (f_dec 1 12)) (cc_MinNotional c).


(** *** The cache of size decimals *)

Record SpotAsset := mkSpotAsset { sa_Name : string; sa_Index : Z; sa_Tokens : list Z }.

(** The two queries of [InfoProvider]; [None] is an error. *)
Record InfoProvider := mkInfo {
  MetaAndAssetCtxs : option (list (string * Z));
  SpotMetaAndAssetCtxs : option (list SpotAsset * list Z);
}.

Record OrderIdCache := mkCache {
  oc_info : InfoProvider;
  oc_loaded : bool;
  oc_decimals : gmap string Z;
}.

Definition NewOrderIdCache (info : InfoProvider) : OrderIdCache := mkCache info false ∅.

Definition index {A} (l : list A) (i : Z) : option A :=
  if i <? 0 then None else l !! Z.to_nat i.

Definition load_perps (l : list (string * Z)) (m : gmap string Z) : gmap string Z :=
  fold_left (λ m '(name, d), <[name := d]> m) l m.

Fixpoint load_spots (tokens : list Z) (l : list SpotAsset) (m : gmap string Z)
    : option (gmap string Z) :=
  match l with
  | [] => Some m
  | asset :: l =>
    if (0 <=? sa_Index asset) && (sa_Index asset <? Z.of_nat (length tokens)) then
      t0 ← index (sa_Tokens asset) 0;
      d ← index tokens t0;
      load_spots tokens l (<[sa_Name asset := d]> m)
    else load_spots tokens l m
  end.

(** [None] is a panic of the loading function; [sync.Once] is then spent. *)
Definition ensureLoaded (m : OrderIdCache) : option OrderIdCache :=
  if oc_loaded m then Some m
  else
    let d := match MetaAndAssetCtxs (oc_info m) with
             | Some perps => load_perps perps (oc_decimals m)
             | None => oc_decimals m
             end in
    match SpotMetaAndAssetCtxs (oc_info m) with
    | Some (universe, tokens) =>
      d ← load_spots tokens universe d; Some (mkCache (oc_info m) true d)
    | None => Some (mkCache (oc_info m) true d)
    end.

Inductive resolve_error := ErrCoinRequired | ErrUnknownCoin (coin : string).

Definition Resolve (coin : string) (m : OrderIdCache)
    : option (result resolve_error CoinConstraints * OrderIdCache) :=
  if String.eqb coin "" then Some (Err ErrCoinRequired, m)
  else
    m ← ensureLoaded m;
    match oc_decimals m !! coin with
    | None => Some (Err (ErrUnknownCoin coin), m)
    | Some decimals =>
      Some (Ok (mkConstraints coin decimals (Pow10 (- decimals)) 5 fzero), m)
    end.

(** ** [hl/order.go] *)

Inductive convert_error := ErrNilResult.

Definition OrderQueryResultToWsOrder {sdk : SDK} (oid : OrderId.OrderId)
    (r : option OrderQueryResult) : result convert_error (option WsOrder) :=
  match r with
  | None => Err ErrNilResult
  | Some r =>
    if negb (String.eqb (qr_Status r) OrderQueryStatusSuccess) then Ok None
    else
      let o := ws_Order (qr_Order r) in
      let cloid := match wb_Cloid o with None => Some (OrderId.Hex oid) | c => c end in
      Ok (Some (mkWsOrder
        (mkWsBasicOrder (wb_Coin o) (wb_Side o) (wb_LimitPx o) (wb_Sz o) (wb_Oid o)
           (wb_Timestamp o) (wb_OrigSz o) cloid)
        (ws_Status (qr_Order r)) (ws_StatusTimestamp (qr_Order r))))
  end.

(** ** [hl/bbo.go] *)

Record Level := mkLevel { lv_Price : f64; lv_Size : f64 }.
Record BestBidOffer := mkBbo { bb_Coin : string; bb_Time : Z; bb_Bid : Level; bb_Ask : Level }.

Definition WsBBOToBBO (coin : string) (time : Z) (levels : list (f64 * f64))
    : option BestBidOffer :=
  b ← levels !! 0%nat;
  a ← levels !! 1%nat;
  Some (mkBbo coin (UnixMilli time) (mkLevel b.1 b.2) (mkLevel a.1 a.2)).

End Hl.
