(* ===== verification/Refresh.v ===== *)
(** * Refreshing statuses: [hl/status_refresher.go]

    One task per known order, at most [maxConcurrency] of them at a time, in the
    order of the list.  A task asks the exchange, records the answer and tells the
    tracker; each of these is one step, and the steps of running tasks interleave.
    The store and the tracker are the interfaces of the file; an answer of the
    exchange is a function of the client and of the order's text. *)

From S2P Require Import Prelude GoFloat GoString OrderId Domain Store Hl.
Import GoString Domain Store.

Module Refresh.

(** [QueryOrderByCloid] of a client: an error's text, or a result that may be nil. *)
Definition orderStatusClient : Type := string → result string (option OrderQueryResult).

(** [statusStore] and [statusTracker]. *)
Class StatusStore (S : Type) := {
  ListHyperliquidOrderIds : S → result store_error (list OrderIdentifier);
  RecordHyperliquidStatus : Z → OrderIdentifier → WsOrder → S → result store_error unit * S;
}.
Class StatusTracker (T : Type) := UpdateStatus : OrderIdentifier → WsOrder → T → T.

Inductive refresh_error :=
| ErrNoClients
| ErrListOrderIds (e : store_error)
| ErrQuery (ident : OrderIdentifier) (msg : string)
| ErrNilResult (ident : OrderIdentifier)
| ErrRecord (ident : OrderIdentifier) (e : store_error).

Record StatusRefresher := mkRefresher {
  sr_clients : gmap VenueID orderStatusClient;
  sr_tracked : bool;
  sr_maxConcurrency : Z;
}.

(** [concurrency] is the option, 4 without it. *)
Definition NewStatusRefresher (clients : gmap VenueID orderStatusClient) (tracked : bool)
    (concurrency : option Z) : StatusRefresher :=
  let n := default 4 concurrency in
  mkRefresher clients tracked (if n <? 1 then 1 else n).

Section Refresh.
Context {sdk : SDK} {S T : Type} {store : StatusStore S} {tracker : StatusTracker T}.

(** ** One task *)

(** How far a task is, and how it ends: whether a status was updated. *)
Inductive stage := AtQuery | AtRecord (w : WsOrder) | AtTrack (w : WsOrder).
Inductive progress := Goes (st : stage) | Ends (r : result refresh_error bool).

(** The answer for an order: an error, no status, or one to record. *)
Definition refresh_query (r : StatusRefresher) (ident : OrderIdentifier)
    : result refresh_error (option WsOrder) :=
  match sr_clients r !! oi_VenueID ident with
  | None => Ok None
  | Some client =>
    match client (Hex ident) with
    | Err msg => Err (ErrQuery ident msg)
    | Ok None => Err (ErrNilResult ident)
    | Ok (Some result) =>
      match Hl.OrderQueryResultToWsOrder (oi_OrderId ident) (Some result) with
      | Err _ => Err (ErrNilResult ident)
      | Ok w => Ok w
      end
    end
  end.

Definition refreshOne_step (r : StatusRefresher) (now : Z) (ident : OrderIdentifier) (st : stage)
    (s : S) (t : T) : progress * S * T :=
  match st with
  | AtQuery =>
    (match refresh_query r ident with
     | Err e => Ends (Err e)
     | Ok None => Ends (Ok false)
     | Ok (Some w) => Goes (AtRecord w)
     end, s, t)
  | AtRecord w =>
    match RecordHyperliquidStatus now ident w s with
    | (Err e, s) => (Ends (Err (ErrRecord ident e)), s, t)
    | (Ok _, s) => (Goes (AtTrack w), s, t)
    end
  | AtTrack w => (Ends (Ok true), s, if sr_tracked r then UpdateStatus ident w t else t)
  end.

(** ** The group of tasks *)

Record group := mkGroup {
  gr_store : S;
  gr_tracker : T;
  gr_todo : list OrderIdentifier;
  gr_running : list (OrderIdentifier * stage);
  gr_done : list (OrderIdentifier * result refresh_error bool);
  gr_clock : Z;
}.

Definition start_group (now : Z) (idents : list OrderIdentifier) (s : S) (t : T) : group :=
  mkGroup s t idents [] [] now.

(** [g.Go] waits while the limit is reached. *)
Definition launch (r : StatusRefresher) (g : group) : option group :=
  match gr_todo g with
  | ident :: todo =>
    if Z.of_nat (length (gr_running g)) <? sr_maxConcurrency r
    then Some (mkGroup (gr_store g) (gr_tracker g) todo (gr_running g ++ [(ident, AtQuery)])
                 (gr_done g) (gr_clock g))
    else None
  | [] => None
  end.

(** The [i]-th of the running tasks takes its next step. *)
Definition advance (r : StatusRefresher) (now : Z) (i : nat) (g : group) : option group :=
  match gr_running g !! i with
  | None => None
  | Some (ident, st) =>
    match refreshOne_step r now ident st (gr_store g) (gr_tracker g) with
    | (Goes st', s, t) =>
      Some (mkGroup s t (gr_todo g) (<[i := (ident, st')]> (gr_running g)) (gr_done g) now)
    | (Ends res, s, t) =>
      Some (mkGroup s t (gr_todo g) (delete i (gr_running g)) ((ident, res) :: gr_done g) now)
    end
  end.

(** The clock, read in milliseconds, does not go back. *)
Inductive group_step (r : StatusRefresher) : group → group → Prop :=
| step_launch g g' : launch r g = Some g' → group_step r g g'
| step_advance now i g g' :
    unix_milli (gr_clock g) ≤ unix_milli now → advance r now i g = Some g' → group_step r g g'.

Definition finished (g : group) : Prop := gr_todo g = [] ∧ gr_running g = [].

(** What [Refresh] counts and returns once all tasks have ended. *)
Definition updated (g : group) : Z :=
  Z.of_nat (length (filter (λ x, Is_true (match x.2 with Ok b => b | Err _ => false end)) (gr_done g))).
Definition errors_of (g : group) : list refresh_error :=
  omap (λ x, match x.2 with Err e => Some e | Ok _ => None end) (reverse (gr_done g)).

(** [Refresh], with the schedule of its tasks left open. *)
Inductive refreshed (r : StatusRefresher) (now : Z) (s : S) (t : T) : list refresh_error → S → T → Prop :=
| refreshed_no_clients : sr_clients r = ∅ → refreshed r now s t [ErrNoClients] s t
| refreshed_no_list e :
    sr_clients r ≠ ∅ → ListHyperliquidOrderIds s = Err e → refreshed r now s t [ErrListOrderIds e] s t
| refreshed_all idents g :
    sr_clients r ≠ ∅ → ListHyperliquidOrderIds s = Ok idents →
    rtc (group_step r) (start_group now idents s t) g → finished g →
    refreshed r now s t (errors_of g) (gr_store g) (gr_tracker g).

End Refresh.

End Refresh.
