(* ===== verification/Socket.v ===== *)
(** * The websocket client: [hl/ws/ws.go]

    Order updates go to the fill tracker and the storage; the best bid and offer of
    a coin goes to a cache and to the channels of its subscribers.  Each access of
    the shared maps is a step; a method is the sequence of its steps. *)

From S2P Require Import Prelude GoFloat GoString OrderId Domain Store Hl Stream Refresh.
Import GoString Domain Store Hl Stream Refresh.

Module Socket.

Definition httpToWsURL (apiURL : string) : string :=
  if String.eqb apiURL "" then ""
  else if HasPrefix apiURL "https://" then "wss://" +:+ TrimPrefix apiURL "https://"
  else if HasPrefix apiURL "http://" then "ws://" +:+ TrimPrefix apiURL "http://"
  else apiURL.

Definition normalizeCoin (coin : string) : string := ToUpper (TrimSpace coin).

(** ** Topics *)

(** [bt_gone] keeps the channels that were removed and closed, for their readers. *)
Record bboTopic := mkTopic {
  bt_subs : gmap Z (chan BestBidOffer);
  bt_gone : gmap Z (chan BestBidOffer);
  bt_nextID : Z;
}.

Definition newBBOTopic : bboTopic := mkTopic ∅ ∅ 0.

Definition topic_add (ch : chan BestBidOffer) (t : bboTopic) : Z * bboTopic :=
  let id := i64 (bt_nextID t + 1) in
  (id, mkTopic (<[id := ch]> (bt_subs t)) (bt_gone t) id).

(** [remove] with the [close] that follows it. *)
Definition topic_remove (id : Z) (t : bboTopic) : bboTopic :=
  match bt_subs t !! id with
  | Some ch => mkTopic (delete id (bt_subs t)) (<[id := close_chan ch]> (bt_gone t)) (bt_nextID t)
  | None => t
  end.

Definition topic_broadcast (bbo : BestBidOffer) (t : bboTopic) : bboTopic :=
  mkTopic (try_send bbo <$> bt_subs t) (bt_gone t) (bt_nextID t).

(** ** The client *)

(** [cl_subscriptions] holds, per coin, whether the stored subscription is one or nil. *)
Record Client := mkClient {
  cl_subscriptions : gmap string bool;
  cl_coinBbos : gmap string BestBidOffer;
  cl_bboTopics : gmap string bboTopic;
  cl_venueID : VenueID;
  cl_wallet : string;
}.

Definition with_subscriptions (m : gmap string bool) (c : Client) : Client :=
  mkClient m (cl_coinBbos c) (cl_bboTopics c) (cl_venueID c) (cl_wallet c).
Definition with_bbos (m : gmap string BestBidOffer) (c : Client) : Client :=
  mkClient (cl_subscriptions c) m (cl_bboTopics c) (cl_venueID c) (cl_wallet c).
Definition with_topics (m : gmap string bboTopic) (c : Client) : Client :=
  mkClient (cl_subscriptions c) (cl_coinBbos c) m (cl_venueID c) (cl_wallet c).

(** [New]: [connects] and [subscribes] are the answers of the websocket library. *)
Definition New (venue : VenueID) (userAddr : string) (connects subscribes : bool) : option Client :=
  if connects && subscribes
  then Some (mkClient {["orderUpdates"%string := true]} ∅ ∅ venue userAddr)
  else None.

(** The two accesses of [EnsureBBO]: is there a subscription for the coin; what the
    library answered, [ok], is stored. *)
Definition ensure_missing (coin : string) (c : Client) : bool :=
  let coin := normalizeCoin coin in
  negb (String.eqb coin "") && bool_decide (cl_subscriptions c !! coin = None).
Definition ensure_store (ok : bool) (coin : string) (c : Client) : Client :=
  with_subscriptions (<[normalizeCoin coin := ok]> (cl_subscriptions c)) c.
Definition EnsureBBO (ok : bool) (coin : string) (c : Client) : Client :=
  if ensure_missing coin c then ensure_store ok coin c else c.

Definition with_coin (coin : string) (b : BestBidOffer) : BestBidOffer :=
  mkBbo coin (bb_Time b) (bb_Bid b) (bb_Ask b).

(** The two steps of [storeCoinBBO]. *)
Definition store_bbo (coin : string) (bbo : BestBidOffer) (c : Client) : Client :=
  let key := normalizeCoin coin in
  if String.eqb key "" then c else with_bbos (<[key := with_coin key bbo]> (cl_coinBbos c)) c.
Definition broadcast_bbo (coin : string) (bbo : BestBidOffer) (c : Client) : Client :=
  let key := normalizeCoin coin in
  if String.eqb key "" then c
  else with_topics (alter (topic_broadcast (with_coin key bbo)) key (cl_bboTopics c)) c.
Definition storeCoinBBO (coin : string) (bbo : BestBidOffer) (c : Client) : Client :=
  broadcast_bbo coin bbo (store_bbo coin bbo c).

Definition currentBBO (coin : string) (c : Client) : option BestBidOffer :=
  let coin := normalizeCoin coin in
  if String.eqb coin "" then None else cl_coinBbos c !! coin.

(** [WaitForBestBidOffer] looks every 50 milliseconds until the context is done:
    [looks] are the states it finds. *)
Fixpoint WaitForBestBidOffer (coin : string) (looks : list Client) : option BestBidOffer :=
  match looks with
  | [] => None
  | c :: looks =>
    match currentBBO coin c with
    | Some bbo => Some bbo
    | None => if String.eqb (normalizeCoin coin) "" then None else WaitForBestBidOffer coin looks
    end
  end.

Definition ensureBBOTopic (coin : string) (c : Client) : Client :=
  match cl_bboTopics c !! coin with
  | Some _ => c
  | None => with_topics (<[coin := newBBOTopic]> (cl_bboTopics c)) c
  end.

(** The steps of [SubscribeBBO] once the coin is subscribed to: a channel of 8 is
    added to the topic, then the current price is sent to it. *)
Definition join_topic (coin : string) (c : Client) : Z * Client :=
  let c := ensureBBOTopic coin c in
  let '(id, t) := topic_add (make_chan 8) (default newBBOTopic (cl_bboTopics c !! coin)) in
  (id, with_topics (<[coin := t]> (cl_bboTopics c)) c).
Definition send_current (coin : string) (id : Z) (current : option BestBidOffer) (c : Client) : Client :=
  match current with
  | None => c
  | Some bbo =>
    with_topics (alter (λ t, mkTopic (alter (try_send bbo) id (bt_subs t)) (bt_gone t) (bt_nextID t))
      coin (cl_bboTopics c)) c
  end.

(** [SubscribeBBO] when no other step comes in between. *)
Definition SubscribeBBO (ok : bool) (coin : string) (c : Client) : option Z * Client :=
  let coin := normalizeCoin coin in
  if String.eqb coin "" then (None, c)
  else
    let '(id, c) := join_topic coin (EnsureBBO ok coin c) in
    (Some id, send_current coin id (currentBBO coin c) c).

(** What its goroutine does when the context is done. *)
Definition leave_topic (coin : string) (id : Z) (c : Client) : Client :=
  with_topics (alter (topic_remove id) coin (cl_bboTopics c)) c.

(** The callback of a subscription to a coin: the library calls it with what the
    venue sends, or with an error. *)
Definition bbo_callback (coin : string) (bbo : option BestBidOffer) (c : Client) : Client :=
  match bbo with Some bbo => storeCoinBBO coin bbo c | None => c end.

(** ** Order updates *)

Section Orders.
Context {S T : Type} {store : StatusStore S} {tracker : StatusTracker T}.

Definition order_update (c : Client) (tracked : bool) (st : S * T) (update : Z * WsOrder) : S * T :=
  let '(now, o) := update in
  match wb_Cloid (ws_Order o) with
  | None => st
  | Some cloid =>
    match OrderId.FromHexString cloid with
    | Err _ => st
    | Ok oid =>
      let ident := NewOrderIdentifier (cl_venueID c) (cl_wallet c) oid in
      ((RecordHyperliquidStatus now ident o st.1).2,
       if tracked then UpdateStatus ident o st.2 else st.2)
    end
  end.

(** The callback of [OrderUpdates], with the time at which each of its orders is
    recorded; [None] is an error. *)
Definition order_updates (c : Client) (tracked : bool) (orders : option (list (Z * WsOrder)))
    (st : S * T) : S * T :=
  match orders with
  | None => st
  | Some orders => fold_left (order_update c tracked) orders st
  end.

End Orders.

(** [Get] and [Exists]; [load] is [LoadHyperliquidStatus]. *)
Definition Get (load : OrderIdentifier → result store_error (option WsOrder)) (c : Client)
    (oid : OrderId.OrderId) : option WsOrder :=
  match load (NewOrderIdentifier (cl_venueID c) (cl_wallet c) oid) with
  | Ok status => status
  | Err _ => None
  end.
Definition Exists (load : OrderIdentifier → result store_error (option WsOrder)) (c : Client)
    (oid : OrderId.OrderId) : bool :=
  match Get load c oid with Some _ => true | None => false end.

End Socket.
