(* ===== verification/FillTracker.v ===== *)
(** * The fill tracker: [filltracker/service.go]

    One record per tracked order ([orderState]) and one per deal ([dealState]).
    The maps [Service.orders] and [dealState.orders] hold pointers to the same
    order records, so the records live in a heap [ft_heap].  A [range] over a map
    is the class [GoRange] at a number that names the loop; the clock of an
    operation is a list of readings. *)

From S2P Require Import Prelude GoFloat GoString OrderId Domain Adapter Store.
Import GoFloat GoString Domain Adapter Store.

Module FillTracker.

(** ** State *)

Record orderState := mkOrderState {
  os_identifier : OrderIdentifier;
  os_event : option TcBotEvent;
  os_coin : string;
  os_orderType : string;
  os_side : string;
  os_reduceOnly : bool;
  os_originalQty : f64;
  os_remainingQty : f64;
  os_filledQty : f64;
  os_price : f64;
  os_limitPrice : f64;
  os_status : string;
  os_statusObserved : Z;
  os_lastUpdate : Z;
  os_hydratedEpoch : Z;
}.

Record DealPosition := mkPosition {
  TotalBuyQty : f64;
  TotalBuyValue : f64;
  TotalSellQty : f64;
  NetQty : f64;
  AverageEntry : f64;
}.

Definition zero_position : DealPosition := mkPosition fzero fzero fzero fzero fzero.

Record dealState := mkDealState {
  ds_botID : Z;
  ds_dealID : Z;
  ds_currency : string;
  ds_orders : gmap OrderIdentifier nat;
  ds_position : DealPosition;
  ds_lastUpdate : Z;
}.

Record Service := mkService {
  ft_heap : gmap nat orderState;
  ft_next : nat;
  ft_orders : gmap OrderIdentifier nat;
  ft_deals : gmap Z dealState;
  ft_submitter : bool;             (* whether an emitter is wired *)
  ft_requireHydration : bool;
  ft_statusHydrated : bool;
  ft_hydrationEpoch : Z;
}.

Record OrderSnapshot := mkOrderSnapshot {
  sn_Identifier : OrderIdentifier;
  sn_OrderId : OrderId.OrderId;
  sn_Coin : string;
  sn_OrderType : string;
  sn_Side : string;
  sn_ReduceOnly : bool;
  sn_OriginalQty : f64;
  sn_RemainingQty : f64;
  sn_FilledQty : f64;
  sn_LimitPrice : f64;
  sn_ReferencePrice : f64;
  sn_Status : string;
  sn_StatusTime : Z;
  sn_LastUpdate : Z;
  sn_Event : option TcBotEvent;
}.

Record DealSnapshot := mkDealSnapshot {
  dn_DealID : Z;
  dn_BotID : Z;
  dn_Currency : string;
  dn_Position : DealPosition;
  dn_Orders : list OrderSnapshot;
  dn_ActiveTakeProfits : list OrderSnapshot;
  dn_LastTakeProfitEvent : option TcBotEvent;
  dn_OpenBuys : list OrderSnapshot;
  dn_AllBuysFilled : bool;
  dn_OutstandingBuyQty : f64;
  dn_OutstandingSellQty : f64;
  dn_UpdatedAt : Z;
}.

Record venueKey := mkVenueKey { vk_venue : VenueID; vk_wallet : string }.
#[global] Instance venueKey_eq_dec : EqDecision venueKey.
Proof. solve_decision. Defined.
#[global] Instance venueKey_countable : Countable venueKey.
Proof.
  refine (inj_countable' (λ k, (vk_venue k, vk_wallet k)) (λ '(a, b), mkVenueKey a b) _).
  by intros [].
Defined.

(** Field updates of [Service] and [orderState]. *)
Definition with_heap (h : gmap nat orderState) (s : Service) : Service :=
  mkService h (ft_next s) (ft_orders s) (ft_deals s) (ft_submitter s)
    (ft_requireHydration s) (ft_statusHydrated s) (ft_hydrationEpoch s).
Definition with_orders (o : gmap OrderIdentifier nat) (n : nat) (s : Service) : Service :=
  mkService (ft_heap s) n o (ft_deals s) (ft_submitter s)
    (ft_requireHydration s) (ft_statusHydrated s) (ft_hydrationEpoch s).
Definition with_deals (d : gmap Z dealState) (s : Service) : Service :=
  mkService (ft_heap s) (ft_next s) (ft_orders s) d (ft_submitter s)
    (ft_requireHydration s) (ft_statusHydrated s) (ft_hydrationEpoch s).
Definition with_hydration (req hyd : bool) (epoch : Z) (s : Service) : Service :=
  mkService (ft_heap s) (ft_next s) (ft_orders s) (ft_deals s) (ft_submitter s) req hyd epoch.

Definition with_event (e : option TcBotEvent) (coin typ side : string) (ro : bool)
    (orig price : f64) (o : orderState) : orderState :=
  mkOrderState (os_identifier o) e coin typ side ro orig (os_remainingQty o) (os_filledQty o)
    price (os_limitPrice o) (os_status o) (os_statusObserved o) (os_lastUpdate o)
    (os_hydratedEpoch o).
Definition with_status (coin side : string) (limitPx orig rem filled : f64) (status : string)
    (observed last : Z) (o : orderState) : orderState :=
  mkOrderState (os_identifier o) (os_event o) coin (os_orderType o) side (os_reduceOnly o)
    orig rem filled (os_price o) limitPx status observed last (os_hydratedEpoch o).
Definition with_qty (orig rem filled : f64) (o : orderState) : orderState :=
  mkOrderState (os_identifier o) (os_event o) (os_coin o) (os_orderType o) (os_side o)
    (os_reduceOnly o) orig rem filled (os_price o) (os_limitPrice o) (os_status o)
    (os_statusObserved o) (os_lastUpdate o) (os_hydratedEpoch o).
Definition with_prices (price limitPx : f64) (o : orderState) : orderState :=
  mkOrderState (os_identifier o) (os_event o) (os_coin o) (os_orderType o) (os_side o)
    (os_reduceOnly o) (os_originalQty o) (os_remainingQty o) (os_filledQty o) price limitPx
    (os_status o) (os_statusObserved o) (os_lastUpdate o) (os_hydratedEpoch o).
Definition with_times (observed last : Z) (o : orderState) : orderState :=
  mkOrderState (os_identifier o) (os_event o) (os_coin o) (os_orderType o) (os_side o)
    (os_reduceOnly o) (os_originalQty o) (os_remainingQty o) (os_filledQty o) (os_price o)
    (os_limitPrice o) (os_status o) observed last (os_hydratedEpoch o).
Definition with_identifier (i : OrderIdentifier) (o : orderState) : orderState :=
  mkOrderState i (os_event o) (os_coin o) (os_orderType o) (os_side o)
    (os_reduceOnly o) (os_originalQty o) (os_remainingQty o) (os_filledQty o) (os_price o)
    (os_limitPrice o) (os_status o) (os_statusObserved o) (os_lastUpdate o) (os_hydratedEpoch o).
Definition with_epoch (e : Z) (o : orderState) : orderState :=
  mkOrderState (os_identifier o) (os_event o) (os_coin o) (os_orderType o) (os_side o)
    (os_reduceOnly o) (os_originalQty o) (os_remainingQty o) (os_filledQty o) (os_price o)
    (os_limitPrice o) (os_status o) (os_statusObserved o) (os_lastUpdate o) e.

Definition fresh_state (ident : OrderIdentifier) (epoch : Z) : orderState :=
  mkOrderState ident None "" "" "" false fzero fzero fzero fzero fzero "" zero_time zero_time
    epoch.

Definition floatTolerance : f64 := f_dec 1 6.

Definition floatsEqual (a b : f64) : bool := fle (Abs (fsub a b)) floatTolerance.

Definition parseFloat (s : string) : option f64 := ParseFloat s.

Definition cloneEvent (e : option TcBotEvent) : option TcBotEvent := e.

(** [New]. *)
Definition New : Service := mkService ∅ 0 ∅ ∅ false false false 0.

Section Tracker.
Context {sdk : SDK} {R : GoRange}.

(** ** [orderState] *)

Definition isCanceledHyperliquidStatus (status : string) : bool :=
  if String.eqb status OrderStatusValueCanceled then true
  else if String.eqb status "" then false
  else
    let lower := ToLower status in
    HasSuffix lower "canceled" || HasSuffix lower "cancelled".

Definition applyEvent (evt : option TcBotEvent) (o : orderState) : orderState :=
  match evt with
  | None => o
  | Some e =>
    with_event (Some e) (ev_Coin e) (ev_OrderType e) (ev_Type e)
      (os_reduceOnly o || String.eqb (ev_OrderType e) TakeProfit)
      (if fgt (ev_Size e) fzero && feq (os_originalQty o) fzero then ev_Size e
       else os_originalQty o)
      (if fgt (ev_Price e) fzero then ev_Price e else os_price o) o
  end.

(** The branch [status.StatusTimestamp > 0 && observed.Before(o.statusObserved)]. *)
Definition is_stale (status : WsOrder) (o : orderState) : bool :=
  (0 <? ws_StatusTimestamp status) && negb (IsZero (os_statusObserved o)) &&
  (UnixMilli (ws_StatusTimestamp status) <? os_statusObserved o).

(** A decimal field of the payload: empty or malformed text keeps the old value. *)
Definition field_or (text : string) (old : f64) : f64 :=
  if String.eqb text "" then old
  else match parseFloat text with Some v => v | None => old end.

Definition applyStatus (status : WsOrder) (now : Z) (o : orderState) : orderState :=
  if is_stale status o then o
  else
    let observed := if 0 <? ws_StatusTimestamp status
                    then UnixMilli (ws_StatusTimestamp status) else os_statusObserved o in
    let cancelled := isCanceledHyperliquidStatus (ws_Status status) in
    let b := ws_Order status in
    let coin := if String.eqb (wb_Coin b) "" then os_coin o else wb_Coin b in
    let side := if String.eqb (wb_Side b) "" then os_side o else wb_Side b in
    let limitPx := field_or (wb_LimitPx b) (os_limitPrice o) in
    let orig := field_or (wb_OrigSz b) (os_originalQty o) in
    let rem := field_or (wb_Sz b) (os_remainingQty o) in
    let filled := if fgt orig fzero then Max fzero (fsub orig rem) else fzero in
    let rem := if cancelled then fzero else rem in
    let filledQty := if fgt orig fzero then filled else os_filledQty o in
    with_status coin side limitPx orig rem filledQty (ws_Status status) observed now o.

Definition inferFromEvent (o : orderState) : orderState :=
  match os_event o with
  | None => o
  | Some e =>
    let orig := if fgt (ev_Size e) fzero && feq (os_originalQty o) fzero then ev_Size e
                else os_originalQty o in
    let rem := if fgt orig fzero && feq (os_remainingQty o) fzero then orig
               else os_remainingQty o in
    let observed := if 0 <? unix_milli (ev_CreatedAt e) then ev_CreatedAt e
                    else os_statusObserved o in
    with_times observed (os_lastUpdate o) (with_qty orig rem (os_filledQty o) o)
  end.

Definition isBuy (o : orderState) : bool :=
  match os_event o with
  | Some e => String.eqb (ev_Type e) BUY
  | None => EqualFold (os_side o) "B" || EqualFold (os_side o) "BUY"
  end.

Definition isActive (o : orderState) : bool :=
  if isCanceledHyperliquidStatus (os_status o) ||
     String.eqb (os_status o) OrderStatusValueFilled then false
  else if fle (os_remainingQty o) floatTolerance then false
  else true.

Definition requiresHydration (o : orderState) : bool := os_reduceOnly o.

Definition isFilled (o : orderState) : bool :=
  if String.eqb (os_status o) OrderStatusValueFilled then true
  else if feq (os_originalQty o) fzero then false
  else fle (Abs (fsub (os_filledQty o) (os_originalQty o))) floatTolerance ||
       fle (os_remainingQty o) floatTolerance.

Definition fillPrice (o : orderState) : f64 :=
  if fgt (os_limitPrice o) fzero then os_limitPrice o
  else if fgt (os_price o) fzero then os_price o
  else fzero.

Definition order_snapshot (o : orderState) : OrderSnapshot :=
  mkOrderSnapshot (os_identifier o) (oi_OrderId (os_identifier o)) (os_coin o) (os_orderType o)
    (os_side o) (os_reduceOnly o) (os_originalQty o) (os_remainingQty o) (os_filledQty o)
    (os_limitPrice o) (os_price o) (os_status o) (os_statusObserved o) (os_lastUpdate o)
    (os_event o).

(** ** [dealState] *)

(** The record behind a pointer; pointers kept by the maps are never dangling. *)
Definition deref (h : gmap nat orderState) (p : nat) : orderState :=
  default (fresh_state zero_identifier 0) (h !! p).

(** The orders of a deal in the order the [i]-th loop visits them. *)
Definition visit (i : nat) (h : gmap nat orderState) (d : dealState)
    : list (OrderIdentifier * orderState) :=
  (λ x, (x.1, deref h x.2)) <$> go_range i (ds_orders d).

Record totals := mkTotals { t_currency : string; t_buyQty : f64; t_buyValue : f64; t_sellQty : f64 }.

Definition recompute_step (t : totals) (x : OrderIdentifier * orderState) : totals :=
  let o := x.2 in
  let currency := if String.eqb (t_currency t) "" && negb (String.eqb (os_coin o) "")
                  then os_coin o else t_currency t in
  let filled := os_filledQty o in
  if fle filled fzero then mkTotals currency (t_buyQty t) (t_buyValue t) (t_sellQty t)
  else if isBuy o then
    let price := fillPrice o in
    mkTotals currency (fadd (t_buyQty t) filled)
      (if fgt price fzero then fadd (t_buyValue t) (fmul price filled) else t_buyValue t)
      (t_sellQty t)
  else mkTotals currency (t_buyQty t) (t_buyValue t) (fadd (t_sellQty t) filled).

Definition recompute_totals (l : list (OrderIdentifier * orderState)) : totals :=
  fold_left recompute_step l (mkTotals "" fzero fzero fzero).

Definition recompute (i : nat) (h : gmap nat orderState) (d : dealState) : dealState :=
  let t := recompute_totals (visit i h d) in
  let net := fsub (t_buyQty t) (t_sellQty t) in
  let avg := if fgt (t_buyQty t) fzero then fdiv (t_buyValue t) (t_buyQty t) else fzero in
  mkDealState (ds_botID d) (ds_dealID d)
    (if String.eqb (t_currency t) "" then ds_currency d else t_currency t)
    (ds_orders d) (mkPosition (t_buyQty t) (t_buyValue t) (t_sellQty t) net avg)
    (ds_lastUpdate d).

Definition snapshot_step (out : DealSnapshot) (x : OrderIdentifier * orderState) : DealSnapshot :=
  let o := x.2 in
  let snap := order_snapshot o in
  let orders := dn_Orders out ++ [snap] in
  let '(openBuys, allFilled, outBuy) :=
    if isBuy o then
      if isActive o then
        (dn_OpenBuys out ++ [snap], false, fadd (dn_OutstandingBuyQty out) (os_remainingQty o))
      else (dn_OpenBuys out, dn_AllBuysFilled out && isFilled o, dn_OutstandingBuyQty out)
    else (dn_OpenBuys out, dn_AllBuysFilled out, dn_OutstandingBuyQty out) in
  let outSell := if isBuy o then dn_OutstandingSellQty out
                 else fadd (dn_OutstandingSellQty out) (os_remainingQty o) in
  let tps := if negb (isBuy o) && (os_reduceOnly o && isActive o)
             then dn_ActiveTakeProfits out ++ [snap] else dn_ActiveTakeProfits out in
  let latest :=
    match os_event o with
    | Some e =>
      if os_reduceOnly o &&
         match dn_LastTakeProfitEvent out with
         | None => true
         | Some l => ev_CreatedAt l <? ev_CreatedAt e
         end
      then Some e else dn_LastTakeProfitEvent out
    | None => dn_LastTakeProfitEvent out
    end in
  mkDealSnapshot (dn_DealID out) (dn_BotID out) (dn_Currency out) (dn_Position out) orders tps
    latest openBuys allFilled outBuy outSell (dn_UpdatedAt out).

Definition empty_snapshot (d : dealState) : DealSnapshot :=
  mkDealSnapshot (ds_dealID d) (ds_botID d) (ds_currency d) (ds_position d) [] [] None [] true
    fzero fzero (ds_lastUpdate d).

Definition deal_snapshot (i : nat) (h : gmap nat orderState) (d : dealState) : DealSnapshot :=
  fold_left snapshot_step (visit i h d) (empty_snapshot d).

(** ** [Service] *)

Definition RequireStatusHydration (s : Service) : Service :=
  with_hydration true false ((ft_hydrationEpoch s + 1) mod 2 ^ 64) s.

Definition MarkStatusesHydrated (s : Service) : Service :=
  with_hydration (ft_requireHydration s) true (ft_hydrationEpoch s) s.

Definition statusesHydrated (s : Service) : bool :=
  if negb (ft_requireHydration s) then true else ft_statusHydrated s.
Definition StatusesHydrated := statusesHydrated.

Definition SetEmitter (wired : bool) (s : Service) : Service :=
  mkService (ft_heap s) (ft_next s) (ft_orders s) (ft_deals s) wired
    (ft_requireHydration s) (ft_statusHydrated s) (ft_hydrationEpoch s).

Definition update_state (p : nat) (f : orderState → orderState) (s : Service) : Service :=
  with_heap (<[p := f (deref (ft_heap s) p)]> (ft_heap s)) s.

Definition ensureOrderLocked (ident : OrderIdentifier) (s : Service) : nat * Service :=
  match ft_orders s !! ident with
  | Some p => (p, update_state p (with_identifier ident) s)
  | None =>
    let epoch := if negb (ft_requireHydration s) || ft_statusHydrated s ||
                    (ft_hydrationEpoch s =? 0)
                 then ft_hydrationEpoch s else 0 in
    let p := ft_next s in
    (p, with_heap (<[p := fresh_state ident epoch]> (ft_heap s))
          (with_orders (<[ident := p]> (ft_orders s)) (S p) s))
  end.

Definition ensureDealLocked (ident : OrderIdentifier) (now : Z) (s : Service) : dealState :=
  let oid := oi_OrderId ident in
  let d := match ft_deals s !! OrderId.DealID oid with
           | Some d => d
           | None => mkDealState (OrderId.BotID oid) (OrderId.DealID oid) "" ∅ zero_position now
           end in
  if ds_botID d =? 0
  then mkDealState (OrderId.BotID oid) (ds_dealID d) (ds_currency d) (ds_orders d)
         (ds_position d) (ds_lastUpdate d)
  else d.

(** [deal.orders[ident] = state; deal.lastUpdate = now; deal.recompute()]. *)
Definition put_order (i : nat) (ident : OrderIdentifier) (p : nat) (now : Z)
    (h : gmap nat orderState) (d : dealState) : dealState :=
  recompute i h (mkDealState (ds_botID d) (ds_dealID d) (ds_currency d)
    (<[ident := p]> (ds_orders d)) (ds_position d) now).

(** The common tail: [deal := s.ensureDealLocked(ident)] and the lines above. *)
Definition attach (i : nat) (ident : OrderIdentifier) (p : nat) (now : Z) (s : Service) : Service :=
  let d := put_order i ident p now (ft_heap s) (ensureDealLocked ident now s) in
  with_deals (<[OrderId.DealID (oi_OrderId ident) := d]> (ft_deals s)) s.

(** The loop of [markOrderHydratedLocked]: whether no order that requires
    hydration lags behind the epoch. *)
Definition all_hydrated (i : nat) (epoch : Z) (s : Service) : bool :=
  forallb (λ x, let o := deref (ft_heap s) x.2 in
                negb (requiresHydration o) || (os_hydratedEpoch o =? epoch))
    (go_range i (ft_orders s)).

Definition markOrderHydratedLocked (p : nat) (s : Service) : Service :=
  if negb (ft_requireHydration s) then s
  else if ft_statusHydrated s then s
  else
    let current := ft_hydrationEpoch s in
    if current =? 0 then s
    else
      let s := if requiresHydration (deref (ft_heap s) p)
               then update_state p (with_epoch current) s else s in
      if all_hydrated 0 current s
      then with_hydration (ft_requireHydration s) true (ft_hydrationEpoch s) s
      else s.

Definition ApplyScaledOrder (ident : OrderIdentifier) (size price : f64) (now : Z)
    (s : Service) : Service :=
  if fle size fzero && fle price fzero then s
  else
    let '(p, s) := ensureOrderLocked ident s in
    let resize o :=
      if fgt size fzero then
        let filled := if fgt (os_filledQty o) size then size else os_filledQty o in
        let remaining := fsub size filled in
        let remaining := if flt remaining fzero then fzero else remaining in
        with_qty size remaining filled o
      else o in
    let reprice o :=
      if fgt price fzero then
        with_prices price (if feq (os_limitPrice o) fzero then price else os_limitPrice o) o
      else o in
    let touch o := with_times (os_statusObserved o) now o in
    attach 1 ident p now (update_state p (λ o, touch (reprice (resize o))) s).

Definition Snapshot (dealID : Z) (s : Service) : option DealSnapshot :=
  d ← ft_deals s !! dealID; Some (deal_snapshot 2 (ft_heap s) d).

Definition listDealIDs (s : Service) : list Z := (go_range 3 (ft_deals s)).*1.

Definition markOrderCancelled (ident : OrderIdentifier) (now : Z) (s : Service) : Service :=
  match ft_orders s !! ident with
  | None => s
  | Some p =>
    let s := update_state p (λ o,
      with_status (os_coin o) (os_side o) (os_limitPrice o) (os_originalQty o) fzero
        (os_filledQty o) OrderStatusValueCanceled now now o) s in
    match ft_deals s !! OrderId.DealID (oi_OrderId ident) with
    | None => s
    | Some d =>
      with_deals (<[OrderId.DealID (oi_OrderId ident) := put_order 4 ident p now (ft_heap s) d]>
                   (ft_deals s)) s
    end
  end.

(** [closeOpenOrdersForDeal]: every active buy is cancelled in memory. *)
Definition close_order (now : Z) (h : gmap nat orderState) (x : OrderIdentifier * nat)
    : gmap nat orderState :=
  let o := deref h x.2 in
  if isBuy o && isActive o then
    <[x.2 := with_status (os_coin o) (os_side o) (os_limitPrice o) (os_originalQty o) fzero
       (os_filledQty o) OrderStatusValueCanceled now now o]> h
  else h.

Definition closeOpenOrdersForDeal (dealID now : Z) (s : Service) : Service :=
  match ft_deals s !! dealID with
  | None => s
  | Some d =>
    let h := fold_left (close_order now) (go_range 5 (ds_orders d)) (ft_heap s) in
    let d := recompute 6 h (mkDealState (ds_botID d) (ds_dealID d) (ds_currency d)
               (ds_orders d) (ds_position d) now) in
    with_deals (<[dealID := d]> (ft_deals s)) (with_heap h s)
  end.

Definition dealFinished (deal : option TcDeal) : bool :=
  match deal with
  | None => false
  | Some d =>
    if dl_Finished d then true
    else
      let status := ToLower (dl_Status d) in
      if String.eqb status "" then false
      else Contains status "finished" || Contains status "canceled" ||
           Contains status "cancelled" || String.eqb status "completed" ||
           String.eqb status "failed"
  end.

(** [CleanupStaleDeals]: the deals without update for [staleDuration] and with
    no active order are removed with their orders. *)
Definition is_complete (i : nat) (h : gmap nat orderState) (d : dealState) : bool :=
  forallb (λ x, negb (isActive x.2)) (visit i h d).

Definition is_stale_deal (now staleDuration : Z) (s : Service) (d : dealState) : bool :=
  negb (time_sub now (ds_lastUpdate d) <? staleDuration) && is_complete 8 (ft_heap s) d.

Definition remove_deal (s : Service) (dealID : Z) : Service :=
  match ft_deals s !! dealID with
  | None => s
  | Some d =>
    let orders := fold_left (λ m x, delete x.1 m) (go_range 9 (ds_orders d)) (ft_orders s) in
    with_deals (delete dealID (ft_deals s)) (with_orders orders (ft_next s) s)
  end.

Definition CleanupStaleDeals (staleDuration now : Z) (s : Service) : nat * Service :=
  let stale := (λ x, x.1) <$>
    filter (λ x, is_stale_deal now staleDuration s x.2 = true) (go_range 7 (ft_deals s)) in
  (length stale, fold_left remove_deal stale s).

(** ** Loading from storage *)

Context {store : TrackerStore}.

Definition ScaledOrderAudit_matches (ident : OrderIdentifier) (a : ScaledOrderAudit) : bool :=
  String.eqb (sa_VenueID a) (oi_VenueID ident) && String.eqb (sa_Wallet a) (oi_Wallet ident).

(** The most recent scaled order of the identifier's venue and wallet. *)
Definition latest_scaled (ident : OrderIdentifier) (l : list ScaledOrderAudit)
    : option ScaledOrderAudit :=
  find (ScaledOrderAudit_matches ident) (rev l).

Definition apply_scaled_audit (a : option ScaledOrderAudit) (o : orderState) : orderState :=
  match a with
  | None => o
  | Some a =>
    if fgt (sa_ScaledSize a) fzero then
      let orig := sa_ScaledSize a in
      let filled := if fgt (os_filledQty o) orig then orig else os_filledQty o in
      let remaining := fsub orig filled in
      let remaining := if flt remaining fzero then fzero else remaining in
      with_qty orig remaining filled o
    else o
  end.

Definition reload_ident (now : Z) (event : option TcBotEvent)
    (scaled : list ScaledOrderAudit) (status : option WsOrder) (ident : OrderIdentifier)
    (s : Service) : Service :=
  let '(p, s) := ensureOrderLocked ident s in
  let load o :=
    let o := applyEvent event o in
    let o := match status with
             | Some st => applyStatus st now o
             | None => inferFromEvent o
             end in
    apply_scaled_audit (latest_scaled ident scaled) o in
  attach 10 ident p now (update_state p load s).

(** The loop over the identifiers of one order; an error stops the deal. *)
Fixpoint reload_idents (now : Z) (event : option TcBotEvent) (scaled : list ScaledOrderAudit)
    (l : list OrderIdentifier) (s : Service) : result store_error unit * Service :=
  match l with
  | [] => (Ok tt, s)
  | ident :: l =>
    match LoadHyperliquidStatus ident with
    | Err e => (Err e, s)
    | Ok status => reload_idents now event scaled l (reload_ident now event scaled status ident s)
    end
  end.

Fixpoint reload_orders (now : Z) (l : list OrderId.OrderId) (s : Service)
    : result store_error unit * Service :=
  match l with
  | [] => (Ok tt, s)
  | oid :: l =>
    match LoadThreeCommasBotEvent oid with
    | Err e => (Err e, s)
    | Ok event =>
      let identifiers := or_empty (ListSubmissionIdentifiersForOrder oid) in
      match identifiers with
      | [] => reload_orders now l s
      | _ =>
        let scaled := or_empty (ListScaledOrdersByOrderId oid) in
        match reload_idents now event scaled identifiers s with
        | (Err e, s) => (Err e, s)
        | (Ok _, s) => reload_orders now l s
        end
      end
    end
  end.

Definition reloadDeal (dealID now : Z) (s : Service) : result store_error unit * Service :=
  match LoadThreeCommasDeal dealID with
  | Err e => (Err e, s)
  | Ok dealRecord =>
    match ListOrderIdsForDeal dealID with
    | Err e => (Err e, s)
    | Ok [] => (Ok tt, s)
    | Ok oids =>
      match reload_orders now oids s with
      | (Err e, s) => (Err e, s)
      | (Ok _, s) =>
        (Ok tt, if dealFinished dealRecord then closeOpenOrdersForDeal dealID now s else s)
      end
    end
  end.

(** A deal that fails to load is skipped. *)
Definition Rebuild (now : Z) (s : Service) : result store_error unit * Service :=
  match ListDealIDs with
  | Err e => (Err e, s)
  | Ok ids => (Ok tt, fold_left (λ s id, (reloadDeal (u32 id) now s).2) ids s)
  end.

(** ** Take-profit reconciliation *)

(** The tracker and the orders handed to the emitter so far.  [emit i w] is the
    emitter's answer to the [i]-th order. *)
Record world := mkWorld { wd_svc : Service; wd_log : list OrderWork }.

Variable emit : nat → OrderWork → option emit_error.

Definition emitOrderWork (work : OrderWork) (w : world) : bool * world :=
  if decide (ow_Identifier work = zero_identifier) then (false, w)
  else
    (match emit (length (wd_log w)) work with None => true | Some _ => false end,
     mkWorld (wd_svc w) (wd_log w ++ [work])).

Definition isLiveHyperliquidStatus (status : option WsOrder) : bool :=
  match status with
  | None => false
  | Some st => String.eqb (ws_Status st) OrderStatusValueOpen || String.eqb (ws_Status st) "live"
  end.

Definition hasLiveHyperliquidStatus (ident : OrderIdentifier) : bool :=
  match LoadHyperliquidStatus ident with
  | Err _ => false
  | Ok status => isLiveHyperliquidStatus status
  end.

Definition submissionMatchesDesired (action : Action) (desiredSize : f64)
    (requireReduceOnly : bool) : bool :=
  match ac_Type action with
  | ActionCreate =>
    if requireReduceOnly && negb (co_ReduceOnly (ac_Create action)) then false
    else floatsEqual (co_Size (ac_Create action)) desiredSize
  | ActionModify =>
    if requireReduceOnly && negb (co_ReduceOnly (mo_Order (ac_Modify action))) then false
    else floatsEqual (co_Size (mo_Order (ac_Modify action))) desiredSize
  | _ => false
  end.

Definition shouldSkipSubmission (ident : OrderIdentifier) (desiredSize : f64)
    (requireReduceOnly : bool) : bool :=
  match LoadHyperliquidSubmission ident with
  | Ok (Some action) =>
    if submissionMatchesDesired action desiredSize requireReduceOnly
    then hasLiveHyperliquidStatus ident else false
  | _ => false
  end.

Definition eventsMatch (a b : option TcBotEvent) : bool :=
  match a, b with
  | Some a, Some b =>
    (ev_CreatedAt a =? ev_CreatedAt b) && String.eqb (Fingerprint a) (Fingerprint b)
  | _, _ => false
  end.

Definition lookupTakeProfitContext (sn : DealSnapshot) (preferredIdent : option OrderIdentifier)
    (preferredEvent : option TcBotEvent) : option (OrderIdentifier * TcBotEvent) :=
  let evt := match cloneEvent preferredEvent with
             | Some e => Some e
             | None => cloneEvent (dn_LastTakeProfitEvent sn)
             end in
  let ident :=
    match preferredIdent, evt with
    | Some i, _ => Some i
    | None, Some _ =>
      sn_Identifier <$>
        find (λ o, sn_ReduceOnly o && match sn_Event o with Some _ => true | None => false end &&
                   eventsMatch (sn_Event o) evt) (dn_Orders sn)
    | None, None => None
    end in
  match ident, evt with
  | Some i, Some e => Some (i, e)
  | _, _ =>
    match LoadTakeProfitForDeal (dn_DealID sn) with
    | Err _ => None
    | Ok (storedOrderId, storedEvt) =>
      ident ← match ident with
              | Some i => Some i
              | None => head (or_empty (ListSubmissionIdentifiersForOrder storedOrderId))
              end;
      evt ← match evt with Some e => Some e | None => Some storedEvt end;
      Some (ident, evt)
    end
  end.

Definition event_of (e : TcBotEvent) : BotEvent := mkBotEvent 0 e.

Definition ensureTakeProfit (sn : DealSnapshot) (desiredQty : f64)
    (preferredIdent : option OrderIdentifier) (preferredEvent : option TcBotEvent) (force : bool)
    (w : world) : world :=
  match lookupTakeProfitContext sn preferredIdent preferredEvent with
  | None => w
  | Some (ident, evt) =>
    if negb force && hasLiveHyperliquidStatus ident then w
    else
      let oid := oi_OrderId ident in
      let create := ToCreateOrderRequest (dn_Currency sn) (event_of evt) oid in
      let create := with_reduce_only true (with_size desiredQty create) in
      if negb force && shouldSkipSubmission ident (co_Size create) (co_ReduceOnly create) then w
      else
        (emitOrderWork (mkOrderWork ident oid
           (action_create create "recreate missing take profit") (event_of evt)) w).2
  end.

Definition mark_cancelled (ident : OrderIdentifier) (now : Z) (w : world) : world :=
  mkWorld (markOrderCancelled ident now (wd_svc w)) (wd_log w).

Definition cancel_work (sn : DealSnapshot) (tp : OrderSnapshot) (reason : string) : OrderWork :=
  mkOrderWork (sn_Identifier tp) (sn_OrderId tp)
    (action_cancel (mkCancel (dn_Currency sn) (OrderId.Hex (sn_OrderId tp))) reason) zero_botevent.

Definition cancelTakeProfitBySnapshot (sn : DealSnapshot) (tp : OrderSnapshot) (now : Z)
    (w : world) : world :=
  let '(ok, w) :=
    emitOrderWork (cancel_work sn tp "position closed; cancel stale take profit") w in
  if ok then mark_cancelled (sn_Identifier tp) now w else w.

Definition reconcileActiveTakeProfitBySnapshot (sn : DealSnapshot) (tp : OrderSnapshot)
    (desiredQty : f64) (now : Z) (w : world) : world :=
  if sn_ReduceOnly tp && floatsEqual (sn_RemainingQty tp) desiredQty then w
  else
    let ident := sn_Identifier tp in
    let oid := sn_OrderId tp in
    let evt := match cloneEvent (sn_Event tp) with
               | Some e => Some e
               | None => cloneEvent (dn_LastTakeProfitEvent sn)
               end in
    match evt with
    | Some evt =>
      let modify := ToModifyOrderRequest (dn_Currency sn) (event_of evt) oid in
      let modify := modify_order (λ o, with_reduce_only true (with_size desiredQty o)) modify in
      if shouldSkipSubmission ident (co_Size (mo_Order modify)) (co_ReduceOnly (mo_Order modify))
      then w
      else
        (emitOrderWork (mkOrderWork ident oid
           (action_modify modify "resize take profit to match net position")
           (event_of evt)) w).2
    | None =>
      let '(ok, w) :=
        emitOrderWork
          (cancel_work sn tp "stale take profit metadata; cancel before recreation") w in
      if ok then
        ensureTakeProfit sn desiredQty (Some ident) (dn_LastTakeProfitEvent sn) true
          (mark_cancelled ident now w)
      else w
    end.

Definition key_of (ident : OrderIdentifier) : venueKey :=
  mkVenueKey (oi_VenueID ident) (oi_Wallet ident).

(** One order's contribution to the position of its venue and wallet. *)
Definition position_step (acc : gmap venueKey f64 * gmap venueKey OrderIdentifier)
    (o : OrderSnapshot) : gmap venueKey f64 * gmap venueKey OrderIdentifier :=
  let '(positions, idents) := acc in
  let key := key_of (sn_Identifier o) in
  let idents := match idents !! key with
                | Some _ => idents
                | None => <[key := sn_Identifier o]> idents
                end in
  let old := default fzero (positions !! key) in
  let new := if String.eqb (sn_Side o) "B" || EqualFold (sn_Side o) "BUY"
             then fadd old (sn_FilledQty o) else fsub old (sn_FilledQty o) in
  (<[key := new]> positions, idents).

Definition calculateVenuePositions (sn : DealSnapshot) : gmap OrderIdentifier f64 :=
  let '(positions, idents) := fold_left position_step (dn_Orders sn) (∅, ∅) in
  fold_left (λ m x, <[default zero_identifier (idents !! x.1) := x.2]> m)
    (go_range 11 positions) ∅.

Definition buildTakeProfitIdentifier (sn : DealSnapshot) (venue : VenueID) (wallet : string)
    : option OrderIdentifier :=
  match find (λ o, sn_ReduceOnly o && match sn_Event o with Some _ => true | None => false end)
          (dn_Orders sn) with
  | Some o => Some (NewOrderIdentifier venue wallet (sn_OrderId o))
  | None =>
    match LoadTakeProfitForDeal (dn_DealID sn) with
    | Err _ => None
    | Ok (oid, _) => Some (NewOrderIdentifier venue wallet oid)
    end
  end.

(** The body of the loop over the venue positions. *)
Definition reconcile_venue (sn : DealSnapshot) (activeTPs : gmap venueKey OrderSnapshot) (now : Z)
    (w : world) (x : OrderIdentifier * f64) : world :=
  let '(ident, venueNetQty) := x in
  let tp := activeTPs !! key_of ident in
  if fle venueNetQty floatTolerance then
    match tp with
    | Some tp => cancelTakeProfitBySnapshot sn tp now w
    | None => w
    end
  else
    match tp with
    | Some tp => reconcileActiveTakeProfitBySnapshot sn tp venueNetQty now w
    | None =>
      let tpIdent := buildTakeProfitIdentifier sn (oi_VenueID ident) (oi_Wallet ident) in
      ensureTakeProfit sn venueNetQty tpIdent None false w
    end.

Definition active_by_venue (l : list OrderSnapshot) : gmap venueKey OrderSnapshot :=
  fold_left (λ m tp, <[key_of (sn_Identifier tp) := tp]> m) l ∅.

Definition reconcileSnapshot (submitter : bool) (sn : DealSnapshot) (now : Z) (w : world) : world :=
  if negb submitter then w
  else if dn_DealID sn =? 0 then w
  else if negb (dn_AllBuysFilled sn) then w
  else
    let positions := calculateVenuePositions sn in
    let activeTPs := active_by_venue (dn_ActiveTakeProfits sn) in
    let visited := go_range 12 positions in
    let processed := (λ x, key_of x.1) <$> visited in
    let w := fold_left (reconcile_venue sn activeTPs now) visited w in
    fold_left (λ w x, if decide (x.1 ∈ processed) then w
                      else cancelTakeProfitBySnapshot sn x.2 now w)
      (go_range 13 activeTPs) w.

Definition ReconcileTakeProfits (submitter : bool) (now : Z) (w : world) : world :=
  if negb (statusesHydrated (wd_svc w)) then w
  else
    fold_left (λ w dealID,
      match Snapshot dealID (wd_svc w) with
      | None => w
      | Some sn => reconcileSnapshot submitter sn now w
      end) (listDealIDs (wd_svc w)) w.

(** [UpdateStatus] up to the end of its critical section. *)
Definition update_status_locked (ident : OrderIdentifier) (event : option TcBotEvent)
    (status : WsOrder) (now : Z) (s : Service) : Service :=
  let '(p, s) := ensureOrderLocked ident s in
  let s := update_state p (λ o, applyStatus status now (applyEvent event o)) s in
  let s := markOrderHydratedLocked p s in
  attach 14 ident p now s.

Definition UpdateStatus (ident : OrderIdentifier) (status : WsOrder) (now : Z) (w : world)
    : result store_error unit * world :=
  match LoadThreeCommasBotEvent (oi_OrderId ident) with
  | Err e => (Err e, w)
  | Ok event =>
    let s := update_status_locked ident event status now (wd_svc w) in
    let w := mkWorld s (wd_log w) in
    match ft_deals s !! OrderId.DealID (oi_OrderId ident) with
    | None => (Ok tt, w)
    | Some d =>
      (Ok tt, reconcileSnapshot (ft_submitter s) (deal_snapshot 15 (ft_heap s) d) now w)
    end
  end.

End Tracker.

End FillTracker.
