(* ===== verification/OrderScaler.v ===== *)
(** * Scaling orders: [engine/orderscaler/service.go]

    [Scale] multiplies and rounds an order; the take profits of a stack are
    rounded together by a search over the neighbouring lot sizes. *)

From S2P Require Import Prelude GoFloat GoString OrderId Domain Store Hl.
Import GoFloat GoString Domain Store Hl.

Module OrderScaler.

(** The part of the storage the scaler uses.  [RecordScaledOrder] is the only
    call that writes; its arguments are kept by [Scale]. *)
Class ScalerStore := {
  ResolveEffectiveOrderScaler : OrderId.OrderId → result store_error EffectiveOrderScaler;
  RecordScaledOrder :
    RecordScaledOrderParams → result store_error (ScaledOrderAudit * EffectiveOrderScaler);
  ListTakeProfitStackSizes : OrderId.OrderId → Z → result store_error (list f64);
}.

(** [Constraints.Resolve]. *)
Class Constraints := ResolveConstraints : string → result resolve_error CoinConstraints.

Record Service := mkService { maxMultiplier : f64 }.

Definition New : Service := mkService fzero.
Definition WithMaxMultiplier (max : f64) (s : Service) : Service :=
  if fgt max fzero then mkService max else s.

Record Request := mkRequest {
  rq_Identifier : OrderIdentifier;
  rq_OrderId : OrderId.OrderId;
  rq_Coin : string;
  rq_Side : string;
  rq_OriginalSize : f64;
  rq_Price : f64;
  rq_StackIndex : Z;
  rq_StackSize : Z;
  rq_Timestamp : Z;
}.

Record Result := mkResult {
  rs_Size : f64;
  rs_Price : f64;
  rs_Audit : ScaledOrderAudit;
  rs_Effective : EffectiveOrderScaler;
  rs_Multiplier : f64;
}.

Definition clampToNonNegative (v : f64) : f64 := if flt v fzero then fzero else v.

(** ** Rounding a stack *)

Definition ratioWeight : f64 := fone.
Definition totalWeight : f64 := f_dec 1 1.
Definition roundingWeight : f64 := f_dec 5 2.
Definition equalityPenalty : f64 := fone.
Definition ratioTolerance : f64 := f_dec 1 9.

Definition sum_floats (l : list f64) : f64 := fold_left fadd l fzero.

(** One round of the loop of [evaluateStackCost]; [prev] is the element before. *)
Definition cost_step (baseOriginal baseSize : f64) (acc : f64 * option (f64 * f64))
    (x : f64 * f64 * f64) : f64 * option (f64 * f64) :=
  let '(cost, prev) := acc in
  let '(orig, target, size) := x in
  let cost := fadd cost (fmul roundingWeight (Abs (fsub size target))) in
  match prev with
  | None => (cost, Some (orig, size))
  | Some (prevOrig, prevSize) =>
    let cost := if fgt orig (fadd prevOrig ratioTolerance) && fle size prevSize
                then fadd cost equalityPenalty else cost in
    let cost :=
      if fgt baseOriginal ratioTolerance && fgt baseSize ratioTolerance then
        let desiredRatio := fdiv orig baseOriginal in
        let actualRatio := fdiv size baseSize in
        fadd cost (fmul ratioWeight (Abs (fsub actualRatio desiredRatio)))
      else cost in
    (cost, Some (orig, size))
  end.

Definition evaluateStackCost (original targets sizes : list f64) : f64 :=
  let totalTarget := sum_floats targets in
  let totalSize := sum_floats sizes in
  let cost := fmul totalWeight (Abs (fsub totalSize totalTarget)) in
  let baseOriginal := default fzero (head original) in
  let baseSize := default fzero (head sizes) in
  (fold_left (cost_step baseOriginal baseSize) (zip (zip original targets) sizes)
     (cost, None)).1.

(** The neighbouring lot counts of a target, ascending. *)
Definition step_options (sizeStep target : f64) : list Z :=
  let base := fdiv target sizeStep in
  let lower := int_of_f (Floor base) in
  let upper := int_of_f (Ceil base) in
  let upper := if upper <? lower then lower else upper in
  let opts := (if 0 <=? lower then [lower] else []) ++
              (if (0 <=? upper) && negb (upper =? lower) then [upper] else []) in
  match opts with [] => [0] | _ => opts end.

Definition sizes_of (sizeStep : f64) (steps : list Z) : list f64 :=
  (λ n, fmul (f_of_Z n) sizeStep) <$> steps.

Definition consider (original targets : list f64) (sizeStep : f64) (steps : list Z)
    (best : list f64 * f64) : list f64 * f64 :=
  let sizes := sizes_of sizeStep steps in
  let cost := evaluateStackCost original targets sizes in
  if flt cost best.2 then (sizes, cost) else best.

(** [backtrack]: [steps] holds the choices made so far. *)
Fixpoint backtrack (original targets : list f64) (sizeStep : f64) (options : list (list Z))
    (steps : list Z) (best : list f64 * f64) : list f64 * f64 :=
  match options with
  | [] => consider original targets sizeStep steps best
  | opts :: options =>
    fold_left (λ best option,
      backtrack original targets sizeStep options (steps ++ [option]) best) opts best
  end.

Definition computeStackRoundedSizes (original : list f64) (multiplier sizeStep : f64) : list f64 :=
  match original with
  | [] => []
  | _ =>
    let targets := (λ o, fmul o multiplier) <$> original in
    if fle sizeStep fzero then targets
    else
      let options := step_options sizeStep <$> targets in
      let '(best, bestCost) := backtrack original targets sizeStep options []
        (replicate (length original) fzero, finf) in
      if is_inf bestCost 1
      then (λ t, fmul (Round (fdiv t sizeStep)) sizeStep) <$> targets
      else best
  end.

(** ** [Scale] *)

Inductive scale_error :=
| ErrNilOrder
| ErrResolveMultiplier (e : store_error)
| ErrResolveConstraints (e : resolve_error)
| ErrRecordSkipped (e : store_error)
| ErrRecordScaled (e : store_error).

(** [ErrBelowMinimum] comes with a result. *)
Inductive outcome :=
| Scaled (r : Result)
| BelowMinimum (r : Result)
| Failed (e : scale_error).

Definition below_minimum_reason (notional min : f64) : string :=
  "scaled order below minimum notional (" +:+ FormatFixed 4 notional +:+ " < " +:+
    FormatFixed 4 min +:+ ")".

Section Scale.
Context {store : ScalerStore} {constr : Constraints}.

(** The size of one level of a stack, when the whole stack is known. *)
Definition stack_size (req : Request) (multiplier sizeStep roundedSize : f64) : f64 :=
  if (1 <? rq_StackSize req) && (0 <=? rq_StackIndex req) then
    match ListTakeProfitStackSizes (rq_OrderId req) (rq_StackSize req) with
    | Err _ => roundedSize
    | Ok stackSizes =>
      if Z.of_nat (length stackSizes) =? rq_StackSize req then
        let stackRounded := computeStackRoundedSizes stackSizes multiplier sizeStep in
        default roundedSize (stackRounded !! Z.to_nat (rq_StackIndex req))
      else roundedSize
    end
  else roundedSize.

Definition effective_multiplier (s : Service) (m : f64) : f64 :=
  if fgt (maxMultiplier s) fzero && fgt m (maxMultiplier s) then maxMultiplier s else m.

(** The outcome, the order as it is left and the audits recorded. *)
Definition Scale (s : Service) (req : Request) (order : option CreateOrderRequest)
    : outcome * option CreateOrderRequest * list RecordScaledOrderParams :=
  match order with
  | None => (Failed ErrNilOrder, None, [])
  | Some o =>
    let coin := if String.eqb (rq_Coin req) "" then co_Coin o else rq_Coin req in
    match ResolveEffectiveOrderScaler (rq_OrderId req) with
    | Err e => (Failed (ErrResolveMultiplier e), order, [])
    | Ok effective =>
      let multiplier := effective_multiplier s (ef_Multiplier effective) in
      let scaledSize := fmul (rq_OriginalSize req) multiplier in
      match ResolveConstraints coin with
      | Err e => (Failed (ErrResolveConstraints e), order, [])
      | Ok constraints =>
        let roundedPrice := if fgt (rq_Price req) fzero then rq_Price req else co_Price o in
        let roundedPrice := RoundPrice constraints roundedPrice in
        let roundedSize := RoundSize constraints scaledSize in
        let roundedSize := stack_size req multiplier (cc_SizeStep constraints) roundedSize in
        let roundedSize := clampToNonNegative roundedSize in
        let notional := Abs (fmul roundedSize roundedPrice) in
        let params skipped reason :=
          mkRecordParams (rq_Identifier req) (OrderId.DealID (rq_OrderId req))
            (OrderId.BotID (rq_OrderId req)) (rq_OriginalSize req) roundedSize (Some multiplier)
            (rq_StackIndex req) (rq_Side req) (rq_Timestamp req) None skipped reason in
        if NotionalBelowMinimum constraints roundedSize roundedPrice then
          let reason := below_minimum_reason notional (cc_MinNotional constraints) in
          let p := params true (Some reason) in
          match RecordScaledOrder p with
          | Err e => (Failed (ErrRecordSkipped e), order, [p])
          | Ok (audit, eff) =>
            (BelowMinimum (mkResult roundedSize roundedPrice audit eff multiplier), order, [p])
          end
        else
          let o := with_size roundedSize (with_price roundedPrice o) in
          let p := params false None in
          match RecordScaledOrder p with
          | Err e => (Failed (ErrRecordScaled e), Some o, [p])
          | Ok (audit, eff) =>
            (Scaled (mkResult roundedSize roundedPrice audit eff multiplier), Some o, [p])
          end
      end
    end
  end.

End Scale.

Definition BuildRequest (ident : OrderIdentifier) (evt : TcBotEvent) (order : CreateOrderRequest)
    : Request :=
  let side := if co_IsBuy order then "buy" else "sell" in
  let stackIndex := i64 (ev_OrderPosition evt - 1) in
  let stackIndex := if stackIndex <? 0 then 0 else stackIndex in
  let stackSize := ev_OrderSize evt in
  let stackSize := if stackSize <=? 0 then 1 else stackSize in
  let stackIndex := if stackSize <=? stackIndex then stackSize - 1 else stackIndex in
  let price := if fle (co_Price order) fzero then ev_Price evt else co_Price order in
  let size := if fle (ev_Size evt) fzero then co_Size order else ev_Size evt in
  mkRequest ident (oi_OrderId ident) (co_Coin order) side size price stackIndex stackSize
    (ev_CreatedAt evt).

(** ** The search *)

(** All the choices, in the order the search visits them. *)
Fixpoint combinations (options : list (list Z)) : list (list Z) :=
  match options with
  | [] => [[]]
  | opts :: options => opts ≫= λ n, (cons n) <$> combinations options
  end.

Lemma backtrack_fold original targets step options steps best :
  backtrack original targets step options steps best =
  fold_left (λ best c, consider original targets step (steps ++ c) best)
    (combinations options) best.
Proof.
  revert steps best. induction options as [|opts options IH]; intros steps best; simpl.
  { by rewrite app_nil_r. }
  revert best. induction opts as [|n opts IHo]; intros best; [done|]. simpl.
  rewrite fold_left_app, IHo, IH. f_equal.
  generalize (combinations options) as l. intros l. revert best.
  induction l as [|c l IHl]; intros best; [done|]. simpl.
  rewrite <- IHl. by rewrite <- app_assoc.
Qed.

Lemma flt_trans a b c : flt a b = true → flt b c = true → flt a c = true.
Proof. intros H1 H2. eapply flt_le_trans; [exact H1|]. by apply flt_le. Qed.

(** Keeping the first strict minimum. *)
Lemma search_best original targets step l best :
  let r := fold_left (λ best c, consider original targets step c best) l best in
  let cost c := evaluateStackCost original targets (sizes_of step c) in
  (r = best ∧ ∀ c, c ∈ l → flt (cost c) best.2 = false) ∨
  (∃ c, c ∈ l ∧ r = (sizes_of step c, cost c) ∧ flt (cost c) best.2 = true ∧
     ∀ c', c' ∈ l → flt (cost c') (cost c) = false).
Proof.
  simpl. revert best. induction l as [|c l IH]; intros best; simpl.
  { left. split; [done|]. by intros c Hc%elem_of_nil. }
  set (cost := λ c, evaluateStackCost original targets (sizes_of step c)) in *.
  assert (Hcons : consider original targets step c best =
    if flt (cost c) best.2 then (sizes_of step c, cost c) else best) by reflexivity.
  rewrite Hcons. clear Hcons.
  destruct (flt (cost c) best.2) eqn:Hc.
  - right. destruct (IH (sizes_of step c, cost c)) as [[Hr Hall]|(c0 & Hin & Hr & Hlt & Hall)];
      cbn [snd] in *.
    + exists c. split_and!; [by left|done|done|].
      intros c' [->|Hc']%elem_of_cons; [apply flt_irrefl|by apply Hall].
    + exists c0. split_and!; [by right|done|by eapply flt_trans|].
      intros c' [->|Hc']%elem_of_cons; [by apply flt_asym|by apply Hall].
  - destruct (IH best) as [[Hr Hall]|(c0 & Hin & Hr & Hlt & Hall)].
    + left. split; [done|]. intros c' [->|Hc']%elem_of_cons; [done|by apply Hall].
    + right. exists c0. split_and!; [by right|done|done|].
      intros c' [->|Hc']%elem_of_cons; [|by apply Hall].
      apply not_true_is_false. intros Hlt'.
      assert (Ht : flt (cost c) best.2 = true) by (eapply flt_trans; [exact Hlt'|exact Hlt]).
      congruence.
Qed.

(** ** Properties *)

(** C12.  The stack search is exact: whenever some choice of neighbouring lot counts has
    a finite cost, the returned sizes are one of the choices and no choice is
    cheaper; otherwise every level is rounded on its own. *)
Theorem stack_rounding_optimal (original : list f64) (multiplier sizeStep : f64)
    (Hne : original ≠ []) (Hstep : fle sizeStep fzero = false) :
  let targets := (λ o, fmul o multiplier) <$> original in
  let choices := combinations (step_options sizeStep <$> targets) in
  let cost c := evaluateStackCost original targets (sizes_of sizeStep c) in
  let r := computeStackRoundedSizes original multiplier sizeStep in
  (∃ c, c ∈ choices ∧ r = sizes_of sizeStep c ∧ ∀ c', c' ∈ choices → flt (cost c') (cost c) = false) ∨
  ((∀ c, c ∈ choices → flt (cost c) finf = false) ∧
   r = (λ t, fmul (Round (fdiv t sizeStep)) sizeStep) <$> targets).
Proof.
  intros targets choices cost r. subst r. unfold computeStackRoundedSizes.
  destruct original as [|o original]; [done|]. set (orig := o :: original) in *.
  fold targets. rewrite Hstep, backtrack_fold. fold choices.
  change (λ best c, consider orig targets sizeStep ([] ++ c) best)
    with (λ best c, consider orig targets sizeStep c best).
  destruct (search_best orig targets sizeStep choices (replicate (length orig) fzero, finf))
    as [[-> Hall]|(c & Hc & -> & Hlt & Hall)].
  - right. split; [exact Hall|]. reflexivity.
  - left. exists c. split; [done|]. split; [|exact Hall].
    simpl in Hlt. change (evaluateStackCost orig targets (sizes_of sizeStep c)) with (cost c) in *.
    destruct (is_inf (cost c) 1) eqn:Hi; [|done]. exfalso.
    destruct (cost c) as [|[]| |]; try done.
Qed.

Lemma clamp_nonneg v : flt (clampToNonNegative v) fzero = false.
Proof. unfold clampToNonNegative. destruct (flt v fzero) eqn:E; [reflexivity|done]. Qed.

Lemma effective_multiplier_bound s m :
  fgt (maxMultiplier s) fzero = true → fgt (effective_multiplier s m) (maxMultiplier s) = false.
Proof.
  intros Hs. unfold effective_multiplier. rewrite Hs. simpl.
  destruct (fgt m (maxMultiplier s)) eqn:E; [apply flt_irrefl|done].
Qed.

(** What [Scale] leaves behind.  At most one audit is recorded, for the order that
    was asked about, with a size that is not negative and a multiplier within the
    configured maximum.  On success the order carries exactly the size and price of
    the result, which are the audited ones and above the venue's minimum; below the
    minimum the order is untouched and the audit says that and why it was skipped; a
    failure before the audit leaves the order untouched. *)
Theorem Scale_audited {store : ScalerStore} {constr : Constraints} (s : Service) (req : Request)
    (o : CreateOrderRequest) :
  let '(out, o', log) := Scale s req (Some o) in
  (length log ≤ 1)%nat ∧
  (∀ p, p ∈ log → rp_Identifier p = rq_Identifier req ∧ flt (rp_ScaledSize p) fzero = false ∧
     ∃ m, rp_AppliedMultiplier p = Some m ∧
       (fgt (maxMultiplier s) fzero = true → fgt m (maxMultiplier s) = false)) ∧
  match out with
  | Scaled r => o' = Some (with_size (rs_Size r) (with_price (rs_Price r) o)) ∧
      ∃ p c, log = [p] ∧ rp_Skipped p = false ∧ rp_ScaledSize p = rs_Size r ∧
        ResolveConstraints (if String.eqb (rq_Coin req) "" then co_Coin o else rq_Coin req) = Ok c ∧
        NotionalBelowMinimum c (rs_Size r) (rs_Price r) = false
  | BelowMinimum r => o' = Some o ∧
      ∃ p, log = [p] ∧ rp_Skipped p = true ∧ is_Some (rp_SkipReason p) ∧
        rp_ScaledSize p = rs_Size r
  | Failed (ErrRecordScaled _) => length log = 1%nat
  | Failed _ => o' = Some o
  end.
Proof.
  unfold Scale. destruct (ResolveEffectiveOrderScaler _) as [eff|]; simpl;
    [|split_and!; [lia|by intros p Hp%elem_of_nil|done]].
  destruct (ResolveConstraints _) as [c|] eqn:Hc; simpl;
    [|split_and!; [lia|by intros p Hp%elem_of_nil|done]].
  set (size := clampToNonNegative _). set (price := RoundPrice c _).
  set (mult := effective_multiplier s _).
  assert (Hsize : flt size fzero = false) by apply clamp_nonneg.
  assert (Hmult : fgt (maxMultiplier s) fzero = true → fgt mult (maxMultiplier s) = false)
    by apply effective_multiplier_bound.
  destruct (NotionalBelowMinimum c size price) eqn:Hn; simpl;
    destruct (RecordScaledOrder _) as [[audit eff']|]; simpl;
    (split; [lia|]; split;
     [intros p ->%list_elem_of_singleton; simpl; split_and!; [done|done|by exists mult]|]).
  - split; [done|]. eexists. by split_and!.
  - done.
  - split; [done|]. eexists _, c. by split_and!.
  - done.
Qed.

(** The level of a stack order always lies within its stack, whatever position and
    size the event claims. *)
Theorem BuildRequest_stack_in_range (ident : OrderIdentifier) (evt : TcBotEvent)
    (order : CreateOrderRequest) :
  let r := BuildRequest ident evt order in
  1 ≤ rq_StackSize r ∧ 0 ≤ rq_StackIndex r < rq_StackSize r ∧
  (1 ≤ ev_OrderPosition evt ≤ ev_OrderSize evt ∧ ev_OrderSize evt < 2 ^ 63 →
     rq_StackIndex r = ev_OrderPosition evt - 1 ∧ rq_StackSize r = ev_OrderSize evt).
Proof.
  intros r. subst r. unfold BuildRequest. cbn [rq_StackSize rq_StackIndex].
  set (size := if ev_OrderSize evt <=? 0 then 1 else ev_OrderSize evt).
  assert (Hsize : 1 ≤ size) by (subst size; destruct (Z.leb_spec (ev_OrderSize evt) 0); lia).
  set (idx := if _ <? 0 then 0 else _).
  assert (Hidx : 0 ≤ idx) by (subst idx; destruct (Z.ltb_spec (i64 (ev_OrderPosition evt - 1)) 0); lia).
  split; [done|]. split; [destruct (Z.leb_spec size idx); lia|].
  intros [[H1 H2] H3].
  assert (size = ev_OrderSize evt) as Hs by (subst size; destruct (Z.leb_spec (ev_OrderSize evt) 0); lia).
  assert (idx = ev_OrderPosition evt - 1) as Hi.
  { subst idx. rewrite i64_id by lia. destruct (Z.ltb_spec (ev_OrderPosition evt - 1) 0); lia. }
  split; [|done]. rewrite Hi, Hs. destruct (Z.leb_spec (ev_OrderSize evt) (ev_OrderPosition evt - 1)); lia.
Qed.

(** ** A concrete stack *)

Definition demo_stack : list f64 := [f_of_Z 10; f_of_Z 20; f_of_Z 30].

Example demo_rounded :
  computeStackRoundedSizes demo_stack (f_dec 125 3) (f_dec 1 0) =
  [f_of_Z 1; f_of_Z 2; f_of_Z 3].
Proof. vm_compute. reflexivity. Qed.

Lemma stack_rounding_optimal_witness :
  demo_stack ≠ [] ∧ fle (f_dec 1 0) fzero = false ∧
  ((∃ c, c ∈ combinations (step_options (f_dec 1 0) <$> ((λ o, fmul o (f_dec 125 3)) <$> demo_stack)) ∧
      computeStackRoundedSizes demo_stack (f_dec 125 3) (f_dec 1 0) = sizes_of (f_dec 1 0) c ∧
      ∀ c', c' ∈ combinations (step_options (f_dec 1 0) <$> ((λ o, fmul o (f_dec 125 3)) <$> demo_stack)) →
        flt (evaluateStackCost demo_stack ((λ o, fmul o (f_dec 125 3)) <$> demo_stack) (sizes_of (f_dec 1 0) c'))
            (evaluateStackCost demo_stack ((λ o, fmul o (f_dec 125 3)) <$> demo_stack) (sizes_of (f_dec 1 0) c))
          = false) ∨
   ((∀ c, c ∈ combinations (step_options (f_dec 1 0) <$> ((λ o, fmul o (f_dec 125 3)) <$> demo_stack)) →
      flt (evaluateStackCost demo_stack ((λ o, fmul o (f_dec 125 3)) <$> demo_stack) (sizes_of (f_dec 1 0) c))
        finf = false) ∧
    computeStackRoundedSizes demo_stack (f_dec 125 3) (f_dec 1 0) =
    (λ t, fmul (Round (fdiv t (f_dec 1 0))) (f_dec 1 0)) <$> ((λ o, fmul o (f_dec 125 3)) <$> demo_stack))).
Proof.
  assert (H1 : demo_stack ≠ []) by discriminate.
  assert (H2 : fle (f_dec 1 0) fzero = false) by (vm_compute; reflexivity).
  split; [exact H1|]. split; [exact H2|].
  exact (stack_rounding_optimal demo_stack (f_dec 125 3) (f_dec 1 0) H1 H2).
Defined.

End OrderScaler.
