(* ===== verification/Engine.v ===== *)
(** * The engine: [engine/engine.go]

    Turns the events of a deal into order work: records them, reduces the history
    of each order to the next action, corrects take profits with the fill tracker,
    resolves the venues, scales the order and hands it to the emitter.  The calls
    of the 3Commas workflows to the rate limiter are given as traces. *)

From S2P Require Import Prelude GoFloat GoString OrderId Domain Adapter Store Hl FillTracker OrderScaler.
Import GoFloat GoString Domain Adapter Store.

Module Engine.

(** [WorkKey]. *)
Record WorkKey := mkWorkKey { wk_DealID : Z; wk_BotID : Z }.

(** The part of the storage the engine uses besides the queries of the tracker.
    The recording calls carry the position of the event in its deal, since their
    answer depends on what was recorded before. *)
Class EngineStore := {
  ListVenuesForBot : Z → result store_error (list VenueAssignment);
  ListEventsForOrder : Z → Z → Z → result store_error (list BotEvent);
  ResolveDefaultAlias : result store_error VenueAssignment;
  RecordThreeCommasBotEventLog : nat → OrderId.OrderId → TcBotEvent → result store_error Z;
  RecordThreeCommasBotEvent : nat → OrderId.OrderId → TcBotEvent → result store_error Z;
}.

Section Engine.
Context {sdk : SDK} {R : GoRange} {tstore : TrackerStore} {estore : EngineStore}.

(** ** Reducing the history of an order *)

Definition sameSnapshot (a b : BotEvent) : bool :=
  let a := be_Event a in
  let b := be_Event b in
  String.eqb (ev_Status a) (ev_Status b) && feq (ev_Price a) (ev_Price b) &&
  feq (ev_Size a) (ev_Size b) && String.eqb (ev_OrderType a) (ev_OrderType b) &&
  String.eqb (ev_Type a) (ev_Type b) && Bool.eqb (ev_IsMarket a) (ev_IsMarket b).

(** The loop from the last but one event down to the first. *)
Definition previousDistinct (events : list BotEvent) : option BotEvent :=
  match rev events with
  | [] | [_] => None
  | last :: earlier => find (λ evt, negb (sameSnapshot evt last)) earlier
  end.

Definition reduceOrderEvents (currency : string) (oid : OrderId.OrderId) (hasLocalOrder : bool)
    : result store_error (Action * option BotEvent * bool) :=
  match ListEventsForOrder (OrderId.BotID oid) (OrderId.DealID oid) (OrderId.BotEventID oid) with
  | Err e => Err e
  | Ok events =>
    match rev events with
    | [] => Ok (zero_action, None, false)
    | latest :: _ =>
      let prev := if hasLocalOrder then previousDistinct events else None in
      let action := BuildAction currency prev latest oid in
      match ac_Type action with
      | ActionNone => Ok (action, Some latest, false)
      | ActionModify =>
        if negb hasLocalOrder then
          Ok (action_create (ToCreateOrderRequest currency latest oid) "", Some latest, true)
        else Ok (action, Some latest, true)
      | ActionCancel =>
        if negb hasLocalOrder then
          Ok (action_none "cancel skipped: order never created locally", Some latest, false)
        else Ok (action, Some latest, true)
      | ActionCreate => Ok (action, Some latest, true)
      end
    end
  end.

(** ** Take profits *)

Definition qtyTolerance : f64 := f_dec 1 6.
Definition priceTolerance : f64 := f_dec 1 6.

Definition nearlyEqual (a b : f64) : bool := fle (Abs (fsub a b)) qtyTolerance.

(** Whether the one active take profit already is what is wanted. *)
Definition already_matches (latest : BotEvent) (action : Action) (desiredQty : f64)
    (active : FillTracker.OrderSnapshot) : bool :=
  let targetPrice := ev_Price (be_Event latest) in
  let targetPrice :=
    match ac_Type action with
    | ActionCreate => if feq targetPrice fzero then co_Price (ac_Create action) else targetPrice
    | ActionModify =>
      if feq targetPrice fzero then co_Price (mo_Order (ac_Modify action)) else targetPrice
    | _ => targetPrice
    end in
  let priceMatches := fgt targetPrice fzero &&
    fle (Abs (fsub (FillTracker.sn_LimitPrice active) targetPrice)) priceTolerance in
  FillTracker.sn_ReduceOnly active &&
  nearlyEqual (FillTracker.sn_RemainingQty active) desiredQty && priceMatches.

Definition adjustActionWithTracker (currency : string) (oid : OrderId.OrderId) (latest : BotEvent)
    (action : Action) (snapshot : option FillTracker.DealSnapshot) (skipExisting : bool)
    : Action * bool :=
  match snapshot with
  | None =>
    if String.eqb (ev_OrderType (be_Event latest)) TakeProfit
    then (action_none "skip take-profit: fill snapshot unavailable", false)
    else (action, true)
  | Some snapshot =>
    if negb (String.eqb (ev_OrderType (be_Event latest)) TakeProfit) then (action, true)
    else if (1 <? length (FillTracker.dn_ActiveTakeProfits snapshot))%nat then (action, true)
    else
      let desiredQty := FillTracker.NetQty (FillTracker.dn_Position snapshot) in
      if fle desiredQty qtyTolerance then (action_none "skip take-profit: position flat", false)
      else if negb skipExisting &&
              match FillTracker.dn_ActiveTakeProfits snapshot with
              | [active] => already_matches latest action desiredQty active
              | _ => false
              end
      then (action_none "take-profit already matches position", false)
      else match ac_Type action with
      | ActionNone =>
        let req := ToCreateOrderRequest currency latest oid in
        (action_create (with_reduce_only true (with_size desiredQty req)) "", true)
      | ActionCreate =>
        (with_action_create (with_reduce_only true (with_size desiredQty (ac_Create action))) action,
         true)
      | ActionModify =>
        (with_action_modify
           (modify_order (λ o, with_reduce_only true (with_size desiredQty o)) (ac_Modify action))
           action, true)
      | ActionCancel => (action, true)
      end
  end.

(** ** Venues *)

Definition compareIdentifiers (a b : OrderIdentifier) : Z :=
  let cmp := scompare (Venue a) (Venue b) in
  if negb (cmp =? 0) then cmp
  else
    let cmp := scompare (oi_Wallet a) (oi_Wallet b) in
    if negb (cmp =? 0) then cmp
    else scompare (Domain.Hex a) (Domain.Hex b).

Definition ident_le (a b : OrderIdentifier) : Prop := compareIdentifiers a b ≤ 0.
#[export] Instance ident_le_dec a b : Decision (ident_le a b).
Proof. unfold ident_le. apply _. Defined.

(** [slices.SortFunc(l, compareIdentifiers)]. *)
Definition sort_idents (l : list OrderIdentifier) : list OrderIdentifier := merge_sort ident_le l.

Definition assigned (oid : OrderId.OrderId) (a : VenueAssignment) : OrderIdentifier :=
  NewOrderIdentifier (va_VenueID a) (va_Wallet a) oid.

(** The candidates, each with whether it had a submission. *)
Definition target_map (oid : OrderId.OrderId) (assignments : list VenueAssignment)
    (stored : list OrderIdentifier) (defaultAssignment : option VenueAssignment)
    : gmap OrderIdentifier bool :=
  let targets := fold_left (λ m i, <[i := true]> m) stored ∅ in
  let targets := fold_left (λ m a,
    match m !! assigned oid a with Some _ => m | None => <[assigned oid a := false]> m end)
    assignments targets in
  match defaultAssignment with
  | Some d =>
    if decide (size targets = 0%nat)
    then <[assigned oid d := (0 <? length stored)%nat]> targets else targets
  | None => targets
  end.

Definition wanted (actionType : ActionType) (hadSubmission : bool) : bool :=
  match actionType with
  | ActionCreate => negb hadSubmission
  | ActionModify | ActionCancel => hadSubmission
  | ActionNone => true
  end.

Definition resolveOrderTargets (oid : OrderId.OrderId) (assignments : list VenueAssignment)
    (stored : list OrderIdentifier) (actionType : ActionType)
    (defaultAssignment : option VenueAssignment) : list OrderIdentifier :=
  let targets := target_map oid assignments stored defaultAssignment in
  sort_idents ((λ x, x.1) <$>
    filter (λ x, wanted actionType x.2 = true) (go_range 20 targets)).

Definition missingAssignmentTargets (oid : OrderId.OrderId) (assignments : list VenueAssignment)
    (stored : list OrderIdentifier) : list OrderIdentifier :=
  match assignments with
  | [] => []
  | _ =>
    sort_idents (filter (λ i, i ∉ stored) (assigned oid <$> assignments))
  end.

(** One round of [normalizeSubmissionIdentifiers]: [None] drops the identifier. *)
Definition normalize_ident (filtering : bool) (venueWallets : gmap VenueID string)
    (walletLookup : gmap string VenueID) (ident : OrderIdentifier) : option OrderIdentifier :=
  let with_wallet v :=
    match venueWallets !! v with
    | Some wallet => if String.eqb wallet "" then oi_Wallet ident else wallet
    | None => oi_Wallet ident
    end in
  if negb filtering then Some ident
  else match venueWallets !! oi_VenueID ident with
  | None =>
    mapped ← walletLookup !! ToLower (oi_Wallet ident);
    Some (NewOrderIdentifier mapped (with_wallet mapped) (oi_OrderId ident))
  | Some _ =>
    Some (NewOrderIdentifier (oi_VenueID ident) (with_wallet (oi_VenueID ident))
            (oi_OrderId ident))
  end.

Definition ident_key (i : OrderIdentifier) : string * string := (Venue i, ToLower (oi_Wallet i)).

Fixpoint normalize_loop (f : OrderIdentifier → option OrderIdentifier) (l : list OrderIdentifier)
    (seen : list (string * string)) : list OrderIdentifier :=
  match l with
  | [] => []
  | ident :: l =>
    match f ident with
    | None => normalize_loop f l seen
    | Some n =>
      if decide (ident_key n ∈ seen) then normalize_loop f l seen
      else n :: normalize_loop f l (ident_key n :: seen)
    end
  end.

Definition venue_wallets (assignments : list VenueAssignment) : gmap VenueID string :=
  fold_left (λ m a, <[va_VenueID a := va_Wallet a]> m) assignments ∅.

Definition wallet_lookup (assignments : list VenueAssignment) : gmap string VenueID :=
  fold_left (λ m a, if String.eqb (va_Wallet a) "" then m
                    else <[ToLower (va_Wallet a) := va_VenueID a]> m) assignments ∅.

Definition normalizeSubmissionIdentifiers (assignments : list VenueAssignment)
    (stored : list OrderIdentifier) : list OrderIdentifier :=
  match stored with
  | [] => []
  | _ =>
    let filtering := (0 <? length assignments)%nat in
    normalize_loop (normalize_ident filtering (venue_wallets assignments)
                      (wallet_lookup assignments)) stored []
  end.

(** ** Scaling *)

Context {sstore : OrderScaler.ScalerStore} {constr : OrderScaler.Constraints}.

(** The engine's optional parts. *)
Record Engine := mkEngine { en_tracker : bool; en_scaler : option OrderScaler.Service }.

Definition skip_reason (r : OrderScaler.Result) : string :=
  default "scaled order below minimum" (sa_SkipReason (OrderScaler.rs_Audit r)).

(** The adjusted action, the result of scaling, whether to emit, or an error. *)
Definition applyScaling (e : Engine) (ident : OrderIdentifier) (latest : option BotEvent)
    (action : Action)
    : result OrderScaler.scale_error (Action * option OrderScaler.Result * bool) *
      list RecordScaledOrderParams :=
  match en_scaler e, latest with
  | Some scaler, Some latest =>
    match ac_Type action with
    | ActionCreate =>
      let req := OrderScaler.BuildRequest ident (be_Event latest) (ac_Create action) in
      let '(out, order, log) := OrderScaler.Scale scaler req (Some (ac_Create action)) in
      let action := with_action_create (default (ac_Create action) order) action in
      match out with
      | OrderScaler.BelowMinimum r => (Ok (action_none (skip_reason r), None, false), log)
      | OrderScaler.Failed err => (Err err, log)
      | OrderScaler.Scaled r => (Ok (action, Some r, true), log)
      end
    | ActionModify =>
      let order := mo_Order (ac_Modify action) in
      let req := OrderScaler.BuildRequest ident (be_Event latest) order in
      let '(out, order', log) := OrderScaler.Scale scaler req (Some order) in
      let action :=
        with_action_modify (modify_order (λ _, default order order') (ac_Modify action)) action in
      match out with
      | OrderScaler.BelowMinimum r => (Ok (action_none (skip_reason r), None, false), log)
      | OrderScaler.Failed err => (Err err, log)
      | OrderScaler.Scaled r => (Ok (action, Some r, true), log)
      end
    | _ => (Ok (action, None, true), [])
    end
  | _, _ => (Ok (action, None, true), [])
  end.

(** ** Processing a deal *)

(** What the engine changes: the tracker, the audits of the scaler and the orders
    handed to the emitter (whose errors are only logged). *)
Record state := mkState {
  st_tracker : FillTracker.Service;
  st_audits : list RecordScaledOrderParams;
  st_emitted : list OrderWork;
}.

Inductive engine_error :=
| ErrRecordLog (e : store_error)
| ErrRecordEvent (e : store_error)
| ErrReduce (botEvent : Z) (e : store_error)
| ErrScale (botEvent : Z) (e : OrderScaler.scale_error).

Record emissionPlan := mkPlan {
  ep_action : Action;
  ep_targets : list OrderIdentifier;
  ep_latest : option BotEvent;
  ep_skipExisting : bool;
}.

Definition botevent_scaled (size price : f64) (b : BotEvent) : BotEvent :=
  mkBotEvent (be_RowID b) (ev_with_size_price size price (be_Event b)).

(** One target of an emission. *)
Definition emit_target (e : Engine) (now : Z) (oid : OrderId.OrderId) (latest : option BotEvent)
    (action : Action) (ident : OrderIdentifier) (st : state) : result engine_error unit * state :=
  let '(scaled, log) := match latest with
    | Some _ => applyScaling e ident latest action
    | None => (Ok (action, None, true), [])
    end in
  let st := mkState (st_tracker st) (st_audits st ++ log) (st_emitted st) in
  match scaled with
  | Err err => (Err (ErrScale (OrderId.BotEventID oid) err), st)
  | Ok (identAction, scaleResult, emit) =>
    if negb emit then (Ok tt, st)
    else
      let tracker := match scaleResult with
        | Some r =>
          if en_tracker e
          then FillTracker.ApplyScaledOrder ident (OrderScaler.rs_Size r) (OrderScaler.rs_Price r)
                 now (st_tracker st)
          else st_tracker st
        | None => st_tracker st
        end in
      let event := match latest, scaleResult with
        | Some b, Some r => botevent_scaled (OrderScaler.rs_Size r) (OrderScaler.rs_Price r) b
        | Some b, None => b
        | None, _ => zero_botevent
        end in
      (Ok tt, mkState tracker (st_audits st)
                (st_emitted st ++ [mkOrderWork ident oid identAction event]))
  end.

Fixpoint emit_targets (e : Engine) (now : Z) (oid : OrderId.OrderId) (latest : option BotEvent)
    (action : Action) (targets : list OrderIdentifier) (st : state)
    : result engine_error unit * state :=
  match targets with
  | [] => (Ok tt, st)
  | ident :: targets =>
    match emit_target e now oid latest action ident st with
    | (Ok _, st) => emit_targets e now oid latest action targets st
    | r => r
    end
  end.

Definition run_emission (e : Engine) (now : Z) (currency : string) (oid : OrderId.OrderId)
    (fillSnapshot : option FillTracker.DealSnapshot) (em : emissionPlan) (st : state)
    : result engine_error unit * state :=
  let '(action, emit) := match ep_latest em with
    | Some latest =>
      adjustActionWithTracker currency oid latest (ep_action em) fillSnapshot (ep_skipExisting em)
    | None => (ep_action em, true)
    end in
  if negb emit then (Ok tt, st)
  else if decide (ac_Type action = ActionNone) then (Ok tt, st)
  else emit_targets e now oid (ep_latest em) action (ep_targets em) st.

Fixpoint run_emissions (e : Engine) (now : Z) (currency : string) (oid : OrderId.OrderId)
    (fillSnapshot : option FillTracker.DealSnapshot) (l : list emissionPlan) (st : state)
    : result engine_error unit * state :=
  match l with
  | [] => (Ok tt, st)
  | em :: l =>
    match run_emission e now currency oid fillSnapshot em st with
    | (Ok _, st) => run_emissions e now currency oid fillSnapshot l st
    | r => r
    end
  end.

(** The emissions planned for one order. *)
Definition plan_order (currency : string) (oid : OrderId.OrderId)
    (fillSnapshot : option FillTracker.DealSnapshot)
    : result store_error (list emissionPlan) :=
  let assignments := or_empty (ListVenuesForBot (OrderId.BotID oid)) in
  let storedIdents := or_empty (ListSubmissionIdentifiersForOrder oid) in
  let storedIdents := normalizeSubmissionIdentifiers assignments storedIdents in
  let hasLocalOrder := (0 <? length storedIdents)%nat in
  match reduceOrderEvents currency oid hasLocalOrder with
  | Err e => Err e
  | Ok (action, latestEvent, shouldEmit) =>
    let missingTargets := missingAssignmentTargets oid assignments storedIdents in
    let replayAvailable := hasLocalOrder && (0 <? length missingTargets)%nat &&
      match latestEvent with
      | Some l => String.eqb (ev_Status (be_Event l)) Active
      | None => false
      end in
    let '(action, shouldEmit) := match latestEvent with
      | Some l => adjustActionWithTracker currency oid l action fillSnapshot false
      | None => (action, shouldEmit)
      end in
    let shouldEmit := shouldEmit && negb (bool_decide (ac_Type action = ActionNone)) in
    let defaultAssignment :=
      match assignments, storedIdents with
      | [], [] => match ResolveDefaultAlias with Ok a => Some a | Err _ => None end
      | _, _ => None
      end in
    let targets :=
      if shouldEmit
      then resolveOrderTargets oid assignments storedIdents (ac_Type action) defaultAssignment
      else [] in
    let first := match targets with
      | [] => []
      | _ => [mkPlan action targets latestEvent false]
      end in
    let replay := match latestEvent with
      | Some l =>
        if replayAvailable
        then [mkPlan (action_create (ToCreateOrderRequest currency l oid) "") missingTargets
                latestEvent true]
        else []
      | None => []
      end in
    Ok (first ++ replay)
  end.

Definition process_order (e : Engine) (now : Z) (currency : string)
    (fillSnapshot : option FillTracker.DealSnapshot) (oid : OrderId.OrderId) (st : state)
    : result engine_error unit * state :=
  match plan_order currency oid fillSnapshot with
  | Err err => (Err (ErrReduce (OrderId.BotEventID oid) err), st)
  | Ok emissions => run_emissions e now currency oid fillSnapshot emissions st
  end.

Fixpoint process_orders (e : Engine) (now : Z) (currency : string)
    (fillSnapshot : option FillTracker.DealSnapshot) (l : list OrderId.OrderId) (st : state)
    : result engine_error unit * state :=
  match l with
  | [] => (Ok tt, st)
  | oid :: l =>
    match process_order e now currency fillSnapshot oid st with
    | (Ok _, st) => process_orders e now currency fillSnapshot l st
    | r => r
    end
  end.

Definition ignored_take_profit (event : TcBotEvent) : bool :=
  String.eqb (ev_OrderType event) TakeProfit &&
  (String.eqb (ev_Action event) BotEventActionCancel ||
   String.eqb (ev_Action event) BotEventActionCancelled).

Definition acted_on (event : TcBotEvent) : bool :=
  String.eqb (ev_Action event) BotEventActionPlace ||
  String.eqb (ev_Action event) BotEventActionCancel ||
  String.eqb (ev_Action event) BotEventActionModify.

Definition event_oid (wi : WorkKey) (event : TcBotEvent) : OrderId.OrderId :=
  OrderId.mkOrderId (wk_BotID wi) (wk_DealID wi) (FingerprintAsID event).

(** The first loop of [processDeal]: the orders with a newly recorded event. *)
Fixpoint record_events (i : nat) (wi : WorkKey) (events : list TcBotEvent)
    (seen : gmap Z OrderId.OrderId) : result engine_error (gmap Z OrderId.OrderId) :=
  match events with
  | [] => Ok seen
  | event :: events =>
    let oid := event_oid wi event in
    match RecordThreeCommasBotEventLog i oid event with
    | Err (ErrStore msg) => Err (ErrRecordLog (ErrStore msg))
    | _ =>
      if ignored_take_profit event then record_events (S i) wi events seen
      else if acted_on event then
        match RecordThreeCommasBotEvent i oid event with
        | Err ErrNoRows => record_events (S i) wi events seen
        | Err e => Err (ErrRecordEvent e)
        | Ok lastInsertedId =>
          record_events (S i) wi events
            (if negb (lastInsertedId =? 0) then <[OrderId.BotEventID oid := oid]> seen else seen)
        end
      else record_events (S i) wi events seen
    end
  end.

Definition processDeal (e : Engine) (now : Z) (wi : WorkKey) (currency : string)
    (events : list TcBotEvent) (st : state) : result engine_error unit * state :=
  let fillSnapshot :=
    if en_tracker e then FillTracker.Snapshot (wk_DealID wi) (st_tracker st) else None in
  match record_events 0 wi events ∅ with
  | Err err => (Err err, st)
  | Ok seen => process_orders e now currency fillSnapshot ((go_range 21 seen).*2) st
  end.

End Engine.

(** ** The rate-limited workflows

    The calls a workflow makes to the limiter, in order.  A [LCall] is a request
    through the rate-limited client, which consumes a slot. *)

Inductive lcall :=
| LReserve (wf : string) (count : Z)
| LCall (wf : string) (method : string)
| LAdjustDown (wf : string) (newTotal : Z)
| LSignalComplete (wf : string)
| LRelease (wf : string).

Definition deal_workflow (wi : WorkKey) : string :=
  "deal:" +:+ Itoa (wk_DealID wi) +:+ ":" +:+ Itoa (wk_BotID wi).

Inductive handle_error :=
| ErrReserve
| ErrGetDeal
| ErrProcess (e : engine_error).

(** [HandleDeal]: [reserved] says whether the reservation was granted, [deal] is the
    answer of the client, [process] is [processDeal] on the deal. *)
Definition HandleDeal {A} (limited : bool) (wi : WorkKey) (reserved : bool)
    (deal : option TcDeal) (process : TcDeal → result engine_error A)
    : result handle_error (option A) * list lcall :=
  let wf := deal_workflow wi in
  if wk_DealID wi =? 0 then (Ok None, [])
  else
    let lim l := if limited then l else [] in
    if limited && negb reserved then (Err ErrReserve, [LReserve wf 2])
    else
      let before := lim [LReserve wf 2] ++ [LCall wf "GetDealForID"] in
      let deferred := lim [LSignalComplete wf; LRelease wf] in
      match deal with
      | None => (Err ErrGetDeal, before ++ deferred)
      | Some d =>
        let calls := before ++ lim [LAdjustDown wf 1] ++ deferred in
        match process d with
        | Ok a => (Ok (Some a), calls)
        | Err err => (Err (ErrProcess err), calls)
        end
      end.

Record Bot := mkBot { bt_Id : Z; bt_UpdatedAt : Z }.

Definition produce_workflow : string := "produce:all-bots".

(** The limiter calls of [ProduceActiveDeals]; the requests per bot run
    concurrently, [order] is the order in which they reach the limiter. *)
Definition ProduceActiveDeals_calls (limited : bool) (limit : Z) (reserved : bool)
    (bots : option (list Bot)) : list lcall :=
  let lim l := if limited then l else [] in
  if limited && negb reserved then [LReserve produce_workflow limit]
  else
    let before := lim [LReserve produce_workflow limit] ++ [LCall produce_workflow "ListBots"] in
    let deferred := lim [LSignalComplete produce_workflow; LRelease produce_workflow] in
    match bots with
    | None => before ++ deferred
    | Some bots =>
      before ++ lim [LAdjustDown produce_workflow (1 + Z.of_nat (length bots))] ++
      ((λ _, LCall produce_workflow "GetListOfDeals") <$> bots) ++ deferred
    end.

End Engine.
