(* ===== verification/Producer.v ===== *)
(** * Looking for deals: [ProduceActiveDeals] of [engine/engine.go]

    For each enabled bot a goroutine asks 3Commas for the deals since the bot was
    last synced, queues them and notes the new time.  The goroutines run at the same
    time, at most a number of them; a step of one ends at its next access of the
    storage or answer of 3Commas. *)

From S2P Require Import Prelude GoFloat GoString OrderId Domain Store Tables Queries Stream Storage Engine.
Import GoFloat GoString Domain Store Tables Storage.

Module Producer.

Section Producer.
Context {sqlite : SqliteJSON} {json_deal : Codec TcDeal}.
Context {Bot : Type} {json_bot : Codec Bot} (bot_id bot_updated : Bot → Z) (created : TcDeal → Z).

(** The answers of [GetListOfDeals] in this round, by bot and time; [None] is an
    error, that of the rate limiter included. *)
Variable GetListOfDeals : Z → Z → option (list TcDeal).

(** ** The goroutine of a bot *)

(** What it does next; [found] is the time that [LoadBot] found. *)
Inductive stage :=
| AtLoad
| AtList (lastReq : Z) (found : option Z)
| AtDeals (rest : list TcDeal) (latest : Z)
| AtTouch (latest : Z).

Definition day : Z := 24 * 3600 * second.

Definition min_updated (deals : list TcDeal) : Z :=
  fold_left (λ m d,
    let m := if IsZero m then dl_UpdatedAt d else m in
    UnixMilli (Z.min (unix_milli m) (unix_milli (dl_UpdatedAt d)))) deals zero_time.

Definition latest_of (now lastReq : Z) (found : option Z) (deals : list TcDeal) : Z :=
  match deals with
  | [] => match found with Some t => t | None => now - day end
  | _ => UnixMilli (Z.min (unix_milli lastReq) (unix_milli (min_updated deals)))
  end.

Definition deal_key (d : TcDeal) : Engine.WorkKey := Engine.mkWorkKey (u32 (dl_Id d)) (u32 (dl_BotId d)).

(** A step: what comes next, what was queued, and the storage.  Failures of the
    storage are only logged. *)
Definition bot_step (now : Z) (bot : Bot) (st : stage) (s : Storage)
    : option stage * list Engine.WorkKey * Storage :=
  match st with
  | AtLoad =>
    let '(r, s) := LoadBot (Bot := Bot) (bot_id bot) s in
    let found := match r with Ok (Some (_, syncedAt)) => Some syncedAt | _ => None end in
    (Some (AtList (default (now - day) found) found), [], s)
  | AtList lastReq found =>
    match GetListOfDeals (bot_id bot) lastReq with
    | None => (None, [], s)
    | Some deals => (Some (AtDeals deals (latest_of now lastReq found deals)), [], s)
    end
  | AtDeals (d :: rest) latest =>
    (Some (AtDeals rest latest), [deal_key d], (RecordThreeCommasDeal created d s).2)
  | AtDeals [] latest => (Some (AtTouch latest), [], (RecordBot bot_id bot (bot_updated bot) s).2)
  | AtTouch latest => (None, [], (TouchBot (bot_id bot) latest s).2)
  end.

(** ** The group *)

Record group := mkGroup {
  gr_store : Storage;
  gr_queue : list Engine.WorkKey;
  gr_todo : list Bot;
  gr_running : list (Bot * stage);
  gr_clock : Z;
}.

Definition start_group (now : Z) (bots : list Bot) (s : Storage) (q : list Engine.WorkKey) : group :=
  mkGroup s q bots [] now.

(** [g.Go] waits while the limit is reached; a negative limit is none. *)
Definition launch (produceConcurrency : Z) (g : group) : option group :=
  match gr_todo g with
  | bot :: todo =>
    if (produceConcurrency <? 0) || (Z.of_nat (length (gr_running g)) <? produceConcurrency)
    then Some (mkGroup (gr_store g) (gr_queue g) todo (gr_running g ++ [(bot, AtLoad)]) (gr_clock g))
    else None
  | [] => None
  end.

(** The [i]-th of the running goroutines takes a step. *)
Definition advance (now : Z) (i : nat) (g : group) : option group :=
  match gr_running g !! i with
  | None => None
  | Some (bot, st) =>
    let '(st, added, s) := bot_step now bot st (gr_store g) in
    Some (mkGroup s (gr_queue g ++ added) (gr_todo g)
            (match st with
             | Some st => <[i := (bot, st)]> (gr_running g)
             | None => delete i (gr_running g)
             end) now)
  end.

Inductive group_step (produceConcurrency : Z) : group → group → Prop :=
| step_launch g g' : launch produceConcurrency g = Some g' → group_step produceConcurrency g g'
| step_advance now i g g' :
    gr_clock g ≤ now → advance now i g = Some g' → group_step produceConcurrency g g'.

Definition finished (g : group) : Prop := gr_todo g = [] ∧ gr_running g = [].

Inductive produce_error := ErrReserve | ErrListBots.

(** [ProduceActiveDeals]: [reserved] says whether the limiter granted the
    reservation, [bots] is the answer of [ListBots]. *)
Inductive ProduceActiveDeals (produceConcurrency : Z) (limited reserved : bool)
    (bots : option (list Bot)) (now : Z) (s : Storage) (q : list Engine.WorkKey)
    : option produce_error → Storage → list Engine.WorkKey → Prop :=
| produce_unreserved :
    limited && negb reserved = true →
    ProduceActiveDeals produceConcurrency limited reserved bots now s q (Some ErrReserve) s q
| produce_unlisted :
    limited && negb reserved = false → bots = None →
    ProduceActiveDeals produceConcurrency limited reserved bots now s q (Some ErrListBots) s q
| produce_all l g :
    limited && negb reserved = false → bots = Some l →
    rtc (group_step produceConcurrency) (start_group now l s q) g → finished g →
    ProduceActiveDeals produceConcurrency limited reserved bots now s q None (gr_store g) (gr_queue g).

End Producer.

End Producer.
