(* ===== verification/RateGate.v ===== *)
(** * The emitter's rate gate: [emitter/rate_gate.go]

    One gate is shared by the emitters that act for the same wallet.  The loop of
    [Wait] is split at the points where it holds the mutex: a turn of the loop
    either passes, and pushes the next opening back, or learns how long to sleep. *)

From S2P Require Import Prelude.

Module RateGate.

Definition defaultRateGateSpacing : Z := 300 * millisecond.

Record rateGate := mkGate { minSpacing : Z; next : Z }.

Definition NewRateGate (spacing now : Z) : rateGate :=
  mkGate (if spacing <=? 0 then defaultRateGateSpacing else spacing) now.

(** One turn of the loop of [Wait]; [t1] is the reading of [time.Until], [t2] the
    reading behind [next].  [Some wait] is the sleep before the next turn. *)
Definition wait_turn (t1 t2 : Z) (g : rateGate) : option Z * rateGate :=
  let wait := time_sub (next g) t1 in
  if wait <=? 0 then (None, mkGate (minSpacing g) (t2 + minSpacing g))
  else (Some wait, g).

Definition Cooldown (d now : Z) (g : rateGate) : rateGate :=
  if d <=? 0 then g
  else
    let n := now + d in
    if next g <? n then mkGate (minSpacing g) n else g.

(** ** Callers sharing a gate *)

Inductive gate_op :=
| GWait (t1 t2 : Z)
| GCooldown (d now : Z).

(** What a critical section tells its caller: [true] when a [Wait] returned. *)
Definition gate_step (o : gate_op) (g : rateGate) : bool * rateGate :=
  match o with
  | GWait t1 t2 => let '(w, g) := wait_turn t1 t2 g in (bool_decide (w = None), g)
  | GCooldown d now => (false, Cooldown d now g)
  end.

Fixpoint gate_run (ops : list gate_op) (g : rateGate) : list (gate_op * bool) * rateGate :=
  match ops with
  | [] => ([], g)
  | o :: ops =>
    let '(b, g) := gate_step o g in
    let '(l, g) := gate_run ops g in
    ((o, b) :: l, g)
  end.

(** The first and the last reading of the clock in a critical section. *)
Definition starts (o : gate_op) : Z := match o with GWait t _ | GCooldown _ t => t end.
Definition ends (o : gate_op) : Z := match o with GWait _ t | GCooldown _ t => t end.

(** What a section demands of every later pass: not to be earlier than this. *)
Definition demand (spacing : Z) (x : gate_op * bool) : option Z :=
  match x with
  | (GWait _ t2, true) => Some (t2 + spacing)
  | (GCooldown d now, _) => if d <=? 0 then None else Some (now + d)
  | _ => None
  end.

Lemma gate_step_spacing o g : minSpacing (gate_step o g).2 = minSpacing g.
Proof. destruct o; simpl; unfold wait_turn, Cooldown; by repeat case_match; simplify_eq/=. Qed.

Lemma time_sub_le a b : time_sub a b ≤ 0 → a ≤ b.
Proof. unfold time_sub. lia. Qed.

(** The gate opens no earlier than before, and a section's demand is in it. *)
Lemma gate_step_next o g b g' :
  0 < minSpacing g → starts o ≤ ends o → gate_step o g = (b, g') →
  next g ≤ next g' ∧ ∀ t, demand (minSpacing g) (o, b) = Some t → t ≤ next g'.
Proof.
  intros Hs Ht Hg. destruct o as [t1 t2|d now]; cbn [gate_step starts ends] in *.
  - unfold wait_turn in Hg. destruct (time_sub (next g) t1 <=? 0) eqn:E; simplify_eq/=; z_bools.
    + apply time_sub_le in E. split; [lia|]. intros t [= <-]. lia.
    + done.
  - unfold Cooldown in Hg. destruct (d <=? 0) eqn:Ed; simplify_eq/=.
    + rewrite Ed. done.
    + rewrite Ed. destruct (next g <? now + d) eqn:E; simplify_eq/=; z_bools;
        (split; [lia|]); intros t [= <-]; lia.
Qed.

Lemma gate_pass o g g' : gate_step o g = (true, g') → ∃ t1 t2, o = GWait t1 t2 ∧ next g ≤ t1.
Proof.
  destruct o as [t1 t2|]; [|done]. cbn [gate_step]. unfold wait_turn.
  destruct (time_sub (next g) t1 <=? 0) eqn:E; [|done]. intros _. z_bools.
  apply time_sub_le in E. eauto.
Qed.

Lemma gate_run_after ops g l g' t0 :
  0 < minSpacing g → Forall (λ o, starts o ≤ ends o) ops → gate_run ops g = (l, g') →
  t0 ≤ next g →
  ∀ j t1 t2, l !! j = Some (GWait t1 t2, true) → t0 ≤ t1.
Proof.
  revert g l g'. induction ops as [|o ops IH]; intros g l g' Hs Ht Hr H0 j t1 t2 Hj;
    cbn [gate_run] in Hr; [simplify_eq; done|].
  apply Forall_cons in Ht as [Ho Ht].
  destruct (gate_step o g) as [b g1] eqn:Hg. destruct (gate_run ops g1) as [l1 g2] eqn:Hr1.
  simplify_eq. destruct (gate_step_next o g b g1 Hs Ho Hg) as [Hn _].
  destruct j as [|j]; simpl in Hj.
  - simplify_eq. apply gate_pass in Hg as (? & ? & [= <- <-] & ?). lia.
  - eapply IH; [|done|done| |done]; [|lia].
    pose proof (gate_step_spacing o g) as Hm. rewrite Hg in Hm. simpl in Hm. lia.
Qed.

Lemma gate_run_promise s ops : ∀ g l g',
  0 < s → minSpacing g = s → Forall (λ o, starts o ≤ ends o) ops → gate_run ops g = (l, g') →
  minSpacing g' = s ∧
  ∀ i j x t1 t2 t, (i < j)%nat → l !! i = Some x → l !! j = Some (GWait t1 t2, true) →
    demand s x = Some t → t ≤ t1.
Proof.
  induction ops as [|o ops IH]; intros g0 l g Hs Hm Ht Hr; cbn [gate_run] in Hr.
  { simplify_eq. done. }
  apply Forall_cons in Ht as [Ho Ht].
  destruct (gate_step o g0) as [b g1] eqn:Hg. destruct (gate_run ops g1) as [l1 g2] eqn:Hr1.
  pose proof (gate_step_spacing o g0) as Hm1. rewrite Hg in Hm1. cbn [snd] in Hm1.
  injection Hr as <- <-.
  destruct (IH g1 l1 g2 Hs (eq_trans Hm1 Hm) Ht Hr1) as [H1 H2]. split; [done|].
  intros i j x t1 t2 t Hij Hi Hj Hd. destruct j as [|j]; [lia|]. simpl in Hj.
  destruct i as [|i]; simpl in Hi.
  - injection Hi as <-. destruct (gate_step_next o g0 b g1) as [_ Hdem]; [lia|done|done|].
    rewrite Hm in Hdem. specialize (Hdem t Hd).
    eapply (gate_run_after ops g1); [lia|done|done|done|done].
  - eapply (H2 i j); [lia|done..].
Qed.

(** The gate keeps its promise to every caller that shares it: a [Wait] that
    returns does so at least the spacing after any that returned before it, and no
    earlier than the end of any cooldown requested before it; the spacing is
    positive and never changes. *)
Theorem gate_promise spacing now0 ops l g :
  gate_run ops (NewRateGate spacing now0) = (l, g) → Forall (λ o, starts o ≤ ends o) ops →
  let s := minSpacing (NewRateGate spacing now0) in
  0 < s ∧ minSpacing g = s ∧
  ∀ i j x t1 t2 t, (i < j)%nat → l !! i = Some x → l !! j = Some (GWait t1 t2, true) →
    demand s x = Some t → t ≤ t1.
Proof.
  intros Hr Ht s.
  assert (Hs : 0 < s).
  { unfold s, NewRateGate. simpl. destruct (spacing <=? 0) eqn:E; z_bools; [done|lia]. }
  split; [done|]. exact (gate_run_promise s ops _ l g Hs eq_refl Ht Hr).
Qed.

(** A waiter that has slept out its delay passes, when nobody moved the gate. *)
Lemma wait_sleeps t1 t2 g w g' t1' t2' :
  wait_turn t1 t2 g = (Some w, g') → next g - t1 < 2 ^ 63 → t1 + w ≤ t1' →
  (wait_turn t1' t2' g').1 = None.
Proof.
  unfold wait_turn. destruct (time_sub (next g) t1 <=? 0) eqn:E; [done|].
  intros [= <- <-] Hb Ht. z_bools.
  destruct (time_sub (next g) t1' <=? 0) eqn:E'; [done|]. z_bools.
  unfold time_sub in *. lia.
Qed.

(** Two callers and a cooldown. *)
Definition demo_ops : list gate_op :=
  [GWait 0 1; GWait 2 2; GCooldown (10 * second) 5; GWait (400 * millisecond) (400 * millisecond);
   GWait (11 * second) (11 * second)].

Lemma gate_promise_witness :
  (gate_run demo_ops (NewRateGate 0 0)).1.*2 = [true; false; false; false; true] ∧
  5 + 10 * second ≤ 11 * second.
Proof.
  split; [vm_compute; reflexivity|].
  refine (proj2 (proj2 (gate_promise 0 0 demo_ops (gate_run demo_ops (NewRateGate 0 0)).1
    (gate_run demo_ops (NewRateGate 0 0)).2 _ _)) 2%nat 4%nat (GCooldown (10 * second) 5, false)
    (11 * second) (11 * second) (5 + 10 * second) _ _ _ _).
  - vm_compute. reflexivity.
  - repeat constructor; vm_compute; discriminate.
  - lia.
  - vm_compute. reflexivity.
  - vm_compute. reflexivity.
  - reflexivity.
Defined.

End RateGate.
