(* ===== verification/Emitter.v ===== *)
(** * Emitters: [emitter/emitter.go]

    The queue emitter that checks and routes order work, and the Hyperliquid
    emitter that turns one order work into calls of the exchange.  What an [Emit]
    does to the outside is a trace of effects; every answer from outside (the rate
    gate, the exchange, the market data) is a function of the trace so far, so it
    may change from call to call. *)

From S2P Require Import Prelude GoFloat GoString OrderId Domain Store Hl.
Import GoFloat GoString Domain Store Hl.

Module Emitter.

(** Why an emission failed. *)
Inductive failure :=
| MissingOrderIdentifier
| OrderIdentifierMismatch
| UnregisteredVenueEmitter (venue : string)
| OrderAlreadySatisfied
| ContextDone (msg : string)
| CouldNotPlace (msg : string)
| CouldNotCancel (msg : string)
| CouldNotModify (msg : string)
| ModifyUnverified (msg : string).

Definition failure_text (f : failure) : string :=
  match f with
  | MissingOrderIdentifier => "queue emitter: order identifier required"
  | OrderIdentifierMismatch => "queue emitter: order identifier mismatch"
  | UnregisteredVenueEmitter v => "queue emitter: no emitter registered for venue: " +:+ v
  | OrderAlreadySatisfied => ""
  | ContextDone msg => msg
  | CouldNotPlace msg => "could not place order: " +:+ msg
  | CouldNotCancel msg => "could not cancel order: " +:+ msg
  | CouldNotModify msg => "could not modify order: " +:+ msg
  | ModifyUnverified msg => "modify error was successful but returned an error: " +:+ msg
  end.

(** The error as the callers of [Emitter.Emit] tell it apart. *)
Definition as_emit_error (f : failure) : emit_error :=
  match f with OrderAlreadySatisfied => ErrOrderAlreadySatisfied | f => ErrEmit (failure_text f) end.

(** ** [QueueEmitter] *)

Record QueueEmitter (E : Type) := mkQueueEmitter {
  qe_queue : list OrderWork;
  qe_emitters : gmap VenueID E;
}.
Arguments mkQueueEmitter {E}. Arguments qe_queue {E}. Arguments qe_emitters {E}.

Section Queue.
Context {E : Type}.

Definition NewQueueEmitter (q : list OrderWork) : QueueEmitter E := mkQueueEmitter q ∅.

Definition Register (venue : VenueID) (emitter : option E) (e : QueueEmitter E) : QueueEmitter E :=
  match emitter with
  | None => e
  | Some em => mkQueueEmitter (qe_queue e) (<[venue := em]> (qe_emitters e))
  end.

Definition emitterFor (venue : VenueID) (e : QueueEmitter E) : option E := qe_emitters e !! venue.

(** The queue behind [OrderQueue] is the list of the works added to it. *)
Definition QueueEmit (w : OrderWork) (e : QueueEmitter E) : option failure * QueueEmitter E :=
  if decide (ow_Identifier w = zero_identifier) then (Some MissingOrderIdentifier, e)
  else if negb (bool_decide (ow_OrderId w = OrderId.zero)) &&
          negb (bool_decide (oi_OrderId (ow_Identifier w) = ow_OrderId w))
  then (Some OrderIdentifierMismatch, e)
  else match emitterFor (oi_VenueID (ow_Identifier w)) e with
  | None => (Some (UnregisteredVenueEmitter (Venue (ow_Identifier w))), e)
  | Some _ => (None, mkQueueEmitter (qe_queue e ++ [w]) (qe_emitters e))
  end.

(** [Dispatch]: which emitter the work goes to. *)
Definition Dispatch (w : OrderWork) (e : QueueEmitter E) : result failure E :=
  if decide (ow_Identifier w = zero_identifier) then Err MissingOrderIdentifier
  else match emitterFor (oi_VenueID (ow_Identifier w)) e with
  | None => Err (UnregisteredVenueEmitter (Venue (ow_Identifier w)))
  | Some em => Ok em
  end.

End Queue.

(** ** Numbers and requests *)

(** [int64(math.Abs(f)) % 2 == 0]. *)
Definition is_even (f : f64) : bool := int_of_f (Abs f) %go 2 =? 0.

Definition RoundHalfEven (x : f64) : f64 :=
  let p := Pow ften 8 in
  let y := fmul x p in
  let '(f, frac) := Modf y in
  let absFrac := Abs frac in
  let away := if fgt y fzero then fdiv (fadd f fone) p else fdiv (fsub f fone) p in
  if flt absFrac fhalf then fdiv f p
  else if fgt absFrac fhalf then away
  else if is_even f then fdiv f p else away.

Definition floatEqualityTolerance : f64 := f_dec 1 9.
Definition floatEquals (a b : f64) : bool := fle (Abs (fsub a b)) floatEqualityTolerance.

Definition orderTypesMatch (existing desired : OrderType) : bool :=
  match ot_Limit existing, ot_Limit desired with
  | Some a, Some b => String.eqb a b
  | Some _, None | None, Some _ => false
  | None, None =>
    match ot_Trigger existing, ot_Trigger desired with
    | Some a, Some b =>
      floatEquals (tr_TriggerPx a) (tr_TriggerPx b) && Bool.eqb (tr_IsMarket a) (tr_IsMarket b) &&
      String.eqb (tr_Tpsl a) (tr_Tpsl b)
    | Some _, None | None, Some _ => false
    | None, None => true
    end
  end.

Definition parsed_equals (s : string) (v : f64) : bool :=
  match ParseFloat s with Some x => floatEquals x v | None => false end.

Definition ordersMatch (status : option WsOrder) (latestSubmission : option CreateOrderRequest)
    (desired : CreateOrderRequest) : bool :=
  match status, latestSubmission with
  | Some status, Some submitted =>
    let o := ws_Order status in
    EqualFold (wb_Coin o) (co_Coin desired) &&
    (let side := ToUpper (wb_Side o) in
     if co_IsBuy desired then String.eqb side "B"
     else String.eqb side "S" || String.eqb side "A") &&
    parsed_equals (wb_Sz o) (co_Size desired) && parsed_equals (wb_LimitPx o) (co_Price desired) &&
    Bool.eqb (co_ReduceOnly submitted) (co_ReduceOnly desired) &&
    orderTypesMatch (co_OrderType submitted) (co_OrderType desired)
  | _, _ => false
  end.

Definition isLiveStatus {sdk : SDK} (status : option WsOrder) : bool :=
  match status with
  | Some s => String.eqb (ws_Status s) OrderStatusValueOpen || String.eqb (ws_Status s) "live"
  | None => false
  end.

Definition isAlreadyClosedCancelError (err : string) : bool :=
  existsb (Contains (ToLower err))
    ["already canceled"; "already cancelled"; "already filled"; "never placed"; "not live";
     "does not exist"].

Definition requestedOrderSize (a : Action) : f64 :=
  match ac_Type a with
  | ActionCreate => co_Size (ac_Create a)
  | ActionModify => co_Size (mo_Order (ac_Modify a))
  | _ => fzero
  end.

(** [hyperliquid.OrderStatus]: the total filled, the resting order, the error. *)
Record OrderStatus := mkOrderStatus {
  os_Resting : option (Z * string * option string);
  os_Filled : option string;
  os_Error : option string;
}.

Definition orderStatusSummary (status : option OrderStatus) : string * f64 :=
  match status with
  | None => ("", fzero)
  | Some s =>
    match os_Filled s, os_Resting s, os_Error s with
    | Some total, _, _ => ("filled", default fzero (ParseFloat total))
    | None, Some (_, st, _), _ => (st, fzero)
    | None, None, Some _ => ("error", fzero)
    | None, None, None => ("", fzero)
    end
  end.

(** ** [HyperLiquidEmitter] *)

Inductive effect :=
| Waited
| Cooled (d : Z)
| Subscribed (coin : string)
| Ordered (req : CreateOrderRequest)
| Modified (req : ModifyOrderRequest)
| CancelledByCloid (coin cloid : string)
| Queried (cloid : string)
| RecordedOrder (ident : OrderIdentifier) (req : CreateOrderRequest) (row : Z)
| RecordedModify (ident : OrderIdentifier) (req : ModifyOrderRequest) (row : Z)
| RecordedCancel (ident : OrderIdentifier) (req : CancelOrderRequestByCloid) (row : Z).

Definition trace : Type := list effect.

(** The outside: the shared gate, the exchange. *)
Class Exchange := {
  on_wait : trace → option string;
  on_order : trace → CreateOrderRequest → result string OrderStatus;
  on_modify : trace → ModifyOrderRequest → result string OrderStatus;
  on_cancel : trace → string → string → option string;
}.

(** A websocket client: whose statuses it sees, and the best bid and offer it
    delivers within the timeout. *)
Record WsClient := mkWsClient {
  wc_venueID : VenueID;
  wc_wallet : string;
  wc_best : trace → string → option BestBidOffer;
}.

Definition StatusClient : Type := trace → string → result string (option OrderQueryResult).
Definition Resolver : Type := trace → string → result string CoinConstraints.

Record HyperLiquidEmitterConfig := mkEmitterConfig { MaxIOCRetries : Z; InitialIOCOffsetBps : f64 }.

Definition defaultHyperLiquidEmitterConfig : HyperLiquidEmitterConfig := mkEmitterConfig 3 fzero.
Definition iocRetryBumpRatio : f64 := f_dec 5 4.
Definition missingModifyResponseDataFragment : string :=
  "missing response.data field in successful response".
Definition cannotModifyFilledFragment : string := "cannot modify canceled or filled order".

Record HyperLiquidEmitter := mkEmitter {
  he_gated : bool;
  he_cfg : HyperLiquidEmitterConfig;
  he_wsClients : gmap VenueID WsClient;
  he_primaryVenue : VenueID;
  he_constraints : option Resolver;
  he_statusClient : option StatusClient;
}.

Definition normalizeHyperLiquidEmitterConfig (cfg : HyperLiquidEmitterConfig)
    : HyperLiquidEmitterConfig :=
  mkEmitterConfig
    (if MaxIOCRetries cfg <=? 0 then MaxIOCRetries defaultHyperLiquidEmitterConfig
     else MaxIOCRetries cfg)
    (if flt (InitialIOCOffsetBps cfg) fzero then fzero else InitialIOCOffsetBps cfg).

Definition RegisterWsClient (venue : VenueID) (client : option WsClient) (e : HyperLiquidEmitter)
    : HyperLiquidEmitter :=
  match client with
  | Some c =>
    if String.eqb venue "" then e
    else mkEmitter (he_gated e) (he_cfg e) (<[venue := c]> (he_wsClients e)) (he_primaryVenue e)
           (he_constraints e) (he_statusClient e)
  | None => e
  end.

Definition with_cfg (cfg : HyperLiquidEmitterConfig) (e : HyperLiquidEmitter)
    : HyperLiquidEmitter :=
  mkEmitter (he_gated e) cfg (he_wsClients e) (he_primaryVenue e) (he_constraints e)
    (he_statusClient e).

Definition WithHyperLiquidStatusClient (client : option StatusClient) (e : HyperLiquidEmitter)
    : HyperLiquidEmitter :=
  match client with
  | Some c => mkEmitter (he_gated e) (he_cfg e) (he_wsClients e) (he_primaryVenue e)
                (he_constraints e) (Some c)
  | None => e
  end.

(** The options are the functions above; the gate is always set. *)
Definition NewHyperLiquidEmitter (primaryVenue : VenueID) (wsClient : option WsClient)
    (constraints : option Resolver) (opts : list (HyperLiquidEmitter → HyperLiquidEmitter))
    : HyperLiquidEmitter :=
  let e := mkEmitter true defaultHyperLiquidEmitterConfig ∅ primaryVenue constraints None in
  let e := if String.eqb primaryVenue "" then e else RegisterWsClient primaryVenue wsClient e in
  let e := fold_left (λ e opt, opt e) opts e in
  with_cfg (normalizeHyperLiquidEmitterConfig (he_cfg e)) e.

(** What a successful [Emit] did: nothing was asked for or the venue's refusal is
    ignored, or the order was sent (the last log line). *)
Inductive emitted :=
| Nothing
| Ignored
| Sent (executed : Action) (status : option OrderStatus) (retries : nat * string).

Section Emit.
Context {sdk : SDK} {R : GoRange} {store : TrackerStore} {exchange : Exchange}.

Definition M (A : Type) : Type := ST trace A.
Definition tell (e : effect) : M unit := st_modify (λ tr, tr ++ [e]).
Definition ask {A} (f : trace → A) : M A := st_gets f.

(** The last loop visits the clients in any order. *)
Definition wsFor (venue : VenueID) (e : HyperLiquidEmitter) : option WsClient :=
  match he_wsClients e !! venue with
  | Some c => Some c
  | None =>
    match (if String.eqb (he_primaryVenue e) "" then None
           else he_wsClients e !! he_primaryVenue e) with
    | Some c => Some c
    | None => snd <$> head (go_range 30 (he_wsClients e))
    end
  end.

Definition waitTurn (e : HyperLiquidEmitter) : M (option string) :=
  if he_gated e then r ← ask on_wait; _ ← tell Waited; mret r else mret None.

Definition applyCooldown (d : Z) (e : HyperLiquidEmitter) : M unit :=
  if he_gated e then tell (Cooled d) else mret tt.

Definition rounded (o : CreateOrderRequest) : CreateOrderRequest :=
  with_size (RoundHalfEven (co_Size o)) (with_price (RoundHalfEven (co_Price o)) o).

Definition setMarketPrice (wsClient : option WsClient) (order : CreateOrderRequest)
    : M CreateOrderRequest :=
  match wsClient with
  | None => mret (rounded order)
  | Some c =>
    _ ← tell (Subscribed (co_Coin order));
    if feq (co_Price order) fzero then
      bbo ← ask (λ tr, wc_best c tr (co_Coin order));
      mret (rounded match bbo with
        | Some b =>
          with_price (lv_Price (if co_IsBuy order then bb_Ask b else bb_Bid b)) order
        | None => order
        end)
    else mret (rounded order)
  end.

Definition applyIOCOffset (e : HyperLiquidEmitter) (order : CreateOrderRequest) (attempt : Z)
    : CreateOrderRequest :=
  if negb (bool_decide (ot_Limit (co_OrderType order) = Some TifIoc)) then order
  else if fle (co_Price order) fzero then order
  else
    let offsetRatio := fzero in
    let offsetRatio :=
      if attempt =? 0
      then fadd offsetRatio (fdiv (InitialIOCOffsetBps (he_cfg e)) (f_of_Z 10000))
      else offsetRatio in
    let offsetRatio :=
      if 0 <? attempt then fadd offsetRatio (fmul (f_of_Z attempt) iocRetryBumpRatio)
      else offsetRatio in
    if feq offsetRatio fzero then order
    else
      let price :=
        if co_IsBuy order then fmul (co_Price order) (fadd fone offsetRatio)
        else
          let adjusted := fsub fone offsetRatio in
          let adjusted := if flt adjusted fzero then fzero else adjusted in
          fmul (co_Price order) adjusted in
      with_price (RoundHalfEven price) order.

Definition constrainPrice (e : HyperLiquidEmitter) (coin : string) (price : f64)
    : M (result string f64) :=
  match he_constraints e with
  | None => mret (Ok price)
  | Some resolve =>
    r ← ask (λ tr, resolve tr coin);
    mret match r with
    | Err msg => Err ("resolve constraints: " +:+ msg)
    | Ok c => Ok (RoundPrice c price)
    end
  end.

(** [if constrainedPrice, err := ...; err != nil { warn } else { order.Price = ... }]. *)
Definition constrained (e : HyperLiquidEmitter) (order : CreateOrderRequest)
    : M CreateOrderRequest :=
  p ← constrainPrice e (co_Coin order) (co_Price order);
  mret match p with Ok p => with_price p order | Err _ => order end.

Definition is_rate_limited (msg : string) : bool :=
  Contains msg "429" || Contains (ToLower msg) "rate limit".

Definition confirmModifyViaStatus (e : HyperLiquidEmitter) (w : OrderWork)
    (req : ModifyOrderRequest) : M (result string OrderStatus) :=
  match he_statusClient e, mo_Cloid req with
  | None, _ => mret (Err ("status client unavailable for venue " +:+ Venue (ow_Identifier w)))
  | Some _, None => mret (Err "modify verification requires cloid")
  | Some client, Some cloid =>
    r ← ask (λ tr, client tr cloid);
    _ ← tell (Queried cloid);
    mret match r with
    | Err msg => Err ("query order status: " +:+ msg)
    | Ok result =>
      match OrderQueryResultToWsOrder (ow_OrderId w) result with
      | Err _ => Err "convert queried order: order query result is nil"
      | Ok None => Err ("order status unavailable for " +:+ cloid)
      | Ok (Some o) =>
        if negb (ordersMatch (Some o) (Some (mo_Order req)) (mo_Order req))
        then Err "queried order does not match desired state"
        else Ok (mkOrderStatus (Some (wb_Oid (ws_Order o), ws_Status o, wb_Cloid (ws_Order o)))
                   None None)
      end
    end
  end.

Definition submitModify (e : HyperLiquidEmitter) (w : OrderWork) (req : ModifyOrderRequest)
    : M (result failure (option OrderStatus)) :=
  let record := tell (RecordedModify (ow_Identifier w) req (be_RowID (ow_BotEvent w))) in
  r ← ask (λ tr, on_modify tr req);
  _ ← tell (Modified req);
  match r with
  | Ok status => _ ← record; mret (Ok (Some status))
  | Err msg =>
    _ ← (if is_rate_limited msg then applyCooldown (10 * second) e else mret tt);
    if Contains msg missingModifyResponseDataFragment then
      c ← confirmModifyViaStatus e w req;
      match c with
      | Ok status => _ ← record; mret (Ok (Some status))
      | Err msg => mret (Err (ModifyUnverified msg))
      end
    else if Contains (ToLower msg) cannotModifyFilledFragment then mret (Ok None)
    else mret (Err (CouldNotModify msg))
  end.

(** ** [Emit] *)

Inductive placed :=
| Placed (req : CreateOrderRequest) (status : OrderStatus) (retries : nat * string)
| PlacedIgnored
| PlaceFailed (f : failure)
| PlaceExhausted (lastErr : string).

Definition min_value_error : string := "Order must have minimum value".
Definition reduce_only_error : string := "Reduce only order would increase position".
Definition no_match_error : string :=
  "Order could not immediately match against any resting orders".

(** One attempt's request, from the request of the attempt before it. *)
Definition attempt_request (e : HyperLiquidEmitter) (wsClient : option WsClient) (attempt : Z)
    (req : CreateOrderRequest) : M CreateOrderRequest :=
  order ← setMarketPrice wsClient req;
  constrained e (applyIOCOffset e order attempt).

(** The loop over the attempts; [remaining] is [maxAttempts - attempt]. *)
Fixpoint place (e : HyperLiquidEmitter) (w : OrderWork) (wsClient : option WsClient) (remaining : nat)
    (attempt : Z) (retries : nat * string) (req : CreateOrderRequest) : M placed :=
  match remaining with
  | O => mret (PlaceExhausted retries.2)
  | S remaining =>
    turn ← (if 0 <? attempt then waitTurn e else mret None);
    match turn with
    | Some msg => mret (PlaceFailed (ContextDone msg))
    | None =>
      req ← attempt_request e wsClient attempt req;
      r ← ask (λ tr, on_order tr req);
      _ ← tell (Ordered req);
      match r with
      | Ok status => mret (Placed req status retries)
      | Err msg =>
        if Contains msg min_value_error || Contains msg reduce_only_error then
          _ ← tell (RecordedOrder (ow_Identifier w) req (be_RowID (ow_BotEvent w)));
          mret PlacedIgnored
        else
          let unmatched := Contains msg no_match_error in
          let retries := if unmatched then (S retries.1, msg) else retries in
          if unmatched && (0 <? remaining)%nat
          then place e w wsClient remaining (attempt + 1) retries req
          else
            _ ← (if is_rate_limited msg then applyCooldown (10 * second) e else mret tt);
            mret (PlaceFailed (CouldNotPlace msg))
      end
    end
  end.

(** The latest submission's order, as far as the store can tell. *)
Definition latest_submission (ident : OrderIdentifier) : option CreateOrderRequest :=
  match LoadHyperliquidSubmission ident with
  | Ok (Some a) =>
    match ac_Type a with
    | ActionModify => Some (mo_Order (ac_Modify a))
    | ActionCreate => Some (ac_Create a)
    | _ => None
    end
  | _ => None
  end.

(** [wsClient.Get]. *)
Definition ws_get (c : WsClient) (oid : OrderId.OrderId) : option WsOrder :=
  match LoadHyperliquidStatus (NewOrderIdentifier (wc_venueID c) (wc_wallet c) oid) with
  | Ok s => s
  | Err _ => None
  end.

Definition live_status (wsClient : option WsClient) (oid : OrderId.OrderId) : option WsOrder :=
  match wsClient with
  | Some c => let s := ws_get c oid in if isLiveStatus s then s else None
  | None => None
  end.

Definition work_create (w : OrderWork) (req : CreateOrderRequest) : Action :=
  with_action_create req (ow_Action w).

Definition emit_create (e : HyperLiquidEmitter) (w : OrderWork) (wsClient : option WsClient)
    : M (result failure emitted) :=
  let ident := ow_Identifier w in
  order ← setMarketPrice wsClient (ac_Create (ow_Action w));
  order ← constrained e order;
  let action := work_create w order in
  match live_status wsClient (ow_OrderId w) with
  | Some status =>
    if ordersMatch (Some status) (latest_submission ident) order
    then mret (Err OrderAlreadySatisfied)
    else
      let modifyReq := mkModify (Some (OrderId.Hex (ow_OrderId w))) order in
      r ← submitModify e w modifyReq;
      mret match r with
      | Err f => Err f
      | Ok st =>
        Ok (Sent (with_action_modify modifyReq (with_action_type ActionModify action)) st (0%nat, ""))
      end
  | None =>
    let maxAttempts :=
      if MaxIOCRetries (he_cfg e) <=? 0 then 1 else MaxIOCRetries (he_cfg e) in
    r ← place e w wsClient (Z.to_nat maxAttempts) 0 (0%nat, "") order;
    match r with
    | PlaceFailed f => mret (Err f)
    | PlaceExhausted msg => mret (Err (CouldNotPlace msg))
    | PlacedIgnored => mret (Ok Ignored)
    | Placed req status retries =>
      _ ← tell (RecordedOrder ident req (be_RowID (ow_BotEvent w)));
      mret (Ok (Sent (work_create w req) (Some status) retries))
    end
  end.

Definition emit_cancel (e : HyperLiquidEmitter) (w : OrderWork) : M (result failure emitted) :=
  let c := ac_Cancel (ow_Action w) in
  let record := tell (RecordedCancel (ow_Identifier w) c (be_RowID (ow_BotEvent w))) in
  r ← ask (λ tr, on_cancel tr (ca_Coin c) (ca_Cloid c));
  _ ← tell (CancelledByCloid (ca_Coin c) (ca_Cloid c));
  match r with
  | None => _ ← record; mret (Ok (Sent (ow_Action w) None (0%nat, "")))
  | Some msg =>
    if isAlreadyClosedCancelError msg then _ ← record; mret (Err OrderAlreadySatisfied)
    else
      _ ← (if is_rate_limited msg then applyCooldown (10 * second) e else mret tt);
      mret (Err (CouldNotCancel msg))
  end.

Definition emit_modify (e : HyperLiquidEmitter) (w : OrderWork) (wsClient : option WsClient)
    : M (result failure emitted) :=
  let m := ac_Modify (ow_Action w) in
  order ← setMarketPrice wsClient (mo_Order m);
  order ← constrained e order;
  let m := mkModify (mo_Cloid m) order in
  r ← submitModify e w m;
  mret match r with
  | Err f => Err f
  | Ok st => Ok (Sent (with_action_modify m (ow_Action w)) st (0%nat, ""))
  end.

Definition Emit (e : HyperLiquidEmitter) (w : OrderWork) : M (result failure emitted) :=
  if decide (ow_Identifier w = zero_identifier) then mret (Err MissingOrderIdentifier)
  else if negb (bool_decide (ow_OrderId w = OrderId.zero)) &&
          negb (bool_decide (oi_OrderId (ow_Identifier w) = ow_OrderId w))
  then mret (Err OrderIdentifierMismatch)
  else
    let wsClient := wsFor (oi_VenueID (ow_Identifier w)) e in
    match ac_Type (ow_Action w) with
    | ActionNone => mret (Ok Nothing)
    | t =>
      turn ← waitTurn e;
      match turn with
      | Some msg => mret (Err (ContextDone msg))
      | None =>
        match t with
        | ActionCreate => emit_create e w wsClient
        | ActionCancel => emit_cancel e w
        | _ => emit_modify e w wsClient
        end
      end
    end.

End Emit.

End Emitter.
