(* ===== verification/Workers.v ===== *)
(** * Working off the queues: [cmd/recomma/workers.go]

    The program has a queue of deals and one of orders, of the rate-limited kind of
    client-go.  A worker takes an item, handles it, and either puts it back or
    forgets it.  The queue is an interface with the laws its documentation states;
    an item is never with two workers at once, so taking and handling it is one
    step. *)

From S2P Require Import Prelude GoFloat GoString OrderId Domain Store Hl Emitter Engine.
Import GoString Domain Store.

Module Workers.

(** [workqueue.TypedRateLimitingInterface]; [Get] is asked at a time and blocks while
    it has no item. *)
Class WorkQueue (Q K : Type) := {
  Add : K → Q → Q;
  AddRateLimited : K → Q → Q;
  Forget : K → Q → Q;
  Done : K → Q → Q;
  NumRequeues : K → Q → Z;
  Get : Z → Q → option (K * Q);
}.

(** [ShutDown] is how [ShutDownWithDrain] begins: from then on the queue ignores what
    is added to it.  [drained] says that it may return. *)
Class DrainingQueue (Q K : Type) {queue : WorkQueue Q K} := {
  ShutDown : Q → Q;
  ShuttingDown : Q → bool;
  drained : Q → bool;
}.

(** Requeues are counted per item until it is forgotten, and an item that was added
    is handed out, at most once for each addition: additions that wait together may
    be merged.  A queue that is shutting down ignores what is added to it, at once
    or after a delay, and loses the items whose delay has not passed. *)
Class WorkQueueLaws (Q K : Type) `{EqDecision K} {queue : WorkQueue Q K} {draining : DrainingQueue Q K} := {
  waiting : K → Q → nat;
  shut_Add k q : ShuttingDown (Add k q) = ShuttingDown q;
  shut_AddRateLimited k q : ShuttingDown (AddRateLimited k q) = ShuttingDown q;
  shut_Forget k q : ShuttingDown (Forget k q) = ShuttingDown q;
  shut_Done k q : ShuttingDown (Done k q) = ShuttingDown q;
  shut_Get k q q' now : Get now q = Some (k, q') → ShuttingDown q' = ShuttingDown q;
  shut_ShutDown q : ShuttingDown (ShutDown q) = true;
  requeues_Add k k' q : NumRequeues k (Add k' q) = NumRequeues k q;
  requeues_AddRateLimited k k' q :
    NumRequeues k (AddRateLimited k' q) = NumRequeues k q + (if decide (k' = k) then 1 else 0);
  requeues_Forget k k' q : NumRequeues k (Forget k' q) = if decide (k' = k) then 0 else NumRequeues k q;
  requeues_Done k k' q : NumRequeues k (Done k' q) = NumRequeues k q;
  requeues_Get k k' q q' now : Get now q = Some (k', q') → NumRequeues k q' = NumRequeues k q;
  waiting_Add k q : ShuttingDown q = false → (1 ≤ waiting k (Add k q) ≤ S (waiting k q))%nat;
  waiting_Add_shut k k' q : ShuttingDown q = true → waiting k (Add k' q) = waiting k q;
  waiting_Add_ne k k' q : k' ≠ k → waiting k (Add k' q) = waiting k q;
  waiting_AddRateLimited k q : ShuttingDown q = false →
    (1 ≤ waiting k (AddRateLimited k q) ≤ S (waiting k q))%nat;
  waiting_AddRateLimited_shut k k' q : ShuttingDown q = true →
    waiting k (AddRateLimited k' q) = waiting k q;
  waiting_AddRateLimited_ne k k' q : k' ≠ k → waiting k (AddRateLimited k' q) = waiting k q;
  waiting_Forget k k' q : waiting k (Forget k' q) = waiting k q;
  waiting_Done k k' q : waiting k (Done k' q) = waiting k q;
  waiting_Get k q q' now : Get now q = Some (k, q') → (S (waiting k q') ≤ waiting k q)%nat;
  waiting_Get_ne k k' q q' now : Get now q = Some (k', q') → k' ≠ k →
    (waiting k q' ≤ waiting k q)%nat ∧
    (ShuttingDown q = false → 1 ≤ waiting k q → 1 ≤ waiting k q')%nat;
  waiting_ShutDown k q : (waiting k (ShutDown q) ≤ waiting k q)%nat;
}.

#[global] Instance WorkKey_eq_dec : EqDecision Engine.WorkKey.
Proof. solve_decision. Defined.

(** ** Deals *)

(** A failure of [HandleDeal] as the worker tells it apart. *)
Inductive deal_failure := DealCanceled | DealNotCached | DealFailed.

(** [HandleDeal] returns the errors of its calls, wrapped; none of them is
    [ErrDealNotCached].  [canceled] says whether one wraps [context.Canceled]. *)
Definition seen {A} (canceled : bool) (r : result Engine.handle_error A) : option deal_failure :=
  match r with
  | Ok _ => None
  | Err _ => Some (if canceled then DealCanceled else DealFailed)
  end.

(** A step of the program: an item is put on the queue, a worker asks for one, or
    the queue is told to shut down. *)
Inductive step (K X : Type) := Put (k : K) | Work (now : Z) (x : X) | Drain.
Arguments Put {K X} k. Arguments Work {K X} now x. Arguments Drain {K X}.

(** What was handled, how often it had been put back, and what came of it. *)
Record handled (K E : Type) := mkHandled { hd_item : K; hd_requeues : Z; hd_err : option E }.
Arguments mkHandled {K E}. Arguments hd_item {K E}. Arguments hd_requeues {K E}. Arguments hd_err {K E}.

Section Workers.
Context {Q : Type}.

Definition processWorkItem {queue : WorkQueue Q Engine.WorkKey} (err : option deal_failure)
    (wi : Engine.WorkKey) (q : Q) : Q :=
  Done wi
    match err with
    | Some DealCanceled => Forget wi q
    | Some DealNotCached => AddRateLimited wi q
    | Some DealFailed => if NumRequeues wi q <? 5 then AddRateLimited wi q else Forget wi q
    | None => Forget wi q
    end.

(** ** Orders *)

(** [Dispatch] of the queue emitter hands the work to the emitter of its venue. *)
Definition dispatch {sdk : SDK} {R : GoRange} {store : TrackerStore} {exchange : Emitter.Exchange}
    (w : OrderWork) (e : Emitter.QueueEmitter Emitter.HyperLiquidEmitter)
    : Emitter.M (result Emitter.failure Emitter.emitted) :=
  match Emitter.Dispatch w e with
  | Err f => mret (Err f)
  | Ok em => Emitter.Emit em w
  end.

(** An error that is [context.Canceled] or [context.DeadlineExceeded]: that of the
    rate gate is, those of the exchange may wrap one. *)
Definition is_context (wraps : string → bool) (f : Emitter.failure) : bool :=
  match f with
  | Emitter.ContextDone _ => true
  | Emitter.CouldNotPlace msg | Emitter.CouldNotCancel msg | Emitter.CouldNotModify msg
  | Emitter.ModifyUnverified msg => wraps msg
  | _ => false
  end.

Definition processOrderItem {queue : WorkQueue Q OrderWork} (wraps : string → bool)
    (err : option Emitter.failure) (w : OrderWork) (q : Q) : Q :=
  Done w
    match err with
    | Some Emitter.OrderAlreadySatisfied => Forget w q
    | Some f =>
      if is_context wraps f then AddRateLimited w q
      else match f with
           | Emitter.MissingOrderIdentifier | Emitter.UnregisteredVenueEmitter _
           | Emitter.OrderIdentifierMismatch => Forget w q
           | _ => if NumRequeues w q <? 5 then AddRateLimited w q else Forget w q
           end
    | None => Forget w q
    end.

(** ** The workers at work *)

(** [runWorker]; each handling of a deal brings its own outcome. *)
Fixpoint runWorker {queue : WorkQueue Q Engine.WorkKey} {draining : DrainingQueue Q Engine.WorkKey}
    (steps : list (step Engine.WorkKey (bool * result Engine.handle_error unit))) (q : Q)
    : list (handled Engine.WorkKey deal_failure) * Q :=
  match steps with
  | [] => ([], q)
  | Put k :: steps => runWorker steps (Add k q)
  | Drain :: steps => runWorker steps (ShutDown q)
  | Work now (canceled, r) :: steps =>
    match Get now q with
    | None => runWorker steps q
    | Some (wi, q) =>
      let err := seen canceled r in
      let '(log, q') := runWorker steps (processWorkItem err wi q) in
      (mkHandled wi (NumRequeues wi q) err :: log, q')
    end
  end.

(** [runOrderWorker]; the trace of the emitters goes on from one work to the next,
    and with each handling the log has what it added to it. *)
Fixpoint runOrderWorker {sdk : SDK} {R : GoRange} {store : TrackerStore}
    {exchange : Emitter.Exchange} {queue : WorkQueue Q OrderWork} {draining : DrainingQueue Q OrderWork}
    (wraps : string → bool) (e : Emitter.QueueEmitter Emitter.HyperLiquidEmitter)
    (steps : list (step OrderWork unit)) (q : Q) (tr : Emitter.trace)
    : list (handled OrderWork Emitter.failure * Emitter.trace) * Q * Emitter.trace :=
  match steps with
  | [] => ([], q, tr)
  | Put w :: steps => runOrderWorker wraps e steps (Add w q) tr
  | Drain :: steps => runOrderWorker wraps e steps (ShutDown q) tr
  | Work now _ :: steps =>
    match Get now q with
    | None => runOrderWorker wraps e steps q tr
    | Some (w, q) =>
      let '(r, tr1) := dispatch w e tr in
      let err := match r with Ok _ => None | Err f => Some f end in
      let '(log, q', tr') := runOrderWorker wraps e steps (processOrderItem wraps err w q) tr1 in
      ((mkHandled w (NumRequeues w q) err, drop (length tr) tr1) :: log, q', tr')
    end
  end.

End Workers.

End Workers.
