(* ===== verification/Shutdown.v ===== *)
(** * Stopping the program: [Shutdown] of [cmd/recomma/app.go]

    The program stops while its workers, its tickers and the requests it serves are
    still running: [Shutdown] stops the server, drains the two queues one after the
    other, waits for the workers and closes what is left.  A worker takes an item,
    handles it and settles it with its queue ([Workers]); handling a deal puts
    orders on the other queue.  Each of these is one step, and they interleave. *)

From S2P Require Import Prelude GoFloat GoString OrderId Domain Store Hl Emitter Engine Workers.
Import Domain Workers.

Module Shutdown.

(** ** Queues that shut down *)

(** What a worker asks of its queue while it settles an item. *)
Inductive request (K : Type) := ToAdd (k : K) | ToAddRateLimited (k : K) | ToForget (k : K) | ToDone (k : K).
Arguments ToAdd {K} k. Arguments ToAddRateLimited {K} k. Arguments ToForget {K} k. Arguments ToDone {K} k.

Definition ask {Q K} {queue : WorkQueue Q K} (r : request K) (q : Q) : Q :=
  match r with
  | ToAdd k => Add k q
  | ToAddRateLimited k => AddRateLimited k q
  | ToForget k => Forget k q
  | ToDone k => Done k q
  end.

(** An item that was added is owed until it is handed out, and is then being worked
    on until it is done; the queue hands an item to one worker at a time.  A queue
    that is shutting down hands out what it owes and takes nothing new, not even
    what it was to add later; it is drained when it owes nothing and nothing is
    being worked on. *)
Class DrainingQueueLaws (Q K : Type) `{EqDecision K} {queue : WorkQueue Q K} {draining : DrainingQueue Q K} := {
  owed : K → Q → bool;
  working : K → Q → bool;
  debts : Q → nat;
  shutting_ask r q : ShuttingDown (ask r q) = ShuttingDown q;
  shutting_ShutDown q : ShuttingDown (ShutDown q) = true;
  shutting_Get k q q' now : Get now q = Some (k, q') → ShuttingDown q' = ShuttingDown q;
  owed_Add k q : ShuttingDown q = false → owed k (Add k q) = true;
  owed_ask k r q : owed k q = true → owed k (ask r q) = true;
  owed_ask_shut k r q : ShuttingDown q = true → owed k (ask r q) = owed k q;
  owed_ShutDown k q : owed k (ShutDown q) = owed k q;
  owed_Get k k' q q' now : Get now q = Some (k', q') → k' ≠ k → owed k q = true → owed k q' = true;
  owed_Get_shut k k' q q' now : Get now q = Some (k', q') → ShuttingDown q = true → owed k q' = true → owed k q = true;
  owed_Get_own k q q' now : Get now q = Some (k, q') → ShuttingDown q = true → owed k q = true;
  owed_Get_None k q now : Get now q = None → owed k q = true → working k q = true;
  debts_ask r q : ShuttingDown q = true → (debts (ask r q) ≤ debts q)%nat;
  debts_Get k q q' now : Get now q = Some (k, q') → ShuttingDown q = true → (debts q' < debts q)%nat;
  working_ask k r q :
    working k (ask r q) = match r with ToDone k' => working k q && bool_decide (k' ≠ k) | _ => working k q end;
  working_ShutDown k q : working k (ShutDown q) = working k q;
  working_Get k k' q q' now : Get now q = Some (k', q') →
    working k' q = false ∧ working k q' = bool_decide (k' = k) || working k q;
  drained_spec q : drained q = true ↔ ∀ k, owed k q = false ∧ working k q = false;
}.

(** ** A queue with its workers *)

Section Pool.
Context {Q K X : Type} {queue : WorkQueue Q K} {draining : DrainingQueue Q K}.

(** At [Get]; handling an item, of which [x] is left to do; returned. *)
Inductive worker := Idle | Busy (k : K) (x : X) | Gone.

Record pool := mkPool { po_queue : Q; po_workers : list worker }.

Definition with_queue (q : Q) (p : pool) : pool := mkPool q (po_workers p).
Definition with_worker (i : nat) (w : worker) (p : pool) : pool :=
  mkPool (po_queue p) (<[i := w]> (po_workers p)).

(** The [i]-th worker comes back from [Get]: with an item, or to return. *)
Definition take (now : Z) (x : X) (i : nat) (p : pool) : option (option K * pool) :=
  match Get now (po_queue p) with
  | Some (k, q) => Some (Some k, with_worker i (Busy k x) (with_queue q p))
  | None => if ShuttingDown (po_queue p) then Some (None, with_worker i Gone p) else None
  end.

Definition all_gone (p : pool) : bool :=
  forallb (λ w, match w with Gone => true | _ => false end) (po_workers p).

End Pool.
Arguments worker : clear implicits. Arguments pool : clear implicits.

(** ** The program *)

(** What [Shutdown] closes in the end; the websockets by number. *)
Inductive closing := CloseVenue (n : nat) | CloseLogs | CloseStore | StopLimiter | CancelContext.

Inductive stage :=
| Running
| StoppingServer
| AwaitingRequests
| DrainingDeals
| DrainingOrders
| AwaitingWorkers (canceled : bool)
| Closing (rest : list closing).

Inductive shutdown_error := ServerFailed | ServerTimeout | StoreNotClosed.

Definition item : Type := Engine.WorkKey + OrderWork.

(** What happened, in order.  An item that a queue ignored was refused; the flag says
    whether it was the worker of a deal that brought it. *)
Inductive event :=
| Queued (j : item)
| Refused (by_worker : bool) (j : item)
| Taken (j : item)
| Settled (j : item)
| WorkersCanceled
| Closed (c : closing).

(** The calls of the server and of the tickers are those from outside. *)
Inductive outside := RequestBegins | RequestEnds | BringsDeal (k : Engine.WorkKey) | BringsOrder (w : OrderWork).

(** How a wait of [Shutdown] ends. *)
Inductive outcome := AsWanted | TimedOut | Failed.

Section System.
Context {QD QO : Type} {deal_queue : WorkQueue QD Engine.WorkKey} {order_queue : WorkQueue QO OrderWork}.
Context {deal_draining : DrainingQueue QD Engine.WorkKey} {order_draining : DrainingQueue QO OrderWork}.
(** The errors that wrap one of a context; the websockets of the venues; whether
    logs are stored. *)
Context (wraps : string → bool) (venues : nat) (logs : bool).

(** What is left of handling a deal: orders to emit, and then its outcome.  What a
    deal brings and how an order ends is left open: [EngineFacts] and
    [EmitterFacts] are about that. *)
Definition deal_rest : Type := list OrderWork * option deal_failure.
Definition order_rest : Type := option Emitter.failure.

Record system := mkSystem {
  sy_stage : stage;
  sy_deals : pool QD Engine.WorkKey deal_rest;
  sy_orders : pool QO OrderWork order_rest;
  sy_accepting : bool;
  sy_requests : nat;
  sy_err : option shutdown_error;
  sy_trace : list event;
}.

Definition with_deals (p : pool QD Engine.WorkKey deal_rest) (es : list event) (s : system) : system :=
  mkSystem (sy_stage s) p (sy_orders s) (sy_accepting s) (sy_requests s) (sy_err s) (sy_trace s ++ es).
Definition with_orders (p : pool QO OrderWork order_rest) (es : list event) (s : system) : system :=
  mkSystem (sy_stage s) (sy_deals s) p (sy_accepting s) (sy_requests s) (sy_err s) (sy_trace s ++ es).
Definition with_server (accepting : bool) (requests : nat) (s : system) : system :=
  mkSystem (sy_stage s) (sy_deals s) (sy_orders s) accepting requests (sy_err s) (sy_trace s).
Definition at_stage (st : stage) (err : option shutdown_error) (es : list event) (s : system) : system :=
  mkSystem st (sy_deals s) (sy_orders s) (sy_accepting s) (sy_requests s) err (sy_trace s ++ es).

(** *** The workers and the world outside *)

Definition add_deal (k : Engine.WorkKey) (s : system) : system :=
  let q := po_queue (sy_deals s) in
  with_deals (with_queue (Add k q) (sy_deals s))
    [if ShuttingDown q then Refused false (inl k) else Queued (inl k)] s.
Definition add_order (by_worker : bool) (w : OrderWork) (s : system) : system :=
  let q := po_queue (sy_orders s) in
  with_orders (with_queue (Add w q) (sy_orders s))
    [if ShuttingDown q then Refused by_worker (inr w) else Queued (inr w)] s.

(** The [i]-th worker of [runWorker]; [does] is what the next deal will bring. *)
Definition deal_step (now : Z) (does : deal_rest) (i : nat) (s : system) : option system :=
  match po_workers (sy_deals s) !! i with
  | Some Idle =>
    '(k, p) ← take now does i (sy_deals s);
    Some (with_deals p (match k with Some k => [Taken (inl k)] | None => [] end) s)
  | Some (Busy k (w :: ws, err)) =>
    let s := add_order true w s in
    Some (with_deals (with_worker i (Busy k (ws, err)) (sy_deals s)) [] s)
  | Some (Busy k ([], err)) =>
    Some (with_deals (with_worker i Idle (with_queue (processWorkItem err k (po_queue (sy_deals s))) (sy_deals s)))
            [Settled (inl k)] s)
  | Some Gone | None => None
  end.

(** The [i]-th worker of [runOrderWorker]. *)
Definition order_step (now : Z) (does : order_rest) (i : nat) (s : system) : option system :=
  match po_workers (sy_orders s) !! i with
  | Some Idle =>
    '(w, p) ← take now does i (sy_orders s);
    Some (with_orders p (match w with Some w => [Taken (inr w)] | None => [] end) s)
  | Some (Busy w err) =>
    Some (with_orders
            (with_worker i Idle (with_queue (processOrderItem wraps err w (po_queue (sy_orders s))) (sy_orders s)))
            [Settled (inr w)] s)
  | Some Gone | None => None
  end.

Definition outside_step (o : outside) (s : system) : option system :=
  match o with
  | RequestBegins => if sy_accepting s then Some (with_server true (S (sy_requests s)) s) else None
  | RequestEnds =>
    match sy_requests s with S n => Some (with_server (sy_accepting s) n s) | O => None end
  | BringsDeal k => Some (add_deal k s)
  | BringsOrder w => Some (add_order false w s)
  end.

(** *** [Shutdown] *)

(** Each queue begins to shut down as [Shutdown] gets to it. *)
Definition shut_deals (s : system) : system :=
  with_deals (with_queue (ShutDown (po_queue (sy_deals s))) (sy_deals s)) [] s.
Definition shut_orders (s : system) : system :=
  with_orders (with_queue (ShutDown (po_queue (sy_orders s))) (sy_orders s)) [] s.

Definition workers_gone (s : system) : bool := all_gone (sy_deals s) && all_gone (sy_orders s).

Definition closings : list closing :=
  (CloseVenue <$> seq 0 venues) ++ (if logs then [CloseLogs] else []) ++ [CloseStore; StopLimiter; CancelContext].

Definition close_error (c : closing) (o : outcome) (err : option shutdown_error) : option shutdown_error :=
  match c, o, err with
  | CloseStore, AsWanted, _ => err
  | CloseStore, _, None => Some StoreNotClosed
  | _, _, _ => err
  end.

(** [drainHTTPServer]: an error that waits in the channel comes before the shutdown
    of the server, which has ten seconds. *)
Definition drainHTTPServer (o : outcome) (s : system) : option system :=
  match sy_stage s, o with
  | StoppingServer, Failed => Some (at_stage DrainingDeals (Some ServerFailed) [] s)
  | StoppingServer, AsWanted => Some (at_stage AwaitingRequests (sy_err s) [] (with_server false (sy_requests s) s))
  | AwaitingRequests, AsWanted =>
    if (sy_requests s =? 0)%nat then Some (at_stage DrainingDeals (sy_err s) [] s) else None
  | AwaitingRequests, TimedOut => Some (at_stage DrainingDeals (Some ServerTimeout) [] s)
  | AwaitingRequests, Failed => Some (at_stage DrainingDeals (Some ServerFailed) [] s)
  | _, _ => None
  end.

Definition Shutdown (o : outcome) (s : system) : option system :=
  match sy_stage s with
  | Running => Some (at_stage StoppingServer (sy_err s) [] s)
  | StoppingServer | AwaitingRequests =>
    s' ← drainHTTPServer o s;
    Some (match sy_stage s' with DrainingDeals => shut_deals s' | _ => s' end)
  | DrainingDeals =>
    if drained (po_queue (sy_deals s)) then Some (shut_orders (at_stage DrainingOrders (sy_err s) [] s)) else None
  | DrainingOrders =>
    if drained (po_queue (sy_orders s)) then Some (at_stage (AwaitingWorkers false) (sy_err s) [] s) else None
  | AwaitingWorkers canceled =>
    match o, canceled with
    | TimedOut, false => Some (at_stage (AwaitingWorkers true) (sy_err s) [WorkersCanceled] s)
    | _, _ => if workers_gone s then Some (at_stage (Closing closings) (sy_err s) [] s) else None
    end
  | Closing (c :: rest) => Some (at_stage (Closing rest) (close_error c o (sy_err s)) [Closed c] s)
  | Closing [] => None
  end.

(** *** All together *)

Inductive move :=
| DealMove (now : Z) (does : deal_rest) (i : nat)
| OrderMove (now : Z) (does : order_rest) (i : nat)
| MainMove (o : outcome)
| OutsideMove (o : outside).

Definition do_move (m : move) (s : system) : option system :=
  match m with
  | DealMove now does i => deal_step now does i s
  | OrderMove now does i => order_step now does i s
  | MainMove o => Shutdown o s
  | OutsideMove o => outside_step o s
  end.

Definition step (s s' : system) : Prop := ∃ m, do_move m s = Some s'.

(** After [Start]: the workers wait, the server is up. *)
Definition start_system (dealWorkers orderWorkers : Z) (deals : QD) (orders : QO) : system :=
  mkSystem Running
    (mkPool deals (replicate (Z.to_nat dealWorkers) Idle))
    (mkPool orders (replicate (Z.to_nat orderWorkers) Idle)) true 0 None [].

End System.

End Shutdown.
