(* ===== verification/Vault.v ===== *)
(** * The vault: [internal/vault/types.go] and [internal/vault/controller.go]

    The decrypted secrets with their validation, and the controller whose critical
    sections are atomic functions.  A ready channel is a number; a closed one is a
    member of [cc_closed].  Pointers to values that the code copies on the way in
    and out are options. *)

From Stdlib Require Import Ascii.
From S2P Require Import Prelude GoString Domain.
Import GoString Domain.

Module Vault.

(** ** Secrets *)

Section Types.
(** The values of a venue's flags are any JSON values. *)
Context {json : Type}.

Record VenueSecret := mkVenueSecret {
  vs_ID : string;
  vs_Type : string;
  vs_DisplayName : string;
  vs_Wallet : string;
  vs_PrivateKey : string;
  vs_APIURL : string;
  vs_WebsocketURL : string;
  vs_Flags : option (gmap string json);
  vs_Primary : bool;
}.

Record Data := mkData {
  THREECOMMASAPIKEY : string;
  THREECOMMASPRIVATEKEY : string;
  THREECOMMASPLANTIER : string;
  Venues : list VenueSecret;
}.

Record Secrets := mkSecrets { se_Secrets : Data; se_Raw : option string; se_ReceivedAt : Z }.

(** [copyFlags] keeps nil apart from empty. *)
Definition copyFlags (src : option (gmap string json)) : option (gmap string json) :=
  match src with
  | None => None
  | Some m => Some (map_fold (λ k v dst, <[k := v]> dst) ∅ m)
  end.

Definition CloneVenue (v : VenueSecret) : VenueSecret :=
  mkVenueSecret (vs_ID v) (vs_Type v) (vs_DisplayName v) (vs_Wallet v) (vs_PrivateKey v)
    (vs_APIURL v) (vs_WebsocketURL v) (copyFlags (vs_Flags v)) (vs_Primary v).

Definition CloneData (d : Data) : Data :=
  mkData (THREECOMMASAPIKEY d) (THREECOMMASPRIVATEKEY d) (THREECOMMASPLANTIER d)
    (CloneVenue <$> Venues d).

Definition Clone (s : Secrets) : Secrets :=
  mkSecrets (CloneData (se_Secrets s)) (se_Raw s) (se_ReceivedAt s).

Definition PrimaryVenueByType (venueType : string) (d : Data) : option VenueSecret :=
  CloneVenue <$> find (λ v, vs_Primary v &&
    (String.eqb venueType "" || EqualFold (vs_Type v) venueType)) (Venues d).

(** *** The wire format *)

(** A venue as [json.Unmarshal] decodes it has the fields of [VenueSecret]. *)
Definition wireVenue : Type := VenueSecret.

Definition convertWireVenue (w : wireVenue) : VenueSecret :=
  mkVenueSecret (TrimSpace (vs_ID w)) (TrimSpace (vs_Type w)) (TrimSpace (vs_DisplayName w))
    (TrimSpace (vs_Wallet w)) (TrimSpace (vs_PrivateKey w)) (TrimSpace (vs_APIURL w))
    (TrimSpace (vs_WebsocketURL w)) (copyFlags (vs_Flags w)) (vs_Primary w).

(** The decoded venues field: absent or null, an object, an array, or a text the
    decoder or the first byte rejects. *)
Inductive wire_venues :=
| WireNull
| WireMap (m : gmap string wireVenue)
| WireList (l : list wireVenue)
| WireBad.

Inductive wire_error := ErrVenuesPayload.

Definition keyed_venue (key : string) (venue : wireVenue) : VenueSecret :=
  let v := convertWireVenue venue in
  if String.eqb (vs_ID v) ""
  then mkVenueSecret (TrimSpace key) (vs_Type v) (vs_DisplayName v) (vs_Wallet v) (vs_PrivateKey v)
         (vs_APIURL v) (vs_WebsocketURL v) (vs_Flags v) (vs_Primary v)
  else v.

Definition id_le (a b : VenueSecret) : Prop := scompare (vs_ID a) (vs_ID b) ≤ 0.
#[export] Instance id_le_dec a b : Decision (id_le a b).
Proof. unfold id_le. apply _. Defined.

Definition parseWireVenues {R : GoRange} (raw : wire_venues)
    : result wire_error (list VenueSecret) :=
  match raw with
  | WireNull => Ok []
  | WireMap m => Ok (merge_sort id_le ((λ x, keyed_venue x.1 x.2) <$> go_range 40 m))
  | WireList l => Ok (convertWireVenue <$> l)
  | WireBad => Err ErrVenuesPayload
  end.

(** [Data.UnmarshalJSON] on the decoded payload. *)
Definition UnmarshalJSON {R : GoRange} (apiKey privateKey planTier : string) (venues : wire_venues)
    : result wire_error Data :=
  match parseWireVenues venues with
  | Err e => Err e
  | Ok vs => Ok (mkData apiKey privateKey (ToLower (TrimSpace planTier)) vs)
  end.

(** *** Validation *)

Inductive validate_error :=
| MissingField (field : string)
| InvalidTier (e : plan_error)
| VenueMissingID
| DuplicateVenue (id : string)
| VenueMissing (id field : string)
| VenueWalletLength (id : string)
| VenueWalletHex (id : string)
| VenueKeyLength (id : string)
| VenueKeyHex (id : string)
| NoPrimaryVenue
| MultiplePrimaryVenues.

Definition is_hex (c : ascii) : bool :=
  between "0" "9" c || between "a" "f" c || between "A" "F" c.

Fixpoint all_chars (f : ascii → bool) (s : string) : bool :=
  match s with EmptyString => true | String c s => f c && all_chars f s end.

Definition blank (s : string) : bool := String.eqb (TrimSpace s) "".

(** One round of the loop over the venues: the identifier, or an error. *)
Definition validate_venue (seenIDs : gset string) (v : VenueSecret)
    : result validate_error string :=
  let id := TrimSpace (vs_ID v) in
  if String.eqb id "" then Err VenueMissingID
  else if decide (id ∈ seenIDs) then Err (DuplicateVenue id)
  else if blank (vs_Type v) then Err (VenueMissing id "type")
  else if blank (vs_Wallet v) then Err (VenueMissing id "wallet")
  else
    let cleanWallet := TrimPrefix (TrimSpace (vs_Wallet v)) "0x" in
    if negb (String.length cleanWallet =? 40)%nat then Err (VenueWalletLength id)
    else if negb (all_chars is_hex cleanWallet) then Err (VenueWalletHex id)
    else if blank (vs_PrivateKey v) then Err (VenueMissing id "private_key")
    else
      let cleanKey := TrimPrefix (TrimSpace (vs_PrivateKey v)) "0x" in
      if negb (String.length cleanKey =? 64)%nat then Err (VenueKeyLength id)
      else if negb (all_chars is_hex cleanKey) then Err (VenueKeyHex id)
      else Ok id.

Fixpoint validate_venues (l : list VenueSecret) (seenIDs : gset string) (primaryCount : Z)
    : option validate_error :=
  match l with
  | [] =>
    if primaryCount =? 0 then Some NoPrimaryVenue
    else if 1 <? primaryCount then Some MultiplePrimaryVenues
    else None
  | v :: l =>
    match validate_venue seenIDs v with
    | Err e => Some e
    | Ok id =>
      validate_venues l ({[id]} ∪ seenIDs) (if vs_Primary v then primaryCount + 1 else primaryCount)
    end
  end.

Definition Validate (d : Data) : option validate_error :=
  if blank (THREECOMMASAPIKEY d) then Some (MissingField "secrets.THREECOMMAS_API_KEY")
  else if blank (THREECOMMASPRIVATEKEY d) then Some (MissingField "secrets.THREECOMMAS_PRIVATE_KEY")
  else if blank (THREECOMMASPLANTIER d) then Some (MissingField "secrets.THREECOMMAS_PLAN_TIER")
  else match ParseThreeCommasPlanTier (THREECOMMASPLANTIER d) with
  | Err e => Some (InvalidTier e)
  | Ok _ =>
    match Venues d with
    | [] => None
    | vs => validate_venues vs ∅ 0
    end
  end.

(** ** The controller *)

Definition State : Type := string.
Definition StateSetupRequired : State := "setup_required".
Definition StateSealed : State := "sealed".
Definition StateUnsealed : State := "unsealed".

Record User := mkUser { us_ID : Z; us_Username : string; us_CreatedAt : Z }.

Inductive vault_error := ErrInvalidTransition | ErrPrimaryVenueRequired.

Record Controller := mkController {
  cc_state : State;
  cc_user : option User;
  cc_sealedAt : option Z;
  cc_unsealedAt : option Z;
  cc_sessionExpiresAt : option Z;
  cc_secrets : option Secrets;
  cc_ready : nat;
  cc_readyClosed : bool;
  cc_closed : gset nat;
}.

Record controllerConfig := mkConfig {
  cf_user : option User;
  cf_sealedAt : option Z;
  cf_unsealedAt : option Z;
  cf_sessionExpiresAt : option Z;
  cf_secrets : option Secrets;
}.

Definition NewController (initial : State) (cfg : controllerConfig) : Controller :=
  let unsealed := String.eqb initial StateUnsealed in
  mkController initial (cf_user cfg) (cf_sealedAt cfg) (cf_unsealedAt cfg)
    (cf_sessionExpiresAt cfg) (Clone <$> cf_secrets cfg) 0 unsealed
    (if unsealed then {[0%nat]} else ∅).

Definition resetReadyLocked (c : Controller) : Controller :=
  if cc_readyClosed c
  then mkController (cc_state c) (cc_user c) (cc_sealedAt c) (cc_unsealedAt c)
         (cc_sessionExpiresAt c) (cc_secrets c) (S (cc_ready c)) false (cc_closed c)
  else c.

Definition signalReadyLocked (c : Controller) : Controller :=
  if cc_readyClosed c then c
  else mkController (cc_state c) (cc_user c) (cc_sealedAt c) (cc_unsealedAt c)
         (cc_sessionExpiresAt c) (cc_secrets c) (cc_ready c) true ({[cc_ready c]} ∪ cc_closed c).

Record ControllerStatus := mkStatus {
  cs_State : State;
  cs_User : option User;
  cs_SealedAt : option Z;
  cs_UnsealedAt : option Z;
  cs_SessionExpiresAt : option Z;
}.

Definition Status (c : Controller) : ControllerStatus :=
  mkStatus (cc_state c) (cc_user c) (cc_sealedAt c) (cc_unsealedAt c) (cc_sessionExpiresAt c).

(** [Secrets()]. *)
Definition GetSecrets (c : Controller) : option Secrets := Clone <$> cc_secrets c.

Definition SetUser (u : option User) (c : Controller) : Controller :=
  mkController (cc_state c) u (cc_sealedAt c) (cc_unsealedAt c) (cc_sessionExpiresAt c)
    (cc_secrets c) (cc_ready c) (cc_readyClosed c) (cc_closed c).

Definition RequireSetup (now : Z) (c : Controller) : Controller :=
  if String.eqb (cc_state c) StateSetupRequired then c
  else
    let c := resetReadyLocked c in
    mkController StateSetupRequired (cc_user c) (Some now) None None None (cc_ready c)
      (cc_readyClosed c) (cc_closed c).

Definition Seal (now : Z) (c : Controller) : option vault_error * Controller :=
  if String.eqb (cc_state c) StateSealed then (None, c)
  else if String.eqb (cc_state c) StateSetupRequired || String.eqb (cc_state c) StateUnsealed then
    let c := resetReadyLocked c in
    (None, mkController StateSealed (cc_user c) (Some now) (cc_unsealedAt c) None None (cc_ready c)
             (cc_readyClosed c) (cc_closed c))
  else (Some ErrInvalidTransition, c).

Definition ensurePrimaryVenuePresent (data : Data) : option vault_error :=
  if existsb vs_Primary (Venues data) then None else Some ErrPrimaryVenueRequired.

Definition Unseal (secrets : Secrets) (sessionExpiresAt : option Z) (now : Z) (c : Controller)
    : option vault_error * Controller :=
  if String.eqb (cc_state c) StateSealed || String.eqb (cc_state c) StateSetupRequired ||
     String.eqb (cc_state c) StateUnsealed
  then match ensurePrimaryVenuePresent (se_Secrets secrets) with
  | Some e => (Some e, c)
  | None =>
    (None, signalReadyLocked
       (mkController StateUnsealed (cc_user c) (cc_sealedAt c) (Some now) sessionExpiresAt
          (Some (Clone secrets)) (cc_ready c) (cc_readyClosed c) (cc_closed c)))
  end
  else (Some ErrInvalidTransition, c).

(** The locked part of [WaitUntilUnsealed]: [None] returns at once, otherwise the
    caller waits for the channel to close. *)
Definition WaitUntilUnsealed (c : Controller) : option nat :=
  if String.eqb (cc_state c) StateUnsealed then None else Some (cc_ready c).

End Types.

End Vault.
