(* ===== verification/Debugmode.v ===== *)
(** * Debug mode: [internal/debugmode] and the vault of [main_debug.go]

    A binary with the build tag [debugmode] does not wait for its owner: it takes the
    secrets from the environment and unseals the vault itself. *)

From S2P Require Import Prelude GoString GoNet Domain Vault.
Import GoString GoNet Domain.

Module Debugmode.

(** Whether the binary has the tag. *)
Definition Available (debugmode : bool) : bool := debugmode.

Inductive debug_error :=
| ErrUnavailable
| NotSet (key : string)
| IsEmpty (key : string)
| TierInvalid (e : plan_error)
| URLInvalid.

Definition envDebugThreeCommasAPIKey : string := "RECOMMA_DEBUG_THREECOMMAS_API_KEY".
Definition envDebugThreeCommasSecret : string := "RECOMMA_DEBUG_THREECOMMAS_PRIVATE_KEY".
Definition envDebugThreeCommasPlanTier : string := "RECOMMA_DEBUG_THREECOMMAS_PLAN_TIER".
Definition envDebugHyperliquidWallet : string := "RECOMMA_DEBUG_HYPERLIQUID_WALLET".
Definition envDebugHyperliquidKey : string := "RECOMMA_DEBUG_HYPERLIQUID_PRIVATE_KEY".
Definition envDebugHyperliquidBaseURL : string := "RECOMMA_DEBUG_HYPERLIQUID_URL".
Definition debugUserUsername : string := "debug".

Section Env.
Context {json : Type}.
(** The environment, to which the file [.env.debug] has been added. *)
Variable env : string → option string.

Definition lookup_env (envKey : string) : result debug_error string :=
  match env envKey with
  | None => Err (NotSet envKey)
  | Some raw =>
    let value := TrimSpace raw in
    if String.eqb value "" then Err (IsEmpty envKey) else Ok value
  end.

Definition LoadSecretsFromEnv (debugmode : bool) (now : Z) : result debug_error (Vault.Secrets (json := json)) :=
  if negb debugmode then Err ErrUnavailable
  else
    threeCommasAPIKey ← lookup_env envDebugThreeCommasAPIKey;
    threeCommasPrivateKey ← lookup_env envDebugThreeCommasSecret;
    let planTierValue := TrimSpace (default ""%string (env envDebugThreeCommasPlanTier)) in
    match ParseThreeCommasPlanTierOrDefault planTierValue with
    | Err e => Err (TierInvalid e)
    | Ok (planTier, _) =>
      hyperliquidWallet ← lookup_env envDebugHyperliquidWallet;
      hyperliquidPrivateKey ← lookup_env envDebugHyperliquidKey;
      hyperliquidURL ← lookup_env envDebugHyperliquidBaseURL;
      match ParseRequestURI hyperliquidURL with
      | None => Err URLInvalid
      | Some _ =>
        Ok (Vault.mkSecrets
              (Vault.mkData threeCommasAPIKey threeCommasPrivateKey planTier
                 [Vault.mkVenueSecret "hyperliquid:default" "hyperliquid" "Default Hyperliquid Venue"
                    hyperliquidWallet hyperliquidPrivateKey hyperliquidURL "" None true])
              None now)
      end
    end.

(** How [main] of a debug binary unseals its vault: what is fatal, or the vault. *)
Definition unseal_from_env (now : Z) (c : Vault.Controller (json := json))
    : result (debug_error + Vault.vault_error) (Vault.Controller (json := json)) :=
  match LoadSecretsFromEnv true now with
  | Err e => Err (inl e)
  | Ok secrets =>
    match Vault.Unseal secrets None now c with
    | (Some e, _) => Err (inr e)
    | (None, c) => Ok c
    end
  end.

End Env.

(** The synthetic owner; a binary without the tag panics. *)
Definition DebugUser (debugmode : bool) (now : Z) : option Vault.User :=
  if debugmode then Some (Vault.mkUser 0 debugUserUsername now) else None.

End Debugmode.
