(* ===== verification/VaultStore.v ===== *)
(** * The vault tables: [storage/vault.go]

    The owners of the vault, their encrypted payloads and their WebAuthn
    credentials, with the statements of [storage/sqlcgen/queries.sql.go] on them.
    Bytes are texts; a nullable column is an option.  Foreign keys are not
    enforced, so that no row depends on another. *)

From S2P Require Import Prelude GoString Store Tables Vault.
Import GoString Store Tables.

Module VaultStore.

(** ** Tables *)

Record user_row := mkUserRow { ur_id : Z; ur_username : string; ur_created_at_utc : Z }.

Record payload_row := mkPayloadRow {
  pr_id : Z;
  pr_user_id : Z;
  pr_version : string;
  pr_ciphertext : string;
  pr_nonce : string;
  pr_associated_data : option string;
  pr_prf_params : option string;
  pr_updated_at_utc : Z;
}.

Record credential_row := mkCredentialRow {
  wr_id : Z;
  wr_user_id : Z;
  wr_credential_id : string;
  wr_credential : string;
  wr_created_at_utc : Z;
  wr_updated_at_utc : Z;
}.

Record VaultTables := mkVaultTables {
  vt_users : auto user_row;
  vt_payloads : auto payload_row;
  vt_credentials : auto credential_row;
}.

Definition empty_tables : VaultTables := mkVaultTables (mkAuto [] 0) (mkAuto [] 0) (mkAuto [] 0).

(** Bytes that come back from a nullable column: a driver may read an empty value
    as NULL. *)
Class BlobDriver := read_blob : option string → option string.
Class BlobLaws (driver : BlobDriver) := {
  read_null : read_blob None = None;
  read_bytes : ∀ b, b ≠ "" → read_blob (Some b) = Some b;
}.

(** ** The values of [internal/vault/types.go] *)

Record Payload := mkPayload {
  py_ID : Z;
  py_UserID : Z;
  py_Version : string;
  py_Ciphertext : string;
  py_Nonce : string;
  py_AssociatedData : option string;
  py_PRFParams : option string;
  py_UpdatedAt : Z;
}.

Record Credential := mkCredential {
  cr_ID : Z;
  cr_UserID : Z;
  cr_CredentialID : string;
  cr_Credential : string;
  cr_CreatedAt : Z;
  cr_UpdatedAt : Z;
}.

Record PayloadInput := mkPayloadInput {
  pi_UserID : Z;
  pi_Version : string;
  pi_Ciphertext : string;
  pi_Nonce : string;
  pi_AssociatedData : option string;
  pi_PRFParams : option string;
  pi_UpdatedAt : Z;
}.

Record CredentialInput := mkCredentialInput {
  ci_UserID : Z;
  ci_CredentialID : string;
  ci_Credential : string;
}.

Section VaultStore.
Context {sqlite : SqliteJSON} {driver : BlobDriver}.

(** ** Statements *)

Definition put_users (t : auto user_row) (d : VaultTables) : VaultTables :=
  mkVaultTables t (vt_payloads d) (vt_credentials d).
Definition put_payloads (t : auto payload_row) (d : VaultTables) : VaultTables :=
  mkVaultTables (vt_users d) t (vt_credentials d).
Definition put_credentials (t : auto credential_row) (d : VaultTables) : VaultTables :=
  mkVaultTables (vt_users d) (vt_payloads d) t.

(** The user of that name, made when there is none. *)
Definition q_EnsureVaultUser (now : Z) (username : string) (d : VaultTables)
    : user_row * VaultTables :=
  match find (λ r, String.eqb (ur_username r) username) (au_rows (vt_users d)) with
  | Some r => (r, d)
  | None =>
    let r := mkUserRow (au_seq (vt_users d) + 1) username now in
    (r, put_users (mkAuto (au_rows (vt_users d) ++ [r]) (ur_id r)) d)
  end.

Definition q_GetVaultUser (d : VaultTables) : result store_error user_row :=
  one (order_by (lex_le [by_int ur_id]) (au_rows (vt_users d))).
Definition q_GetVaultUserByID (id : Z) (d : VaultTables) : result store_error user_row :=
  one (filter (λ r, ur_id r = id) (au_rows (vt_users d))).
Definition q_GetVaultUserByUsername (username : string) (d : VaultTables)
    : result store_error user_row :=
  one (filter (λ r, ur_username r = username) (au_rows (vt_users d))).
Definition q_DeleteVaultUserByID (id : Z) (d : VaultTables) : VaultTables :=
  put_users (mkAuto (filter (λ r, ur_id r ≠ id) (au_rows (vt_users d))) (au_seq (vt_users d))) d.

(** [json] of a nullable text. *)
Definition json_or_null (o : option string) : result store_error (option string) :=
  match o with
  | None => Ok None
  | Some raw => match json raw with Some p => Ok (Some p) | None => Err malformed_json end
  end.

Definition q_UpsertVaultPayload (p : PayloadInput) (updated : Z) (d : VaultTables)
    : result store_error VaultTables :=
  prf ← json_or_null (pi_PRFParams p);
  let t := vt_payloads d in
  let row id := mkPayloadRow id (pi_UserID p) (pi_Version p) (pi_Ciphertext p) (pi_Nonce p)
                  (pi_AssociatedData p) prf updated in
  Ok (put_payloads
        (if existsb (λ r, pr_user_id r =? pi_UserID p) (au_rows t)
         then mkAuto ((λ r, if pr_user_id r =? pi_UserID p then row (pr_id r) else r) <$> au_rows t)
                (au_seq t)
         else mkAuto (au_rows t ++ [row (au_seq t + 1)]) (au_seq t + 1)) d).

Definition q_GetVaultPayloadForUser (user_id : Z) (d : VaultTables)
    : result store_error payload_row :=
  one (filter (λ r, pr_user_id r = user_id) (au_rows (vt_payloads d))).
Definition q_DeleteVaultPayloadForUser (user_id : Z) (d : VaultTables) : VaultTables :=
  put_payloads (mkAuto (filter (λ r, pr_user_id r ≠ user_id) (au_rows (vt_payloads d)))
                  (au_seq (vt_payloads d))) d.

(** A known credential moves to the user that presents it. *)
Definition q_UpsertWebauthnCredential (now : Z) (c : CredentialInput) (d : VaultTables)
    : result store_error VaultTables :=
  match json (ci_Credential c) with
  | None => Err malformed_json
  | Some raw =>
    let t := vt_credentials d in
    Ok (put_credentials
          (if existsb (λ r, String.eqb (wr_credential_id r) (ci_CredentialID c)) (au_rows t)
           then mkAuto ((λ r, if String.eqb (wr_credential_id r) (ci_CredentialID c)
                              then mkCredentialRow (wr_id r) (ci_UserID c) (wr_credential_id r) raw
                                     (wr_created_at_utc r) now
                              else r) <$> au_rows t) (au_seq t)
           else mkAuto (au_rows t ++ [mkCredentialRow (au_seq t + 1) (ci_UserID c)
                                        (ci_CredentialID c) raw now now]) (au_seq t + 1)) d)
  end.

Definition q_ListWebauthnCredentialsByUser (user_id : Z) (d : VaultTables) : list credential_row :=
  order_by (lex_le [by_int wr_id]) (filter (λ r, wr_user_id r = user_id) (au_rows (vt_credentials d))).
Definition q_GetWebauthnCredentialByID (id : string) (d : VaultTables)
    : result store_error credential_row :=
  one (filter (λ r, wr_credential_id r = id) (au_rows (vt_credentials d))).
Definition q_DeleteWebauthnCredentialByID (id : string) (d : VaultTables) : VaultTables :=
  put_credentials (mkAuto (filter (λ r, wr_credential_id r ≠ id) (au_rows (vt_credentials d)))
                     (au_seq (vt_credentials d))) d.

(** ** The operations of the service *)

Definition mapVaultUser (r : user_row) : Vault.User :=
  Vault.mkUser (ur_id r) (ur_username r) (UnixMilli (ur_created_at_utc r)).

(** A missing row is no error. *)
Definition optional {A B} (f : A → B) (r : result store_error A) : result store_error (option B) :=
  match r with
  | Ok a => Ok (Some (f a))
  | Err ErrNoRows => Ok None
  | Err e => Err e
  end.

Definition EnsureVaultUser (now : Z) (username : string) (d : VaultTables)
    : result store_error Vault.User * VaultTables :=
  if String.eqb (TrimSpace username) "" then (Err (ErrStore "username cannot be empty"), d)
  else
    let '(row, d) := q_EnsureVaultUser (unix_milli now) username d in
    (Ok (mapVaultUser row), d).

Definition GetVaultUser (d : VaultTables) : result store_error (option Vault.User) :=
  optional mapVaultUser (q_GetVaultUser d).
Definition GetVaultUserByID (id : Z) (d : VaultTables) : result store_error (option Vault.User) :=
  optional mapVaultUser (q_GetVaultUserByID id d).
Definition GetVaultUserByUsername (username : string) (d : VaultTables)
    : result store_error (option Vault.User) :=
  optional mapVaultUser (q_GetVaultUserByUsername username d).
Definition DeleteVaultUserByID (id : Z) (d : VaultTables) : VaultTables :=
  q_DeleteVaultUserByID id d.

Definition UpsertVaultPayload (now : Z) (input : PayloadInput) (d : VaultTables)
    : result store_error unit * VaultTables :=
  if pi_UserID input =? 0 then (Err (ErrStore "user id is required"), d)
  else if String.eqb (TrimSpace (pi_Version input)) "" then
    (Err (ErrStore "payload version is required"), d)
  else if String.eqb (pi_Ciphertext input) "" then (Err (ErrStore "ciphertext is required"), d)
  else if String.eqb (pi_Nonce input) "" then (Err (ErrStore "nonce is required"), d)
  else
    let at_ := if IsZero (pi_UpdatedAt input) then now else pi_UpdatedAt input in
    match q_UpsertVaultPayload input (unix_milli at_) d with
    | Ok d' => (Ok tt, d')
    | Err e => (Err e, d)
    end.

Definition GetVaultPayloadForUser (userID : Z) (d : VaultTables)
    : result store_error (option Payload) :=
  optional (λ r, mkPayload (pr_id r) (pr_user_id r) (pr_version r) (pr_ciphertext r) (pr_nonce r)
                   (read_blob (pr_associated_data r)) (read_blob (pr_prf_params r))
                   (UnixMilli (pr_updated_at_utc r))) (q_GetVaultPayloadForUser userID d).

Definition DeleteVaultPayloadForUser (userID : Z) (d : VaultTables) : VaultTables :=
  q_DeleteVaultPayloadForUser userID d.

Definition UpsertWebauthnCredential (now : Z) (input : CredentialInput) (d : VaultTables)
    : result store_error unit * VaultTables :=
  if ci_UserID input =? 0 then (Err (ErrStore "user id is required"), d)
  else if String.eqb (ci_CredentialID input) "" then
    (Err (ErrStore "credential id is required"), d)
  else if String.eqb (ci_Credential input) "" then
    (Err (ErrStore "credential payload is required"), d)
  else
    match q_UpsertWebauthnCredential (unix_milli now) input d with
    | Ok d' => (Ok tt, d')
    | Err e => (Err e, d)
    end.

Definition credential_of (r : credential_row) : Credential :=
  mkCredential (wr_id r) (wr_user_id r) (wr_credential_id r) (wr_credential r)
    (UnixMilli (wr_created_at_utc r)) (UnixMilli (wr_updated_at_utc r)).

Definition ListWebauthnCredentialsByUser (userID : Z) (d : VaultTables) : list Credential :=
  credential_of <$> q_ListWebauthnCredentialsByUser userID d.

Definition GetWebauthnCredential (credentialID : string) (d : VaultTables)
    : result store_error (option Credential) :=
  if String.eqb credentialID "" then Err (ErrStore "credential id is required")
  else optional credential_of (q_GetWebauthnCredentialByID credentialID d).

Definition DeleteWebauthnCredential (credentialID : string) (d : VaultTables)
    : result store_error unit * VaultTables :=
  if String.eqb credentialID "" then (Err (ErrStore "credential id is required"), d)
  else (Ok tt, q_DeleteWebauthnCredentialByID credentialID d).

End VaultStore.

End VaultStore.
