(* ===== verification/Server.v ===== *)
(** * The API server and who may use it

    The state behind the handlers of [internal/api] and the sessions that guard
    them: the session manager and [requireSession], [requireUnsealedSession] of
    [internal/api/vault.go], [resolveActor] and the page sizes of [handler.go].  A
    handler is a function on the state; its answer is a status code with a body,
    or the error that the framework turns into a failure.  A request brings the
    time it is handled at, its session cookie and the randomness it is given. *)

From S2P Require Import Prelude GoFloat GoString OrderId Domain Store Tables Stream Storage.
From S2P Require Import Vault VaultStore.
Import GoFloat GoString Domain Store Tables Storage.

Module Server.

Definition defaultVaultSessionTTL : Z := 30 * 60 * second.
Definition maxVaultSessionTTL : Z := 24 * 3600 * second.
Definition minVaultSessionTTL : Z := 60 * second.
Definition defaultPageSize : Z := 100.
Definition maxPageSize : Z := 500.

(** ** State *)

Record vaultSession := mkSession { vn_token : string; vn_expiresAt : Z }.

(** The flags of a venue are JSON values. *)
Abbreviation Controller := (@Vault.Controller flag).
Abbreviation Secrets := (@Vault.Secrets flag).

Section State.
(** The data of the WebAuthn library's ceremonies. *)
Context {SessionData : Type}.

Record sessionEntry := mkEntry { we_userID : Z; we_data : SessionData; we_expiry : Z }.

Record WebAuthnService := mkWebAuthn {
  wa_registrationCache : gmap string sessionEntry;
  wa_loginCache : gmap string sessionEntry;
  wa_sessionTTL : Z;
}.

Record Server := mkServer {
  sv_store : Storage;
  sv_tables : VaultStore.VaultTables;
  sv_vault : option Controller;
  sv_session : option vaultSession;
  sv_webauthn : option WebAuthnService;
  sv_debug : bool;
  sv_maxMultiplier : f64;
  sv_orders : option (list OrderWork);
}.

Definition with_store (x : Storage) (s : Server) : Server :=
  mkServer x (sv_tables s) (sv_vault s) (sv_session s) (sv_webauthn s) (sv_debug s)
    (sv_maxMultiplier s) (sv_orders s).
Definition with_tables (x : VaultStore.VaultTables) (s : Server) : Server :=
  mkServer (sv_store s) x (sv_vault s) (sv_session s) (sv_webauthn s) (sv_debug s)
    (sv_maxMultiplier s) (sv_orders s).
Definition with_vault (x : option Controller) (s : Server) : Server :=
  mkServer (sv_store s) (sv_tables s) x (sv_session s) (sv_webauthn s) (sv_debug s)
    (sv_maxMultiplier s) (sv_orders s).
Definition with_session (x : option vaultSession) (s : Server) : Server :=
  mkServer (sv_store s) (sv_tables s) (sv_vault s) x (sv_webauthn s) (sv_debug s)
    (sv_maxMultiplier s) (sv_orders s).
Definition with_webauthn (x : option WebAuthnService) (s : Server) : Server :=
  mkServer (sv_store s) (sv_tables s) (sv_vault s) (sv_session s) x (sv_debug s)
    (sv_maxMultiplier s) (sv_orders s).
Definition with_orders (x : option (list OrderWork)) (s : Server) : Server :=
  mkServer (sv_store s) (sv_tables s) (sv_vault s) (sv_session s) (sv_webauthn s) (sv_debug s)
    (sv_maxMultiplier s) x.

Definition Handler (A : Type) : Type := ST Server A.

(** ** Requests and answers *)

Record Request := mkRequest {
  rq_now : Z;
  rq_cookie : option string;
  rq_rand : option string;
}.

Inductive response (A : Type) :=
| Reply (code : Z) (body : option A)
| HandlerError (e : store_error).
Arguments Reply {A}.
Arguments HandlerError {A}.

Definition status {A} (code : Z) : response A := Reply code None.
Definition ok {A} (a : A) : response A := Reply 200 (Some a).

(** An operation of the storage, and one of the vault tables. *)
Definition on_store {A} (m : Sto A) : Handler (result store_error A) := λ s,
  let '(r, st) := m (sv_store s) in (r, with_store st s).
Definition on_tables {A} (f : VaultStore.VaultTables → A * VaultStore.VaultTables) : Handler A := λ s,
  let '(a, t) := f (sv_tables s) in (a, with_tables t s).

(** ** Sessions: [vaultSessionManager] *)

(** The token is the text of 32 random bytes. *)
Definition Issue (rand : option string) (expiry : Z) : Handler (option string) := λ s,
  if IsZero expiry then (None, s)
  else match rand with
       | None => (None, s)
       | Some token => (Some token, with_session (Some (mkSession token expiry)) s)
       end.

(** Whether the token is valid and whether it has expired. *)
Definition Validate (token : string) (now : Z) : Handler (bool * bool) := λ s,
  if String.eqb token "" then ((false, false), s)
  else match sv_session s with
       | None => ((false, false), s)
       | Some current =>
         if negb (String.eqb (vn_token current) token) then ((false, false), s)
         else if vn_expiresAt current <? now then ((false, true), with_session None s)
         else ((true, false), s)
       end.

Definition Clear : Handler unit := λ s, (tt, with_session None s).

Definition Expiry (s : Server) : option Z := vn_expiresAt <$> sv_session s.

(** ** Guards *)

(** An expired session seals the vault. *)
Definition requireSession (rq : Request) : Handler (bool * bool) := λ s,
  if sv_debug s then ((true, false), s)
  else match rq_cookie rq with
       | None => ((false, false), s)
       | Some cookie =>
         let '((valid, expired), s1) := Validate cookie (rq_now rq) s in
         match sv_vault s1 with
         | Some c =>
           if negb valid && expired then
             ((false, true), with_session None (with_vault (Some (Vault.Seal (rq_now rq) c).2) s1))
           else ((valid, expired), s1)
         | None => ((valid, expired), s1)
         end
       end.

Definition controllerStatus (s : Server) : option Vault.ControllerStatus :=
  Vault.Status <$> sv_vault s.

Inductive guard := Allowed | Expired | Sealed | Unauthorized | NoController.

Definition requireUnsealedSession (rq : Request) : Handler guard :=
  '(valid, expired) ← requireSession rq;
  if negb valid then mret (if (expired : bool) then Expired else Unauthorized)
  else
    st ← st_gets controllerStatus;
    match st with
    | None => mret NoController
    | Some st => mret (if String.eqb (Vault.cs_State st) Vault.StateUnsealed then Allowed else Sealed)
    end.

(** The answers of the handlers that ask for an unsealed session, and of those
    that ask for a session. *)
Definition unsealed {A} (rq : Request) (k : Handler (response A)) : Handler (response A) :=
  g ← requireUnsealedSession rq;
  match g with
  | Allowed => k
  | NoController => mret (status 500)
  | Sealed => mret (status 403)
  | Expired | Unauthorized => mret (status 401)
  end.
Definition authenticated {A} (rq : Request) (k : Handler (response A)) : Handler (response A) :=
  '(valid, _) ← requireSession rq;
  if (valid : bool) then k else mret (status 401).

(** ** Helpers *)

Definition resolveActor (s : Server) : string :=
  match sv_vault s ≫= Vault.cc_user with
  | Some u => let username := TrimSpace (Vault.us_Username u) in
              if String.eqb username "" then "system" else username
  | None => "system"
  end.

Definition normalizeBotID (raw : Z) : option Z :=
  if (raw <=? 0) || (2 ^ 32 - 1 <? raw) then None else Some raw.

Definition clampPageSize (v : option Z) : Z :=
  match v with
  | None => defaultPageSize
  | Some v => if v <=? 0 then defaultPageSize else if maxPageSize <? v then maxPageSize else v
  end.

Definition deref (v : option string) : string := default "" v.

End State.

Arguments Reply {A}.
Arguments HandlerError {A}.

End Server.
