(* ===== verification/VaultApi.v ===== *)
(** * The vault endpoints: [internal/api/vault.go]

    Setup, unsealing, sealing and updating of the vault, and its status.  A request
    body is the decoded one; [None] is a missing body. *)

From S2P Require Import Prelude GoFloat GoString OrderId Domain Store Tables Stream Storage.
From S2P Require Import StorageApi Vault VaultStore Server.
Import GoFloat GoString Domain Store Tables Storage Server.

Module VaultApi.

(** ** Bodies *)

Record VaultEncryptedPayload := mkEncrypted {
  ep_Version : string;
  ep_Ciphertext : string;
  ep_Nonce : string;
  ep_AssociatedData : option string;
  ep_PrfParams : option (gmap string flag);
}.

Record VaultVenueSecret := mkVaultVenue {
  vv_Id : string;
  vv_Type : string;
  vv_Wallet : string;
  vv_PrivateKey : string;
  vv_IsPrimary : bool;
  vv_DisplayName : option string;
  vv_ApiUrl : option string;
  vv_Flags : option (gmap string flag);
}.

Record VaultSecretsBundle := mkBundle {
  bu_Username : string;
  bu_THREECOMMASAPIKEY : string;
  bu_THREECOMMASPRIVATEKEY : string;
  bu_THREECOMMASPLANTIER : string;
  bu_Venues : list VaultVenueSecret;
}.

Record VaultSetupRequest := mkSetup { vr_Username : string; vr_Payload : VaultEncryptedPayload }.
Record VaultUnsealRequest := mkUnseal {
  vq_Payload : VaultSecretsBundle;
  vq_RememberSessionSeconds : option Z;
}.
Record VaultUpdateRequest := mkUpdate {
  vp_EncryptedPayload : VaultEncryptedPayload;
  vp_DecryptedPayload : VaultSecretsBundle;
}.

Record VaultStatus := mkVaultStatus {
  va_State : string;
  va_User : option (Z * string);
  va_SealedAt : option Z;
  va_UnsealedAt : option Z;
  va_SessionExpiresAt : option Z;
  va_DebugMode : bool;
}.

(** ** Helpers *)

Definition convertControllerStatus (debug : bool) (st : Vault.ControllerStatus) : VaultStatus :=
  mkVaultStatus (Vault.cs_State st)
    ((λ u, (Vault.us_CreatedAt u, Vault.us_Username u)) <$> Vault.cs_User st)
    (Vault.cs_SealedAt st) (Vault.cs_UnsealedAt st) (Vault.cs_SessionExpiresAt st) debug.

Definition validateEncryptedPayload (p : VaultEncryptedPayload) : bool :=
  negb (String.eqb (TrimSpace (ep_Version p)) "") && negb (String.eqb (ep_Ciphertext p) "") &&
  negb (String.eqb (ep_Nonce p) "").

(** A duration is 64 bits wide: the product wraps. *)
Definition deriveSessionTTL (rememberSeconds : option Z) : Z :=
  let clamp ttl := Z.min (Z.max ttl minVaultSessionTTL) maxVaultSessionTTL in
  match rememberSeconds with
  | None => clamp defaultVaultSessionTTL
  | Some n =>
    if n =? 0 then defaultVaultSessionTTL
    else if 0 <? n then clamp (i64 (n * second))
    else clamp defaultVaultSessionTTL
  end.

Section VaultApi.
Context {sqlite : SqliteJSON} {driver : VaultStore.BlobDriver}.
Context {json_flags : Codec (gmap string flag)} {json_bundle : Codec VaultSecretsBundle}.

(** Copying no bytes gives nil; an empty text is left out. *)
Definition given (s : string) : option string := if String.eqb s "" then None else Some s.

Definition buildPayloadInput (p : VaultEncryptedPayload) (userID now : Z)
    : option VaultStore.PayloadInput :=
  let input prf := VaultStore.mkPayloadInput userID (TrimSpace (ep_Version p)) (ep_Ciphertext p)
                     (ep_Nonce p) (ep_AssociatedData p ≫= given) prf now in
  match ep_PrfParams p with
  | None => Some (input None)
  | Some params => (λ raw, input (Some raw)) <$> Marshal params
  end.

Definition convertVaultPayload (p : VaultStore.Payload) : option VaultEncryptedPayload :=
  let encrypted prf := mkEncrypted (VaultStore.py_Version p) (VaultStore.py_Ciphertext p)
                         (VaultStore.py_Nonce p) (VaultStore.py_AssociatedData p) prf in
  match VaultStore.py_PRFParams p with
  | None => Some (encrypted None)
  | Some raw =>
    if String.eqb raw "" then Some (encrypted None)
    else (λ params, encrypted (Some params)) <$> Unmarshal raw
  end.

(** A venue of a bundle: the normalised wire form and the secret. *)
Definition build_venue (venue : VaultVenueSecret)
    : option (VaultVenueSecret * @Vault.VenueSecret flag) :=
  let id := TrimSpace (vv_Id venue) in
  let venueType := TrimSpace (vv_Type venue) in
  let wallet := TrimSpace (vv_Wallet venue) in
  let privateKey := TrimSpace (vv_PrivateKey venue) in
  if String.eqb id "" || String.eqb venueType "" || String.eqb wallet "" ||
     String.eqb privateKey "" then None
  else
    let displayName := match vv_DisplayName venue with Some n => TrimSpace n | None => "" end in
    let apiURL := match vv_ApiUrl venue with Some u => TrimSpace u | None => "" end in
    if EqualFold venueType "hyperliquid" && String.eqb apiURL "" then None
    else
      let flags := vv_Flags venue in
      Some (mkVaultVenue id venueType wallet privateKey (vv_IsPrimary venue) (given displayName)
              (given apiURL) (match flags with
                              | Some f => if bool_decide (f = ∅) then None else Some f
                              | None => None
                              end),
            Vault.mkVenueSecret id venueType displayName wallet privateKey apiURL "" flags
              (vv_IsPrimary venue)).

Definition buildSecretsBundle (bundle : VaultSecretsBundle) (now : Z) : option Secrets :=
  let username := TrimSpace (bu_Username bundle) in
  let key := TrimSpace (bu_THREECOMMASAPIKEY bundle) in
  let secret := TrimSpace (bu_THREECOMMASPRIVATEKEY bundle) in
  let planTierRaw := TrimSpace (bu_THREECOMMASPLANTIER bundle) in
  if String.eqb username "" then None
  else if String.eqb key "" || String.eqb secret "" then None
  else if String.eqb planTierRaw "" then None
  else match ParseThreeCommasPlanTier planTierRaw with
  | Err _ => None
  | Ok planTier =>
    match bu_Venues bundle with
    | [] => None
    | venues =>
      built ← mapM build_venue venues;
      if negb (existsb vv_IsPrimary venues) then None
      else
        raw ← Marshal (mkBundle username key secret planTier built.*1);
        Some (Vault.mkSecrets (Vault.mkData key secret planTier built.*2) (Some raw) now)
    end
  end.

(** The row of a venue: its URL is kept among the flags. *)
Definition venue_upsert (v : @Vault.VenueSecret flag) : StorageApi.VenueUpsertRequest :=
  let displayName := TrimSpace (Vault.vs_DisplayName v) in
  let flags := default ∅ (Vault.vs_Flags v) in
  let flags :=
    if String.eqb (Vault.vs_APIURL v) "" then flags
    else match flags !! "api_url"%string with
         | Some _ => flags
         | None => <["api_url"%string := FlagString (Vault.vs_APIURL v)]> flags
         end in
  StorageApi.mkVenueRequest (TrimSpace (Vault.vs_Type v))
    (if String.eqb displayName "" then Vault.vs_ID v else displayName)
    (TrimSpace (Vault.vs_Wallet v)) (if bool_decide (flags = ∅) then None else Some flags).

(** Venue by venue; the first failure ends it, and what was stored stays. *)
Fixpoint syncVenueMetadata (venues : list (@Vault.VenueSecret flag)) : Sto unit :=
  match venues with
  | [] => mret tt
  | v :: venues =>
    _ ← StorageApi.UpsertVenue (TrimSpace (Vault.vs_ID v)) (venue_upsert v);
    syncVenueMetadata venues
  end.

(** ** Endpoints *)

Section Endpoints.
Context {SessionData : Type}.
Abbreviation Server := (@Server SessionData).
Abbreviation Handler := (@Handler SessionData).

Definition GetVaultPayload (rq : Request) : Handler (response VaultEncryptedPayload) :=
  authenticated rq (λ s,
    match sv_vault s with
    | None => (status 500, s)
    | Some c =>
      let st := Vault.Status c in
      match Vault.cs_User st with
      | None => (status 423, s)
      | Some user =>
        if String.eqb (Vault.cs_State st) Vault.StateSetupRequired then (status 423, s)
        else match VaultStore.GetVaultPayloadForUser (Vault.us_ID user) (sv_tables s) with
        | Err _ => (status 500, s)
        | Ok None => (status 404, s)
        | Ok (Some payload) =>
          match convertVaultPayload payload with
          | None => (status 500, s)
          | Some encrypted => (ok encrypted, s)
          end
        end
      end
    end).

(** What the update answers with is a fixed message. *)
Definition UpdateVaultPayload (rq : Request) (body : option VaultUpdateRequest)
    : Handler (response unit) :=
  match body with
  | None => mret (status 400)
  | Some body =>
    authenticated rq (λ s,
      match sv_vault s with
      | None => (status 500, s)
      | Some c =>
        let st := Vault.Status c in
        if negb (String.eqb (Vault.cs_State st) Vault.StateUnsealed) then (status 403, s)
        else match Vault.cs_User st with
        | None => (status 500, s)
        | Some user =>
          if negb (validateEncryptedPayload (vp_EncryptedPayload body)) then (status 400, s)
          else match buildSecretsBundle (vp_DecryptedPayload body) (rq_now rq) with
          | None => (status 400, s)
          | Some secrets =>
            match Vault.Validate (Vault.se_Secrets secrets) with
            | Some _ => (status 400, s)
            | None =>
              match buildPayloadInput (vp_EncryptedPayload body) (Vault.us_ID user) (rq_now rq) with
              | None => (status 500, s)
              | Some save =>
                let '(saved, s) := on_tables (VaultStore.UpsertVaultPayload (rq_now rq) save) s in
                match saved with
                | Err _ => (status 500, s)
                | Ok _ =>
                  let '(_, s) := on_store (syncVenueMetadata (Vault.Venues (Vault.se_Secrets secrets))) s in
                  (ok tt, s)
                end
              end
            end
          end
        end
      end)
  end.

Definition GetVaultStatus (rq : Request) : Handler (response VaultStatus) := λ s,
  match sv_vault s with
  | None => (status 500, s)
  | Some c =>
    let st := Vault.Status c in
    if String.eqb (Vault.cs_State st) Vault.StateUnsealed then
      let '((valid, _), s) := requireSession rq s in
      let st :=
        if valid then
          Vault.mkStatus (Vault.cs_State st) (Vault.cs_User st) (Vault.cs_SealedAt st)
            (Vault.cs_UnsealedAt st)
            (match Expiry s with Some e => Some e | None => Vault.cs_SessionExpiresAt st end)
        else Vault.mkStatus Vault.StateSealed (Vault.cs_User st) (Vault.cs_SealedAt st)
               (Vault.cs_UnsealedAt st) None in
      (ok (convertControllerStatus (sv_debug s) st), s)
    else (ok (convertControllerStatus (sv_debug s) st), s)
  end.

Definition SealVault (rq : Request) : Handler (response VaultStatus) :=
  authenticated rq (λ s,
    match sv_vault s with
    | None => (status 500, s)
    | Some c =>
      match Vault.Seal (rq_now rq) c with
      | (Some _, c) => (status 500, with_vault (Some c) s)
      | (None, c) =>
        let s := with_session None (with_vault (Some c) s) in
        (ok (convertControllerStatus (sv_debug s) (Vault.Status c)), s)
      end
    end).

Definition SetupVault (rq : Request) (body : option VaultSetupRequest)
    : Handler (response VaultStatus) := λ s,
  match body with
  | None => (status 400, s)
  | Some body =>
    match sv_vault s with
    | None => (status 500, s)
    | Some c =>
      let username := TrimSpace (vr_Username body) in
      if negb (String.eqb (Vault.cc_state c) Vault.StateSetupRequired) then (status 409, s)
      else if String.eqb username "" then (status 400, s)
      else if negb (validateEncryptedPayload (vr_Payload body)) then (status 400, s)
      else
        let '(user, s) := on_tables (VaultStore.EnsureVaultUser (rq_now rq) username) s in
        match user with
        | Err _ => (status 500, s)
        | Ok user =>
          match VaultStore.GetVaultPayloadForUser (Vault.us_ID user) (sv_tables s) with
          | Err _ => (status 500, s)
          | Ok (Some _) => (status 409, s)
          | Ok None =>
            match buildPayloadInput (vr_Payload body) (Vault.us_ID user) (rq_now rq) with
            | None => (status 400, s)
            | Some save =>
              let '(saved, s) := on_tables (VaultStore.UpsertVaultPayload (rq_now rq) save) s in
              match saved with
              | Err _ => (status 500, s)
              | Ok _ =>
                match Vault.Seal (rq_now rq) (Vault.SetUser (Some user) c) with
                | (Some _, c) => (status 500, with_vault (Some c) s)
                | (None, c) =>
                  let s := with_session None (with_vault (Some c) s) in
                  (Reply 201 (Some (convertControllerStatus (sv_debug s) (Vault.Status c))), s)
                end
              end
            end
          end
        end
    end
  end.

(** The answer carries the session's token in its cookie. *)
Definition UnsealVault (rq : Request) (body : option VaultUnsealRequest)
    : Handler (response (VaultStatus * string)) := λ s,
  match body with
  | None => (status 400, s)
  | Some body =>
    match sv_vault s with
    | None => (status 500, s)
    | Some c =>
      if String.eqb (Vault.cc_state c) Vault.StateSetupRequired then (status 423, s)
      else match buildSecretsBundle (vq_Payload body) (rq_now rq) with
      | None => (status 400, s)
      | Some secrets =>
        let '(synced, s) := on_store (syncVenueMetadata (Vault.Venues (Vault.se_Secrets secrets))) s in
        match synced with
        | Err _ => (status 500, s)
        | Ok _ =>
          let expiry := rq_now rq + deriveSessionTTL (vq_RememberSessionSeconds body) in
          match Vault.Unseal secrets (Some expiry) (rq_now rq) c with
          | (Some Vault.ErrInvalidTransition, c) => (status 409, with_vault (Some c) s)
          | (Some _, c) => (status 500, with_vault (Some c) s)
          | (None, c) =>
            let '(token, s) := Issue (rq_rand rq) expiry (with_vault (Some c) s) in
            match token with
            | None => (status 500, s)
            | Some token =>
              let st := convertControllerStatus (sv_debug s) (Vault.Status c) in
              (ok (mkVaultStatus (va_State st) (va_User st) (va_SealedAt st) (va_UnsealedAt st)
                     (Some expiry) (va_DebugMode st), token), s)
            end
          end
        end
      end
    end
  end.

End Endpoints.

End VaultApi.

End VaultApi.
