(* ===== verification/WebAuthn.v ===== *)
(** * WebAuthn: [internal/api/webauth.go]

    Registration and login each begin with a token that is good for one finish.
    The library that makes and checks challenges is a parameter. *)

From S2P Require Import Prelude GoFloat GoString OrderId Domain Store Tables Storage.
From S2P Require Import Vault VaultStore Server.
Import GoString Domain Store Tables Storage Server.

Module WebAuthn.

Definition defaultWebAuthnSessionTTL : Z := 5 * 60 * second.

Section WebAuthn.
(** The types of [go-webauthn] and what the service calls of it: beginnings draw a
    challenge per request, checks look at the clock. *)
Context {SessionData LibCredential Creation Assertion ParsedCreation ParsedAssertion : Type}.

Record webAuthnUser := mkWebAuthnUser {
  wu_userID : Z;
  wu_id : list Z;
  wu_username : string;
  wu_displayName : string;
  wu_credentials : list LibCredential;
}.

Class WebAuthnLib := {
  lib_BeginRegistration :
    Request → webAuthnUser → list LibCredential → option (Creation * SessionData);
  lib_CreateCredential : Z → webAuthnUser → SessionData → ParsedCreation → option LibCredential;
  lib_BeginLogin : Request → webAuthnUser → option (Assertion * SessionData);
  lib_ValidateLogin : Z → webAuthnUser → SessionData → ParsedAssertion → option LibCredential;
  lib_Expires : SessionData → Z;
  lib_CredentialID : LibCredential → string;
}.

Inductive webauthn_error :=
| ErrWebAuthnSessionNotFound
| ErrWebAuthnSessionExpired
| ErrWebAuthnUserNotFound
| ErrWebAuthnNoCredentials
| ErrWebAuthn (msg : string).

Context {lib : WebAuthnLib} {json_credential : Codec LibCredential} {sqlite : SqliteJSON}.
Abbreviation Server := (@Server SessionData).
Abbreviation Handler := (@Handler SessionData).
Abbreviation WebAuthnService := (@WebAuthnService SessionData).
Abbreviation sessionEntry := (@sessionEntry SessionData).

Definition NewWebAuthnService (ttl : Z) : WebAuthnService :=
  mkWebAuthn ∅ ∅ (if ttl <=? 0 then defaultWebAuthnSessionTTL else ttl).

(** ** The cache of ceremonies *)

Definition expired (now : Z) (e : sessionEntry) : bool :=
  if IsZero (we_expiry e) then false else we_expiry e <? now.

Definition cache_put (now : Z) (token : string) (userID : Z) (data : SessionData)
    (fallbackTTL : Z) (cache : gmap string sessionEntry) : gmap string sessionEntry :=
  let expiry := if IsZero (lib_Expires data) then now + fallbackTTL else lib_Expires data in
  <[token := mkEntry userID data expiry]> cache.

Definition cache_pop (token : string) (cache : gmap string sessionEntry)
    : option sessionEntry * gmap string sessionEntry := (cache !! token, delete token cache).

Definition userHandleFromID (id : Z) : list Z :=
  (λ i, Z.shiftr (id mod 2 ^ 64) (8 * i) mod 256) <$> [7; 6; 5; 4; 3; 2; 1; 0].

Definition buildWebAuthnUser (user : Vault.User) (t : VaultStore.VaultTables)
    : result webauthn_error webAuthnUser :=
  match mapM (λ c, Unmarshal (VaultStore.cr_Credential c))
          (VaultStore.ListWebauthnCredentialsByUser (Vault.us_ID user) t) with
  | None => Err (ErrWebAuthn "decode credential")
  | Some creds =>
    Ok (mkWebAuthnUser (Vault.us_ID user) (userHandleFromID (Vault.us_ID user))
          (Vault.us_Username user) (Vault.us_Username user) creds)
  end.

Definition buildWebAuthnUserByID (userID : Z) (t : VaultStore.VaultTables)
    : result webauthn_error webAuthnUser :=
  match VaultStore.GetVaultUserByID userID t with
  | Err _ => Err (ErrWebAuthn "get vault user")
  | Ok None => Err ErrWebAuthnUserNotFound
  | Ok (Some user) => buildWebAuthnUser user t
  end.

(** ** Ceremonies: on the service and the vault tables *)

Definition BeginRegistration (rq : Request) (username : string)
    (w : WebAuthnService) (t : VaultStore.VaultTables)
    : result webauthn_error (Creation * string) * WebAuthnService * VaultStore.VaultTables :=
  let username := TrimSpace username in
  if String.eqb username "" then (Err (ErrWebAuthn "username is required"), w, t)
  else
    let '(user, t) := VaultStore.EnsureVaultUser (rq_now rq) username t in
    match user with
    | Err _ => (Err (ErrWebAuthn "ensure vault user"), w, t)
    | Ok user =>
      match buildWebAuthnUser user t with
      | Err e => (Err e, w, t)
      | Ok weUser =>
        match lib_BeginRegistration rq weUser (wu_credentials weUser) with
        | None => (Err (ErrWebAuthn "begin registration"), w, t)
        | Some (creation, data) =>
          match rq_rand rq with
          | None => (Err (ErrWebAuthn "generate session token"), w, t)
          | Some token =>
            (Ok (creation, token),
             mkWebAuthn (cache_put (rq_now rq) token (Vault.us_ID user) data (wa_sessionTTL w)
                           (wa_registrationCache w)) (wa_loginCache w) (wa_sessionTTL w), t)
          end
        end
      end
    end.

(** Stores the credential that a ceremony has established. *)
Definition save_credential (now userID : Z) (credential : LibCredential)
    (t : VaultStore.VaultTables) : result webauthn_error LibCredential * VaultStore.VaultTables :=
  match Marshal credential with
  | None => (Err (ErrWebAuthn "marshal credential"), t)
  | Some payload =>
    match VaultStore.UpsertWebauthnCredential now
            (VaultStore.mkCredentialInput userID (lib_CredentialID credential) payload) t with
    | (Err _, t) => (Err (ErrWebAuthn "store credential"), t)
    | (Ok _, t) => (Ok credential, t)
    end
  end.

(** The second half of a ceremony: the popped entry is spent either way. *)
Definition finish (now : Z) (entry : option sessionEntry)
    (check : webAuthnUser → SessionData → option LibCredential) (t : VaultStore.VaultTables)
    : result webauthn_error LibCredential * VaultStore.VaultTables :=
  match entry with
  | None => (Err ErrWebAuthnSessionNotFound, t)
  | Some entry =>
    if expired now entry then (Err ErrWebAuthnSessionExpired, t)
    else match buildWebAuthnUserByID (we_userID entry) t with
    | Err e => (Err e, t)
    | Ok weUser =>
      match check weUser (we_data entry) with
      | None => (Err (ErrWebAuthn "finish ceremony"), t)
      | Some credential => save_credential now (we_userID entry) credential t
      end
    end
  end.

Definition FinishRegistration (now : Z) (token : string) (parsed : ParsedCreation)
    (w : WebAuthnService) (t : VaultStore.VaultTables)
    : result webauthn_error LibCredential * WebAuthnService * VaultStore.VaultTables :=
  let '(entry, cache) := cache_pop token (wa_registrationCache w) in
  let '(r, t) := finish now entry (λ u d, lib_CreateCredential now u d parsed) t in
  (r, mkWebAuthn cache (wa_loginCache w) (wa_sessionTTL w), t).

Definition BeginLogin (rq : Request) (username : string)
    (w : WebAuthnService) (t : VaultStore.VaultTables)
    : result webauthn_error (Assertion * string) * WebAuthnService :=
  let username := TrimSpace username in
  if String.eqb username "" then (Err (ErrWebAuthn "username is required"), w)
  else match VaultStore.GetVaultUserByUsername username t with
  | Err _ => (Err (ErrWebAuthn "get vault user"), w)
  | Ok None => (Err ErrWebAuthnUserNotFound, w)
  | Ok (Some user) =>
    match buildWebAuthnUser user t with
    | Err e => (Err e, w)
    | Ok weUser =>
      match wu_credentials weUser with
      | [] => (Err ErrWebAuthnNoCredentials, w)
      | _ =>
        match lib_BeginLogin rq weUser with
        | None => (Err (ErrWebAuthn "begin login"), w)
        | Some (assertion, data) =>
          match rq_rand rq with
          | None => (Err (ErrWebAuthn "generate session token"), w)
          | Some token =>
            (Ok (assertion, token),
             mkWebAuthn (wa_registrationCache w)
               (cache_put (rq_now rq) token (wu_userID weUser) data (wa_sessionTTL w)
                  (wa_loginCache w)) (wa_sessionTTL w))
          end
        end
      end
    end
  end.

Definition FinishLogin (now : Z) (token : string) (parsed : ParsedAssertion)
    (w : WebAuthnService) (t : VaultStore.VaultTables)
    : result webauthn_error LibCredential * WebAuthnService * VaultStore.VaultTables :=
  let '(entry, cache) := cache_pop token (wa_loginCache w) in
  let '(r, t) := finish now entry (λ u d, lib_ValidateLogin now u d parsed) t in
  (r, mkWebAuthn (wa_registrationCache w) cache (wa_sessionTTL w), t).

(** ** Endpoints; a client response that does not parse is [None] *)

Definition BeginWebauthnRegistration (rq : Request) (body : option string)
    : Handler (response (Creation * string)) := λ s,
  match sv_webauthn s with
  | None => (status 500, s)
  | Some w =>
    match body with
    | None => (status 400, s)
    | Some username =>
      if String.eqb (TrimSpace username) "" then (status 400, s)
      else match BeginRegistration rq (TrimSpace username) w (sv_tables s) with
      | (Err _, w, t) => (status 500, with_webauthn (Some w) (with_tables t s))
      | (Ok r, w, t) => (ok r, with_webauthn (Some w) (with_tables t s))
      end
    end
  end.

Definition FinishWebauthnRegistration (rq : Request) (body : option (string * option ParsedCreation))
    : Handler (response string) := λ s,
  match sv_webauthn s with
  | None => (status 500, s)
  | Some w =>
    match body with
    | None => (status 400, s)
    | Some (token, parsed) =>
      let token := TrimSpace token in
      if String.eqb token "" then (status 400, s)
      else match parsed with
      | None => (status 400, s)
      | Some parsed =>
        match FinishRegistration (rq_now rq) token parsed w (sv_tables s) with
        | (Ok _, w, t) => (ok "registered"%string, with_webauthn (Some w) (with_tables t s))
        | (Err e, w, t) =>
          (match e with
           | ErrWebAuthnSessionNotFound | ErrWebAuthnSessionExpired => status 404
           | _ => status 500
           end, with_webauthn (Some w) (with_tables t s))
        end
      end
    end
  end.

Definition BeginWebauthnLogin (rq : Request) (body : option string)
    : Handler (response (Assertion * string)) := λ s,
  match sv_webauthn s with
  | None => (status 500, s)
  | Some w =>
    match body with
    | None => (status 400, s)
    | Some username =>
      if String.eqb (TrimSpace username) "" then (status 400, s)
      else match BeginLogin rq (TrimSpace username) w (sv_tables s) with
      | (Ok r, w) => (ok r, with_webauthn (Some w) s)
      | (Err e, w) =>
        (match e with
         | ErrWebAuthnUserNotFound | ErrWebAuthnNoCredentials => status 404
         | _ => status 500
         end, with_webauthn (Some w) s)
      end
    end
  end.

(** A login gives a session of the default length; the answer carries its token
    when one could be made. *)
Definition FinishWebauthnLogin (rq : Request) (body : option (string * option ParsedAssertion))
    : Handler (response (option string)) := λ s,
  match sv_webauthn s with
  | None => (status 500, s)
  | Some w =>
    match body with
    | None => (status 400, s)
    | Some (token, parsed) =>
      let token := TrimSpace token in
      if String.eqb token "" then (status 400, s)
      else match parsed with
      | None => (status 400, s)
      | Some parsed =>
        match FinishLogin (rq_now rq) token parsed w (sv_tables s) with
        | (Err e, w, t) =>
          (match e with
           | ErrWebAuthnSessionNotFound | ErrWebAuthnSessionExpired => status 404
           | _ => status 500
           end, with_webauthn (Some w) (with_tables t s))
        | (Ok _, w, t) =>
          let '(cookie, s) := Issue (rq_rand rq) (rq_now rq + defaultVaultSessionTTL)
                                (with_webauthn (Some w) (with_tables t s)) in
          (ok cookie, s)
        end
      end
    end
  end.

End WebAuthn.

End WebAuthn.
