(* ===== verification/ApiRecords.v ===== *)
(** * What the API shows of an order: [internal/api/handler.go]

    The conversions from the program's values to the records of the API:
    identifiers, submissions, statuses, log entries.  The event of a bot keeps its
    fields, so that it stands for its converted form. *)

From S2P Require Import Prelude GoFloat GoString OrderId Domain Store Tables Stream Storage.
From S2P Require Import StorageApi Server.
Import GoFloat GoString Domain Store Tables Storage Server.

Module ApiRecords.

(** ** Records of [ops.gen.go] *)

Record OrderIdentifiers := mkIdentifiers {
  id_Hex : string;
  id_BotId : Z;
  id_DealId : Z;
  id_BotEventId : Z;
  id_CreatedAt : Z;
  id_VenueId : string;
  id_Wallet : string;
}.

Record HyperliquidCreateOrder := mkHlCreate {
  hc_Coin : string;
  hc_IsBuy : bool;
  hc_Price : f64;
  hc_Size : f64;
  hc_ReduceOnly : bool;
  hc_OrderType : OrderType;
  hc_Cloid : option string;
}.

(** The venue's own number of an order is never set. *)
Record HyperliquidModifyAction := mkHlModify {
  hm_Order : HyperliquidCreateOrder;
  hm_Cloid : option string;
}.

Record HyperliquidCancelOrder := mkHlCancel { hx_Coin : string; hx_Cloid : string }.

Inductive HyperliquidAction :=
| HyperliquidCreateAction (o : HyperliquidCreateOrder)
| HyperliquidModify (m : HyperliquidModifyAction)
| HyperliquidCancelAction (c : HyperliquidCancelOrder).

Record HyperliquidWsOrder := mkHlWs {
  hw_Order : WsBasicOrder;
  hw_Status : string;
  hw_StatusTimestamp : Z;
}.

Record HyperliquidOrderState := mkHlState {
  hs_Identifier : option OrderIdentifiers;
  hs_LatestSubmission : option HyperliquidAction;
  hs_LatestStatus : option HyperliquidWsOrder;
}.

Record log_common := mkCommon {
  lc_OrderId : string;
  lc_ObservedAt : Z;
  lc_BotEventId : option Z;
  lc_Identifiers : option OrderIdentifiers;
  lc_Sequence : option Z;
}.

Inductive OrderLogEntry :=
| ThreeCommasLogEntry (c : log_common) (event : TcBotEvent)
| HyperliquidSubmissionLogEntry (c : log_common) (action : HyperliquidAction)
| HyperliquidStatusLogEntry (c : log_common) (st : HyperliquidWsOrder)
| OrderScalerConfigLogEntry (c : log_common) (config : Stream.EffectiveOrderScaler) (actor : string)
| ScaledOrderAuditLogEntry (c : log_common) (audit : Stream.ScaledOrderAudit)
    (effective : option Stream.EffectiveOrderScaler) (actor : string).

Record OrderRecord := mkOrderRecord {
  or_OrderId : string;
  or_Identifiers : OrderIdentifiers;
  or_ObservedAt : Z;
  or_ThreeCommas : TcBotEvent;
  or_Hyperliquid : option HyperliquidOrderState;
  or_LogEntries : option (list OrderLogEntry);
}.

(** ** Conversions *)

Definition makeOrderIdentifiers (oid : OrderId.OrderId) (event : option TcBotEvent) (fallback : Z)
    (ident : option OrderIdentifier) : OrderIdentifiers :=
  let createdAt :=
    match event with
    | Some e => if IsZero (ev_CreatedAt e) then fallback else ev_CreatedAt e
    | None => fallback
    end in
  let '(venueID, wallet) :=
    match ident with Some i => (Venue i, oi_Wallet i) | None => (""%string, ""%string) end in
  mkIdentifiers (OrderId.Hex oid) (OrderId.BotID oid) (OrderId.DealID oid) (OrderId.BotEventID oid)
    createdAt venueID wallet.

Definition convertHyperliquidCreateOrder (req : CreateOrderRequest) : HyperliquidCreateOrder :=
  mkHlCreate (co_Coin req) (co_IsBuy req) (co_Price req) (co_Size req) (co_ReduceOnly req)
    (co_OrderType req) (co_ClientOrderID req).

(** A modification without any identifier is not shown. *)
Definition convertHyperliquidModify (req : ModifyOrderRequest) : option HyperliquidModifyAction :=
  let cloid := match mo_Cloid req with
               | Some c => Some c
               | None => co_ClientOrderID (mo_Order req)
               end in
  match cloid with
  | None => None
  | Some _ => Some (mkHlModify (convertHyperliquidCreateOrder (mo_Order req)) cloid)
  end.

Definition convertHyperliquidCancel (req : CancelOrderRequestByCloid) : HyperliquidCancelOrder :=
  mkHlCancel (ca_Coin req) (ca_Cloid req).

Definition convertHyperliquidAction (payload : option Stream.Submission) : option HyperliquidAction :=
  match payload with
  | Some (Stream.SubmittedCreate req) =>
    Some (HyperliquidCreateAction (convertHyperliquidCreateOrder req))
  | Some (Stream.SubmittedModify req) => HyperliquidModify <$> convertHyperliquidModify req
  | Some (Stream.SubmittedCancel req) => Some (HyperliquidCancelAction (convertHyperliquidCancel req))
  | None => None
  end.

Definition convertHyperliquidWsOrder (src : option WsOrder) : option HyperliquidWsOrder :=
  (λ w, mkHlWs (ws_Order w) (ws_Status w) (ws_StatusTimestamp w)) <$> src.

Definition buildHyperliquidOrderState (identifiers : option OrderIdentifiers)
    (submission : option Stream.Submission) (st : option WsOrder) : option HyperliquidOrderState :=
  match convertHyperliquidAction submission, convertHyperliquidWsOrder st with
  | None, None => None
  | action, ws => Some (mkHlState identifiers action ws)
  end.

Definition clampOrderScalerMultiplier (multiplier maxMultiplier : f64) : f64 :=
  if fgt maxMultiplier fzero && fgt multiplier maxMultiplier then maxMultiplier else multiplier.

Definition clampEffectiveOrderScaler (effective : option Stream.EffectiveOrderScaler)
    (maxMultiplier : f64) : option Stream.EffectiveOrderScaler :=
  (λ e, Stream.mkApiEffective (Stream.ae_Default e)
          (clampOrderScalerMultiplier (Stream.ae_Multiplier e) maxMultiplier) (Stream.ae_OrderId e)
          (Stream.ae_Override e) (Stream.ae_Source e)) <$> effective.

(** The fields of [oid] over those of [base]. *)
Definition cloneIdentifiers (base : option OrderIdentifiers) (oid : OrderId.OrderId)
    (createdAt fallback : Z) : OrderIdentifiers :=
  let ident := default (mkIdentifiers "" 0 0 0 zero_time "" "") base in
  mkIdentifiers (OrderId.Hex oid) (OrderId.BotID oid) (OrderId.DealID oid) (OrderId.BotEventID oid)
    (if negb (IsZero createdAt) then createdAt
     else if IsZero (id_CreatedAt ident) then fallback else id_CreatedAt ident)
    (id_VenueId ident) (id_Wallet ident).

Definition createdAt (evt : option TcBotEvent) : Z :=
  match evt with Some e => ev_CreatedAt e | None => zero_time end.

(** One log entry, whatever brought it: a row of the log or a live event.
    [base] is never missing. *)
Definition makeOrderLogEntry (maxMultiplier : f64) (oid : OrderId.OrderId) (observedAt : Z)
    (entryType : Stream.OrderLogEntryType) (botEvent : option TcBotEvent)
    (submission : option Stream.Submission) (st : option WsOrder)
    (config : option Stream.EffectiveOrderScaler) (audit : option Stream.ScaledOrderAudit)
    (actor : option string) (logIdentifier : option OrderIdentifier)
    (base : option OrderIdentifiers) (sequence : option Z) : option OrderLogEntry :=
  let botEventID := if OrderId.BotEventID oid =? 0 then None else Some (OrderId.BotEventID oid) in
  let clampedConfig := clampEffectiveOrderScaler config maxMultiplier in
  let identifiers event created :=
    match logIdentifier with
    | Some i => Some (makeOrderIdentifiers oid event observedAt (Some i))
    | None => Some (cloneIdentifiers base oid created observedAt)
    end in
  let common botEventID ids := mkCommon (OrderId.Hex oid) observedAt botEventID ids sequence in
  match entryType with
  | Stream.ThreeCommasEvent =>
    (λ e, ThreeCommasLogEntry (common botEventID (identifiers (Some e) (ev_CreatedAt e))) e) <$> botEvent
  | Stream.HyperliquidSubmission =>
    (λ a, HyperliquidSubmissionLogEntry
            (common botEventID (identifiers botEvent (createdAt botEvent))) a) <$>
      convertHyperliquidAction submission
  | Stream.HyperliquidStatus =>
    (λ w, HyperliquidStatusLogEntry
            (common botEventID (identifiers botEvent (createdAt botEvent))) w) <$>
      convertHyperliquidWsOrder st
  | Stream.OrderScalerConfigEntry =>
    (λ c, OrderScalerConfigLogEntry (common None (identifiers None observedAt)) c (deref actor)) <$>
      clampedConfig
  | Stream.ScaledOrderAuditEntry =>
    (λ a, ScaledOrderAuditLogEntry (common None (identifiers botEvent (createdAt botEvent))) a
            clampedConfig (deref actor)) <$> audit
  end.

Definition log_entry_of_row (maxMultiplier : f64) (identifiers : OrderIdentifiers)
    (r : StorageApi.OrderLogItem) : option OrderLogEntry :=
  makeOrderLogEntry maxMultiplier (StorageApi.li_OrderId r) (StorageApi.li_ObservedAt r)
    (StorageApi.li_Type r) (StorageApi.li_BotEvent r) (StorageApi.li_Submission r)
    (StorageApi.li_Status r) (StorageApi.li_ScalerConfig r) (StorageApi.li_ScaledAudit r)
    (StorageApi.li_Actor r) (StorageApi.li_Identifier r) (Some identifiers) None.

(** A row without its event is left out. *)
Definition orderRecordFromItem (maxMultiplier : f64) (row : StorageApi.OrderItem)
    (includeLog : bool) : option OrderRecord :=
  match StorageApi.it_BotEvent row with
  | None => None
  | Some event =>
    let identifiers := makeOrderIdentifiers (StorageApi.it_OrderId row) (Some event)
                         (StorageApi.it_ObservedAt row) (StorageApi.it_Identifier row) in
    let entries :=
      if includeLog then omap (log_entry_of_row maxMultiplier identifiers)
                           (StorageApi.it_LogEntries row)
      else [] in
    Some (mkOrderRecord (OrderId.Hex (StorageApi.it_OrderId row)) identifiers
            (StorageApi.it_ObservedAt row) event
            (buildHyperliquidOrderState (Some identifiers) (StorageApi.it_LatestSubmission row)
               (StorageApi.it_LatestStatus row))
            (match entries with [] => None | _ => Some entries end))
  end.

Definition buildOrderRecords (maxMultiplier : f64) (rows : list StorageApi.OrderItem)
    (includeLog : bool) : list OrderRecord :=
  omap (λ row, orderRecordFromItem maxMultiplier row includeLog) rows.

(** The entry that [writeSSEFrame] frames; an event without its payload is skipped. *)
Definition stream_entry (maxMultiplier : f64) (evt : Stream.StreamEvent) : option OrderLogEntry :=
  makeOrderLogEntry maxMultiplier (Stream.se_OrderID evt) (Stream.se_ObservedAt evt)
    (Stream.se_Type evt) (Stream.se_BotEvent evt) (Stream.se_Submission evt) (Stream.se_Status evt)
    (Stream.se_ScalerConfig evt) (Stream.se_ScaledOrderAudit evt) (Stream.se_Actor evt)
    (Stream.se_Identifier evt)
    (Some (makeOrderIdentifiers (Stream.se_OrderID evt) (Stream.se_BotEvent evt)
             (Stream.se_ObservedAt evt) (Stream.se_Identifier evt))) (Stream.se_Sequence evt).

End ApiRecords.
