(* ===== verification/Sse.v ===== *)
(** * Server-sent events: [internal/api/handler_streaming.go]

    The frames of the three streams, the loops that write them, and the goroutines
    between the prices of several coins and the one response.  [json.Marshal] on the
    records is a member of [Codec]; whether a write to the response succeeds is
    left open. *)

From S2P Require Import Prelude GoFloat GoString OrderId Domain Store Tables Hl Stream ApiRecords.
Import GoFloat GoString Domain Tables Hl Stream.

Module Sse.

(** ** Frames *)

Definition LF : string := String (Ascii.ascii_of_nat 10) EmptyString.

Definition frame (event data : string) : string :=
  "event: " +:+ event +:+ LF +:+ "data: " +:+ data +:+ LF +:+ LF.

Definition entry_type (t : OrderLogEntryType) : string :=
  match t with
  | ThreeCommasEvent => "three_commas_event"
  | HyperliquidSubmission => "hyperliquid_submission"
  | HyperliquidStatus => "hyperliquid_status"
  | OrderScalerConfigEntry => "order_scaler_config"
  | ScaledOrderAuditEntry => "scaled_order_audit"
  end.

Record priceLevelPayload := mkPriceLevel { pp_Price : f64; pp_Size : f64 }.
Record bboFramePayload := mkBboFrame {
  bf_Coin : string;
  bf_Time : Z;
  bf_Bid : priceLevelPayload;
  bf_Ask : priceLevelPayload;
}.

Section Frames.
Context {json_entry : Codec ApiRecords.OrderLogEntry} {json_system : Codec SystemEvent}
  {json_bbo : Codec bboFramePayload}.

(** What is to be written for an event: nothing for an event without its payload. *)
Definition writeSSEFrame (maxMultiplier : f64) (evt : StreamEvent) : result string (option string) :=
  match ApiRecords.stream_entry maxMultiplier evt with
  | None => Ok None
  | Some entry =>
    match Marshal entry with
    | None => Err "marshal stream frame"%string
    | Some data => Ok (Some (frame (entry_type (se_Type evt)) data))
    end
  end.

Definition writeSystemSSEFrame (evt : SystemEvent) : result string (option string) :=
  match Marshal evt with
  | None => Err "marshal system event"%string
  | Some data => Ok (Some (frame ("system_" +:+ sy_Level evt) data))
  end.

Definition bbo_payload (now : Z) (bbo : BestBidOffer) : bboFramePayload :=
  mkBboFrame (bb_Coin bbo) (if IsZero (bb_Time bbo) then now else bb_Time bbo)
    (mkPriceLevel (lv_Price (bb_Bid bbo)) (lv_Size (bb_Bid bbo)))
    (mkPriceLevel (lv_Price (bb_Ask bbo)) (lv_Size (bb_Ask bbo))).

Definition writeBBOFrame (now : Z) (bbo : BestBidOffer) : result string (option string) :=
  match Marshal (bbo_payload now bbo) with
  | None => Err "marshal bbo frame"%string
  | Some data => Ok (Some (frame "bbo" data))
  end.

End Frames.

(** ** The loop of a response *)

(** What the [select] of a round finds: an event and whether its frame could be
    written, a closed channel, or that the context is done. *)
Inductive round (E : Type) := Event (evt : E) (written : bool) | ChannelClosed | ContextEnded.
Arguments Event {E}. Arguments ChannelClosed {E}. Arguments ContextEnded {E}.

(** The body in the end, and whether the loop still runs. *)
Fixpoint stream_loop {E} (write : E → result string (option string)) (rounds : list (round E))
    (body : string) : string * bool :=
  match rounds with
  | [] => (body, true)
  | Event evt written :: rounds =>
    match write evt with
    | Err _ => (body, false)
    | Ok None => stream_loop write rounds body
    | Ok (Some f) => if written then stream_loop write rounds (body +:+ f) else (body, false)
    end
  | _ :: _ => (body, false)
  end.

(** [StreamOrders], and the response of [StreamSystemEvents], which begins with a
    comment; [handshake] says whether that could be written. *)
Definition orders_body {json_entry : Codec ApiRecords.OrderLogEntry} (maxMultiplier : f64)
    (rounds : list (round StreamEvent)) : string * bool :=
  stream_loop (writeSSEFrame maxMultiplier) rounds "".
Definition VisitStreamSystemEventsResponse {json_system : Codec SystemEvent} (handshake : bool)
    (rounds : list (round SystemEvent)) : string * bool :=
  if handshake then stream_loop writeSystemSSEFrame rounds (": connected" +:+ LF +:+ LF)
  else (""%string, false).

(** ** The prices of several coins *)

(** A forwarder of one subscription waits for a price or for room in [updates]. *)
Inductive forwarder := Waiting | Holding (bbo : BestBidOffer) | Finished.

(** [pr_out] is the prices whose frames were written. *)
Record prices := mkPrices {
  pr_subs : list (chan BestBidOffer);
  pr_fwds : list forwarder;
  pr_updates : chan BestBidOffer;
  pr_ctxDone : bool;
  pr_cancelled : bool;
  pr_writing : bool;
  pr_out : list BestBidOffer;
}.

Definition start_prices (subs : list (chan BestBidOffer)) : prices :=
  mkPrices subs ((λ _, Waiting) <$> subs) (make_chan (Z.of_nat (length subs) * 4)) false false true [].

Definition with_fwd (i : nat) (f : forwarder) (p : prices) : prices :=
  mkPrices (pr_subs p) (<[i := f]> (pr_fwds p)) (pr_updates p) (pr_ctxDone p) (pr_cancelled p)
    (pr_writing p) (pr_out p).
Definition with_sub (i : nat) (ch : chan BestBidOffer) (p : prices) : prices :=
  mkPrices (<[i := ch]> (pr_subs p)) (pr_fwds p) (pr_updates p) (pr_ctxDone p) (pr_cancelled p)
    (pr_writing p) (pr_out p).
Definition with_updates (ch : chan BestBidOffer) (p : prices) : prices :=
  mkPrices (pr_subs p) (pr_fwds p) ch (pr_ctxDone p) (pr_cancelled p) (pr_writing p) (pr_out p).
(** The writer returns: its deferred calls cancel the subscriptions. *)
Definition stop_writing (p : prices) : prices :=
  mkPrices (pr_subs p) (pr_fwds p) (pr_updates p) (pr_ctxDone p) true false (pr_out p).
Definition write_out (bbo : BestBidOffer) (p : prices) : prices :=
  mkPrices (pr_subs p) (pr_fwds p) (pr_updates p) (pr_ctxDone p) (pr_cancelled p) (pr_writing p)
    (pr_out p ++ [bbo]).

(** The goroutine of a subscription: it receives, it sends, or it returns. *)
Definition forwarder_receives (i : nat) (p : prices) : option prices :=
  match pr_fwds p !! i, pr_subs p !! i with
  | Some Waiting, Some ch =>
    match try_recv ch with
    | (Some bbo, ch) => Some (with_fwd i (Holding bbo) (with_sub i ch p))
    | (None, ch) => if ch_closed ch then Some (with_fwd i Finished p) else None
    end
  | _, _ => None
  end.
Definition forwarder_sends (i : nat) (p : prices) : option prices :=
  match pr_fwds p !! i with
  | Some (Holding bbo) =>
    if (length (ch_buf (pr_updates p)) <? ch_cap (pr_updates p))%nat
    then Some (with_fwd i Waiting (with_updates (try_send bbo (pr_updates p)) p))
    else None
  | _ => None
  end.
Definition forwarder_returns (i : nat) (p : prices) : option prices :=
  match pr_fwds p !! i with
  | Some Waiting | Some (Holding _) => if pr_ctxDone p then Some (with_fwd i Finished p) else None
  | _ => None
  end.

Definition is_finished (f : forwarder) : bool := match f with Finished => true | _ => false end.

(** The goroutine that waits for all of them. *)
Definition closer (p : prices) : option prices :=
  if forallb is_finished (pr_fwds p) && negb (ch_closed (pr_updates p))
  then Some (with_updates (close_chan (pr_updates p)) p) else None.

(** The writer: [written] says whether the frame could be written. *)
Definition writer_receives (written : bool) (p : prices) : option prices :=
  if pr_writing p then
    match try_recv (pr_updates p) with
    | (Some bbo, ch) =>
      let p := with_updates ch p in Some (if written then write_out bbo p else stop_writing p)
    | (None, ch) => if ch_closed ch then Some (stop_writing p) else None
    end
  else None.
Definition writer_returns (p : prices) : option prices :=
  if pr_writing p && pr_ctxDone p then Some (stop_writing p) else None.

(** A step of the program. *)
Inductive prices_step (p p' : prices) : Prop :=
| step_receives i : forwarder_receives i p = Some p' → prices_step p p'
| step_sends i : forwarder_sends i p = Some p' → prices_step p p'
| step_returns i : forwarder_returns i p = Some p' → prices_step p p'
| step_closer : closer p = Some p' → prices_step p p'
| step_writes written : writer_receives written p = Some p' → prices_step p p'
| step_writer_returns : writer_returns p = Some p' → prices_step p p'.

(** A step of the surroundings: the websocket hands a price to a subscription that
    has room, or closes one whose context is done; the request ends. *)
Definition publish_price (i : nat) (bbo : BestBidOffer) (p : prices) : option prices :=
  match pr_subs p !! i with
  | Some ch =>
    if negb (ch_closed ch) && (length (ch_buf ch) <? ch_cap ch)%nat
    then Some (with_sub i (try_send bbo ch) p) else None
  | None => None
  end.
Definition close_sub (i : nat) (p : prices) : option prices :=
  match pr_subs p !! i with
  | Some ch => if pr_ctxDone p || pr_cancelled p then Some (with_sub i (close_chan ch) p) else None
  | None => None
  end.
Definition end_request (p : prices) : prices :=
  mkPrices (pr_subs p) (pr_fwds p) (pr_updates p) true (pr_cancelled p) (pr_writing p) (pr_out p).

(** A run, with the prices that the subscriptions accepted. *)
Inductive prices_run (p : prices) : list (nat * BestBidOffer) → prices → Prop :=
| run_start : prices_run p [] p
| run_step l q q' : prices_run p l q → prices_step q q' → prices_run p l q'
| run_publish l q q' i bbo :
    prices_run p l q → publish_price i bbo q = Some q' → prices_run p (l ++ [(i, bbo)]) q'
| run_close l q q' i : prices_run p l q → close_sub i q = Some q' → prices_run p l q'
| run_end l q : prices_run p l q → prices_run p l (end_request q).

End Sse.
