(* ===== verification/Api.v ===== *)
(** * The endpoints on orders, scalers and venues

    [internal/api/handler.go], [handler_order_scaler.go], [handler_venues.go], the
    guards of [handler_streaming.go] and the tracker of [system_status.go]. *)

From S2P Require Import Prelude GoFloat GoString OrderId Domain Store Tables Stream Storage.
From S2P Require Import ScalerStorage StorageApi Vault VaultStore Server ApiRecords.
Import GoFloat GoString Domain Store Tables Storage Server ApiRecords.

Module Api.

Section Api.
Context {sqlite : SqliteJSON} {R : GoRange} {sdk : SDK}.
Context {json_event : Codec TcBotEvent} {json_deal : Codec TcDeal} {json_status : Codec WsOrder}.
Context {json_create : Codec CreateOrderRequest} {json_modify : Codec ModifyOrderRequest}
  {json_cancel : Codec CancelOrderRequestByCloid} {json_flags : Codec (gmap string flag)}
  {json_payload : Codec ScalerStorage.scaledOrderPayload}.
Context {Bot : Type} {json_bot : Codec Bot} (bot_id : Bot → Z).
Context {SessionData : Type}.
Abbreviation Server := (@Server SessionData).
Abbreviation Handler := (@Handler SessionData).

(** ** Listings *)

Definition ListBots (opts : StorageApi.ListBotsOptions) (limit : option Z)
    : Handler (response (list (Z * Z * Bot) * option string)) :=
  r ← on_store (StorageApi.ListBots (StorageApi.mkBotsOptions (StorageApi.lb_BotID opts)
        (StorageApi.lb_UpdatedFrom opts) (StorageApi.lb_UpdatedTo opts) (clampPageSize limit)
        (StorageApi.lb_PageToken opts)));
  mret (match r with
        | Err e => HandlerError e
        | Ok (rows, next) => ok ((λ x : Bot * Z, (bot_id x.1, x.2, x.1)) <$> rows, next)
        end).

(** [created] is the creation time that a deal carries. *)
Definition makeDealRecords (created : TcDeal → Z) (rows : list TcDeal)
    : list (Z * Z * Z * Z * TcDeal) :=
  (λ d, (dl_Id d, dl_BotId d, created d, dl_UpdatedAt d, d)) <$> rows.

Definition ListDeals (rq : Request) (created : TcDeal → Z) (opts : StorageApi.ListDealsOptions)
    (limit : option Z) : Handler (response (list (Z * Z * Z * Z * TcDeal) * option string)) :=
  unsealed rq (
    r ← on_store (StorageApi.ListDeals (StorageApi.mkDealsOptions (StorageApi.ld_DealID opts)
          (StorageApi.ld_BotID opts) (StorageApi.ld_UpdatedFrom opts)
          (StorageApi.ld_UpdatedTo opts) (clampPageSize limit) (StorageApi.ld_PageToken opts)));
    mret (match r with
          | Err e => HandlerError e
          | Ok (rows, next) => ok (makeDealRecords created rows, next)
          end)).

Definition ListOrders (rq : Request) (opts : StorageApi.ListOrdersOptions)
    (includeLog : option bool) (limit : option Z)
    : Handler (response (list OrderRecord * option string)) :=
  let includeLog := default false includeLog in
  unsealed rq (
    r ← on_store (StorageApi.ListOrders (StorageApi.mkOrdersOptions
          (StorageApi.lo_OrderIdPrefix opts) (StorageApi.lo_BotID opts) (StorageApi.lo_DealID opts)
          (StorageApi.lo_BotEventID opts) (StorageApi.lo_ObservedFrom opts)
          (StorageApi.lo_ObservedTo opts) includeLog (clampPageSize limit)
          (StorageApi.lo_PageToken opts)));
    max ← st_gets sv_maxMultiplier;
    mret (match r with
          | Err e => HandlerError e
          | Ok (rows, next) => ok (buildOrderRecords max rows includeLog, next)
          end)).

(** ** Cancelling an order by hand *)

Record CancelOrderByOrderIdResponse := mkCancelResponse {
  cn_OrderId : string;
  cn_Status : string;
  cn_Message : option string;
  cn_Cancel : HyperliquidCancelOrder;
}.

Record cancel_body := mkCancelBody { cb_DryRun : option bool; cb_Reason : option string }.

Definition isCancelableStatus (st : option WsOrder) : bool :=
  match st with
  | None => true
  | Some st =>
    let value := TrimSpace (ws_Status st) in
    if String.eqb value "" then true else EqualFold value "open"
  end.

Definition strPtr (s : string) : option string := if String.eqb s "" then None else Some s.

(** What the loop over the identifiers finds out. *)
Record cancel_scan := mkScan {
  cs_coin : string;
  cs_pending : list OrderIdentifier;
  cs_lastStatus : option WsOrder;
  cs_anySubmission : bool;
}.

(** The coin that a submission names, in upper case. *)
Definition submission_coin (action : Action) : string :=
  if bool_decide (ac_Type action = ActionCreate) then ToUpper (TrimSpace (co_Coin (ac_Create action)))
  else if bool_decide (ac_Type action = ActionModify)
  then ToUpper (TrimSpace (co_Coin (mo_Order (ac_Modify action))))
  else "".

(** One identifier; a submission that is neither a creation nor a modification
    counts as none. *)
Definition scan_one (ident : OrderIdentifier) (sc : cancel_scan) : Sto cancel_scan :=
  action ← LoadHyperliquidSubmission ident;
  match action with
  | None => mret sc
  | Some action =>
    if bool_decide (ac_Type action ≠ ActionCreate) && bool_decide (ac_Type action ≠ ActionModify)
    then mret sc
    else
      let coin := if String.eqb (cs_coin sc) "" then submission_coin action else cs_coin sc in
      st ← LoadHyperliquidStatus ident;
      match st with
      | Some st =>
        if isCancelableStatus (Some st)
        then mret (mkScan coin (cs_pending sc ++ [ident]) (Some st) true)
        else mret (mkScan coin (cs_pending sc) (Some st) true)
      | None => mret (mkScan coin (cs_pending sc ++ [ident]) (cs_lastStatus sc) true)
      end
  end.

Fixpoint scan_all (idents : list OrderIdentifier) (sc : cancel_scan) : Sto cancel_scan :=
  match idents with
  | [] => mret sc
  | ident :: idents => sc ← scan_one ident sc; scan_all idents sc
  end.

(** The emissions, one per identifier; [emit] is the queue's answer, and the
    first refusal ends them. *)
Fixpoint emit_all (emit : OrderWork → bool) (works : list OrderWork) : Handler bool :=
  match works with
  | [] => mret true
  | w :: works => λ s,
    let s := with_orders ((λ q, q ++ [w]) <$> sv_orders s) s in
    if emit w then emit_all emit works s else (false, s)
  end.

Definition cancel_work (oid : OrderId.OrderId) (payload : CancelOrderRequestByCloid)
    (reason : string) (ident : OrderIdentifier) : OrderWork :=
  mkOrderWork ident oid (action_cancel payload reason) zero_botevent.

Definition CancelOrderByOrderId (emit : OrderWork → bool) (orderId : string)
    (venueId : option string) (body : option cancel_body)
    : Handler (response CancelOrderByOrderIdResponse) := λ s,
  match sv_orders s with
  | None => (status 500, s)
  | Some _ =>
    let rawOrderId := TrimSpace orderId in
    if String.eqb rawOrderId "" then (status 400, s)
    else match OrderId.FromHexString rawOrderId with
    | Err _ => (status 400, s)
    | Ok oid =>
      let '(idents, s) := on_store (ListSubmissionIdentifiersForOrder oid) s in
      match idents with
      | Err _ => (status 500, s)
      | Ok idents =>
        let venueFilter := TrimSpace (deref venueId) in
        let idents :=
          if String.eqb venueFilter "" then idents
          else filter (λ i, Is_true (EqualFold (Venue i) venueFilter)) idents in
        match idents with
        | [] => (status 404, s)
        | _ =>
          let '(scanned, s) := on_store (scan_all idents (mkScan "" [] None false)) s in
          match scanned with
          | Err _ => (status 500, s)
          | Ok sc =>
            if negb (cs_anySubmission sc) then (status 404, s)
            else if String.eqb (cs_coin sc) "" then (status 404, s)
            else match cs_pending sc with
            | [] => (status 409, s)
            | pending =>
              let dryRun := default false (body ≫= cb_DryRun) in
              let reason := TrimSpace (deref (body ≫= cb_Reason)) in
              let payload := mkCancel (cs_coin sc) (OrderId.Hex oid) in
              let resp st msg := mkCancelResponse (OrderId.Hex oid) st msg
                                   (convertHyperliquidCancel payload) in
              if dryRun then
                (Reply 202 (Some (resp "validated"%string
                   (Some "dry-run requested; cancel not enqueued"%string))), s)
              else
                let '(sent, s) := emit_all emit (cancel_work oid payload reason <$> pending) s in
                if negb sent then (status 500, s)
                else
                  (Reply 202 (Some (resp "queued"%string
                     (if negb (String.eqb reason "") then strPtr reason
                      else (λ st, "latest status: " +:+ ws_Status st) <$> cs_lastStatus sc))), s)
            end
          end
        end
      end
    end
  end.

(** ** The order scaler *)

Record OrderScalerEffectiveMultiplier := mkEffectiveMultiplier {
  em_Notes : option string;
  em_Source : OrderScalerSource;
  em_UpdatedAt : Z;
  em_UpdatedBy : string;
  em_Value : f64;
}.
Record OrderScalerConfigResponse := mkScalerConfig {
  cf_Default : Stream.OrderScalerState;
  cf_Effective : OrderScalerEffectiveMultiplier;
}.
Record BotOrderScalerConfigResponse := mkBotScalerConfig {
  bc_BotId : Z;
  bc_Default : Stream.OrderScalerState;
  bc_Effective : OrderScalerEffectiveMultiplier;
  bc_Override : option Stream.OrderScalerOverride;
}.

Definition validateOrderScalerMultiplier (max multiplier : f64) : bool :=
  negb (fle multiplier fzero) && negb (fgt max fzero && fgt multiplier max).

Definition buildOrderScalerEffectiveMultiplier (e : Stream.EffectiveOrderScaler) (max : f64)
    : OrderScalerEffectiveMultiplier :=
  let value := clampOrderScalerMultiplier (Stream.ae_Multiplier e) max in
  match Stream.ae_Source e, Stream.ae_Override e with
  | OrderScalerSourceBotOverride, Some o =>
    mkEffectiveMultiplier (Stream.ao_Notes o) (Stream.ae_Source e) (Stream.ao_UpdatedAt o)
      (Stream.ao_UpdatedBy o) value
  | source, _ =>
    let d := Stream.ae_Default e in
    mkEffectiveMultiplier (Stream.as_Notes d) source (Stream.as_UpdatedAt d) (Stream.as_UpdatedBy d)
      value
  end.

Definition ListOrderScalers (opts : StorageApi.ListOrdersOptions) (limit : option Z)
    : Handler (response (list (string * Z * string * Stream.EffectiveOrderScaler) * option string)) :=
  r ← on_store (StorageApi.ListOrderScalers (StorageApi.mkOrdersOptions
        (StorageApi.lo_OrderIdPrefix opts) (StorageApi.lo_BotID opts) (StorageApi.lo_DealID opts)
        (StorageApi.lo_BotEventID opts) None None false (clampPageSize limit)
        (StorageApi.lo_PageToken opts)));
  max ← st_gets sv_maxMultiplier;
  mret (match r with
        | Err e => HandlerError e
        | Ok (rows, next) =>
          ok ((λ '(oid, at_, actor, cfg), (OrderId.Hex oid, at_, actor,
                 Stream.mkApiEffective (Stream.ae_Default cfg)
                   (clampOrderScalerMultiplier (Stream.ae_Multiplier cfg) max)
                   (Stream.ae_OrderId cfg) (Stream.ae_Override cfg) (Stream.ae_Source cfg))) <$> rows,
              next)
        end).

(** The configuration of a bot as the three endpoints on it answer. *)
Definition bot_config (botID : Z) (override : Sto (option Stream.OrderScalerOverride))
    : Handler (response BotOrderScalerConfigResponse) :=
  r ← on_store (
    override ← override;
    defaultState ← ScalerStorage.GetDefaultOrderScaler;
    effective ← ScalerStorage.ResolveEffectiveOrderScalerConfig (OrderId.mkOrderId botID 0 0);
    mret (defaultState, effective, override));
  max ← st_gets sv_maxMultiplier;
  mret (match r with
        | Err _ => status 500
        | Ok (defaultState, effective, override) =>
          ok (mkBotScalerConfig botID defaultState
                (buildOrderScalerEffectiveMultiplier effective max) override)
        end).

Definition GetOrderScalerConfig (rq : Request) : Handler (response OrderScalerConfigResponse) :=
  authenticated rq (
    r ← on_store (
      defaultState ← ScalerStorage.GetDefaultOrderScaler;
      effective ← ScalerStorage.ResolveEffectiveOrderScalerConfig OrderId.zero;
      mret (defaultState, effective));
    max ← st_gets sv_maxMultiplier;
    mret (match r with
          | Err _ => status 500
          | Ok (defaultState, effective) =>
            ok (mkScalerConfig defaultState (buildOrderScalerEffectiveMultiplier effective max))
          end)).

(** The body is the multiplier and the notes. *)
Definition UpdateOrderScalerConfig (rq : Request) (body : option (f64 * option string))
    : Handler (response OrderScalerConfigResponse) :=
  authenticated rq (
    match body with
    | None => mret (status 400)
    | Some (multiplier, notes) =>
      max ← st_gets sv_maxMultiplier;
      if negb (validateOrderScalerMultiplier max multiplier) then mret (status 400)
      else
        actor ← st_gets resolveActor;
        r ← on_store (ScalerStorage.UpsertDefaultOrderScaler (rq_now rq) multiplier actor notes);
        mret (match r with
              | Err _ => status 500
              | Ok state =>
                ok (mkScalerConfig state (buildOrderScalerEffectiveMultiplier
                      (Stream.mkApiEffective state (Stream.as_Multiplier state) "" None
                         OrderScalerSourceDefault) max))
              end)
    end).

Definition GetBotOrderScalerConfig (rq : Request) (botId : Z)
    : Handler (response BotOrderScalerConfigResponse) :=
  authenticated rq (
    match normalizeBotID botId with
    | None => mret (status 400)
    | Some botID => bot_config botID (ScalerStorage.GetBotOrderScalerOverride botID)
    end).

Definition UpsertBotOrderScalerConfig (rq : Request) (botId : Z)
    (body : option (f64 * option string)) : Handler (response BotOrderScalerConfigResponse) :=
  authenticated rq (
    match normalizeBotID botId, body with
    | None, _ | _, None => mret (status 400)
    | Some botID, Some (multiplier, notes) =>
      max ← st_gets sv_maxMultiplier;
      if negb (validateOrderScalerMultiplier max multiplier) then mret (status 400)
      else
        actor ← st_gets resolveActor;
        bot_config botID
          (o ← ScalerStorage.UpsertBotOrderScalerOverride (rq_now rq) botID (Some multiplier) notes actor;
           mret (Some o))
    end).

Definition DeleteBotOrderScalerConfig (rq : Request) (botId : Z)
    : Handler (response BotOrderScalerConfigResponse) :=
  authenticated rq (
    match normalizeBotID botId with
    | None => mret (status 400)
    | Some botID =>
      actor ← st_gets resolveActor;
      bot_config botID
        (_ ← ScalerStorage.DeleteBotOrderScalerOverride (rq_now rq) botID actor; mret None)
    end).

(** ** Venues *)

(** The status of an error of the storage, [500] unless it is listed. *)
Definition status_of {A} (codes : list (store_error * Z)) (e : store_error) : response A :=
  match find (λ x, bool_decide (err_text x.1 = err_text e)) codes with
  | Some (_, code) => status code
  | None => status 500
  end.

Definition answer {A} (code : Z) (codes : list (store_error * Z)) (r : result store_error A)
    : response A :=
  match r with Ok a => Reply code (Some a) | Err e => status_of codes e end.

Definition ListVenues : Handler (response (list StorageApi.VenueRecord)) :=
  r ← on_store StorageApi.ListVenues; mret (answer 200 [] r).

Definition UpsertVenue (venueId : string) (body : option StorageApi.VenueUpsertRequest)
    : Handler (response StorageApi.VenueRecord) :=
  let venueID := TrimSpace venueId in
  match body with
  | None => mret (status 400)
  | Some body =>
    if String.eqb venueID "" then mret (status 400)
    else r ← on_store (StorageApi.UpsertVenue venueID body);
         mret (answer 200 [(StorageApi.ErrVenueInvalid, 400)] r)
  end.

Definition DeleteVenue (venueId : string) : Handler (response unit) :=
  let venueID := TrimSpace venueId in
  if String.eqb venueID "" then mret (status 400)
  else r ← on_store (StorageApi.DeleteVenue venueID);
       mret (answer 204 [(StorageApi.ErrVenueNotFound, 404); (StorageApi.ErrVenueImmutable, 409);
                         (StorageApi.ErrVenueInvalid, 400)] r).

Definition ListVenueAssignments (venueId : string)
    : Handler (response (list StorageApi.VenueAssignmentRecord)) :=
  let venueID := TrimSpace venueId in
  if String.eqb venueID "" then mret (status 400)
  else r ← on_store (StorageApi.ListVenueAssignments venueID);
       mret (answer 200 [(StorageApi.ErrVenueNotFound, 404)] r).

Definition UpsertVenueAssignment (rq : Request) (venueId : string) (botID : Z)
    (body : option bool) : Handler (response StorageApi.VenueAssignmentRecord) :=
  let venueID := TrimSpace venueId in
  match body with
  | None => mret (status 400)
  | Some isPrimary =>
    if String.eqb venueID "" || (botID <=? 0) then mret (status 400)
    else r ← on_store (StorageApi.UpsertVenueAssignment (rq_now rq) venueID botID isPrimary);
         mret (answer 200 [(StorageApi.ErrVenueNotFound, 404); (StorageApi.ErrVenueInvalid, 400)] r)
  end.

Definition DeleteVenueAssignment (venueId : string) (botID : Z) : Handler (response unit) :=
  let venueID := TrimSpace venueId in
  if String.eqb venueID "" || (botID <=? 0) then mret (status 400)
  else r ← on_store (StorageApi.DeleteVenueAssignment venueID botID);
       mret (answer 204 [(StorageApi.ErrVenueAssignmentNotFound, 404);
                         (StorageApi.ErrVenueInvalid, 400)] r).

Definition ListBotVenues (botID : Z) : Handler (response (list StorageApi.BotVenueAssignmentRecord)) :=
  if botID <=? 0 then mret (status 400)
  else r ← on_store (StorageApi.ListBotVenues botID);
       mret (answer 200 [(StorageApi.ErrVenueInvalid, 400)] r).

(** ** Streams *)

(** A guarded stream: the subscription is made when the caller may have it. *)
Definition StreamOrders {A} (rq : Request) (subscribe : result store_error A)
    : Handler (response A) :=
  unsealed rq (mret (match subscribe with Ok a => ok a | Err e => HandlerError e end)).
Definition StreamSystemEvents {A} (rq : Request) (subscribe : option A) : Handler (response A) :=
  unsealed rq (mret (match subscribe with Some a => ok a | None => status 500 end)).

(** The coins in upper case, each once, in the order they are named. *)
Fixpoint dedupe_from (seen : gset string) (values : list string) : list string :=
  match values with
  | [] => []
  | v :: values =>
    let normalized := ToUpper (TrimSpace v) in
    if String.eqb normalized "" then dedupe_from seen values
    else if decide (normalized ∈ seen) then dedupe_from seen values
    else normalized :: dedupe_from ({[normalized]} ∪ seen) values
  end.
Definition dedupeCoins (values : list string) : list string := dedupe_from ∅ values.

(** The prices of the coins; [subscribe] is the price source's answer for one. *)
Definition StreamHyperliquidPrices {A} (source : option (string → option A)) (coins : list string)
    : response (list A) :=
  match source with
  | None => status 500
  | Some subscribe =>
    match dedupeCoins coins with
    | [] => status 400
    | coins => match mapM subscribe coins with Some subs => ok subs | None => status 500 end
    end
  end.

End Api.

(** ** The status of the system: [system_status.go] *)

Record VenueStatus := mkVenueStatus {
  vt_VenueID : string;
  vt_Wallet : string;
  vt_Connected : bool;
  vt_LastError : option string;
}.

Record SystemStatusTracker := mkTracker {
  tk_threeCommasAvailable : bool;
  tk_threeCommasLastError : option string;
  tk_threeCommasLastSuccessCall : option Z;
  tk_engineRunning : bool;
  tk_engineLastSync : option Z;
  tk_venueStatuses : gmap string VenueStatus;
}.

Definition NewSystemStatusTracker : SystemStatusTracker := mkTracker true None None false None ∅.

Definition SetThreeCommasError (err : string) (t : SystemStatusTracker) : SystemStatusTracker :=
  mkTracker false (Some err) (tk_threeCommasLastSuccessCall t) (tk_engineRunning t)
    (tk_engineLastSync t) (tk_venueStatuses t).
Definition ClearThreeCommasError (now : Z) (t : SystemStatusTracker) : SystemStatusTracker :=
  mkTracker true None (Some now) (tk_engineRunning t) (tk_engineLastSync t) (tk_venueStatuses t).
Definition SetEngineRunning (running : bool) (t : SystemStatusTracker) : SystemStatusTracker :=
  mkTracker (tk_threeCommasAvailable t) (tk_threeCommasLastError t) (tk_threeCommasLastSuccessCall t)
    running (tk_engineLastSync t) (tk_venueStatuses t).
Definition RecordEngineSync (now : Z) (t : SystemStatusTracker) : SystemStatusTracker :=
  mkTracker (tk_threeCommasAvailable t) (tk_threeCommasLastError t) (tk_threeCommasLastSuccessCall t)
    (tk_engineRunning t) (Some now) (tk_venueStatuses t).
Definition put_venues (m : gmap string VenueStatus) (t : SystemStatusTracker) : SystemStatusTracker :=
  mkTracker (tk_threeCommasAvailable t) (tk_threeCommasLastError t) (tk_threeCommasLastSuccessCall t)
    (tk_engineRunning t) (tk_engineLastSync t) m.
Definition SetVenueStatus (venueID wallet : string) (connected : bool) (lastError : option string)
    (t : SystemStatusTracker) : SystemStatusTracker :=
  put_venues (<[venueID := mkVenueStatus venueID wallet connected lastError]> (tk_venueStatuses t)) t.
Definition SetVenueError (venueID err : string) (t : SystemStatusTracker) : SystemStatusTracker :=
  put_venues (alter (λ v, mkVenueStatus (vt_VenueID v) (vt_Wallet v) false (Some err)) venueID
                (tk_venueStatuses t)) t.
Definition ClearVenueError (venueID : string) (t : SystemStatusTracker) : SystemStatusTracker :=
  put_venues (alter (λ v, mkVenueStatus (vt_VenueID v) (vt_Wallet v) true None) venueID
                (tk_venueStatuses t)) t.

Record SystemStatus := mkSystemStatus {
  ss_Timestamp : Z;
  ss_ThreecommasApi : option (bool * option string * option Z);
  ss_HyperliquidVenues : option (list VenueStatus);
  ss_Engine : Z * option Z * bool;
}.

(** [active] counts the active deals, when there is something that counts them. *)
Definition Snapshot {R : GoRange} (now : Z) (active : option Z) (t : SystemStatusTracker)
    : SystemStatus :=
  mkSystemStatus now
    (match tk_threeCommasLastError t, tk_threeCommasLastSuccessCall t with
     | None, None => None
     | e, c => Some (tk_threeCommasAvailable t, e, c)
     end)
    (if bool_decide (tk_venueStatuses t = ∅) then None
     else Some ((go_range 50 (tk_venueStatuses t)).*2))
    (default 0 active, tk_engineLastSync t, tk_engineRunning t).

Definition GetSystemStatus {R : GoRange} (now : Z) (active : option Z)
    (t : option SystemStatusTracker) : response SystemStatus :=
  match t with None => status 500 | Some t => ok (Snapshot now active t) end.

End Api.
