(* ===== verification/FillTrackerFacts.v ===== *)
(** * Facts about the fill tracker

    The aliasing invariant of [FillTracker]: the maps of the service and of its
    deals point to the same records, every record names the identifier it is
    stored under, the deals partition the orders, and the cached position of a
    deal is the one its records give. *)

From S2P Require Import Prelude GoFloat GoString OrderId Domain Adapter Store FillTracker.
Import GoFloat GoString Domain Adapter Store FillTracker.

Module FillTrackerFacts.

Abbreviation deal_of ident := (OrderId.DealID (oi_OrderId ident)).

(** ** The invariant *)

Definition position_of (t : totals) : DealPosition :=
  mkPosition (t_buyQty t) (t_buyValue t) (t_sellQty t) (fsub (t_buyQty t) (t_sellQty t))
    (if fgt (t_buyQty t) fzero then fdiv (t_buyValue t) (t_buyQty t) else fzero).

Definition records (h : gmap nat orderState) (d : dealState) : list (OrderIdentifier * orderState) :=
  (λ x, (x.1, deref h x.2)) <$> map_to_list (ds_orders d).

(** The cached position is what some visiting order of the records gives. *)
Definition position_fresh {sdk : SDK} (h : gmap nat orderState) (d : dealState) : Prop :=
  ∃ l, l ≡ₚ records h d ∧ ds_position d = position_of (recompute_totals l).

Record heap_ok (s : Service) : Prop := {
  ho_live : ∀ i p, ft_orders s !! i = Some p →
    (p < ft_next s)%nat ∧ ∃ o, ft_heap s !! p = Some o ∧ os_identifier o = i;
  ho_inj : ∀ i j p, ft_orders s !! i = Some p → ft_orders s !! j = Some p → i = j;
}.

(** [inv] with the deal of [ident] still to be recomputed; [None] for none. *)
Record inv_open {sdk : SDK} (open : option (OrderIdentifier * nat)) (s : Service) : Prop := {
  io_heap : heap_ok s;
  io_open : ∀ i p, open = Some (i, p) → ft_orders s !! i = Some p;
  io_deal : ∀ id d, ft_deals s !! id = Some d → ds_dealID d = id;
  io_only : ∀ id d i q, ft_deals s !! id = Some d → ds_orders d !! i = Some q →
    ft_orders s !! i = Some q ∧ deal_of i = id;
  io_all : ∀ i q, ft_orders s !! i = Some q →
    (∃ p, open = Some (i, p)) ∨ ∃ d, ft_deals s !! deal_of i = Some d ∧ ds_orders d !! i = Some q;
  io_fresh : ∀ id d, ft_deals s !! id = Some d →
    (∃ i p, open = Some (i, p) ∧ deal_of i = id) ∨ position_fresh (ft_heap s) d;
}.

Definition inv {sdk : SDK} (s : Service) : Prop := inv_open None s.

Section Inv.
Context {sdk : SDK} {R : GoRange} {HR : FairRange R}.

Lemma deref_insert h p o : deref (<[p := o]> h) p = o.
Proof. unfold deref. by rewrite lookup_insert_eq. Qed.

Lemma deref_insert_ne h p q o : p ≠ q → deref (<[p := o]> h) q = deref h q.
Proof. intros. unfold deref. by rewrite lookup_insert_ne. Qed.

Lemma deref_some h p o : h !! p = Some o → deref h p = o.
Proof. intros H. unfold deref. by rewrite H. Qed.

Lemma visit_records i h d : visit i h d ≡ₚ records h d.
Proof. unfold visit, records. by rewrite range_perm. Qed.

Lemma records_ext h h' d :
  (∀ i q, ds_orders d !! i = Some q → deref h q = deref h' q) → records h d = records h' d.
Proof.
  intros Hq. unfold records. apply list_fmap_ext. intros k [i q] Hl. simpl.
  apply list_elem_of_lookup_2, elem_of_map_to_list in Hl. by rewrite (Hq i q).
Qed.

Lemma recompute_orders i h d : ds_orders (recompute i h d) = ds_orders d.
Proof. reflexivity. Qed.

Lemma recompute_fresh i h d : position_fresh h (recompute i h d).
Proof.
  exists (visit i h d). split; [|done].
  rewrite visit_records. unfold records. by rewrite recompute_orders.
Qed.

Lemma inv_New : inv New.
Proof. split; try done; split; done. Qed.

(** Writing to the open order keeps the invariant. *)
Lemma update_open ident p f s :
  (∀ o, os_identifier (f o) = os_identifier o) →
  inv_open (Some (ident, p)) s → inv_open (Some (ident, p)) (update_state p f s).
Proof.
  intros Hf [[Hlive Hinj] Hopen Hdeal Honly Hall Hfresh].
  specialize (Hopen ident p eq_refl).
  split; simpl; [split; simpl; [|done]|intros ?? [= <- <-]; done|done|done|done|].
  - intros i q Hi. destruct (Hlive i q Hi) as (Hlt & o & Ho & Hid). split; [done|].
    destruct (decide (p = q)) as [->|Hne].
    + rewrite lookup_insert_eq. eexists. split; [done|]. by rewrite Hf, (deref_some _ _ _ Ho).
    + rewrite lookup_insert_ne by done. eauto.
  - intros id d Hd. destruct (Hfresh id d Hd) as [?|(l & Hl & Hp)]; [by left|].
    destruct (decide (deal_of ident = id)) as [Heq|Hne]; [left; eauto|].
    right. exists l. split; [|done]. rewrite Hl. apply Permutation_refl'.
    apply records_ext. intros i q Hq. symmetry. apply deref_insert_ne. intros <-.
    destruct (Honly id d i p Hd Hq) as [Hi Hdi]. by rewrite (Hinj ident i p) in Hne.
Qed.

(** Storing the open order in its deal and recomputing closes the invariant. *)
Lemma close_open i ident p now s d0 :
  inv_open (Some (ident, p)) s →
  ds_dealID d0 = deal_of ident →
  ds_orders d0 = match ft_deals s !! deal_of ident with Some d => ds_orders d | None => ∅ end →
  inv (with_deals (<[deal_of ident := put_order i ident p now (ft_heap s) d0]> (ft_deals s)) s).
Proof.
  intros [[Hlive Hinj] Hopen Hdeal Honly Hall Hfresh] Hid Ho.
  specialize (Hopen ident p eq_refl).
  split; simpl; [by split|done| | | |].
  - intros id d. destruct (decide (deal_of ident = id)) as [<-|Hne].
    + rewrite lookup_insert_eq. by intros [= <-].
    + rewrite lookup_insert_ne by done. apply Hdeal.
  - intros id d j q. destruct (decide (deal_of ident = id)) as [<-|Hne].
    + rewrite lookup_insert_eq. intros [= <-]. unfold put_order. rewrite recompute_orders. simpl.
      destruct (decide (ident = j)) as [<-|Hj].
      * rewrite lookup_insert_eq. by intros [= <-].
      * rewrite lookup_insert_ne by done. rewrite Ho.
        destruct (ft_deals s !! deal_of ident) as [d'|] eqn:Hd'; [|done].
        intros Hq. apply (Honly _ d' j q Hd' Hq).
    + rewrite lookup_insert_ne by done. apply Honly.
  - intros j q Hj. right. destruct (decide (deal_of ident = deal_of j)) as [Heq|Hne].
    + rewrite <- Heq, lookup_insert_eq. eexists. split; [done|].
      unfold put_order. rewrite recompute_orders. simpl.
      destruct (decide (ident = j)) as [<-|Hij].
      * rewrite lookup_insert_eq. congruence.
      * rewrite lookup_insert_ne by done. rewrite Ho.
        destruct (Hall j q Hj) as [[? [= ]]|(d & Hd & Hdq)]; [done|].
        by rewrite Heq, Hd.
    + rewrite lookup_insert_ne by done.
      destruct (Hall j q Hj) as [[? [= -> ->]]|?]; [done|done].
  - intros id d. destruct (decide (deal_of ident = id)) as [<-|Hne].
    + rewrite lookup_insert_eq. intros [= <-]. right. apply recompute_fresh.
    + rewrite lookup_insert_ne by done. intros Hd. right.
      destruct (Hfresh id d Hd) as [(? & ? & [= <- <-] & ?)|?]; done.
Qed.

Lemma ensureDeal_facts ident now s :
  inv_open (Some (ident, 0%nat)) s ∨ (∀ id d, ft_deals s !! id = Some d → ds_dealID d = id) →
  ds_dealID (ensureDealLocked ident now s) = deal_of ident ∧
  ds_orders (ensureDealLocked ident now s) =
    match ft_deals s !! deal_of ident with Some d => ds_orders d | None => ∅ end.
Proof.
  intros Hd. assert (Hd' : ∀ id d, ft_deals s !! id = Some d → ds_dealID d = id).
  { destruct Hd as [[]|]; done. }
  unfold ensureDealLocked. destruct (ft_deals s !! deal_of ident) as [d|] eqn:E;
    case_match; simpl; eauto.
Qed.

Lemma attach_inv i ident p now s :
  inv_open (Some (ident, p)) s → inv (attach i ident p now s).
Proof.
  intros Hs. destruct (ensureDeal_facts ident now s) as [Hid Ho].
  { right. apply Hs. }
  by apply close_open.
Qed.

(** A tracked order can be reopened. *)
Lemma open_inv ident p s :
  inv s → ft_orders s !! ident = Some p → inv_open (Some (ident, p)) s.
Proof.
  intros [Hh Hopen Hdeal Honly Hall Hfresh] Hp.
  split; [done|by intros ?? [= <- <-]|done|done| |].
  - intros i q Hi. destruct (Hall i q Hi) as [[? [=]]|?]; eauto.
  - intros id d Hd. destruct (Hfresh id d Hd) as [(?&?&[=]&?)|?]; eauto.
Qed.

Lemma ensure_open ident s :
  inv s →
  inv_open (Some (ident, (ensureOrderLocked ident s).1)) (ensureOrderLocked ident s).2.
Proof.
  intros Hs. unfold ensureOrderLocked.
  destruct (ft_orders s !! ident) as [p|] eqn:Hp; simpl.
  - pose proof (open_inv _ _ _ Hs Hp) as Ho.
    destruct Ho as [[Hlive Hinj] Hopen Hdeal Honly Hall Hfresh].
    destruct (Hlive ident p Hp) as (_ & o & Ho & Hid).
    assert (Heq : update_state p (with_identifier ident) s = s).
    { unfold update_state, with_heap. rewrite (deref_some _ _ _ Ho).
      assert (with_identifier ident o = o) as -> by (destruct o; simpl in *; by subst).
      rewrite insert_id by done. by destruct s. }
    rewrite Heq. by apply open_inv.
  - destruct Hs as [[Hlive Hinj] Hopen Hdeal Honly Hall Hfresh].
    assert (Hnew : ∀ i q, ft_orders s !! i = Some q → q ≠ ft_next s ∧ i ≠ ident).
    { intros i q Hi. destruct (Hlive i q Hi) as [? _]. split; [lia|congruence]. }
    split; simpl; [split; simpl| |done| | |].
    + intros i q. destruct (decide (ident = i)) as [<-|Hne].
      * rewrite lookup_insert_eq. intros [= <-]. split; [lia|]. rewrite lookup_insert_eq. eauto.
      * rewrite lookup_insert_ne by done. intros Hi. destruct (Hnew i q Hi).
        destruct (Hlive i q Hi) as (? & ? & ? & ?). split; [lia|].
        rewrite lookup_insert_ne by done. eauto.
    + intros i j q. destruct (decide (ident = i)) as [<-|Hi], (decide (ident = j)) as [<-|Hj];
        rewrite ?lookup_insert_eq, ?lookup_insert_ne by done; try done; eauto.
      * intros [= <-] Hq. by destruct (Hnew j _ Hq).
      * intros Hq [= <-]. by destruct (Hnew i _ Hq).
    + intros ?? [= <- <-]. by rewrite lookup_insert_eq.
    + intros id d i q Hd Hq. destruct (Honly id d i q Hd Hq) as [Hi ?]. split; [|done].
      rewrite lookup_insert_ne; [done|]. intros <-. by destruct (Hnew _ _ Hi).
    + intros i q. destruct (decide (ident = i)) as [<-|Hne]; [left; eauto|].
      rewrite lookup_insert_ne by done. intros Hi.
      destruct (Hall i q Hi) as [[? [=]]|?]; eauto.
    + intros id d Hd. destruct (Hfresh id d Hd) as [(?&?&[=]&?)|(l & Hl & Hpos)].
      right. exists l. split; [|done]. rewrite Hl. apply Permutation_refl'.
      apply records_ext. intros i q Hq. symmetry. apply deref_insert_ne.
      destruct (Honly id d i q Hd Hq) as [Hi _]. destruct (Hnew i q Hi). congruence.
Qed.

(** The tracker's frame: a step that opens one order, writes to it and stores
    it in its deal. *)
Lemma open_write_attach i ident f now s :
  (∀ o, os_identifier (f o) = os_identifier o) → inv s →
  inv (attach i ident (ensureOrderLocked ident s).1 now
         (update_state (ensureOrderLocked ident s).1 f (ensureOrderLocked ident s).2)).
Proof.
  intros Hf Hs. apply attach_inv, update_open; [done|]. by apply ensure_open.
Qed.

Lemma with_hydration_open open a b c s :
  inv_open open s → inv_open open (with_hydration a b c s).
Proof. intros [[] ?????]. by split; [split|..]. Qed.

(** ** Every operation preserves it *)

Lemma applyStatus_identifier st now o : os_identifier (applyStatus st now o) = os_identifier o.
Proof. unfold applyStatus. by case_match. Qed.

Lemma applyEvent_identifier e o : os_identifier (applyEvent e o) = os_identifier o.
Proof. by destruct e. Qed.

Lemma ApplyScaledOrder_inv ident size price now s :
  inv s → inv (ApplyScaledOrder ident size price now s).
Proof.
  intros Hs. unfold ApplyScaledOrder. destruct (_ && _); [done|].
  destruct (ensureOrderLocked ident s) as [p s'] eqn:E.
  pose proof (λ f H, open_write_attach 1 ident f now s H Hs) as Ho. rewrite E in Ho.
  apply Ho. intros o. simpl. by destruct (fgt price _), (fgt size _).
Qed.

Lemma mark_open ident p s :
  inv_open (Some (ident, p)) s → inv_open (Some (ident, p)) (markOrderHydratedLocked p s).
Proof.
  intros Hs. unfold markOrderHydratedLocked.
  destruct (negb _); [done|]. destruct (ft_statusHydrated s); [done|].
  destruct (_ =? 0); [done|].
  assert (Hs' : inv_open (Some (ident, p))
    (if requiresHydration (deref (ft_heap s) p)
     then update_state p (with_epoch (ft_hydrationEpoch s)) s else s)).
  { case_match; [|done]. by apply update_open. }
  destruct (all_hydrated _ _ _); [|done]. by apply with_hydration_open.
Qed.

Lemma update_status_inv ident event st now s :
  inv s → inv (update_status_locked ident event st now s).
Proof.
  intros Hs. unfold update_status_locked.
  destruct (ensureOrderLocked ident s) as [p s'] eqn:E.
  pose proof (ensure_open ident s Hs) as Ho. rewrite E in Ho. simpl in Ho.
  apply attach_inv, mark_open, update_open; [|done].
  intros o. by rewrite applyStatus_identifier, applyEvent_identifier.
Qed.

Lemma markOrderCancelled_inv ident now s : inv s → inv (markOrderCancelled ident now s).
Proof.
  intros Hs. unfold markOrderCancelled.
  destruct (ft_orders s !! ident) as [p|] eqn:Hp; [|done].
  pose proof (io_all _ _ Hs ident p Hp) as [[? [=]]|(d & Hd & _)].
  simpl. rewrite Hd.
  match goal with |- context [update_state p ?f s] => set (s' := update_state p f s) end.
  assert (Ho : inv_open (Some (ident, p)) s') by (apply update_open; [done|]; by apply open_inv).
  apply (close_open 4 ident p now s' d Ho); simpl.
  - apply (io_deal _ _ Hs _ _ Hd).
  - by rewrite Hd.
Qed.

(** Rewriting the records of one deal, then recomputing it. *)
Lemma rewrite_deal_inv i id now d h s :
  inv s → ft_deals s !! id = Some d →
  (∀ p o, ft_heap s !! p = Some o → ∃ o', h !! p = Some o' ∧ os_identifier o' = os_identifier o) →
  (∀ p, (∀ j, ds_orders d !! j ≠ Some p) → deref h p = deref (ft_heap s) p) →
  inv (with_deals (<[id := recompute i h (mkDealState (ds_botID d) (ds_dealID d) (ds_currency d)
        (ds_orders d) (ds_position d) now)]> (ft_deals s)) (with_heap h s)).
Proof.
  intros [[Hlive Hinj] Hopen Hdeal Honly Hall Hfresh] Hd Hh Hout.
  split; simpl; [split; simpl; [|done]|done| | | |].
  - intros j p Hj. destruct (Hlive j p Hj) as (? & o & Ho & Hid). split; [done|].
    destruct (Hh p o Ho) as (o' & ? & ?). exists o'. split; congruence.
  - intros id' d'. destruct (decide (id = id')) as [<-|Hne].
    + rewrite lookup_insert_eq. intros [= <-]. simpl. by apply Hdeal.
    + rewrite lookup_insert_ne by done. apply Hdeal.
  - intros id' d' j q. destruct (decide (id = id')) as [<-|Hne].
    + rewrite lookup_insert_eq. intros [= <-]. simpl. by apply Honly.
    + rewrite lookup_insert_ne by done. apply Honly.
  - intros j q Hj. right. destruct (Hall j q Hj) as [[? [=]]|(d' & Hd' & Hq)].
    destruct (decide (id = deal_of j)) as [->|Hne].
    + rewrite lookup_insert_eq. eexists. split; [done|]. simpl. congruence.
    + rewrite lookup_insert_ne by done. eauto.
  - intros id' d'. right. revert H. destruct (decide (id = id')) as [<-|Hne].
    + rewrite lookup_insert_eq. intros [= <-]. apply recompute_fresh.
    + rewrite lookup_insert_ne by done. intros Hd'.
      destruct (Hfresh id' d' Hd') as [(?&?&[=]&?)|(l & Hl & Hpos)].
      exists l. split; [|done]. rewrite Hl. apply Permutation_refl'.
      apply records_ext. intros j q Hq. symmetry. apply Hout. intros j' Hj'.
      destruct (Honly _ _ _ _ Hd' Hq) as [Hj1 Hj2]. destruct (Honly _ _ _ _ Hd Hj') as [Hj3 Hj4].
      pose proof (Hinj _ _ _ Hj1 Hj3) as <-. congruence.
Qed.

Lemma close_order_fold now l h :
  (∀ p o, h !! p = Some o → ∃ o', fold_left (close_order now) l h !! p = Some o' ∧
     os_identifier o' = os_identifier o) ∧
  (∀ p, p ∉ l.*2 → deref (fold_left (close_order now) l h) p = deref h p).
Proof.
  revert h. induction l as [|[j q] l IH]; intros h; simpl; [eauto|].
  destruct (IH (close_order now h (j, q))) as [IH1 IH2]. split.
  - intros p o Hp. unfold close_order in *. simpl in *. case_match; [|by eauto].
    destruct (decide (q = p)) as [->|Hne].
    + destruct (IH1 p _ (lookup_insert_eq _ _ _)) as (o' & ? & Hid). exists o'. split; [done|].
      rewrite Hid. simpl. by rewrite (deref_some _ _ _ Hp).
    + apply IH1. by rewrite lookup_insert_ne.
  - intros p [Hpq Hpl]%not_elem_of_cons. rewrite IH2 by done.
    unfold close_order. simpl. case_match; [|done]. by apply deref_insert_ne.
Qed.

Lemma closeOpenOrders_inv id now s : inv s → inv (closeOpenOrdersForDeal id now s).
Proof.
  intros Hs. unfold closeOpenOrdersForDeal.
  destruct (ft_deals s !! id) as [d|] eqn:Hd; [|done].
  destruct (close_order_fold now (go_range 5 (ds_orders d)) (ft_heap s)) as [H1 H2].
  apply rewrite_deal_inv; [done..|].
  intros p Hp. apply H2. intros Hin. apply list_elem_of_fmap in Hin as ([j q] & -> & Hin).
  apply elem_of_range in Hin. by apply (Hp j).
Qed.

(** Deleting the keys of a list. *)
Lemma fold_delete {B} (l : list (OrderIdentifier * B)) (m : gmap OrderIdentifier nat) i :
  fold_left (λ m x, delete x.1 m) l m !! i = if decide (i ∈ l.*1) then None else m !! i.
Proof.
  revert m. induction l as [|[j b] l IH]; intros m.
  { reflexivity. }
  cbn [fold_left fmap list_fmap fst]. rewrite IH. destruct (decide (i = j)) as [->|Hne].
  - rewrite lookup_delete_eq, (decide_True (P:=j ∈ j :: l.*1)) by (by left).
    by destruct (decide _).
  - rewrite lookup_delete_ne by done.
    destruct (decide (i ∈ l.*1)); [rewrite decide_True by (by right)|
      rewrite decide_False by (intros [?|?]%elem_of_cons; done)]; done.
Qed.

Lemma remove_deal_orders id d s i :
  ft_deals s !! id = Some d →
  ft_orders (remove_deal s id) !! i =
  if decide (is_Some (ds_orders d !! i)) then None else ft_orders s !! i.
Proof.
  intros Hd. unfold remove_deal. rewrite Hd. simpl. rewrite fold_delete.
  assert (i ∈ (go_range 9 (ds_orders d)).*1 ↔ is_Some (ds_orders d !! i)) as Hiff.
  { rewrite list_elem_of_fmap. split.
    - intros ([j q] & -> & Hin). apply elem_of_range in Hin. eauto.
    - intros [q Hq]. exists (i, q). split; [done|]. by apply elem_of_range. }
  repeat case_decide; tauto.
Qed.

Lemma remove_deal_inv id s : inv s → inv (remove_deal s id).
Proof.
  intros Hs. destruct (ft_deals s !! id) as [d|] eqn:Hd; [|unfold remove_deal; by rewrite Hd].
  pose proof (λ i, remove_deal_orders id d s i Hd) as Hord.
  assert (Hdeals : ft_deals (remove_deal s id) = delete id (ft_deals s))
    by (unfold remove_deal; by rewrite Hd).
  assert (Hheap : ft_heap (remove_deal s id) = ft_heap s ∧ ft_next (remove_deal s id) = ft_next s)
    by (unfold remove_deal; by rewrite Hd).
  destruct Hheap as [Hheap Hnext].
  assert (Hsub : ∀ i q, ft_orders (remove_deal s id) !! i = Some q →
            ft_orders s !! i = Some q ∧ ¬ is_Some (ds_orders d !! i)).
  { intros i q. rewrite Hord. by case_decide. }
  destruct Hs as [[Hlive Hinj] Hopen Hdeal Honly Hall Hfresh].
  split; [split|done| | | |]; rewrite ?Hdeals, ?Hheap, ?Hnext.
  - intros i p [Hi _]%Hsub. eauto.
  - intros i j p [Hi _]%Hsub [Hj _]%Hsub. eauto.
  - intros id' d' [_ ?]%lookup_delete_Some. eauto.
  - intros id' d' i q [Hne Hd']%lookup_delete_Some Hq.
    destruct (Honly _ _ _ _ Hd' Hq) as [Hi Hdi]. split; [|done].
    rewrite Hord. case_decide as Hin; [|done]. destruct Hin as [q' Hq'].
    destruct (Honly _ _ _ _ Hd Hq'). congruence.
  - intros i q [Hi Hni]%Hsub. right.
    destruct (Hall i q Hi) as [[? [=]]|(d' & Hd' & Hq)].
    exists d'. split; [|done]. rewrite lookup_delete_ne; [done|]. intros ->.
    apply Hni. simplify_eq. eauto.
  - intros id' d' [_ Hd']%lookup_delete_Some. eauto.
Qed.

Lemma Cleanup_inv dur now s : inv s → inv (CleanupStaleDeals dur now s).2.
Proof.
  intros Hs. unfold CleanupStaleDeals. simpl.
  generalize ((λ x : Z * dealState, x.1) <$>
    filter (λ x, is_stale_deal now dur s x.2 = true) (go_range 7 (ft_deals s))).
  intros l. revert s Hs. induction l as [|id l IH]; intros s Hs; [done|].
  simpl. apply IH. by apply remove_deal_inv.
Qed.

Section Stores.
Context {store : TrackerStore} (emit : nat → OrderWork → option emit_error).

Lemma reload_ident_inv now event scaled st ident s :
  inv s → inv (reload_ident now event scaled st ident s).
Proof.
  intros Hs. unfold reload_ident. destruct (ensureOrderLocked ident s) as [p s'] eqn:E.
  pose proof (λ f H, open_write_attach 10 ident f now s H Hs) as Ho. rewrite E in Ho.
  apply Ho. intros o. unfold apply_scaled_audit.
  assert (Hi : ∀ o, os_identifier (inferFromEvent o) = os_identifier o)
    by (intros o'; unfold inferFromEvent; by destruct (os_event o')).
  destruct (latest_scaled _ _); [case_match; simpl|];
    destruct st; rewrite ?applyStatus_identifier, ?Hi; apply applyEvent_identifier.
Qed.

Lemma reload_idents_inv now event scaled l s :
  inv s → inv (reload_idents now event scaled l s).2.
Proof.
  revert s. induction l as [|i l IH]; intros s Hs; simpl; [done|].
  case_match; [|done]. apply IH. by apply reload_ident_inv.
Qed.

Lemma reload_orders_inv now l s : inv s → inv (reload_orders now l s).2.
Proof.
  revert s. induction l as [|oid l IH]; intros s Hs; simpl; [done|].
  destruct (LoadThreeCommasBotEvent oid) as [event|]; [|done].
  destruct (or_empty _) as [|i il]; [by apply IH|].
  pose proof (reload_idents_inv now event (or_empty (ListScaledOrdersByOrderId oid)) (i :: il) s Hs)
    as Hr.
  destruct (reload_idents _ _ _ _ _) as [[[]|] s']; [by apply IH|done].
Qed.

Lemma reloadDeal_inv id now s : inv s → inv (reloadDeal id now s).2.
Proof.
  intros Hs. unfold reloadDeal. destruct (LoadThreeCommasDeal id); [|done].
  destruct (ListOrderIdsForDeal id) as [[|oid l]|]; [done| |done].
  pose proof (reload_orders_inv now (oid :: l) s Hs) as Hr.
  destruct (reload_orders _ _ _) as [[[]|] s']; [|done].
  simpl in *. case_match; [|done]. by apply closeOpenOrders_inv.
Qed.

Lemma Rebuild_inv now s : inv s → inv (Rebuild now s).2.
Proof.
  intros Hs. unfold Rebuild. destruct ListDealIDs as [l|]; [|done]. simpl.
  revert s Hs. induction l as [|id l IH]; intros s Hs; simpl; [done|].
  apply IH. by apply reloadDeal_inv.
Qed.

(** A property of the tracker kept by [markOrderCancelled] survives a whole
    reconciliation, which changes the tracker in no other way. *)
Definition cancel_closed (P : Service → Prop) : Prop :=
  ∀ ident now s, P s → P (markOrderCancelled ident now s).

Lemma emit_svc work w : wd_svc (emitOrderWork emit work w).2 = wd_svc w.
Proof. unfold emitOrderWork. by case_decide. Qed.

Lemma ensureTakeProfit_svc sn q pi pe f w :
  wd_svc (ensureTakeProfit emit sn q pi pe f w) = wd_svc w.
Proof.
  unfold ensureTakeProfit. destruct (lookupTakeProfitContext sn pi pe) as [[i e]|]; [|done].
  destruct (_ && _); [done|]. destruct (_ && _); [done|]. apply emit_svc.
Qed.

Lemma cancelTP_svc P sn tp now w :
  cancel_closed P → P (wd_svc w) → P (wd_svc (cancelTakeProfitBySnapshot emit sn tp now w)).
Proof.
  intros Hc Hw. unfold cancelTakeProfitBySnapshot.
  destruct (emitOrderWork _ _ w) as [ok w'] eqn:E.
  pose proof (emit_svc (cancel_work sn tp "position closed; cancel stale take profit") w) as He.
  rewrite E in He. simpl in He. destruct ok; simpl; rewrite He; [by apply Hc|done].
Qed.

Lemma reconcileTP_svc P sn tp q now w :
  cancel_closed P → P (wd_svc w) →
  P (wd_svc (reconcileActiveTakeProfitBySnapshot emit sn tp q now w)).
Proof.
  intros Hc Hw. unfold reconcileActiveTakeProfitBySnapshot.
  destruct (_ && _); [done|].
  match goal with |- context [match ?m with Some evt => if _ then _ else _ | None => _ end] =>
    destruct m as [e|] end.
  - case_match; [done|]. by rewrite emit_svc.
  - destruct (emitOrderWork _ _ w) as [ok w'] eqn:E.
    pose proof (emit_svc (cancel_work sn tp "stale take profit metadata; cancel before recreation") w)
      as He. rewrite E in He. simpl in He.
    destruct ok; [|by rewrite He]. rewrite ensureTakeProfit_svc. simpl. rewrite He. by apply Hc.
Qed.

Lemma reconcileSnapshot_svc P sub sn now w :
  cancel_closed P → P (wd_svc w) → P (wd_svc (reconcileSnapshot emit sub sn now w)).
Proof.
  intros Hc Hw. unfold reconcileSnapshot.
  destruct (negb sub); [done|]. destruct (_ =? 0); [done|]. destruct (negb _); [done|].
  assert (Hf : ∀ {A} (f : world → A → world) l w,
    (∀ w x, P (wd_svc w) → P (wd_svc (f w x))) → P (wd_svc w) → P (wd_svc (fold_left f l w))).
  { intros A f l. induction l as [|x l IH]; intros w' Hf Hw'; simpl; [done|]. auto. }
  apply Hf; [|apply Hf; [|done]].
  - intros w' x Hw'. case_decide; [done|]. by apply cancelTP_svc.
  - intros w' [ident q] Hw'. unfold reconcile_venue. repeat case_match; try done.
    + by apply cancelTP_svc.
    + by apply reconcileTP_svc.
    + by rewrite ensureTakeProfit_svc.
Qed.

Lemma ReconcileTakeProfits_svc P sub now w :
  cancel_closed P → P (wd_svc w) → P (wd_svc (ReconcileTakeProfits emit sub now w)).
Proof.
  intros Hc Hw. unfold ReconcileTakeProfits. destruct (negb _); [done|].
  generalize (listDealIDs (wd_svc w)). intros l. revert w Hw.
  induction l as [|id l IH]; intros w Hw; simpl; [done|]. apply IH.
  case_match; [|done]. by apply reconcileSnapshot_svc.
Qed.

Lemma inv_cancel_closed : cancel_closed inv.
Proof. intros ident now s. apply markOrderCancelled_inv. Qed.

Lemma UpdateStatus_inv ident st now w :
  inv (wd_svc w) → inv (wd_svc (UpdateStatus emit ident st now w).2).
Proof.
  intros Hw. unfold UpdateStatus. destruct (LoadThreeCommasBotEvent _); [|done].
  pose proof (update_status_inv ident a st now _ Hw) as Hs.
  destruct (ft_deals _ !! _); simpl; [|done].
  apply reconcileSnapshot_svc; [apply inv_cancel_closed|done].
Qed.

End Stores.
End Inv.

End FillTrackerFacts.
