(* ===== verification/FillTrackerProps.v ===== *)
(** * What the fill tracker guarantees

    The properties of [FillTracker]: the aliasing invariant over every run, the
    contents of a snapshot, the order in which status updates take effect, the
    hydration gate, the bounds of a resized order, the removal of stale deals and
    the orders a reconciliation sends. *)

From S2P Require Import Prelude GoFloat GoString OrderId Domain Adapter Store FillTracker.
From S2P Require Import FillTrackerFacts.
Import GoFloat GoString Domain Adapter Store FillTracker FillTrackerFacts.

Module FillTrackerProps.

(** ** Runs *)

(** The surroundings of one operation: the iteration order of the runtime, the
    contents of the database and the answers of the emitter. *)
Record env := mkEnv {
  en_range : GoRange;
  en_store : TrackerStore;
  en_emit : nat → OrderWork → option emit_error;
}.

Inductive op :=
| OpUpdateStatus (ident : OrderIdentifier) (status : WsOrder)
| OpApplyScaledOrder (ident : OrderIdentifier) (size price : f64)
| OpReconcile (submitter : bool)
| OpCleanup (staleDuration : Z)
| OpRebuild
| OpRequireHydration
| OpMarkHydrated
| OpSetEmitter (wired : bool).

Definition map_svc (f : Service → Service) (w : world) : world :=
  mkWorld (f (wd_svc w)) (wd_log w).

Definition exec {sdk : SDK} (e : env) (o : op) (now : Z) (w : world) : world :=
  let R := en_range e in
  let store := en_store e in
  match o with
  | OpUpdateStatus ident status => (UpdateStatus (en_emit e) ident status now w).2
  | OpApplyScaledOrder ident size price => map_svc (ApplyScaledOrder ident size price now) w
  | OpReconcile submitter => ReconcileTakeProfits (en_emit e) submitter now w
  | OpCleanup dur => map_svc (λ s, (CleanupStaleDeals dur now s).2) w
  | OpRebuild => map_svc (λ s, (Rebuild now s).2) w
  | OpRequireHydration => map_svc RequireStatusHydration w
  | OpMarkHydrated => map_svc MarkStatusesHydrated w
  | OpSetEmitter b => map_svc (SetEmitter b) w
  end.

Definition run {sdk : SDK} (l : list (env * op * Z)) (w : world) : world :=
  fold_left (λ w x, exec x.1.1 x.1.2 x.2 w) l w.

Definition initial : world := mkWorld New [].

Section Props.
Context {sdk : SDK}.

Lemma SetEmitter_inv b s : inv s → inv (SetEmitter b s).
Proof. intros [[] ?????]. by split; [split|..]. Qed.

Lemma exec_inv e o now w : FairRange (en_range e) → inv (wd_svc w) → inv (wd_svc (exec e o now w)).
Proof.
  intros HR Hw. destruct o; simpl.
  - by apply UpdateStatus_inv.
  - by apply ApplyScaledOrder_inv.
  - apply ReconcileTakeProfits_svc; [apply inv_cancel_closed|done].
  - by apply Cleanup_inv.
  - by apply Rebuild_inv.
  - by apply with_hydration_open.
  - by apply with_hydration_open.
  - by apply SetEmitter_inv.
Qed.

(** C3.  After any sequence of operations the two views of the orders agree: each
    tracked order has one record, stored under its own identifier and shared by
    the service and by exactly the deal its identifier names; no deal holds
    another order; and the cached position of each deal is the one its records
    give. *)
Theorem tracker_invariant (l : list (env * op * Z))
    (HR : Forall (λ x, FairRange (en_range x.1.1)) l) :
  let s := wd_svc (run l initial) in
  (∀ i p, ft_orders s !! i = Some p → ∃ o, ft_heap s !! p = Some o ∧ os_identifier o = i) ∧
  (∀ i j p, ft_orders s !! i = Some p → ft_orders s !! j = Some p → i = j) ∧
  (∀ id d, ft_deals s !! id = Some d → ds_dealID d = id ∧ position_fresh (ft_heap s) d ∧
     ∀ i p, ds_orders d !! i = Some p ↔ ft_orders s !! i = Some p ∧ deal_of i = id) ∧
  (∀ i p, ft_orders s !! i = Some p → is_Some (ft_deals s !! deal_of i)).
Proof.
  intros s. assert (Hs : inv s).
  { subst s. unfold run. assert (Hi : inv (wd_svc initial)) by apply inv_New.
    revert Hi. generalize initial as w. induction HR as [|[[e o] now] l Hx _ IH]; intros w Hw;
      simpl; [done|]. apply IH. by apply exec_inv. }
  destruct Hs as [[Hlive Hinj] Hopen Hdeal Honly Hall Hfresh]. split_and!.
  - intros i p Hi. by destruct (Hlive i p Hi) as [_ ?].
  - done.
  - intros id d Hd. split_and!; [eauto| |].
    + destruct (Hfresh id d Hd) as [(?&?&[=]&?)|?]; done.
    + intros i p. split; [by apply Honly|]. intros [Hi <-].
      destruct (Hall i p Hi) as [[? [=]]|(d' & Hd' & ?)]. congruence.
  - intros i p Hi. destruct (Hall i p Hi) as [[? [=]]|(d' & Hd' & ?)]. eauto.
Qed.

(** ** Snapshots *)

Lemma snapshot_steps l out :
  let sn := fold_left snapshot_step l out in
  dn_Orders sn = dn_Orders out ++ ((λ x, order_snapshot x.2) <$> l) ∧
  dn_ActiveTakeProfits sn = dn_ActiveTakeProfits out ++
    ((λ x, order_snapshot x.2) <$>
       filter (λ x, isBuy x.2 = false ∧ os_reduceOnly x.2 = true ∧ isActive x.2 = true) l) ∧
  dn_OpenBuys sn = dn_OpenBuys out ++
    ((λ x, order_snapshot x.2) <$> filter (λ x, isBuy x.2 = true ∧ isActive x.2 = true) l) ∧
  (dn_AllBuysFilled sn = true ↔ dn_AllBuysFilled out = true ∧
     Forall (λ x, isBuy x.2 = true → isActive x.2 = false ∧ isFilled x.2 = true) l).
Proof.
  revert out. induction l as [|[i o] l IH]; intros out; simpl.
  { rewrite !app_nil_r. split_and!; try done. split; [by split|by intros [? _]]. }
  destruct (IH (snapshot_step out (i, o))) as (H1 & H2 & H3 & H4). simpl in *.
  rewrite H1, H2, H3, H4, Forall_cons, !filter_cons. clear H1 H2 H3 H4. simpl.
  unfold snapshot_step. simpl.
  destruct (isBuy o) eqn:Hb, (isActive o) eqn:Ha, (os_reduceOnly o) eqn:Hr, (isFilled o) eqn:Hf;
    simpl; repeat (case_decide as Hd; [try (destruct Hd as (?&?&?); discriminate);
                                       try (destruct Hd as (?&?); discriminate)
                                      |try (exfalso; by apply Hd)]);
    simpl; rewrite <- ?app_assoc, ?andb_true_r, ?andb_false_r;
    (split; [done|split; [done|split; [done|]]]); intuition discriminate.
Qed.

Context {R : GoRange} {HR : FairRange R}.

(** A snapshot does not depend on the iteration order of the runtime, up to the
    order of its lists: it lists every order of the deal once, the active
    reduce-only sells as its take profits and the active buys as its open buys,
    and [AllBuysFilled] says that every buy is inactive and filled. *)
Theorem snapshot_contents (i : nat) (h : gmap nat orderState) (d : dealState) :
  let sn := deal_snapshot i h d in
  let orders := (λ x, deref h x.2) <$> map_to_list (ds_orders d) in
  dn_Orders sn ≡ₚ order_snapshot <$> orders ∧
  dn_ActiveTakeProfits sn ≡ₚ order_snapshot <$>
    filter (λ o, isBuy o = false ∧ os_reduceOnly o = true ∧ isActive o = true) orders ∧
  dn_OpenBuys sn ≡ₚ order_snapshot <$> filter (λ o, isBuy o = true ∧ isActive o = true) orders ∧
  (dn_AllBuysFilled sn = true ↔
     ∀ o, o ∈ orders → isBuy o = true → isActive o = false ∧ isFilled o = true).
Proof.
  intros sn orders.
  destruct (snapshot_steps (visit i h d) (empty_snapshot d)) as (H1 & H2 & H3 & H4).
  assert (Hv : (visit i h d).*2 ≡ₚ orders).
  { rewrite (visit_records i h d). unfold records, orders. by rewrite <- list_fmap_compose. }
  assert (Hm : ∀ (l : list (OrderIdentifier * orderState)),
    (λ x, order_snapshot x.2) <$> l = order_snapshot <$> l.*2)
    by (intros l; by rewrite <- list_fmap_compose).
  assert (Hf : ∀ (P : orderState → Prop) `{∀ o, Decision (P o)}
    (l : list (OrderIdentifier * orderState)),
    (filter (λ x, P x.2) l).*2 = filter P l.*2).
  { intros P HP l. induction l as [|[k o] l IH]; [done|].
    rewrite filter_cons. cbn [fmap list_fmap snd]. rewrite filter_cons.
    destruct (decide (P o)); cbn [fmap list_fmap snd]; [f_equal|]; exact IH. }
  subst sn. unfold deal_snapshot. rewrite H1, H2, H3, H4. simpl. rewrite !Hm.
  pose proof (Hf (λ o, isBuy o = false ∧ os_reduceOnly o = true ∧ isActive o = true) _
    (visit i h d)) as E1.
  pose proof (Hf (λ o, isBuy o = true ∧ isActive o = true) _ (visit i h d)) as E2.
  cbv beta in E1, E2. rewrite E1, E2, Hv. split_and!; try done.
  pose proof (Forall_fmap snd (λ o, isBuy o = true → isActive o = false ∧ isFilled o = true)
    (visit i h d)) as E3.
  rewrite Hv, Forall_forall in E3. unfold compose in E3. rewrite <- E3. tauto.
Qed.

(** ** Status updates *)

Lemma field_or_parsed text old q : parseFloat text = Some q → field_or text old = q.
Proof.
  intros Hq. unfold field_or. destruct (String.eqb_spec text "") as [->|_]; [done|by rewrite Hq].
Qed.

(** What the newest update leaves behind. *)
Definition at_status (st : WsOrder) (o : orderState) : Prop :=
  os_status o = ws_Status st ∧ os_statusObserved o = UnixMilli (ws_StatusTimestamp st) ∧
  ∀ q, parseFloat (wb_Sz (ws_Order st)) = Some q →
    os_remainingQty o = if isCanceledHyperliquidStatus (ws_Status st) then fzero else q.

Lemma apply_not_stale st now o :
  is_stale st o = false → 0 < ws_StatusTimestamp st → at_status st (applyStatus st now o).
Proof.
  intros Hst Hts. unfold applyStatus. rewrite Hst.
  apply Z.ltb_lt in Hts. rewrite Hts. split_and!; simpl; try done.
  intros q Hq. case_match; [done|]. by apply field_or_parsed.
Qed.

Lemma is_stale_spec st o :
  0 < ws_StatusTimestamp st →
  is_stale st o = true ↔
  os_statusObserved o ≠ zero_time ∧ UnixMilli (ws_StatusTimestamp st) < os_statusObserved o.
Proof.
  intros Hts. unfold is_stale, IsZero. apply Z.ltb_lt in Hts. rewrite Hts. simpl.
  rewrite andb_true_iff, negb_true_iff, Z.eqb_neq, Z.ltb_lt. done.
Qed.

Lemma older_is_stale st st' o :
  0 < ws_StatusTimestamp st' < ws_StatusTimestamp st → at_status st o → is_stale st' o = true.
Proof.
  intros Hts (_ & Hobs & _). apply is_stale_spec; [lia|]. rewrite Hobs.
  unfold UnixMilli, zero_time, millisecond, second. lia.
Qed.

Lemma at_status_not_stale st o :
  0 < ws_StatusTimestamp st → os_statusObserved o ≤ UnixMilli (ws_StatusTimestamp st) →
  is_stale st o = false.
Proof. intros Hts Hle. apply not_true_is_false. rewrite is_stale_spec by done. lia. Qed.

Lemma apply_observed_le st now o M :
  UnixMilli (ws_StatusTimestamp st) ≤ M → os_statusObserved o ≤ M →
  os_statusObserved (applyStatus st now o) ≤ M.
Proof. intros H Ho. unfold applyStatus. case_match; [done|]. simpl. by case_match. Qed.

(** C10.  Status updates may arrive in any order and more than once: as long as the
    order has seen nothing newer, the update with the latest exchange timestamp
    decides the status and the remaining quantity, and a cancelled order is left
    with nothing to fill. *)
Theorem latest_status_wins (l : list (WsOrder * Z)) (st : WsOrder) (o : orderState)
    (Hts : Forall (λ x, 0 < ws_StatusTimestamp x.1) l)
    (Hin : st ∈ l.*1)
    (Hmax : Forall (λ x, x.1 = st ∨ ws_StatusTimestamp x.1 < ws_StatusTimestamp st) l)
    (Hold : os_statusObserved o ≤ UnixMilli (ws_StatusTimestamp st)) :
  at_status st (fold_left (λ o x, applyStatus x.1 x.2 o) l o).
Proof.
  assert (Hpos : 0 < ws_StatusTimestamp st).
  { apply list_elem_of_fmap in Hin as (x & -> & Hx). rewrite Forall_forall in Hts. by apply Hts. }
  assert (Hkeep : ∀ l o, Forall (λ x, 0 < ws_StatusTimestamp x.1) l →
    Forall (λ x, x.1 = st ∨ ws_StatusTimestamp x.1 < ws_StatusTimestamp st) l →
    at_status st o → at_status st (fold_left (λ o x, applyStatus x.1 x.2 o) l o)).
  { clear. intros l. induction l as [|[st' t] l IH]; intros o Hts Hmax Ho; [done|].
    apply Forall_cons_1 in Hts as [Ht Hts], Hmax as [Hm Hmax]. simpl in *. apply IH; [done..|].
    destruct Hm as [->|Hlt].
    - apply apply_not_stale; [|done]. apply at_status_not_stale; [done|].
      destruct Ho as (_ & -> & _). done.
    - unfold applyStatus. by rewrite (older_is_stale st st') by (done || lia). }
  revert o Hold. induction l as [|[st' t] l IH]; intros o Hold; [by apply elem_of_nil in Hin|].
  apply Forall_cons_1 in Hts as [Ht Hts], Hmax as [Hm Hmax]. simpl in *.
  destruct (decide (st' = st)) as [->|Hne].
  - apply Hkeep; [done..|]. apply apply_not_stale; [|done]. by apply at_status_not_stale.
  - destruct Hm as [?|Hlt]; [done|]. apply IH; [done| |done|].
    + by apply elem_of_cons in Hin as [->|?].
    + apply apply_observed_le; [|done]. unfold UnixMilli, millisecond. lia.
Qed.

(** ** Resized orders *)

(** Applying a scaled size leaves the order with that size, at most that much
    filled and a remainder that is not negative, whatever was recorded before. *)
Theorem scaled_order_bounds (ident : OrderIdentifier) (size price : f64) (now : Z) (s : Service)
    (Hsize : fgt size fzero = true) :
  let o0 := match ft_orders s !! ident with
            | Some p => deref (ft_heap s) p
            | None => fresh_state ident 0
            end in
  ∃ p o, let s' := ApplyScaledOrder ident size price now s in
    ft_orders s' !! ident = Some p ∧ ft_heap s' !! p = Some o ∧
    os_originalQty o = size ∧
    os_filledQty o = (if fgt (os_filledQty o0) size then size else os_filledQty o0) ∧
    (is_nan (os_filledQty o0) = false → fle (os_filledQty o) size = true) ∧
    flt (os_remainingQty o) fzero = false ∧
    (fgt price fzero = true → os_price o = price).
Proof.
  intros o0. unfold ApplyScaledOrder.
  assert (fle size fzero = false) as -> by (by apply flt_not_le).
  simpl. rewrite Hsize.
  assert (Hrem : ∀ x, flt (if flt x fzero then fzero else x) fzero = false).
  { intros x. destruct (flt x fzero) eqn:E; [reflexivity|done]. }
  assert (Hfil : is_nan (os_filledQty o0) = false →
    fle (if fgt (os_filledQty o0) size then size else os_filledQty o0) size = true).
  { intros Hn. apply flt_nan in Hsize as Hnan. destruct Hnan as [_ Hns].
    destruct (fgt (os_filledQty o0) size) eqn:E; [by apply fle_refl|].
    destruct (fle_total (os_filledQty o0) size) as [?|E']; [done..|]. unfold fgt in E. congruence. }
  unfold ensureOrderLocked. destruct (ft_orders s !! ident) as [p|] eqn:Hp; simpl.
  - exists p. eexists. rewrite lookup_insert_eq. split; [done|]. split; [done|].
    rewrite !deref_insert. subst o0. simpl.
    destruct (fgt price _) eqn:Hpr; simpl; split_and!; try done; apply Hrem.
  - exists (ft_next s). eexists. rewrite !lookup_insert_eq. split; [done|]. split; [done|].
    rewrite !deref_insert. subst o0. simpl.
    destruct (fgt price _) eqn:Hpr; simpl; split_and!; try done; apply Hrem.
Qed.

(** ** The hydration gate *)

Lemma attach_hydrated i ident p now s :
  statusesHydrated (attach i ident p now s) = statusesHydrated s.
Proof. reflexivity. Qed.

(** Until the venue's statuses have been replayed, the periodic reconciliation
    sends nothing and changes nothing; and a status update opens the gate only
    when every tracked reduce-only order has been refreshed since the gate was
    last closed. *)
Theorem hydration_gate {store : TrackerStore} (emit : nat → OrderWork → option emit_error)
    (submitter : bool) (ident : OrderIdentifier) (event : option TcBotEvent) (status : WsOrder)
    (now : Z) (w : world) (Hw : statusesHydrated (wd_svc w) = false) :
  let s' := update_status_locked ident event status now (wd_svc w) in
  ReconcileTakeProfits emit submitter now w = w ∧
  (statusesHydrated s' = true →
     ∀ i p, ft_orders s' !! i = Some p → os_reduceOnly (deref (ft_heap s') p) = true →
       os_hydratedEpoch (deref (ft_heap s') p) = ft_hydrationEpoch (wd_svc w)).
Proof.
  intros s'. split; [unfold ReconcileTakeProfits; by rewrite Hw|].
  subst s'. unfold update_status_locked.
  destruct (ensureOrderLocked ident (wd_svc w)) as [p s1] eqn:E.
  cbv zeta. set (s2 := update_state p _ s1).
  assert (Hs2 : ft_requireHydration s2 = true ∧ ft_statusHydrated s2 = false ∧
                ft_hydrationEpoch s2 = ft_hydrationEpoch (wd_svc w)).
  { unfold statusesHydrated in Hw. destruct (ft_requireHydration (wd_svc w)) eqn:Hr; [|done].
    simpl in Hw. subst s2. unfold ensureOrderLocked in E.
    by destruct (ft_orders (wd_svc w) !! ident); injection E as <- <-. }
  destruct Hs2 as (Hr & Hh & He).
  unfold markOrderHydratedLocked. rewrite Hr, Hh. cbv zeta. cbn [negb].
  destruct (_ =? 0). { rewrite attach_hydrated. unfold statusesHydrated. by rewrite Hr, Hh. }
  set (s3 := if requiresHydration _ then _ else s2).
  assert (Hs3 : ft_requireHydration s3 = true ∧ ft_statusHydrated s3 = false)
    by (subst s3; by case_match).
  destruct Hs3 as [Hr3 Hh3].
  destruct (all_hydrated 0 _ s3) eqn:Hall;
    [|rewrite attach_hydrated; unfold statusesHydrated; by rewrite Hr3, Hh3].
  intros _ i q Hi Hro. change (ft_orders s3 !! i = Some q) in Hi.
  change (os_reduceOnly (deref (ft_heap s3) q) = true) in Hro.
  change (os_hydratedEpoch (deref (ft_heap s3) q) = ft_hydrationEpoch (wd_svc w)).
  rewrite <- He.
  unfold all_hydrated in Hall. rewrite forallb_forall in Hall.
  specialize (Hall (i, q)). simpl in Hall. unfold requiresHydration in Hall.
  rewrite Hro in Hall. simpl in Hall. apply Z.eqb_eq, Hall.
  apply list_elem_of_In, elem_of_range. done.
Qed.

(** ** Stale deals *)

Lemma remove_deals l s :
  inv s →
  (∀ id, ft_deals (fold_left remove_deal l s) !! id =
     if decide (id ∈ l) then None else ft_deals s !! id) ∧
  (∀ i, ft_orders (fold_left remove_deal l s) !! i =
     if decide (deal_of i ∈ l) then None else ft_orders s !! i) ∧
  ft_heap (fold_left remove_deal l s) = ft_heap s.
Proof.
  revert s. induction l as [|id l IH]; intros s Hs; [by split_and!|].
  cbn [fold_left].
  destruct (IH (remove_deal s id)) as (H1 & H2 & H3); [by apply remove_deal_inv|].
  assert (Hcons : ∀ {A} j (x : option A), x = None → j = id →
    None = if decide (j ∈ id :: l) then None else x) by (intros; by case_decide).
  assert (Hstep : (∀ j, ft_deals (remove_deal s id) !! j = if decide (j = id) then None else ft_deals s !! j) ∧
    (∀ i, ft_orders (remove_deal s id) !! i = if decide (deal_of i = id) then None else ft_orders s !! i) ∧
    ft_heap (remove_deal s id) = ft_heap s).
  { destruct (ft_deals s !! id) as [d|] eqn:Hd.
    - split_and!.
      + intros j. unfold remove_deal. rewrite Hd. simpl. case_decide as Hj.
        * subst. apply lookup_delete_eq.
        * by rewrite lookup_delete_ne by done.
      + intros i. rewrite (remove_deal_orders id d s i Hd).
        case_decide as Hj; case_decide as Hi; try done.
        * destruct Hj as [q Hq]. by destruct (io_only _ _ Hs _ _ _ _ Hd Hq).
        * destruct (ft_orders s !! i) as [q|] eqn:Hq; [|done].
          destruct (io_all _ _ Hs i q Hq) as [[? [=]]|(d' & Hd' & ?)].
          subst. simplify_eq. exfalso. eauto.
      + unfold remove_deal. by rewrite Hd.
    - unfold remove_deal. rewrite Hd. split_and!; [| |done].
      + intros j. case_decide; by subst.
      + intros i. case_decide as Hi; [|done].
        destruct (ft_orders s !! i) as [q|] eqn:Hq; [|done].
        destruct (io_all _ _ Hs i q Hq) as [[? [=]]|(d' & Hd' & ?)]. subst. congruence. }
  destruct Hstep as (S1 & S2 & S3). split_and!; [| |congruence].
  - intros j. rewrite H1, S1.
    destruct (decide (j ∈ l)), (decide (j = id)), (decide (j ∈ id :: l)) as [Hc|Hc]; try done;
      rewrite elem_of_cons in Hc; tauto.
  - intros i. rewrite H2, S2.
    destruct (decide (deal_of i ∈ l)), (decide (deal_of i = id)),
      (decide (deal_of i ∈ id :: l)) as [Hc|Hc]; try done; rewrite elem_of_cons in Hc; tauto.
Qed.

(** A deal is stale when it was not updated for the given time and none of its
    orders is active. *)
Definition stale (now staleDuration : Z) (s : Service) (d : dealState) : Prop :=
  staleDuration ≤ time_sub now (ds_lastUpdate d) ∧
  ∀ i p, ds_orders d !! i = Some p → isActive (deref (ft_heap s) p) = false.

Lemma is_stale_deal_spec now dur s d : is_stale_deal now dur s d = true ↔ stale now dur s d.
Proof.
  unfold is_stale_deal, stale, is_complete.
  rewrite andb_true_iff, negb_true_iff, Z.ltb_ge, forallb_forall.
  split; intros [Hl Ha]; (split; [done|]).
  - intros i p Hp. specialize (Ha (i, deref (ft_heap s) p)). simpl in Ha.
    apply negb_true_iff, Ha, list_elem_of_In. unfold visit. apply list_elem_of_fmap.
    exists (i, p). split; [done|]. by apply elem_of_range.
  - intros [i o] Hin. apply list_elem_of_In in Hin. unfold visit in Hin.
    apply list_elem_of_fmap in Hin as ([j p] & [= -> ->] & Hin). apply elem_of_range in Hin.
    simpl. by rewrite (Ha _ _ Hin).
Qed.

(** [CleanupStaleDeals] removes exactly the stale deals, together with exactly
    their orders, and reports how many there were. *)
Theorem cleanup_exact (dur now : Z) (s : Service) (Hs : inv s) :
  let n := (CleanupStaleDeals dur now s).1 in
  let s' := (CleanupStaleDeals dur now s).2 in
  (∀ id d, ft_deals s' !! id = Some d ↔ ft_deals s !! id = Some d ∧ ¬ stale now dur s d) ∧
  (∀ i p, ft_orders s' !! i = Some p ↔
     ft_orders s !! i = Some p ∧
     ∃ d, ft_deals s !! deal_of i = Some d ∧ ¬ stale now dur s d) ∧
  (n = 0%nat ↔ s' = s).
Proof.
  unfold CleanupStaleDeals. simpl.
  set (l := (λ x : Z * dealState, x.1) <$>
    filter (λ x, is_stale_deal now dur s x.2 = true) (go_range 7 (ft_deals s))).
  assert (Hl : ∀ id, id ∈ l ↔ ∃ d, ft_deals s !! id = Some d ∧ stale now dur s d).
  { intros id. subst l. rewrite list_elem_of_fmap. split.
    - intros ([j d] & -> & Hin). apply list_elem_of_filter in Hin as [Hst Hin].
      apply elem_of_range in Hin. apply is_stale_deal_spec in Hst. simpl. eauto.
    - intros (d & Hd & Hst). exists (id, d). split; [done|].
      apply list_elem_of_filter. split; [by apply is_stale_deal_spec|]. by apply elem_of_range. }
  destruct (remove_deals l s Hs) as (H1 & H2 & _). split_and!.
  - intros id d. rewrite H1. case_decide as Hin; rewrite Hl in Hin.
    + split; [done|]. intros [Hd Hns]. by destruct Hin as (d' & ? & ?); simplify_eq.
    + split; [|by intros [? _]]. intros Hd. split; [done|]. intros Hst. apply Hin. eauto.
  - intros i p. rewrite H2. case_decide as Hin; rewrite Hl in Hin.
    + split; [done|]. intros [Hd (d & ? & ?)]. by destruct Hin as (d' & ? & ?); simplify_eq.
    + split; [|by intros [? _]]. intros Hi. split; [done|].
      destruct (io_all _ _ Hs i p Hi) as [[? [=]]|(d & Hd & _)]. exists d. split; [done|].
      intros Hst. apply Hin. eauto.
  - rewrite length_zero_iff_nil. split; [by intros ->|]. intros Heq.
    destruct l as [|id l']; [done|]. exfalso.
    destruct (proj1 (Hl id) (list_elem_of_here _ _)) as (d & Hd & _).
    specialize (H1 id). rewrite Heq, Hd in H1.
    rewrite decide_True in H1 by (by left). done.
Qed.

End Props.

End FillTrackerProps.
