(* ===== verification/FillTrackerReconcile.v ===== *)
(** * The orders a take-profit reconciliation sends

    [reconcileSnapshot] of [FillTracker] looks at the position of every venue and
    wallet of a deal.  This file characterises the positions it computes, the
    orders it hands to the emitter and when it recreates a take profit. *)

From S2P Require Import Prelude GoFloat GoString OrderId Domain Adapter Store FillTracker.
From S2P Require Import FillTrackerFacts.
Import GoFloat GoString Domain Adapter Store FillTracker FillTrackerFacts.

Module FillTrackerReconcile.

Section Reconcile.
Context {sdk : SDK} {R : GoRange} {HR : FairRange R}.

(** ** Venue positions *)

(** The signed fill of one order added to a running position. *)
Definition add_fill (acc : f64) (o : OrderSnapshot) : f64 :=
  if String.eqb (sn_Side o) "B" || EqualFold (sn_Side o) "BUY"
  then fadd acc (sn_FilledQty o) else fsub acc (sn_FilledQty o).

Abbreviation order_key o := (key_of (sn_Identifier o)).

Definition first_ident (acc : option OrderIdentifier) (o : OrderSnapshot) : option OrderIdentifier :=
  match acc with Some i => Some i | None => Some (sn_Identifier o) end.

Lemma position_fold l P I k :
  let r := fold_left position_step l (P, I) in
  r.1 !! k = fold_left (λ acc o, Some (add_fill (default fzero acc) o))
               (filter (λ o, order_key o = k) l) (P !! k) ∧
  r.2 !! k = fold_left first_ident (filter (λ o, order_key o = k) l) (I !! k).
Proof.
  revert P I. induction l as [|o l IH]; intros P I; [done|].
  cbn [fold_left]. destruct (position_step (P, I) o) as [P' I'] eqn:E.
  destruct (IH P' I') as [H1 H2]. rewrite H1, H2, filter_cons. clear IH H1 H2.
  unfold position_step in E. injection E as <- <-.
  destruct (decide (order_key o = k)) as [<-|Hne]; simpl.
  - rewrite lookup_insert_eq. split; [done|].
    destruct (I !! order_key o) as [i|] eqn:Hi; simpl; [by rewrite Hi|by rewrite lookup_insert_eq].
  - rewrite lookup_insert_ne by done. split; [done|].
    destruct (I !! order_key o); [done|]. by rewrite lookup_insert_ne.
Qed.

Lemma fold_insert_lookup {K} `{Countable K} (g : K → OrderIdentifier) (l : list (K * f64)) (m : gmap OrderIdentifier f64) i q :
  (∀ k k', k ∈ l.*1 → k' ∈ l.*1 → g k = g k' → k = k') → NoDup l.*1 →
  fold_left (λ m x, <[g x.1 := x.2]> m) l m !! i = Some q ↔
  (∃ k, (k, q) ∈ l ∧ g k = i) ∨ ((∀ k, k ∈ l.*1 → g k ≠ i) ∧ m !! i = Some q).
Proof.
  revert m. induction l as [|[k0 q0] l IH]; intros m Hinj Hnd.
  { simpl. split.
    - intros Hm. right. split; [|done]. by intros k Hk%elem_of_nil.
    - intros [(k & Hk%elem_of_nil & _)|[_ ?]]; done. }
  cbn [fmap list_fmap fst] in *. apply NoDup_cons in Hnd as [Hn0 Hnd]. cbn [fold_left].
  rewrite IH; [|intros; apply Hinj; by (done || right)|done]. simpl.
  split.
  - intros [(k & Hk & <-)|[Hno Hm]].
    + left. exists k. split; [by right|done].
    + destruct (decide (g k0 = i)) as [<-|Hne].
      * rewrite lookup_insert_eq in Hm. injection Hm as ->. left. exists k0. split; [by left|done].
      * rewrite lookup_insert_ne in Hm by done. right. split; [|done].
        intros k [->|Hk]%elem_of_cons; auto.
  - intros [(k & [[= -> ->]|Hk]%elem_of_cons & <-)|[Hno Hm]].
    + right. rewrite lookup_insert_eq. split; [|done]. intros k' Hk' Heq.
      apply Hn0. rewrite (Hinj k0 k'); [done|by left|by right|done].
    + left. eauto.
    + right. rewrite lookup_insert_ne by (apply Hno; by left). split; [|done].
      intros k Hk. apply Hno. by right.
Qed.

Lemma first_ident_some l i : fold_left first_ident l (Some i) = Some i.
Proof. induction l; done. Qed.

Lemma first_ident_in l i :
  fold_left first_ident l None = Some i → ∃ o, o ∈ l ∧ sn_Identifier o = i.
Proof.
  destruct l as [|o l]; simpl; [done|]. rewrite first_ident_some. intros [= <-].
  exists o. split; [by left|done].
Qed.

Lemma positions_lookup sn i q :
  calculateVenuePositions sn !! i = Some q ↔
  ∃ k, (fold_left position_step (dn_Orders sn) (∅, ∅)).1 !! k = Some q ∧
       (fold_left position_step (dn_Orders sn) (∅, ∅)).2 !! k = Some i.
Proof.
  unfold calculateVenuePositions.
  pose proof (position_fold (dn_Orders sn) ∅ ∅) as Hf.
  destruct (fold_left position_step (dn_Orders sn) (∅, ∅)) as [P I] eqn:E. simpl in *.
  assert (HI : ∀ k i, I !! k = Some i → key_of i = k).
  { intros k j Hj. destruct (Hf k) as [_ H2]. rewrite H2, lookup_empty in Hj.
    apply first_ident_in in Hj as (o & Ho & <-). by apply list_elem_of_filter in Ho as [? _]. }
  assert (HD : ∀ k q, P !! k = Some q → ∃ i, I !! k = Some i).
  { intros k q' Hq. destruct (Hf k) as [H1 H2]. rewrite H1, lookup_empty in Hq. rewrite H2, lookup_empty.
    destruct (filter _ _) as [|o l]; [done|]. simpl. rewrite first_ident_some. eauto. }
  rewrite (fold_insert_lookup (λ k, default zero_identifier (I !! k))).
  - rewrite lookup_empty. split.
    + intros [(k & Hk & Hi)|[_ ?]]; [|done]. apply elem_of_range in Hk.
      destruct (HD k q Hk) as [j Hj]. rewrite Hj in Hi. simpl in Hi. subst. eauto.
    + intros (k & Hk & Hi). left. exists k. split; [by apply elem_of_range|]. by rewrite Hi.
  - assert (Hk : ∀ k, k ∈ (go_range 11 P).*1 → ∃ i, I !! k = Some i).
    { intros k ([k' q'] & -> & Hin)%list_elem_of_fmap. apply elem_of_range in Hin. eauto. }
    intros k k' [j Hj]%Hk [j' Hj']%Hk. rewrite Hj, Hj'. simpl. intros ->.
    by rewrite <- (HI _ _ Hj), <- (HI _ _ Hj').
  - apply range_NoDup.
Qed.

(** The positions of a snapshot: every venue and wallet with an order has exactly
    one entry, kept under the identifier of one of its orders, and its value is the
    float sum of the signed fills of that venue's orders, in snapshot order. *)
Theorem venue_positions (sn : DealSnapshot) :
  let m := calculateVenuePositions sn in
  (∀ i q, m !! i = Some q →
     (∃ o, o ∈ dn_Orders sn ∧ sn_Identifier o = i) ∧
     q = fold_left add_fill (filter (λ o, order_key o = key_of i) (dn_Orders sn)) fzero) ∧
  (∀ o, o ∈ dn_Orders sn → ∃ i q, m !! i = Some q ∧ key_of i = order_key o) ∧
  (∀ i j q r, m !! i = Some q → m !! j = Some r → key_of i = key_of j → i = j).
Proof.
  intros m.
  pose proof (position_fold (dn_Orders sn) ∅ ∅) as Hf.
  assert (Hsome : ∀ l x, fold_left (λ acc o, Some (add_fill (default fzero acc) o)) l (Some x) =
            Some (fold_left add_fill l x)).
  { intros l. induction l as [|o l IH]; intros x; [done|]. simpl. by rewrite IH. }
  assert (Hkey : ∀ i q, m !! i = Some q → ∃ o l,
    filter (λ o, order_key o = key_of i) (dn_Orders sn) = o :: l ∧ sn_Identifier o = i ∧
    q = fold_left add_fill (o :: l) fzero).
  { intros i q Hi. apply positions_lookup in Hi as (k & Hq & Hi).
    destruct (Hf k) as [H1 H2]. rewrite H1, lookup_empty in Hq. rewrite H2, lookup_empty in Hi.
    destruct (filter (λ o, order_key o = k) (dn_Orders sn)) as [|o l] eqn:E; [done|].
    simpl in Hi. rewrite first_ident_some in Hi. injection Hi as <-.
    assert (order_key o = k) as <-.
    { assert (o ∈ filter (λ o, order_key o = k) (dn_Orders sn)) as Ho by (rewrite E; by left).
      by apply list_elem_of_filter in Ho as [? _]. }
    exists o, l. split; [done|]. split; [done|].
    simpl in Hq. rewrite Hsome in Hq. by injection Hq as <-. }
  split_and!.
  - intros i q (o & l & Hfi & Hid & Hq)%Hkey. rewrite Hfi. split; [|done].
    exists o. split; [|done]. assert (o ∈ o :: l) as Ho by (by left). rewrite <- Hfi in Ho.
    by apply list_elem_of_filter in Ho as [_ ?].
  - intros o Ho. destruct (Hf (order_key o)) as [H1 H2].
    destruct (filter (λ o', order_key o' = order_key o) (dn_Orders sn)) as [|o' l] eqn:E.
    { exfalso. apply (elem_of_nil o). rewrite <- E. by apply list_elem_of_filter. }
    assert (order_key o' = order_key o) as Hk.
    { assert (o' ∈ filter (λ o', order_key o' = order_key o) (dn_Orders sn)) as Ho'
        by (rewrite E; by left). by apply list_elem_of_filter in Ho' as [? _]. }
    rewrite lookup_empty in H1. rewrite lookup_empty in H2. simpl in H1, H2.
    rewrite Hsome in H1. rewrite first_ident_some in H2.
    exists (sn_Identifier o'). eexists. split; [|done].
    apply positions_lookup. exists (order_key o). split; [exact H1|exact H2].
  - intros i j q r (o & l & Hi & <- & _)%Hkey (o' & l' & Hj & <- & _)%Hkey Hk.
    rewrite Hk in Hi. rewrite Hj in Hi. by injection Hi as ->.
Qed.

Lemma positions_unique sn i j q r :
  calculateVenuePositions sn !! i = Some q → calculateVenuePositions sn !! j = Some r →
  key_of i = key_of j → i = j.
Proof. intros. by eapply (proj2 (proj2 (venue_positions sn))). Qed.

(** ** The orders sent *)

Context {store : TrackerStore} (emit : nat → OrderWork → option emit_error).

(** A request that sizes a venue's take profit to the position [q]. *)
Definition size_request (sn : DealSnapshot) (q : f64) (cloid : string) (r : CreateOrderRequest)
  : Prop :=
  co_Size r = q ∧ co_ReduceOnly r = true ∧ co_Coin r = dn_Currency sn ∧
  co_ClientOrderID r = Some cloid.

Definition sizes (sn : DealSnapshot) (k : venueKey) (q : f64) (wk : OrderWork) : Prop :=
  let cloid := OrderId.Hex (ow_OrderId wk) in
  key_of (ow_Identifier wk) = k ∧
  ((ac_Type (ow_Action wk) = ActionCreate ∧ size_request sn q cloid (ac_Create (ow_Action wk))) ∨
   (ac_Type (ow_Action wk) = ActionModify ∧
    mo_Cloid (ac_Modify (ow_Action wk)) = Some cloid ∧
    size_request sn q cloid (mo_Order (ac_Modify (ow_Action wk))))).

(** A cancellation of the take profit [tp]. *)
Definition cancels (sn : DealSnapshot) (tp : OrderSnapshot) (wk : OrderWork) : Prop :=
  ow_Identifier wk = sn_Identifier tp ∧ ac_Type (ow_Action wk) = ActionCancel ∧
  ac_Cancel (ow_Action wk) = mkCancel (dn_Currency sn) (OrderId.Hex (sn_OrderId tp)).

Definition is_sizing (wk : OrderWork) : Prop := ac_Type (ow_Action wk) ≠ ActionCancel.
#[local] Instance is_sizing_dec wk : Decision (is_sizing wk).
Proof. unfold is_sizing. apply _. Defined.

(** No metadata is left from which a take profit could be modified. *)
Definition no_metadata (sn : DealSnapshot) (tp : OrderSnapshot) : Prop :=
  sn_Event tp = None ∧ dn_LastTakeProfitEvent sn = None.

Lemma emit_log work w :
  ∃ new, wd_log (emitOrderWork emit work w).2 = wd_log w ++ new ∧ (new = [] ∨ new = [work]) ∧
    (ow_Identifier work ≠ zero_identifier → new = [work]).
Proof.
  unfold emitOrderWork. case_decide; simpl.
  - exists []. rewrite app_nil_r. split_and!; [done|by left|done].
  - exists [work]. split_and!; [done|by right|done].
Qed.

Lemma cancelTP_log sn tp now w :
  ∃ new, wd_log (cancelTakeProfitBySnapshot emit sn tp now w) = wd_log w ++ new ∧
    Forall (cancels sn tp) new.
Proof.
  unfold cancelTakeProfitBySnapshot.
  destruct (emit_log (cancel_work sn tp "position closed; cancel stale take profit") w)
    as (new & Hlog & Hnew & _).
  destruct (emitOrderWork _ _ w) as [ok w'] eqn:E. simpl in Hlog.
  exists new. split; [by destruct ok|].
  destruct Hnew as [->| ->]; repeat constructor.
Qed.

Lemma lookup_preferred sn i pe i' e :
  lookupTakeProfitContext sn (Some i) pe = Some (i', e) → i' = i.
Proof.
  unfold lookupTakeProfitContext. destruct (cloneEvent pe) as [e0|]; [by intros [= -> ->]|].
  destruct (cloneEvent _) as [e0|]; [by intros [= -> ->]|].
  destruct (LoadTakeProfitForDeal _) as [[? ?]|]; [|done]. simpl. by intros [= -> ->].
Qed.

(** Without a take-profit identifier for the venue nothing can be created. *)
Lemma lookup_no_preferred sn venue wallet :
  buildTakeProfitIdentifier sn venue wallet = None → lookupTakeProfitContext sn None None = None.
Proof.
  unfold buildTakeProfitIdentifier, lookupTakeProfitContext. simpl. intros Hb.
  destruct (find _ (dn_Orders sn)) eqn:Hf; [done|].
  destruct (LoadTakeProfitForDeal (dn_DealID sn)) as [[? ?]|]; [done|].
  destruct (cloneEvent (dn_LastTakeProfitEvent sn)) as [ev|]; [|done].
  destruct (find (λ o, _ && eventsMatch _ _) _) as [o|] eqn:Hf2; [|done].
  exfalso. apply find_some in Hf2 as [Ho Hm]. rewrite !andb_true_iff in Hm.
  pose proof (find_none _ _ Hf o Ho) as Hn. simpl in Hn. rewrite andb_false_iff in Hn.
  destruct Hm as [[H1 H2] _]. destruct Hn; congruence.
Qed.

Lemma ensure_log sn q pi pe force w k :
  (∀ i e, lookupTakeProfitContext sn pi pe = Some (i, e) → key_of i = k) →
  ∃ new, wd_log (ensureTakeProfit emit sn q pi pe force w) = wd_log w ++ new ∧
    (new = [] ∨ ∃ wk, new = [wk] ∧ sizes sn k q wk ∧ is_sizing wk).
Proof.
  intros Hk. unfold ensureTakeProfit.
  destruct (lookupTakeProfitContext sn pi pe) as [[i e]|] eqn:El;
    [|exists []; rewrite app_nil_r; by auto].
  destruct (_ && _); [exists []; rewrite app_nil_r; by auto|].
  destruct (_ && _); [exists []; rewrite app_nil_r; by auto|].
  match goal with |- context [emitOrderWork emit ?wk w] =>
    destruct (emit_log wk w) as (new & Hlog & Hnew & _); exists new; split; [done|];
    destruct Hnew as [->| ->]; [by left|right; exists wk] end.
  split_and!; [done| |done]. split; simpl; [by eapply Hk|]. left. by split_and!.
Qed.

Definition sizing_keys (l : list OrderWork) : list venueKey :=
  (λ wk, key_of (ow_Identifier wk)) <$> filter is_sizing l.

(** What the loop body may send for one venue. *)
Definition venue_ok (sn : DealSnapshot) (tps : gmap venueKey OrderSnapshot) (k : venueKey) (q : f64)
    (wk : OrderWork) : Prop :=
  (fle q floatTolerance = false ∧ sizes sn k q wk) ∨
  (∃ tp, tps !! k = Some tp ∧ cancels sn tp wk ∧
     (fle q floatTolerance = true ∨ no_metadata sn tp)).

Lemma cancels_not_sizing sn tp new : Forall (cancels sn tp) new → filter is_sizing new = [].
Proof.
  induction 1 as [|wk new (_ & Hc & _) _ IH]; [done|]. rewrite filter_cons.
  destruct (decide _) as [Hs|]; [by destruct Hs|done].
Qed.

Lemma reconcileTP_log sn tps k tp q now w :
  tps !! k = Some tp → key_of (sn_Identifier tp) = k → fle q floatTolerance = false →
  ∃ new, wd_log (reconcileActiveTakeProfitBySnapshot emit sn tp q now w) = wd_log w ++ new ∧
    Forall (venue_ok sn tps k q) new ∧ sublist (sizing_keys new) [k].
Proof.
  intros Htp Hk Hq. unfold reconcileActiveTakeProfitBySnapshot.
  assert (Hnil : ∃ new, wd_log w = wd_log w ++ new ∧ Forall (venue_ok sn tps k q) new ∧
            sublist (sizing_keys new) [k]).
  { exists []. rewrite app_nil_r. split_and!; [done|constructor|apply sublist_nil_l]. }
  destruct (_ && _); [exact Hnil|].
  match goal with |- context [match ?m with Some evt => if _ then _ else _ | None => _ end] =>
    destruct m as [e|] eqn:He end.
  - destruct (shouldSkipSubmission _ _ _); [exact Hnil|].
    match goal with |- context [emitOrderWork emit ?wk w] =>
      destruct (emit_log wk w) as (new & -> & Hnew & _) end.
    exists new. split; [done|]. destruct Hnew as [->| ->]; [split; [constructor|apply sublist_nil_l]|].
    split; [|unfold sizing_keys; rewrite filter_cons, decide_True by done; simpl; by rewrite Hk].
    constructor; [|constructor].
    left. split; [done|]. split; [done|]. right. simpl. by split_and!.
  - assert (Hnm : no_metadata sn tp).
    { unfold cloneEvent in He. unfold no_metadata. by destruct (sn_Event tp). }
    destruct (emit_log (cancel_work sn tp "stale take profit metadata; cancel before recreation") w)
      as (new & Hlog & Hnew & _).
    destruct (emitOrderWork _ _ w) as [ok w'] eqn:E. simpl in Hlog.
    assert (Hc : Forall (cancels sn tp) new) by (destruct Hnew as [->| ->]; repeat constructor).
    assert (Hcv : Forall (venue_ok sn tps k q) new).
    { eapply Forall_impl; [exact Hc|]. intros wk Hwk. right. exists tp. auto. }
    destruct ok.
    + destruct (ensure_log sn q (Some (sn_Identifier tp)) (dn_LastTakeProfitEvent sn) true
                  (mark_cancelled (sn_Identifier tp) now w') k) as (new' & Hl' & Hn').
      { intros i e Hl. by rewrite (lookup_preferred _ _ _ _ _ Hl). }
      exists (new ++ new'). rewrite Hl'. simpl. rewrite Hlog, app_assoc. split; [done|].
      unfold sizing_keys. rewrite filter_app, (cancels_not_sizing sn tp new Hc). simpl.
      destruct Hn' as [->|(wk & -> & Hs & Hsz)].
      { rewrite app_nil_r. split; [done|apply sublist_nil_l]. }
      split; [apply Forall_app; split; [done|]; constructor; [by left|constructor]|].
      rewrite filter_cons, decide_True by done. simpl. by rewrite (proj1 Hs).
    + exists new. split; [done|]. split; [done|].
      unfold sizing_keys. rewrite (cancels_not_sizing sn tp new Hc). apply sublist_nil_l.
Qed.

Lemma active_by_venue_lookup l k tp :
  active_by_venue l !! k = Some tp → tp ∈ l ∧ order_key tp = k.
Proof.
  unfold active_by_venue.
  assert (H : ∀ m : gmap venueKey OrderSnapshot, fold_left (λ m tp, <[order_key tp := tp]> m) l m !! k = Some tp →
    (tp ∈ l ∧ order_key tp = k) ∨ m !! k = Some tp).
  { induction l as [|o l IH]; intros m Hm; [by right|]. cbn [fold_left] in Hm.
    apply IH in Hm as [[? ?]|Hm]; [left; split; [by right|done]|].
    destruct (decide (order_key o = k)) as [<-|Hne].
    - rewrite lookup_insert_eq in Hm. injection Hm as ->. left. split; [by left|done].
    - rewrite lookup_insert_ne in Hm by done. by right. }
  intros Hm. apply H in Hm as [?|Hm]; [done|]. by rewrite lookup_empty in Hm.
Qed.

Lemma venue_log sn tps now w ident q :
  (∀ k tp, tps !! k = Some tp → order_key tp = k) →
  ∃ new, wd_log (reconcile_venue emit sn tps now w (ident, q)) = wd_log w ++ new ∧
    Forall (venue_ok sn tps (key_of ident) q) new ∧ sublist (sizing_keys new) [key_of ident].
Proof.
  intros Htps. unfold reconcile_venue.
  destruct (fle q floatTolerance) eqn:Hq; destruct (tps !! key_of ident) as [tp|] eqn:Htp.
  - destruct (cancelTP_log sn tp now w) as (new & Hlog & Hc). exists new. split; [done|]. split.
    + eapply Forall_impl; [exact Hc|]. intros wk Hwk. right. exists tp. auto.
    + unfold sizing_keys. rewrite (cancels_not_sizing sn tp new Hc). apply sublist_nil_l.
  - exists []. rewrite app_nil_r. split_and!; [done|constructor|apply sublist_nil_l].
  - apply reconcileTP_log; [done|by apply Htps|done].
  - destruct (ensure_log sn q (buildTakeProfitIdentifier sn (oi_VenueID ident) (oi_Wallet ident))
                None false w (key_of ident)) as (new & Hlog & Hnew).
    { intros i e Hl.
      destruct (buildTakeProfitIdentifier sn _ _) as [i0|] eqn:Hb;
        [|by rewrite (lookup_no_preferred _ _ _ Hb) in Hl].
      apply lookup_preferred in Hl as ->. unfold buildTakeProfitIdentifier in Hb.
      destruct (find _ _); [by injection Hb as <-|].
      destruct (LoadTakeProfitForDeal _) as [[? ?]|]; [by injection Hb as <-|done]. }
    exists new. split; [done|]. destruct Hnew as [->|(wk & -> & Hs & Hsz)].
    + split; [constructor|apply sublist_nil_l].
    + split; [constructor; [by left|constructor]|]. unfold sizing_keys.
      rewrite filter_cons, decide_True by done. simpl. by rewrite (proj1 Hs).
Qed.

(** The loop over the venues. *)
Lemma venues_log sn tps now l w :
  (∀ k tp, tps !! k = Some tp → order_key tp = k) →
  ∃ new, wd_log (fold_left (reconcile_venue emit sn tps now) l w) = wd_log w ++ new ∧
    Forall (λ wk, ∃ ident q, (ident, q) ∈ l ∧ venue_ok sn tps (key_of ident) q wk) new ∧
    sublist (sizing_keys new) ((λ x, key_of x.1) <$> l).
Proof.
  intros Htps. revert w. induction l as [|[ident q] l IH]; intros w.
  { exists []. rewrite app_nil_r. split_and!; [done|constructor|apply sublist_nil_l]. }
  cbn [fold_left].
  destruct (venue_log sn tps now w ident q Htps) as (new & Hlog & Hok & Hs).
  destruct (IH (reconcile_venue emit sn tps now w (ident, q))) as (new' & Hlog' & Hok' & Hs').
  exists (new ++ new'). rewrite Hlog', Hlog, app_assoc. split; [done|]. split.
  - apply Forall_app. split.
    + eapply Forall_impl; [exact Hok|]. intros wk Hwk. exists ident, q. split; [by left|done].
    + eapply Forall_impl; [exact Hok'|]. intros wk (i & r & Hin & Hwk). exists i, r.
      split; [by right|done].
  - unfold sizing_keys. rewrite filter_app, fmap_app. simpl.
    apply (sublist_app _ [key_of ident]); done.
Qed.

(** The loop over the take profits of venues without an order sends nothing more:
    it could only cancel. *)
Lemma leftover_log sn (P : venueKey → Prop) `{∀ k, Decision (P k)} now l w :
  ∃ new, wd_log (fold_left (λ w x, if decide (P x.1) then w else cancelTakeProfitBySnapshot emit sn x.2 now w)
                   l w) = wd_log w ++ new ∧
    Forall (λ wk, ∃ k tp, (k, tp) ∈ l ∧ ¬ P k ∧ cancels sn tp wk) new ∧
    filter is_sizing new = [].
Proof.
  revert w. induction l as [|[k tp] l IH]; intros w.
  { exists []. rewrite app_nil_r. split_and!; [done|constructor|done]. }
  cbn [fold_left fst snd]. destruct (decide (P k)) as [Hf|Hf].
  - destruct (IH w) as (new & Hlog & Hok & Hs). exists new. split_and!; [done| |done].
    eapply Forall_impl; [exact Hok|]. intros wk (k' & tp' & ? & ? & ?). exists k', tp'.
    split_and!; [by right|done..].
  - destruct (cancelTP_log sn tp now w) as (new & Hlog & Hc).
    destruct (IH (cancelTakeProfitBySnapshot emit sn tp now w)) as (new' & Hlog' & Hok' & Hs').
    exists (new ++ new'). rewrite Hlog', Hlog, app_assoc. split; [done|]. split.
    + apply Forall_app. split.
      * eapply Forall_impl; [exact Hc|]. intros wk Hwk. exists k, tp. split_and!; [by left|done..].
      * eapply Forall_impl; [exact Hok'|]. intros wk (k' & tp' & ? & ? & ?). exists k', tp'.
        split_and!; [by right|done..].
    + by rewrite filter_app, (cancels_not_sizing sn tp new Hc), Hs'.
Qed.

(** C1.  Everything a reconciliation sends.  Nothing is sent without an emitter, for a
    deal without an identifier, or before every buy is filled.  Each order either
    sizes the take profit of a venue with an open position to exactly that position,
    reduce-only, in the deal's currency and under the order's own identifier; or it
    cancels an active take profit of the deal, and then the venue's position is
    closed, or no event is left to modify the order from, or the venue has no
    position.  No venue is sized twice. *)
Theorem reconcile_orders (submitter : bool) (sn : DealSnapshot) (now : Z) (w : world) :
  let positions := calculateVenuePositions sn in
  ∃ new, wd_log (reconcileSnapshot emit submitter sn now w) = wd_log w ++ new ∧
    (new ≠ [] → submitter = true ∧ dn_DealID sn ≠ 0 ∧ dn_AllBuysFilled sn = true) ∧
    (∀ wk, wk ∈ new →
      (∃ ident q, positions !! ident = Some q ∧ fle q floatTolerance = false ∧
         sizes sn (key_of ident) q wk) ∨
      (∃ tp, tp ∈ dn_ActiveTakeProfits sn ∧ cancels sn tp wk ∧
         ∀ ident q, positions !! ident = Some q → key_of ident = order_key tp →
           fle q floatTolerance = true ∨ no_metadata sn tp)) ∧
    NoDup (sizing_keys new).
Proof.
  intros positions. unfold reconcileSnapshot.
  assert (Hnil : ∃ new, wd_log w = wd_log w ++ new ∧
    (new ≠ [] → submitter = true ∧ dn_DealID sn ≠ 0 ∧ dn_AllBuysFilled sn = true) ∧
    (∀ wk, wk ∈ new →
      (∃ ident q, positions !! ident = Some q ∧ fle q floatTolerance = false ∧
         sizes sn (key_of ident) q wk) ∨
      (∃ tp, tp ∈ dn_ActiveTakeProfits sn ∧ cancels sn tp wk ∧
         ∀ ident q, positions !! ident = Some q → key_of ident = order_key tp →
           fle q floatTolerance = true ∨ no_metadata sn tp)) ∧ NoDup (sizing_keys new)).
  { exists []. rewrite app_nil_r. split_and!; [done|done| |constructor].
    by intros wk Hwk%elem_of_nil. }
  destruct submitter; simpl; [|done].
  destruct (dn_DealID sn =? 0) eqn:Hid; [done|]. apply Z.eqb_neq in Hid.
  destruct (dn_AllBuysFilled sn) eqn:Hbuys; simpl; [|done]. clear Hnil.
  set (tps := active_by_venue (dn_ActiveTakeProfits sn)).
  assert (Htps : ∀ k tp, tps !! k = Some tp → tp ∈ dn_ActiveTakeProfits sn ∧ order_key tp = k)
    by apply active_by_venue_lookup.
  set (l := go_range 12 positions). set (keys := (λ x, key_of x.1) <$> l).
  destruct (venues_log sn tps now l w) as (new & Hlog & Hok & Hs); [intros; by apply Htps|].
  destruct (leftover_log sn (λ k, k ∈ keys) now (go_range 13 tps)
    (fold_left (reconcile_venue emit sn tps now) l w)) as (new' & Hlog' & Hok' & Hs').
  exists (new ++ new'). split; [etrans; [exact Hlog'|]; by rewrite Hlog, app_assoc|].
  split; [done|].
  assert (Hin : ∀ ident q, (ident, q) ∈ l ↔ positions !! ident = Some q)
    by (intros; apply elem_of_range).
  split.
  - intros wk [Hwk|Hwk]%elem_of_app.
    + rewrite Forall_forall in Hok. apply Hok in Hwk as (ident & q & Hl & Hv).
      apply Hin in Hl. destruct Hv as [[Hq Hv]|(tp & Htp & Hc & Hor)]; [by left; eauto|].
      right. exists tp. destruct (Htps _ _ Htp) as [? Hkey]. split_and!; [done|done|].
      intros ident' q' Hp' Hk'. rewrite Hkey in Hk'.
      rewrite (positions_unique sn _ _ _ _ Hp' Hl Hk') in Hp'. congruence.
    + rewrite Forall_forall in Hok'. apply Hok' in Hwk as (k & tp & Htp & Hk & Hc).
      apply elem_of_range in Htp. destruct (Htps _ _ Htp) as [? Hkey].
      right. exists tp. split_and!; [done|done|]. intros ident q Hp Hk'.
      exfalso. apply Hk. subst keys.
      apply list_elem_of_fmap. exists (ident, q). split; [simpl; congruence|]. by apply Hin.
  - unfold sizing_keys. rewrite filter_app, Hs', app_nil_r.
    eapply sublist_NoDup; [|exact Hs]. apply (NoDup_fmap_2_strong (λ x : OrderIdentifier * f64, key_of x.1)).
    + intros [i q] [j r] Hi%Hin Hj%Hin Hk. simpl in Hk.
      pose proof (positions_unique sn _ _ _ _ Hi Hj Hk) as ->. congruence.
    + apply (NoDup_fmap_1 fst), range_NoDup.
Qed.

Lemma active_by_venue_none l k :
  (∀ tp, tp ∈ l → order_key tp ≠ k) → active_by_venue l !! k = None.
Proof.
  intros Hno. destruct (active_by_venue l !! k) as [tp|] eqn:E; [|done].
  apply active_by_venue_lookup in E as [Hin Hk]. by destruct (Hno tp Hin).
Qed.

(** C32.  A missing take profit is recreated once all buys of the deal are filled:
    then a venue whose position is open and which has no active take profit of its
    own gets a create of exactly that size, if an event and an identifier for the
    take profit are known and the venue is not already holding it live.  (Before all
    buys are filled nothing is created: [reconcile_orders].) *)
Theorem take_profit_recreated (sn : DealSnapshot) (now : Z) (w : world)
    (ident i : OrderIdentifier) (q : f64) (e : TcBotEvent)
    (Hid : dn_DealID sn ≠ 0) (Hbuys : dn_AllBuysFilled sn = true)
    (Hpos : calculateVenuePositions sn !! ident = Some q)
    (Hq : fle q floatTolerance = false)
    (Hno : ∀ tp, tp ∈ dn_ActiveTakeProfits sn → order_key tp ≠ key_of ident)
    (Hi : buildTakeProfitIdentifier sn (oi_VenueID ident) (oi_Wallet ident) = Some i)
    (Hnz : i ≠ zero_identifier)
    (He : dn_LastTakeProfitEvent sn = Some e)
    (Hlive : hasLiveHyperliquidStatus i = false) :
  ∃ new wk, wd_log (reconcileSnapshot emit true sn now w) = wd_log w ++ new ∧ wk ∈ new ∧
    ow_Identifier wk = i ∧ ac_Type (ow_Action wk) = ActionCreate ∧ sizes sn (key_of ident) q wk.
Proof.
  unfold reconcileSnapshot. simpl. apply Z.eqb_neq in Hid. rewrite Hid, Hbuys. simpl.
  set (tps := active_by_venue (dn_ActiveTakeProfits sn)).
  assert (Htps : ∀ k tp, tps !! k = Some tp → order_key tp = k)
    by (intros k tp Htp; by apply active_by_venue_lookup in Htp as [_ ?]).
  set (l := go_range 12 (calculateVenuePositions sn)).
  assert (Hin : (ident, q) ∈ l) by (by apply elem_of_range).
  apply list_elem_of_split in Hin as (l1 & l2 & Hl).
  destruct (venues_log sn tps now l1 w Htps) as (n1 & Hl1 & _ & _).
  set (w1 := fold_left (reconcile_venue emit sn tps now) l1 w) in *.
  assert (Hstep : ∃ wk, wd_log (reconcile_venue emit sn tps now w1 (ident, q)) = wd_log w1 ++ [wk] ∧
    ow_Identifier wk = i ∧ ac_Type (ow_Action wk) = ActionCreate ∧ sizes sn (key_of ident) q wk).
  { unfold reconcile_venue. rewrite Hq. subst tps. rewrite active_by_venue_none by done.
    rewrite Hi. unfold ensureTakeProfit, lookupTakeProfitContext. simpl. rewrite He. simpl.
    rewrite Hlive. simpl.
    assert (shouldSkipSubmission i q true = false) as ->.
    { unfold shouldSkipSubmission. destruct (LoadHyperliquidSubmission i) as [[a|]|]; [|done|done].
      rewrite Hlive. by case_match. }
    match goal with |- context [emitOrderWork emit ?wk w1] =>
      destruct (emit_log wk w1) as (n2 & -> & _ & Hn2); exists wk end.
    rewrite Hn2 by done. split_and!; [done|done|done|].
    split; simpl.
    - unfold buildTakeProfitIdentifier in Hi. destruct (find _ _); [by injection Hi as <-|].
      destruct (LoadTakeProfitForDeal _) as [[? ?]|]; [by injection Hi as <-|done].
    - left. by split_and!. }
  destruct Hstep as (wk & Hs & Hwk).
  destruct (venues_log sn tps now l2 (reconcile_venue emit sn tps now w1 (ident, q)) Htps)
    as (n3 & Hl3 & _ & _).
  destruct (leftover_log sn (λ k, k ∈ (λ x : OrderIdentifier * f64, key_of x.1) <$> l) now (go_range 13 tps)
    (fold_left (reconcile_venue emit sn tps now) l w)) as (n4 & Hl4 & _ & _).
  exists (n1 ++ wk :: n3 ++ n4), wk. split; [|split; [set_solver|done]].
  etrans; [exact Hl4|]. rewrite Hl, fold_left_app. cbn [fold_left]. fold w1.
  rewrite Hl3, Hs, Hl1, <- !app_assoc. done.
Qed.

End Reconcile.

End FillTrackerReconcile.
