(* ===== verification/FillTrackerDemo.v ===== *)
(** * The fill tracker on a concrete deal

    A deal with one buy and one take profit, loaded from a small database and
    run through a restart.  The scenario shows that the properties of the tracker
    apply, and that a status update reconciles before the hydration gate opens. *)

From S2P Require Import Prelude GoFloat GoString OrderId Domain Adapter Store FillTracker.
From S2P Require Import FillTrackerFacts FillTrackerProps FillTrackerReconcile.
Import GoFloat GoString Domain Adapter Store FillTracker.
Import FillTrackerFacts FillTrackerProps FillTrackerReconcile.

Module FillTrackerDemo.

#[local] Existing Instance demo_sdk.
#[local] Existing Instance list_range.

Definition buy_oid : OrderId.OrderId := OrderId.mkOrderId 7 11 1.
Definition tp_oid : OrderId.OrderId := OrderId.mkOrderId 7 11 2.
Definition buy_ident : OrderIdentifier := NewOrderIdentifier "hl" "0xabc" buy_oid.
Definition tp_ident : OrderIdentifier := NewOrderIdentifier "hl" "0xabc" tp_oid.

Definition buy_event : TcBotEvent :=
  mkTcBotEvent (5 * second) "Place" "DOGE" "BUY" "Active" (f_of_Z 3) (f_of_Z 7) "Base" 1 1 false.
Definition tp_event : TcBotEvent :=
  mkTcBotEvent (6 * second) "Place" "DOGE" "SELL" "Active" (f_of_Z 4) (f_of_Z 5) "Take Profit"
    1 1 false.

Definition demo_store : TrackerStore := {|
  ListDealIDs := Ok [11];
  LoadThreeCommasBotEvent := λ oid,
    Ok (if decide (oid = buy_oid) then Some buy_event
        else if decide (oid = tp_oid) then Some tp_event else None);
  LoadThreeCommasDeal := λ _, Ok None;
  ListOrderIdsForDeal := λ id, Ok (if id =? 11 then [buy_oid; tp_oid] else []);
  ListSubmissionIdentifiersForOrder := λ oid, Ok [NewOrderIdentifier "hl" "0xabc" oid];
  ListScaledOrdersByOrderId := λ _, Ok [];
  LoadHyperliquidStatus := λ _, Ok None;
  LoadHyperliquidSubmission := λ _, Ok None;
  LoadTakeProfitForDeal := λ _, Err ErrNoRows |}.

Definition all_ok : nat → OrderWork → option emit_error := λ _ _, None.
Definition demo_env : env := mkEnv list_range demo_store all_ok.

Definition ws (side sz orig status : string) (ts : Z) : WsOrder :=
  mkWsOrder (mkWsBasicOrder "DOGE" side "3" sz 1 ts orig None) status ts.

(** A restart: the deals are loaded, the gate is closed, and the buy fills. *)
Definition restart : list (env * op * Z) :=
  [(demo_env, OpRebuild, 10 * second); (demo_env, OpRequireHydration, 11 * second);
   (demo_env, OpSetEmitter true, 11 * second);
   (demo_env, OpUpdateStatus buy_ident (ws "B" "0" "7" "filled" 12000), 13 * second)].

Definition after_restart : world := run restart initial.

Lemma restart_fair : Forall (λ x, FairRange (en_range x.1.1)) restart.
Proof. repeat constructor; exact list_range_fair. Qed.

(** The gate promises that reconciliation is skipped until the venue's statuses
    have been replayed, but [UpdateStatus] does not look at it: here an order
    modification is sent while the statuses are not hydrated. *)
Theorem update_status_ignores_gate :
  statusesHydrated (wd_svc after_restart) = false ∧
  (λ wk, (ow_Identifier wk, ac_Type (ow_Action wk), co_Size (mo_Order (ac_Modify (ow_Action wk)))))
    <$> wd_log after_restart = [(tp_ident, ActionModify, f_of_Z 7)].
Proof. split; vm_compute; reflexivity. Qed.

Lemma tracker_invariant_witness :
  Forall (λ x, FairRange (en_range x.1.1)) restart ∧
  is_Some (ft_orders (wd_svc after_restart) !! tp_ident) ∧
  ∀ i p, ft_orders (wd_svc after_restart) !! i = Some p →
    is_Some (ft_deals (wd_svc after_restart) !! OrderId.DealID (oi_OrderId i)).
Proof.
  split; [exact restart_fair|]. split; [vm_compute; eauto|].
  exact (proj2 (proj2 (proj2 (tracker_invariant restart restart_fair)))).
Defined.

(** The deal as the restart leaves it. *)
Definition demo_deal : dealState :=
  default (mkDealState 0 0 "" ∅ zero_position 0) (ft_deals (wd_svc after_restart) !! 11).
Definition demo_snapshot : DealSnapshot := deal_snapshot 0 (ft_heap (wd_svc after_restart)) demo_deal.

Lemma snapshot_contents_witness :
  FairRange list_range ∧ dn_AllBuysFilled demo_snapshot = true ∧
  (dn_AllBuysFilled demo_snapshot = true ↔
   ∀ o, o ∈ (λ x, deref (ft_heap (wd_svc after_restart)) x.2) <$> map_to_list (ds_orders demo_deal) →
     isBuy o = true → isActive o = false ∧ isFilled o = true).
Proof.
  split; [exact list_range_fair|]. split; [vm_compute; reflexivity|].
  exact (proj2 (proj2 (proj2 (snapshot_contents 0 (ft_heap (wd_svc after_restart)) demo_deal)))).
Defined.

Definition demo_updates : list (WsOrder * Z) :=
  [(ws "B" "5" "7" "open" 3000, 1); (ws "B" "0" "7" "filled" 9000, 2);
   (ws "B" "7" "7" "open" 1000, 3)].

Lemma latest_status_wins_witness :
  Forall (λ x, 0 < ws_StatusTimestamp x.1) demo_updates ∧
  at_status (ws "B" "0" "7" "filled" 9000)
    (fold_left (λ o x, applyStatus x.1 x.2 o) demo_updates (fresh_state buy_ident 0)).
Proof.
  assert (H1 : Forall (λ x, 0 < ws_StatusTimestamp x.1) demo_updates)
    by (repeat constructor; simpl; lia).
  split; [exact H1|].
  refine (latest_status_wins demo_updates (ws "B" "0" "7" "filled" 9000) (fresh_state buy_ident 0)
            H1 _ _ _).
  - right; left.
  - unfold demo_updates. rewrite !Forall_cons. simpl.
    split_and!; [right; lia|by left|right; lia|constructor].
  - simpl. unfold zero_time, UnixMilli, second, millisecond. lia.
Defined.

Lemma scaled_order_bounds_witness :
  fgt (f_of_Z 4) fzero = true ∧
  ∃ p o, let s' := ApplyScaledOrder buy_ident (f_of_Z 4) fzero 9 (wd_svc after_restart) in
    ft_orders s' !! buy_ident = Some p ∧ ft_heap s' !! p = Some o ∧ os_originalQty o = f_of_Z 4.
Proof.
  split; [vm_compute; reflexivity|].
  destruct (scaled_order_bounds buy_ident (f_of_Z 4) fzero 9 (wd_svc after_restart)
              ltac:(vm_compute; reflexivity)) as (p & o & H1 & H2 & H3 & _).
  exists p, o. split; [exact H1|]. split; [exact H2|exact H3].
Defined.

Lemma hydration_gate_witness :
  statusesHydrated (wd_svc after_restart) = false ∧
  ReconcileTakeProfits (store:=demo_store) all_ok true 9 after_restart = after_restart.
Proof.
  assert (H : statusesHydrated (wd_svc after_restart) = false) by (vm_compute; reflexivity).
  split; [exact H|].
  exact (proj1 (hydration_gate (store:=demo_store) all_ok true tp_ident None
    (ws "A" "5" "5" "open" 14000) 9 after_restart H)).
Defined.

Lemma after_restart_inv : inv (wd_svc after_restart).
Proof.
  unfold after_restart, run, restart. cbn [fold_left].
  repeat (apply exec_inv; [exact list_range_fair|]). apply inv_New.
Qed.

Lemma cleanup_exact_witness :
  inv (wd_svc after_restart) ∧
  (∀ id d, ft_deals (CleanupStaleDeals 5 (14 * second) (wd_svc after_restart)).2 !! id = Some d ↔
     ft_deals (wd_svc after_restart) !! id = Some d ∧
     ¬ stale (14 * second) 5 (wd_svc after_restart) d).
Proof.
  split; [exact after_restart_inv|].
  exact (proj1 (cleanup_exact 5 (14 * second) (wd_svc after_restart) after_restart_inv)).
Defined.

Lemma venue_positions_witness :
  FairRange list_range ∧
  ∀ i q, calculateVenuePositions demo_snapshot !! i = Some q →
    (∃ o, o ∈ dn_Orders demo_snapshot ∧ sn_Identifier o = i) ∧
    q = fold_left add_fill (filter (λ o, key_of (sn_Identifier o) = key_of i)
          (dn_Orders demo_snapshot)) fzero.
Proof. split; [exact list_range_fair|]. exact (proj1 (venue_positions demo_snapshot)). Defined.

Lemma reconcile_orders_witness :
  FairRange list_range ∧
  ∃ new, wd_log (reconcileSnapshot (store:=demo_store) all_ok true demo_snapshot 9 initial) =
           wd_log initial ++ new ∧ NoDup (sizing_keys new).
Proof.
  split; [exact list_range_fair|].
  destruct (reconcile_orders (store:=demo_store) all_ok true demo_snapshot 9 initial)
    as (new & H & _ & _ & Hn).
  exists new. split; [exact H|exact Hn].
Defined.

(** The same deal after its take profit was cancelled. *)
Definition flat_deal : DealSnapshot :=
  mkDealSnapshot 11 7 "DOGE" zero_position (dn_Orders demo_snapshot) [] (Some tp_event) [] true
    fzero fzero 0.

Lemma take_profit_recreated_witness :
  ∃ new wk, wd_log (reconcileSnapshot (store:=demo_store) all_ok true flat_deal 9 initial) =
      wd_log initial ++ new ∧ wk ∈ new ∧
    ow_Identifier wk = tp_ident ∧ ac_Type (ow_Action wk) = ActionCreate ∧
    sizes flat_deal (key_of buy_ident) (f_of_Z 7) wk.
Proof.
  assert (Hpos : ∃ ident, calculateVenuePositions flat_deal !! ident = Some (f_of_Z 7) ∧
    key_of ident = key_of buy_ident ∧
    buildTakeProfitIdentifier (store:=demo_store) flat_deal (oi_VenueID ident) (oi_Wallet ident)
      = Some tp_ident).
  { assert (calculateVenuePositions flat_deal !! buy_ident = Some (f_of_Z 7) ∨
            calculateVenuePositions flat_deal !! tp_ident = Some (f_of_Z 7)) as [H|H]
      by (vm_compute; auto);
      [exists buy_ident|exists tp_ident]; (split; [exact H|]); split; vm_compute; reflexivity. }
  destruct Hpos as (ident & Hpos & Hk & Hb). rewrite <- Hk.
  refine (take_profit_recreated (store:=demo_store) all_ok flat_deal 9 initial ident tp_ident
            (f_of_Z 7) tp_event _ _ Hpos _ _ Hb _ _ _).
  - discriminate.
  - reflexivity.
  - vm_compute; reflexivity.
  - intros tp Htp. exfalso. exact (not_elem_of_nil tp Htp).
  - discriminate.
  - reflexivity.
  - vm_compute; reflexivity.
Defined.

End FillTrackerDemo.
