(* ===== verification/EngineFacts.v ===== *)
(** * What the engine guarantees

    Venue targets, the normalisation of stored identifiers, the emissions planned
    for an order, the replay of a deal, the sizing of scaled take profits and the
    limiter calls of the two workflows. *)

From S2P Require Import Prelude GoFloat GoString OrderId Domain Adapter Store Hl FillTracker.
From S2P Require Import OrderScaler RateLimit Engine.
Import GoFloat GoString Domain Adapter Store Engine.

Module EngineFacts.

(** ** The order of identifiers *)

Lemma scompare_trichotomy a b :
  (scompare a b = 0 ∧ a = b) ∨ (scompare a b = -1 ∧ scompare b a = 1) ∨
  (scompare a b = 1 ∧ scompare b a = -1).
Proof.
  unfold scompare. rewrite (String.compare_antisym a b).
  destruct (String.compare b a) eqn:E; simpl; [|by auto..].
  left. split; [done|]. symmetry. by apply String.compare_eq_iff.
Qed.

Lemma compare_total a b : compareIdentifiers a b ≤ 0 ∨ compareIdentifiers b a ≤ 0.
Proof.
  unfold compareIdentifiers.
  destruct (scompare_trichotomy (Venue a) (Venue b)) as [[E1 E1']|[[E1 E1']|[E1 E1']]];
    rewrite ?E1, ?E1'; simpl; try lia.
  rewrite !(proj2 (scompare_eq _ _) eq_refl). simpl.
  destruct (scompare_trichotomy (oi_Wallet a) (oi_Wallet b)) as [[E2 E2']|[[E2 E2']|[E2 E2']]];
    rewrite ?E2, ?E2'; simpl; try lia.
  rewrite !(proj2 (scompare_eq _ _) eq_refl). simpl.
  destruct (scompare_trichotomy (Domain.Hex a) (Domain.Hex b)) as [[E3 E3']|[[E3 E3']|[E3 E3']]];
    lia.
Qed.

Lemma sort_idents_perm l : sort_idents l ≡ₚ l.
Proof. apply merge_sort_Permutation. Qed.

(** ** Targets *)

Section Targets.
Context {R : GoRange} {HR : FairRange R}.

Lemma stored_map_lookup (stored : list OrderIdentifier) (m : gmap OrderIdentifier bool) i :
  fold_left (λ m i, <[i := true]> m) stored m !! i =
  if decide (i ∈ stored) then Some true else m !! i.
Proof.
  revert m. induction stored as [|j stored IH]; intros m; [reflexivity|].
  cbn [fold_left]. rewrite IH. destruct (decide (i ∈ stored)) as [Hi|Hi].
  - rewrite decide_True by (by right). done.
  - destruct (decide (j = i)) as [<-|Hne].
    + rewrite lookup_insert_eq, decide_True by (by left). done.
    + rewrite lookup_insert_ne by done.
      rewrite decide_False by (intros [?|?]%elem_of_cons; done). done.
Qed.

Lemma assigned_map_lookup oid (l : list VenueAssignment) (m : gmap OrderIdentifier bool) i :
  fold_left (λ m a, match m !! assigned oid a with Some _ => m | None => <[assigned oid a := false]> m end)
    l m !! i =
  match m !! i with
  | Some b => Some b
  | None => if decide (i ∈ (assigned oid <$> l)) then Some false else None
  end.
Proof.
  revert m. induction l as [|a l IH]; intros m.
  { simpl. by destruct (m !! i). }
  cbn [fold_left fmap list_fmap]. rewrite IH. clear IH.
  destruct (m !! assigned oid a) as [b|] eqn:Ha.
  - destruct (m !! i) as [b'|] eqn:Hi; [done|].
    destruct (decide (i ∈ (assigned oid <$> l))) as [Hin|Hin].
    + rewrite decide_True by (by right). done.
    + rewrite decide_False; [done|]. intros [->|?]%elem_of_cons; [congruence|done].
  - destruct (decide (assigned oid a = i)) as [<-|Hne].
    + rewrite lookup_insert_eq, Ha, decide_True by (by left). done.
    + rewrite lookup_insert_ne by done. destruct (m !! i); [done|].
      destruct (decide (i ∈ (assigned oid <$> l))) as [Hin|Hin].
      * rewrite decide_True by (by right). done.
      * rewrite decide_False by (intros [?|?]%elem_of_cons; done). done.
Qed.

Lemma target_map_lookup oid assignments stored i :
  target_map oid assignments stored None !! i =
  if decide (i ∈ stored) then Some true
  else if decide (i ∈ (assigned oid <$> assignments)) then Some false else None.
Proof.
  unfold target_map. rewrite assigned_map_lookup, stored_map_lookup, lookup_empty.
  by destruct (decide (i ∈ stored)).
Qed.

(** The default assignment matters only when there is no other candidate. *)
Lemma target_map_default oid assignments stored d :
  target_map oid assignments stored (Some d) =
  if decide (assignments = [] ∧ stored = []) then {[assigned oid d := false]}
  else target_map oid assignments stored None.
Proof.
  assert (Hdef : target_map oid assignments stored (Some d) =
    if decide (size (target_map oid assignments stored None) = 0%nat)
    then <[assigned oid d := (0 <? length stored)%nat]> (target_map oid assignments stored None)
    else target_map oid assignments stored None) by reflexivity.
  rewrite Hdef. clear Hdef.
  destruct (decide (assignments = [] ∧ stored = [])) as [[-> ->]|Hne]; [reflexivity|].
  rewrite decide_False; [done|]. intros Hsz%map_size_empty_iff.
  apply Hne. split.
  - destruct assignments as [|a l]; [done|]. exfalso.
    pose proof (target_map_lookup oid (a :: l) stored (assigned oid a)) as Hl.
    rewrite Hsz, lookup_empty in Hl. case_decide; [done|].
    rewrite decide_True in Hl by (by left). done.
  - destruct stored as [|i l]; [done|]. exfalso.
    pose proof (target_map_lookup oid assignments (i :: l) i) as Hl.
    rewrite Hsz, lookup_empty, decide_True in Hl by (by left). done.
Qed.

Lemma elem_of_targets oid assignments stored t d i :
  i ∈ resolveOrderTargets oid assignments stored t d ↔
  ∃ b, target_map oid assignments stored d !! i = Some b ∧ wanted t b = true.
Proof.
  unfold resolveOrderTargets. rewrite sort_idents_perm, list_elem_of_fmap. split.
  - intros ([j b] & -> & Hin). apply list_elem_of_filter in Hin as [Hw Hin].
    apply elem_of_range in Hin. eauto.
  - intros (b & Hb & Hw). exists (i, b). split; [done|].
    apply list_elem_of_filter. split; [done|]. by apply elem_of_range.
Qed.

Lemma target_map_cases oid assignments stored d i b :
  target_map oid assignments stored d !! i = Some b ↔
  (b = true ∧ i ∈ stored) ∨ (b = false ∧ i ∉ stored ∧ i ∈ (assigned oid <$> assignments)) ∨
  (b = false ∧ assignments = [] ∧ stored = [] ∧ ∃ a, d = Some a ∧ i = assigned oid a).
Proof.
  destruct d as [a|]; [rewrite target_map_default; case_decide as Hne|].
  - destruct Hne as [-> ->]. rewrite lookup_singleton_Some. split.
    + intros [<- <-]. right. right. eauto 10.
    + intros [[_ []%elem_of_nil]|[(_ & _ & []%elem_of_nil)|(-> & _ & _ & a' & [= <-] & ->)]]. done.
  - rewrite target_map_lookup. repeat case_decide; split; naive_solver.
  - rewrite target_map_lookup. repeat case_decide; split; naive_solver.
Qed.

Lemma elem_of_create_targets oid assignments stored d i :
  i ∈ resolveOrderTargets oid assignments stored ActionCreate d ↔
  (i ∈ (assigned oid <$> assignments) ∧ i ∉ stored) ∨
  (assignments = [] ∧ stored = [] ∧ ∃ a, d = Some a ∧ i = assigned oid a).
Proof.
  rewrite elem_of_targets. setoid_rewrite target_map_cases.
  split; [intros (b & Hb & Hw); destruct b; naive_solver|].
  intros [[? ?]|(? & ? & ?)]; exists false; split; try done; naive_solver.
Qed.

Lemma elem_of_held_targets oid assignments stored d i t :
  t = ActionModify ∨ t = ActionCancel →
  i ∈ resolveOrderTargets oid assignments stored t d ↔ i ∈ stored.
Proof.
  intros Ht. rewrite elem_of_targets. setoid_rewrite target_map_cases.
  split; [intros (b & Hb & Hw); destruct Ht as [-> | ->], b; naive_solver|].
  intros Hi; exists true; destruct Ht as [-> | ->]; naive_solver.
Qed.

Lemma targets_NoDup oid assignments stored d t :
  NoDup (resolveOrderTargets oid assignments stored t d).
Proof.
  unfold resolveOrderTargets. rewrite sort_idents_perm.
  eapply sublist_NoDup; [|apply fmap_sublist, sublist_filter]. apply range_NoDup.
Qed.

(** Which venues an order goes to, whatever order the runtime visits its maps in:
    a create goes to the assigned venues that have no submission yet (to the
    default venue when nothing is assigned or stored), a modification or a
    cancellation to the venues that have one; no venue is targeted twice and the
    targets are sorted. *)
Theorem order_targets (oid : OrderId.OrderId) (assignments : list VenueAssignment)
    (stored : list OrderIdentifier) (d : option VenueAssignment) :
  let targets t := resolveOrderTargets oid assignments stored t d in
  (∀ i, i ∈ targets ActionCreate ↔
     (i ∈ (assigned oid <$> assignments) ∧ i ∉ stored) ∨
     (assignments = [] ∧ stored = [] ∧ ∃ a, d = Some a ∧ i = assigned oid a)) ∧
  (∀ i, (i ∈ targets ActionModify ↔ i ∈ stored) ∧ (i ∈ targets ActionCancel ↔ i ∈ stored)) ∧
  (∀ t, NoDup (targets t) ∧ Sorted ident_le (targets t)).
Proof.
  intros targets. split_and!.
  - intros i. apply elem_of_create_targets.
  - intros i. split; apply elem_of_held_targets; auto.
  - intros t. split; [apply targets_NoDup|].
    apply Sorted_merge_sort. intros a b. apply compare_total.
Qed.

End Targets.

(** ** Stored identifiers *)

Lemma normalize_loop_keys f l seen :
  NoDup (ident_key <$> normalize_loop f l seen) ∧
  (∀ n, n ∈ normalize_loop f l seen → ident_key n ∉ seen ∧ ∃ i, i ∈ l ∧ f i = Some n).
Proof.
  revert seen. induction l as [|i l IH]; intros seen; simpl.
  { split; [constructor|by intros n Hn%elem_of_nil]. }
  destruct (f i) as [n|] eqn:Hf.
  - case_decide as Hs.
    + destruct (IH seen) as [H1 H2]. split; [done|]. intros m Hm.
      destruct (H2 m Hm) as (? & j & ? & ?). split; [done|]. exists j. split; [by right|done].
    + destruct (IH (ident_key n :: seen)) as [H1 H2]. split.
      * cbn [fmap list_fmap]. constructor; [|done].
        intros (m & Hk & Hm)%list_elem_of_fmap. destruct (H2 m Hm) as [Hn _].
        apply Hn. rewrite <- Hk. by left.
      * intros m [->|Hm]%elem_of_cons.
        { split; [done|]. exists i. split; [by left|done]. }
        destruct (H2 m Hm) as (Hn & j & ? & ?). split.
        { intros Hc. apply Hn. by right. }
        exists j. split; [by right|done].
  - destruct (IH seen) as [H1 H2]. split; [done|]. intros m Hm.
    destruct (H2 m Hm) as (? & j & ? & ?). split; [done|]. exists j. split; [by right|done].
Qed.

Lemma venue_wallets_lookup (l : list VenueAssignment) (m : gmap VenueID string) v w :
  fold_left (λ m a, <[va_VenueID a := va_Wallet a]> m) l m !! v = Some w →
  (∃ a, a ∈ l ∧ va_VenueID a = v ∧ va_Wallet a = w) ∨ m !! v = Some w.
Proof.
  revert m. induction l as [|a l IH]; intros m Hm; [by right|].
  apply IH in Hm as [(a' & ? & ?)|Hm].
  { left. exists a'. split; [by right|done]. }
  destruct (decide (va_VenueID a = v)) as [<-|Hne].
  - rewrite lookup_insert_eq in Hm. injection Hm as <-. left. exists a. split; [by left|done].
  - rewrite lookup_insert_ne in Hm by done. by right.
Qed.

Lemma wallet_lookup_lookup (l : list VenueAssignment) (m : gmap string VenueID) k v :
  fold_left (λ m a, if String.eqb (va_Wallet a) "" then m
                    else <[ToLower (va_Wallet a) := va_VenueID a]> m) l m !! k = Some v →
  (∃ a, a ∈ l ∧ ToLower (va_Wallet a) = k ∧ va_VenueID a = v) ∨ m !! k = Some v.
Proof.
  revert m. induction l as [|a l IH]; intros m Hm; [by right|].
  apply IH in Hm as [(a' & ? & ?)|Hm].
  { left. exists a'. split; [by right|done]. }
  destruct (String.eqb (va_Wallet a) ""); [by right|].
  destruct (decide (ToLower (va_Wallet a) = k)) as [<-|Hne].
  - rewrite lookup_insert_eq in Hm. injection Hm as <-. left. exists a. split; [by left|done].
  - rewrite lookup_insert_ne in Hm by done. by right.
Qed.

Lemma venue_wallets_total (l : list VenueAssignment) (m : gmap VenueID string) a :
  a ∈ l → is_Some (fold_left (λ m a, <[va_VenueID a := va_Wallet a]> m) l m !! va_VenueID a).
Proof.
  assert (Hk : ∀ (l : list VenueAssignment) (m : gmap VenueID string) v, is_Some (m !! v) →
    is_Some (fold_left (λ m a, <[va_VenueID a := va_Wallet a]> m) l m !! v)).
  { clear. intros l. induction l as [|b l IH]; intros m v Hm; [done|]. cbn [fold_left]. apply IH.
    destruct (decide (va_VenueID b = v)) as [<-|?];
      [rewrite lookup_insert_eq; eauto|by rewrite lookup_insert_ne]. }
  revert m. induction l as [|b l IH]; intros m Hin; [by apply elem_of_nil in Hin|].
  apply elem_of_cons in Hin as [->|Hin]; cbn [fold_left]; [|by apply IH].
  apply Hk. rewrite lookup_insert_eq. eauto.
Qed.

(** The stored identifiers after normalisation: no venue and wallet (up to the case
    of the wallet) occurs twice, the order is untouched, and as soon as the bot has
    venues each survivor is at one of them, with that venue's wallet when it has
    one; an identifier is only moved to another venue when it carried that venue's
    wallet. *)
Theorem normalized_identifiers (assignments : list VenueAssignment) (stored : list OrderIdentifier) :
  let l := normalizeSubmissionIdentifiers assignments stored in
  NoDup (ident_key <$> l) ∧
  ∀ n, n ∈ l → ∃ i, i ∈ stored ∧ oi_OrderId n = oi_OrderId i ∧
    (assignments = [] → n = i) ∧
    (assignments ≠ [] →
       (∃ a, a ∈ assignments ∧ va_VenueID a = oi_VenueID n ∧
          (va_Wallet a ≠ "" → oi_Wallet n = va_Wallet a)) ∧
       (oi_VenueID n ≠ oi_VenueID i →
          ∃ a, a ∈ assignments ∧ va_VenueID a = oi_VenueID n ∧
            EqualFold (va_Wallet a) (oi_Wallet i) = true)).
Proof.
  intros l. subst l. destruct stored as [|i0 stored].
  { split; [constructor|by intros n Hn%elem_of_nil]. }
  unfold normalizeSubmissionIdentifiers.
  destruct (normalize_loop_keys (normalize_ident (0 <? length assignments)%nat
    (venue_wallets assignments) (wallet_lookup assignments)) (i0 :: stored) []) as [H1 H2].
  split; [done|]. intros n Hn. destruct (H2 n Hn) as (_ & i & Hi & Hf).
  exists i. split; [done|]. clear H1 H2 Hn. unfold normalize_ident in Hf.
  destruct assignments as [|a0 l0]; simpl in Hf; [injection Hf as <-; by split_and!|].
  set (l := a0 :: l0) in *.
  assert (Hwal : ∀ v (w : string), venue_wallets l !! v = Some w → ∀ n', oi_VenueID n' = v →
    oi_Wallet n' = (if String.eqb w "" then oi_Wallet i else w) →
    ∃ a, a ∈ l ∧ va_VenueID a = oi_VenueID n' ∧ (va_Wallet a ≠ "" → oi_Wallet n' = va_Wallet a)).
  { intros v w Hv n' Hn1 Hn2. apply venue_wallets_lookup in Hv as [(a & ? & ? & <-)|Hv];
      [|by rewrite lookup_empty in Hv]. exists a. split; [done|]. split; [congruence|].
    intros Hw. rewrite Hn2. apply String.eqb_neq in Hw. by rewrite Hw. }
  destruct (venue_wallets l !! oi_VenueID i) as [w|] eqn:Hv.
  - injection Hf as <-. simpl. split_and!; [done|done|]. intros _. split; [|done].
    exact (Hwal _ _ Hv (NewOrderIdentifier (oi_VenueID i)
             (if String.eqb w "" then oi_Wallet i else w) (oi_OrderId i)) eq_refl eq_refl).
  - destruct (wallet_lookup l !! ToLower (oi_Wallet i)) as [v|] eqn:Hw; [|done].
    simpl in Hf. injection Hf as <-. simpl.
    apply wallet_lookup_lookup in Hw as [(a & Ha & Hal & Hav)|Hw]; [|by rewrite lookup_empty in Hw].
    split_and!; [done|done|]. intros _. split.
    + destruct (venue_wallets_total l ∅ a Ha) as [w Hvw]. rewrite Hav in Hvw.
      change (fold_left _ l ∅) with (venue_wallets l) in Hvw.
      rewrite Hvw. exact (Hwal _ _ Hvw (NewOrderIdentifier v
        (if String.eqb w "" then oi_Wallet i else w) (oi_OrderId i)) eq_refl eq_refl).
    + intros _. exists a. split_and!; [done|done|]. unfold EqualFold. rewrite Hal. apply String.eqb_refl.
Qed.

(** ** The emissions planned for an order *)

Section Plan.
Context {sdk : SDK} {R : GoRange} {HR : FairRange R}.
Context {tstore : TrackerStore} {estore : EngineStore}.

Lemma elem_of_missing oid assignments stored i :
  i ∈ missingAssignmentTargets oid assignments stored ↔
  i ∈ (assigned oid <$> assignments) ∧ i ∉ stored.
Proof.
  unfold missingAssignmentTargets. destruct assignments as [|a l].
  { split; [by intros ?%elem_of_nil|by intros [?%elem_of_nil _]]. }
  rewrite sort_idents_perm, list_elem_of_filter. tauto.
Qed.

(** C7.  No plan contradicts what a venue already has: a create only goes to identifiers
    without a stored submission, a modification or a cancellation only to identifiers with one; and everything planned belongs to the
    order, at a venue of the bot, at a venue that has the order, or at the default
    venue when there is neither. *)
Theorem planned_targets (currency : string) (oid : OrderId.OrderId)
    (snapshot : option FillTracker.DealSnapshot) (l : list emissionPlan)
    (Hplan : plan_order currency oid snapshot = Ok l) :
  let assignments := or_empty (ListVenuesForBot (OrderId.BotID oid)) in
  let stored := normalizeSubmissionIdentifiers assignments
                  (or_empty (ListSubmissionIdentifiersForOrder oid)) in
  ∀ em i, em ∈ l → i ∈ ep_targets em →
    (ac_Type (ep_action em) = ActionCreate → i ∉ stored) ∧
    (ac_Type (ep_action em) = ActionModify ∨ ac_Type (ep_action em) = ActionCancel → i ∈ stored) ∧
    ac_Type (ep_action em) ≠ ActionNone ∧
    (i ∈ stored ∨ i ∈ (assigned oid <$> assignments) ∨
     (assignments = [] ∧ stored = [] ∧ ∃ d, ResolveDefaultAlias = Ok d ∧ i = assigned oid d)).
Proof.
  intros assignments stored em i Hem Hi. unfold plan_order in Hplan.
  fold assignments in Hplan. fold stored in Hplan.
  destruct (reduceOrderEvents _ _ _) as [[[action latest] should]|]; [|done].
  destruct (match latest with Some _ => _ | None => _ end) as [action' should'] eqn:Hadj.
  injection Hplan as <-. apply elem_of_app in Hem as [Hem|Hem].
  - destruct (should' && _) eqn:Hs; [|by apply elem_of_nil in Hem].
    apply andb_true_iff in Hs as [_ Hs]. apply negb_true_iff, bool_decide_eq_false in Hs.
    set (d := match assignments, stored with [], [] => _ | _, _ => None end) in Hem.
    destruct (resolveOrderTargets _ _ _ _ d) as [|t ts] eqn:Ht; [by apply elem_of_nil in Hem|].
    apply list_elem_of_singleton in Hem as ->. simpl in Hi |- *. rewrite <- Ht in Hi.
    assert (Hd : ∀ a, d = Some a → assignments = [] ∧ stored = [] ∧ ResolveDefaultAlias = Ok a).
    { subst d. intros a. destruct assignments; [|done]. destruct stored; [|done].
      destruct ResolveDefaultAlias; [|done]. intros [= ->]. done. }
    destruct (ac_Type action') eqn:Hty; [done| | |].
    + apply elem_of_create_targets in Hi as [[? ?]|(? & Hst & a & Ha & ->)].
      * split_and!; [done|by intros [?|?]|done|by right; left].
      * split_and!; [rewrite Hst; intros _; apply not_elem_of_nil|by intros [?|?]|done|].
        right. right. split_and!; [done|done|]. exists a. split; [by apply Hd|done].
    + apply elem_of_held_targets in Hi; [|auto]. split_and!; [done|done|done|by left].
    + apply elem_of_held_targets in Hi; [|auto]. split_and!; [done|done|done|by left].
  - destruct latest as [b|]; [|by apply elem_of_nil in Hem].
    destruct (_ && _ && _); [|by apply elem_of_nil in Hem].
    apply list_elem_of_singleton in Hem as ->. simpl in Hi |- *.
    apply elem_of_missing in Hi as [? ?].
    split_and!; [done|by intros [?|?]|done|by right; left].
Qed.

(** The replay to a newly assigned venue can double the order: when the engine
    decides on a create although a venue already has the order (every stored event
    of the order is the same snapshot), that create and the replayed one both go to
    each venue that misses the order, which gets two creates with one client id. *)
Theorem replay_duplicates_create (currency : string) (oid : OrderId.OrderId)
    (snapshot : option FillTracker.DealSnapshot) (action : Action) (latest : BotEvent) :
  let assignments := or_empty (ListVenuesForBot (OrderId.BotID oid)) in
  let stored := normalizeSubmissionIdentifiers assignments
                  (or_empty (ListSubmissionIdentifiersForOrder oid)) in
  let missing := missingAssignmentTargets oid assignments stored in
  stored ≠ [] → missing ≠ [] →
  reduceOrderEvents currency oid true = Ok (action, Some latest, true) →
  ac_Type action = ActionCreate →
  ev_Status (be_Event latest) = Active → ev_OrderType (be_Event latest) ≠ TakeProfit →
  ∃ em1 em2, plan_order currency oid snapshot = Ok [em1; em2] ∧
    ac_Type (ep_action em1) = ActionCreate ∧ ac_Type (ep_action em2) = ActionCreate ∧
    ∀ i, i ∈ missing → i ∈ ep_targets em1 ∧ i ∈ ep_targets em2.
Proof.
  intros assignments stored missing Hst Hmi Hred Hac Hact Htp. unfold plan_order.
  fold assignments. fold stored. fold missing.
  assert ((0 <? length stored)%nat = true) as -> by (destruct stored; [done|by cbn]).
  assert ((0 <? length missing)%nat = true) as -> by (destruct missing; [done|by cbn]).
  rewrite Hred. rewrite Hact, String.eqb_refl. cbn [andb].
  assert (Hadj : adjustActionWithTracker currency oid latest action snapshot false = (action, true)).
  { apply String.eqb_neq in Htp. unfold adjustActionWithTracker. rewrite Htp. by destruct snapshot. }
  rewrite Hadj, Hac. cbn [andb negb bool_decide].
  rewrite bool_decide_false by done. cbn [negb].
  set (d := match assignments with [] => _ | _ => _ end).
  assert (Ht : ∀ i, i ∈ missing → i ∈ resolveOrderTargets oid assignments stored ActionCreate d).
  { intros i Hi. apply elem_of_missing in Hi. apply elem_of_create_targets. by left. }
  destruct (resolveOrderTargets oid assignments stored ActionCreate d) as [|t ts] eqn:E.
  { destruct missing as [|i l]; [done|]. destruct (not_elem_of_nil i). apply Ht. by left. }
  eexists _, _. split; [reflexivity|]. cbn. split_and!; [done|done|]. auto.
Qed.

Context {sstore : OrderScaler.ScalerStore} {constr : OrderScaler.Constraints}.

(** ** Replays *)

Lemma record_events_seen i wi events seen :
  (∀ j oid ev, RecordThreeCommasBotEvent j oid ev = Err ErrNoRows) →
  (∀ j oid ev, is_ok (RecordThreeCommasBotEventLog j oid ev) = true ∨
               RecordThreeCommasBotEventLog j oid ev = Err ErrNoRows) →
  record_events i wi events seen = Ok seen.
Proof.
  intros Hr Hlog. revert i. induction events as [|ev events IH]; intros i; [done|]. simpl.
  destruct (Hlog i (event_oid wi ev) ev) as [H|H];
    (destruct (RecordThreeCommasBotEventLog i (event_oid wi ev) ev) as [|[]]; try done);
    rewrite ?Hr; repeat case_match; try done; apply IH.
Qed.

(** Polling a deal again without news does nothing: when every event of the deal is
    already recorded, [processDeal] succeeds, emits nothing and leaves the tracker
    as it was. *)
Theorem replayed_deal_silent (e : Engine) (now : Z) (wi : WorkKey) (currency : string)
    (events : list TcBotEvent) (st : state)
    (Hseen : ∀ j oid ev, RecordThreeCommasBotEvent j oid ev = Err ErrNoRows)
    (Hlog : ∀ j oid ev, is_ok (RecordThreeCommasBotEventLog j oid ev) = true ∨
                        RecordThreeCommasBotEventLog j oid ev = Err ErrNoRows) :
  processDeal e now wi currency events st = (Ok tt, st).
Proof.
  unfold processDeal. rewrite record_events_seen by done.
  assert (go_range 21 (∅ : gmap Z OrderId.OrderId) = []) as ->; [|done].
  apply Permutation_nil_r. by rewrite range_perm, map_to_list_empty.
Qed.

(** ** Scaled take profits *)

Definition sized (q : f64) (a : Action) : Action :=
  with_action_create (with_size q (ac_Create a)) a.

(** The size an action carries has no influence on what a configured scaler makes of
    it: the event's own size decides.  So the size that [adjustActionWithTracker]
    takes from the position is lost before the order is emitted. *)
Theorem tracked_size_overwritten (e : Engine) (scaler : OrderScaler.Service)
    (ident : OrderIdentifier) (latest : BotEvent) (action : Action) (q1 q2 : f64)
    (Hs : en_scaler e = Some scaler) (Ht : ac_Type action = ActionCreate)
    (Hsize : fle (ev_Size (be_Event latest)) fzero = false) :
  match (applyScaling e ident (Some latest) (sized q1 action)).1,
        (applyScaling e ident (Some latest) (sized q2 action)).1 with
  | Ok r1, Ok r2 => r1 = r2
  | Err e1, Err e2 => e1 = e2
  | _, _ => False
  end.
Proof.
  unfold applyScaling, sized. rewrite Hs. simpl. rewrite Ht.
  unfold OrderScaler.BuildRequest. simpl. rewrite Hsize.
  unfold OrderScaler.Scale. cbn [OrderScaler.rq_OrderId].
  destruct (OrderScaler.ResolveEffectiveOrderScaler _); [|done]. cbn -[OrderScaler.stack_size].
  destruct (OrderScaler.ResolveConstraints _) as [c|]; [|done].
  cbn -[OrderScaler.stack_size OrderScaler.clampToNonNegative Hl.RoundPrice Hl.RoundSize Hl.NotionalBelowMinimum].
  destruct (Hl.NotionalBelowMinimum _ _ _); destruct (OrderScaler.RecordScaledOrder _) as [[? ?]|]; done.
Qed.

End Plan.

End EngineFacts.
