(* ===== verification/EngineDemo.v ===== *)
(** * The engine on a concrete deal

    The deal of [FillTrackerDemo] processed by an engine with a scaler: the
    properties of the engine apply to it. *)

From S2P Require Import Prelude GoFloat GoString OrderId Domain Adapter Store Hl FillTracker.
From S2P Require Import FillTrackerDemo OrderScaler Engine EngineFacts.
Import GoFloat GoString Domain Adapter Store Hl FillTrackerDemo Engine EngineFacts.

Module EngineDemo.

#[local] Existing Instance demo_sdk.
#[local] Existing Instance list_range.
#[local] Existing Instance demo_store.

(** Two venues, every event of the deal in its own history, no recorded event twice. *)
Definition venue_hl : VenueAssignment := mkAssignment "hl" "0xabc" true.
Definition venue_b : VenueAssignment := mkAssignment "b" "0xdef" false.

Definition tp_earlier : TcBotEvent := ev_with_size_price (f_of_Z 5) (f_of_Z 3) tp_event.

Definition demo_estore (recorded : bool) : EngineStore := {|
  ListVenuesForBot := λ _, Ok [venue_hl; venue_b];
  ListEventsForOrder := λ _ _ id,
    Ok (if id =? 2 then [mkBotEvent 1 tp_earlier; mkBotEvent 2 tp_event]
        else [mkBotEvent 3 buy_event]);
  ResolveDefaultAlias := Err ErrNoRows;
  RecordThreeCommasBotEventLog := λ i _ _, Ok (Z.of_nat i);
  RecordThreeCommasBotEvent := λ i _ _,
    if recorded then Err ErrNoRows else Ok (1 + Z.of_nat i) |}.

Lemma order_targets_witness :
  FairRange list_range ∧
  (assigned tp_oid venue_b ∈
     resolveOrderTargets tp_oid [venue_hl; venue_b] [assigned tp_oid venue_hl] ActionCreate None ↔
   (assigned tp_oid venue_b ∈ (assigned tp_oid <$> [venue_hl; venue_b]) ∧
    assigned tp_oid venue_b ∉ [assigned tp_oid venue_hl]) ∨
   ([venue_hl; venue_b] = [] ∧ [assigned tp_oid venue_hl] = [] ∧
    ∃ a, None = Some a ∧ assigned tp_oid venue_b = assigned tp_oid a)).
Proof.
  split; [exact list_range_fair|].
  exact (proj1 (order_targets tp_oid [venue_hl; venue_b] [assigned tp_oid venue_hl] None)
           (assigned tp_oid venue_b)).
Defined.

(** The take profit is at one venue of two: it is replayed at the other. *)
Definition tp_snapshot : FillTracker.DealSnapshot := demo_snapshot.
Definition tp_plan : list emissionPlan :=
  match plan_order (estore := demo_estore false) "DOGE" tp_oid (Some tp_snapshot) with
  | Ok l => l
  | Err _ => []
  end.

Example tp_plan_targets :
  (λ em, (ac_Type (ep_action em), oi_VenueID <$> ep_targets em, ep_skipExisting em)) <$> tp_plan =
  [(ActionModify, ["hl"], false); (ActionCreate, ["b"], true)].
Proof. vm_compute. reflexivity. Qed.

Lemma planned_targets_witness :
  plan_order (estore := demo_estore false) "DOGE" tp_oid (Some tp_snapshot) = Ok tp_plan ∧
  ∀ em i, em ∈ tp_plan → i ∈ ep_targets em → ac_Type (ep_action em) ≠ ActionNone.
Proof.
  assert (H : plan_order (estore := demo_estore false) "DOGE" tp_oid (Some tp_snapshot) = Ok tp_plan)
    by (vm_compute; reflexivity).
  split; [exact H|]. intros em i Hem Hi.
  exact (proj1 (proj2 (proj2 (planned_targets (estore := demo_estore false) "DOGE" tp_oid
    (Some tp_snapshot) tp_plan H em i Hem Hi)))).
Defined.

(** A scaler that leaves sizes alone but for the venue's step of one unit. *)
Definition unit_constraints : CoinConstraints := mkConstraints "DOGE" 0 fone 5 fone.
Definition demo_effective (oid : OrderId.OrderId) : EffectiveOrderScaler :=
  mkEffective oid fone OrderScalerSourceDefault (mkScalerState fone 0 "me" None) None.
Definition demo_audit (p : RecordScaledOrderParams) (oid : OrderId.OrderId) : ScaledOrderAudit :=
  mkAudit "hl" "0xabc" oid (rp_DealID p) (rp_BotID p) (rp_OriginalSize p) (rp_ScaledSize p)
    fone fzero (rp_StackIndex p) (rp_OrderSide p) "me" (rp_CreatedAt p) None (rp_Skipped p)
    (rp_SkipReason p).
#[local] Instance demo_sstore : OrderScaler.ScalerStore := {|
  OrderScaler.ResolveEffectiveOrderScaler := λ oid, Ok (demo_effective oid);
  OrderScaler.RecordScaledOrder := λ p, Ok (demo_audit p tp_oid, demo_effective tp_oid);
  OrderScaler.ListTakeProfitStackSizes := λ _ _, Ok [] |}.
#[local] Instance demo_constr : OrderScaler.Constraints := λ _, Ok unit_constraints.

Definition demo_engine : Engine := mkEngine true (Some OrderScaler.New).
Definition deal_key : WorkKey := mkWorkKey 11 7.
Definition demo_st : state := mkState (FillTracker.wd_svc after_restart) [] [].

Lemma replayed_deal_silent_witness :
  FairRange list_range ∧
  (∀ j oid ev, @RecordThreeCommasBotEvent (demo_estore true) j oid ev = Err ErrNoRows) ∧
  processDeal (estore := demo_estore true) demo_engine (14 * second) deal_key "DOGE"
    [buy_event; tp_event] demo_st = (Ok tt, demo_st).
Proof.
  split; [exact list_range_fair|]. split; [reflexivity|].
  refine (replayed_deal_silent (estore := demo_estore true) demo_engine (14 * second) deal_key "DOGE"
    [buy_event; tp_event] demo_st _ _); [reflexivity|]. intros j oid ev. left. reflexivity.
Defined.

Lemma tracked_size_overwritten_witness :
  en_scaler demo_engine = Some OrderScaler.New ∧
  (applyScaling demo_engine tp_ident (Some (mkBotEvent 2 tp_event))
     (sized (f_of_Z 7) (action_create zero_create ""))).1 =
  (applyScaling demo_engine tp_ident (Some (mkBotEvent 2 tp_event))
     (sized (f_of_Z 5) (action_create zero_create ""))).1.
Proof.
  split; [reflexivity|].
  pose proof (tracked_size_overwritten demo_engine OrderScaler.New tp_ident (mkBotEvent 2 tp_event)
    (action_create zero_create "") (f_of_Z 7) (f_of_Z 5) eq_refl eq_refl
    ltac:(vm_compute; reflexivity)) as H.
  revert H. destruct (applyScaling _ _ _ (sized (f_of_Z 7) _)).1,
    (applyScaling _ _ _ (sized (f_of_Z 5) _)).1; intros H; try destruct H; reflexivity.
Defined.

(** The buy is at one venue, its only event is active, and a venue was added. *)
Definition buy_action : Action :=
  BuildAction "DOGE" None (mkBotEvent 3 buy_event) buy_oid.

Lemma replay_duplicates_create_witness :
  ∃ em1 em2, plan_order (estore := demo_estore false) "DOGE" buy_oid None = Ok [em1; em2] ∧
    ac_Type (ep_action em1) = ActionCreate ∧ ac_Type (ep_action em2) = ActionCreate ∧
    ∀ i, i ∈ missingAssignmentTargets buy_oid [venue_hl; venue_b]
           (normalizeSubmissionIdentifiers [venue_hl; venue_b] [buy_ident]) →
      i ∈ ep_targets em1 ∧ i ∈ ep_targets em2.
Proof.
  refine (replay_duplicates_create (estore := demo_estore false) "DOGE" buy_oid None buy_action
    (mkBotEvent 3 buy_event) _ _ _ _ _ _).
  - vm_compute. discriminate.
  - vm_compute. discriminate.
  - vm_compute. reflexivity.
  - vm_compute. reflexivity.
  - reflexivity.
  - vm_compute. discriminate.
Defined.

(** A deal processed as a whole: the position is 7, the take profit is scaled to the
    5 of its event. *)
Definition processed : result engine_error unit * state :=
  processDeal (estore := demo_estore false) demo_engine (14 * second) deal_key "DOGE"
    [mkTcBotEvent (6 * second) "Place" "DOGE" "SELL" "Active" (f_of_Z 4) (f_of_Z 5) "Take Profit"
       1 2 false] demo_st.

Example processed_sizes :
  processed.1 = Ok tt ∧
  FillTracker.NetQty (FillTracker.ds_position demo_deal) = f_of_Z 7 ∧
  (λ w, (ac_Type (ow_Action w), co_Size (mo_Order (ac_Modify (ow_Action w))))) <$>
    take 1 (st_emitted processed.2) = [(ActionModify, f_of_Z 5)].
Proof. split_and!; vm_compute; reflexivity. Qed.

End EngineDemo.
