(* ===== verification/Workflows.v ===== *)
(** * The limiter as its workflows use it

    A workflow's trace of limiter calls ([Engine.lcall]) runs against the limiter
    interleaved with the steps of the other workflows.  What the workflow sees is
    a counter of its own: the abstract run [spec_run], which the limiter
    implements for every interleaving.  The traces of [HandleDeal] and
    [ProduceActiveDeals] are then evaluated on the counter. *)

From S2P Require Import Prelude Domain RateLimit RateLimitFacts Engine.
Import Domain RateLimit RateLimitFacts.

Module Workflows.
Import Engine.

(** ** Running a trace against the limiter *)

(** One call: whether it succeeded.  A request goes through the rate-limited
    client, which consumes a slot or refuses. *)
Definition perform (clk : nat → Z) (c : lcall) (l : Limiter) : bool * Limiter :=
  match c with
  | LReserve wf n =>
    match Reserve wf n clk l with
    | (Granted, l) => (true, l)
    | (_, l) => (false, l)
    end
  | LCall wf method =>
    let '(r, l, _) := limited (λ _ : unit, tt) method (WithWorkflowID wf None) tt (clk 0%nat) l in
    (is_ok r, l)
  | LAdjustDown wf n => let '(r, l) := AdjustDown wf n clk l in (is_ok r, l)
  | LSignalComplete wf => let '(r, l) := SignalComplete wf clk l in (is_ok r, l)
  | LRelease wf => let '(r, l) := Release wf clk l in (is_ok r, l)
  end.

(** A step of another workflow, of the watcher or of a caller that gives up.
    No workflow of the program calls [Extend]. *)
Definition foreign (wf : string) (a : action) : bool :=
  match a with
  | AReserve w _ _ | AConsume w _ | AAdjustDown w _ _ | ASignalComplete w _ | ARelease w _ =>
    negb (String.eqb w wf)
  | AExtend _ _ _ | AExtendRetry _ _ => false
  | _ => true
  end.

(** The workflow's calls in order, each at its own clock, with any number of
    foreign steps before, between and after them. *)
Inductive interleaved (wf : string) : list lcall → Limiter → list bool → Limiter → Prop :=
| il_done l : interleaved wf [] l [] l
| il_foreign cs outs a s s' l' :
    foreign wf a = true → step a s = Some s' →
    interleaved wf cs (lim s') outs l' → interleaved wf cs (lim s) outs l'
| il_call c cs outs clk b l l1 l' :
    perform clk c l = (b, l1) →
    interleaved wf cs l1 outs l' → interleaved wf (c :: cs) l (b :: outs) l'.

(** A step that is not the workflow's own caller giving up, either. *)
Definition gives_up (wf : string) (a : action) (s : Sys) : bool :=
  match a with ACancel ch => bool_decide (blocked s !! ch = Some wf) | _ => false end.

Definition others (wf : string) (l l' : Limiter) : Prop :=
  ∃ a s s', lim s = l ∧ lim s' = l' ∧ foreign wf a = true ∧ gives_up wf a s = false ∧
    step a s = Some s'.

(** How [Reserve] ends for its caller, and the limiter then: granted at once;
    woken, when the others' steps have closed its channel; or given up, the
    context ending while the request still stands in the line.  A context that
    ends when the channel is already closed is [cancelled_grant_leaks]. *)
Inductive reserve_ends (wf : string) (n : Z) (clk : nat → Z) (l0 : Limiter)
    : bool → Limiter → Prop :=
| ends_at_once l : Reserve wf n clk l0 = (Granted, l) → reserve_ends wf n clk l0 true l
| ends_woken ch l1 l :
    Reserve wf n clk l0 = (Queued ch, l1) → rtc (others wf) l1 l → ch ∈ closed l →
    reserve_ends wf n clk l0 true l
| ends_given_up ch l1 l :
    Reserve wf n clk l0 = (Queued ch, l1) → rtc (others wf) l1 l → ch ∉ closed l →
    reserve_ends wf n clk l0 false (ReserveCancelled wf l).2.

(** The channels made so far; so it is in every run ([run_channels_ok]). *)
Definition channels_ok (l : Limiter) : Prop :=
  (∀ ch, ch ∈ closed l → (ch < nextChan l)%nat) ∧
  (∀ w, w ∈ waitQueue l → (ready w < nextChan l)%nat).

(** ** The counter a workflow sees *)

Definition own (wf : string) (c : lcall) : bool :=
  match c with
  | LReserve _ _ => false
  | LCall w _ | LAdjustDown w _ | LSignalComplete w | LRelease w => String.eqb w wf
  end.

(** The slots reserved and consumed, while the workflow holds a reservation. *)
Definition spec_call (c : lcall) (o : option (Z * Z)) : bool * option (Z * Z) :=
  match c, o with
  | LCall _ _, Some (r, u) => if u <? r then (true, Some (r, u + 1)) else (false, o)
  | LAdjustDown _ n, Some (r, u) => if n <? u then (false, o) else (true, Some (Z.min r n, u))
  | LSignalComplete _, Some _ => (true, o)
  | LRelease _, Some _ => (true, None)
  | _, _ => (false, o)
  end.

Fixpoint spec_run (cs : list lcall) (o : option (Z * Z)) : list bool * option (Z * Z) :=
  match cs with
  | [] => ([], o)
  | c :: cs =>
    let '(b, o) := spec_call c o in
    let '(bs, o) := spec_run cs o in
    (b :: bs, o)
  end.

Definition sizes (r : reservation) : Z * Z := (slotsReserved r, slotsConsumed r).

Record holds (wf : string) (o : option (Z * Z)) (l : Limiter) : Prop := {
  h_heap : heap_ok l;
  h_own : sizes <$> reservations l !! wf = o;
  h_sane : ∀ r u, o = Some (r, u) → 0 ≤ u ∧ r ≤ max_request;
  h_queue : wf ∉ (w_workflowID <$> waitQueue l);
}.

(** The workflow's request stands in the line, with the channel it waits on. *)
Record stands (wf : string) (n : Z) (ch : nat) (l : Limiter) : Prop := {
  st_heap : heap_ok l;
  st_none : reservations l !! wf = None;
  st_open : ch ∉ closed l;
  st_made : (ch < nextChan l)%nat;
  st_line : ∃ q1 w q2, waitQueue l = q1 ++ w :: q2 ∧
    w_workflowID w = wf ∧ requestedSlots w = n ∧ ready w = ch ∧
    wf ∉ w_workflowID <$> (q1 ++ q2) ∧ ch ∉ ready <$> (q1 ++ q2);
}.

(** The request has been granted and its channel is closed. *)
Definition called (wf : string) (n : Z) (ch : nat) (l : Limiter) : Prop :=
  holds wf (Some (n, 0)) l ∧ ch ∈ closed l.

(** A change that leaves the workflow's reservation and the line alone. *)
Record spares (wf : string) (l l' : Limiter) : Prop := {
  sp_heap : heap_ok l';
  sp_own : reservations l' !! wf = reservations l !! wf;
  sp_queue : waitQueue l' = waitQueue l;
  sp_closed : closed l' = closed l;
  sp_chan : nextChan l' = nextChan l;
}.

(** What a step of the others amounts to. *)
Inductive foreign_shape (wf : string) (l : Limiter) : bool → Limiter → Prop :=
| fs_spares b l' : spares wf l l' → foreign_shape wf l b l'
| fs_grants b clk l' : spares wf l l' → foreign_shape wf l b (tryGrantWaiting clk l').1
| fs_joins b k n now l' : spares wf l l' → k ≠ wf →
    foreign_shape wf l b
      (set_queue (waitQueue l' ++ [mkWaiting k n now (nextChan l')]) (closed l')
         (S (nextChan l')) l')
| fs_leaves b k : (b = false → k ≠ wf) → foreign_shape wf l b (removeFromQueue k l).

(** ** The limiter implements the counter *)

Lemma holds_same wf o l l' :
  holds wf o l → heap_ok l' → reservations l' !! wf = reservations l !! wf →
  wf ∉ (w_workflowID <$> waitQueue l') → holds wf o l'.
Proof. intros [Hh Ho Hs Hq] Hh' Hr Hq'. split; [done|by rewrite Hr|done|done]. Qed.

Lemma holds_tryGrant wf o clk l : holds wf o l → holds wf o (tryGrantWaiting clk l).1.
Proof.
  intros H. destruct (tryGrantWaiting clk l) as [l' n] eqn:E.
  destruct (tryGrantFuel_drained _ 0 clk l l' n (le_n _) (h_heap _ _ _ H) E)
    as (g & _ & D & _). simpl.
  pose proof (h_queue _ _ _ H) as Hq. rewrite (dr_queue _ _ _ D), fmap_app, not_elem_of_app in Hq.
  destruct Hq as [Hg Hq]. eapply holds_same; [done|apply D|by apply D|done].
Qed.

Lemma holds_reset wf o now l : holds wf o l → holds wf o (resetWindowIfNeeded now l).1.
Proof.
  intros H. destruct (reset_frame now l) as (Hv&_&_&Hq&_).
  eapply holds_same; [done|by apply heap_ok_reset, H|by rewrite Hv|rewrite Hq; apply H].
Qed.

Lemma holds_object_own wf o p r r' l :
  holds wf o l → lookup_reservation wf l = Some (p, r) →
  (0 ≤ slotsConsumed r' ∧ slotsReserved r' ≤ max_request) →
  holds wf (Some (sizes r')) (set_object p r' l).
Proof.
  intros H [Hk Hp]%lookup_reservation_view Hs. pose proof (h_heap _ _ _ H) as Hh. split.
  - by eapply heap_ok_set_object.
  - rewrite (reservations_set_object wf p r) by done. by rewrite lookup_insert_eq.
  - unfold sizes. intros ? ? [= <- <-]. done.
  - apply H.
Qed.

Lemma holds_delete wf k o l :
  holds wf o l →
  holds wf (if decide (k = wf) then None else o)
    (set_reservations (delete k (activeReservations l)) (objects l) (nextObject l) l).
Proof.
  intros H. split.
  - by apply heap_ok_delete, H.
  - rewrite reservations_delete, lookup_delete. case_decide; [done|apply H].
  - case_decide; [done|apply H].
  - apply H.
Qed.

Lemma holds_queue wf o q c n l :
  holds wf o l → wf ∉ (w_workflowID <$> q) → holds wf o (set_queue q c n l).
Proof.
  intros H Hq. eapply holds_same; [done| |done|done].
  eapply heap_ok_frame; [apply H|done..].
Qed.

Lemma holds_lookup wf o l :
  holds wf o l →
  (lookup_reservation wf l = None ∧ o = None) ∨
  (∃ p r, lookup_reservation wf l = Some (p, r) ∧ o = Some (sizes r)).
Proof.
  intros [_ Ho _ _]. destruct (lookup_reservation wf l) as [[p r]|] eqn:E.
  - right. exists p, r. split; [done|]. apply lookup_reservation_view in E.
    assert (reservations l !! wf = Some r) as Hr by (apply reservations_lookup; eauto).
    by rewrite Hr in Ho.
  - left. split; [done|]. destruct (reservations l !! wf) as [r|] eqn:Hr; [|by rewrite <- Ho].
    apply reservations_lookup in Hr as (p & Hp).
    apply lookup_reservation_view in Hp. congruence.
Qed.

(** *** The steps of the others *)

Create HintDb workflows.

Lemma spares_same wf l : heap_ok l → spares wf l l.
Proof. by split. Qed.

Lemma spares_trans wf l1 l2 l3 : spares wf l1 l2 → spares wf l2 l3 → spares wf l1 l3.
Proof. intros [] []. split; congruence. Qed.

Lemma spares_reset wf now l : heap_ok l → spares wf l (resetWindowIfNeeded now l).1.
Proof.
  intros Hh. destruct (reset_frame now l) as (Hv&_&_&?&?&?&_).
  split; [by apply heap_ok_reset|by rewrite Hv|done..].
Qed.

Lemma spares_object wf k p r r' l :
  heap_ok l → k ≠ wf → lookup_reservation k l = Some (p, r) → spares wf l (set_object p r' l).
Proof.
  intros Hh Hne [Hk Hp]%lookup_reservation_view. split; try done.
  - by eapply heap_ok_set_object.
  - rewrite (reservations_set_object k p r) by done. by rewrite lookup_insert_ne.
Qed.

Lemma spares_store wf k n now l : heap_ok l → k ≠ wf → spares wf l (store_reservation k n now l).
Proof.
  intros Hh Hne. split; try done; [by apply heap_ok_store|].
  rewrite reservations_store by done. by rewrite lookup_insert_ne.
Qed.

Lemma spares_delete wf k l :
  heap_ok l → k ≠ wf →
  spares wf l (set_reservations (delete k (activeReservations l)) (objects l) (nextObject l) l).
Proof.
  intros Hh Hne. split; try done; [by apply heap_ok_delete|].
  by rewrite reservations_delete, lookup_delete_ne.
Qed.

Lemma spares_window wf start c l : heap_ok l → spares wf l (set_window start c l).
Proof. intros Hh. split; try done. by eapply heap_ok_frame. Qed.

Lemma spares_use wf k now p r r' c l :
  heap_ok l → k ≠ wf → lookup_reservation k l = Some (p, r) →
  spares wf l (set_object p r' (set_consumed c (resetWindowIfNeeded now l).1)).
Proof.
  intros Hh Hne Hk. pose proof (spares_reset wf now l Hh) as H1.
  pose proof (spares_window wf (windowStart (resetWindowIfNeeded now l).1) c _
                (sp_heap _ _ _ H1)) as H2.
  eapply spares_trans; [exact H1|]. eapply spares_trans; [exact H2|].
  eapply (spares_object wf k p r); [apply H2|done|].
  destruct (reset_frame now l) as (_&Ha&Hob&_).
  unfold lookup_reservation in *. simpl. rewrite Ha, Hob. exact Hk.
Qed.

#[local] Hint Resolve spares_same spares_reset spares_object spares_store spares_delete
  spares_use : workflows.
#[local] Hint Constructors foreign_shape : workflows.

Lemma foreign_step wf a s s' :
  foreign wf a = true → step a s = Some s' → heap_ok (lim s) →
  foreign_shape wf (lim s) (gives_up wf a s) (lim s').
Proof.
  intros Hf Hs H. destruct a as [w n clk|ch|ch|w now|w n clk|w n now|i now|i|w clk|w clk|now|now clk|];
    cbn [foreign step] in *; try discriminate;
    try (apply negb_true_iff, String.eqb_neq in Hf).
  - unfold Reserve in Hs.
    destruct (String.eqb w ""); [simplify_eq; auto with workflows|].
    destruct (n <=? 0); [simplify_eq; auto with workflows|].
    destruct (activeReservations (lim s) !! w); [simplify_eq; auto with workflows|].
    pose proof (spares_reset wf (clk 0%nat) _ H) as H1.
    destruct (fits _ _ _); simplify_eq; cbn [lim with_lim]; [|by apply fs_joins].
    apply fs_spares. eapply spares_trans; [exact H1|]. by apply spares_store, Hf; apply H1.
  - destruct (blocked s !! ch); [|done]. case_decide; simplify_eq; auto with workflows.
  - destruct (blocked s !! ch) as [k|] eqn:Hb; simplify_eq. cbn [lim gives_up]. apply fs_leaves.
    rewrite Hb. intros Hk%bool_decide_eq_false_1. congruence.
  - simplify_eq. cbn [lim with_lim]. unfold Consume, ConsumeWithOperation.
    destruct (String.eqb w ""); [auto with workflows|].
    destruct (lookup_reservation w _) as [[p r]|] eqn:E; [|auto with workflows].
    destruct (_ <=? _); [auto with workflows|]. cbn [snd]. eauto with workflows.
  - simplify_eq. cbn [lim with_lim]. unfold AdjustDown.
    destruct (String.eqb w ""); [auto with workflows|].
    destruct (lookup_reservation w _) as [[p r]|] eqn:E; [|auto with workflows].
    destruct (_ <? _); [auto with workflows|]. destruct (_ <=? _); [auto with workflows|].
    cbn [snd]. eauto with workflows.
  - destruct (extending s !! i); simplify_eq; auto with workflows.
  - simplify_eq. cbn [lim with_lim]. unfold SignalComplete.
    destruct (String.eqb w ""); [auto with workflows|].
    destruct (lookup_reservation w _) as [[p r]|] eqn:E; [|auto with workflows].
    cbn [snd]. eauto with workflows.
  - simplify_eq. cbn [lim with_lim]. unfold Release.
    destruct (String.eqb w ""); [auto with workflows|].
    destruct (lookup_reservation w _) as [[p r]|] eqn:E; [|auto with workflows].
    cbn [snd]. auto with workflows.
  - simplify_eq. cbn [lim with_lim]. unfold Stats. cbn [snd]. auto with workflows.
  - destruct (stopped (lim s)); simplify_eq. cbn [lim with_lim]. unfold windowResetWatcher_tick.
    destruct (waitQueue (lim s)); [auto with workflows|].
    pose proof (spares_reset wf now _ H) as Hr.
    destruct (resetWindowIfNeeded now (lim s)) as [l1 []]; cbn [fst] in Hr; auto with workflows.
  - unfold Stop in Hs. destruct (stopped (lim s)); [done|]. simpl in Hs. simplify_eq.
    cbn [lim with_lim]. apply fs_spares. split; try done. by eapply heap_ok_frame.
Qed.

Lemma holds_spares wf o l l' : holds wf o l → spares wf l l' → holds wf o l'.
Proof.
  intros H [Hh Hr Hq _ _]. eapply holds_same; [done..|]. rewrite Hq. apply H.
Qed.

Lemma shape_closed wf l b l' : foreign_shape wf l b l' → closed l ⊆ closed l'.
Proof.
  intros [b1 l1 []|b1 clk l1 []|b1 k n now l1 [] ?|b1 k ?]; simpl.
  - by rewrite sp_closed0.
  - destruct (advances_tryGrantWaiting clk l1) as (g & _ & -> & _). rewrite sp_closed0. set_solver.
  - by rewrite sp_closed0.
  - done.
Qed.

(** The steps of the others leave the counter alone. *)
Lemma holds_foreign wf o a s s' :
  foreign wf a = true → step a s = Some s' → holds wf o (lim s) → holds wf o (lim s').
Proof.
  intros Hf Hs H. destruct (foreign_step wf a s s' Hf Hs (h_heap _ _ _ H))
    as [b l' Hl|b clk l' Hl|b k n now l' Hl Hk|b k Hk].
  - by eapply holds_spares.
  - by eapply holds_tryGrant, holds_spares.
  - pose proof (holds_spares _ _ _ _ H Hl) as H1. apply holds_queue; [done|].
    rewrite fmap_app, not_elem_of_app. split; [apply H1|].
    intros Hin. apply list_elem_of_singleton in Hin. by apply Hk.
  - apply holds_queue; [done|].
    intros (x & Hx & Hin)%list_elem_of_fmap. apply removeFirst_elem in Hin.
    apply (h_queue _ _ _ H). apply list_elem_of_fmap. eauto.
Qed.

(** *** Waiting in the line *)

Lemma stands_spares wf n ch l l' : stands wf n ch l → spares wf l l' → stands wf n ch l'.
Proof. intros [] []. split; rewrite ?sp_own0, ?sp_queue0, ?sp_closed0, ?sp_chan0; done. Qed.

(** A pass over the queue either leaves the request standing or grants it. *)
Lemma stands_grants wf n ch clk l :
  stands wf n ch l → n ≤ max_request →
  stands wf n ch (tryGrantWaiting clk l).1 ∨ called wf n ch (tryGrantWaiting clk l).1.
Proof.
  intros [Hh Hno Hop Hm (q1 & w & q2 & Hq & <- & <- & <- & Hw & Hc)] Hn.
  destruct (tryGrantWaiting clk l) as [l' m] eqn:E.
  destruct (tryGrantFuel_drained _ 0 clk l l' m (le_n _) Hh E) as (g & _ & D & Hnc). simpl.
  pose proof (dr_queue _ _ _ D) as Hg. rewrite Hq in Hg.
  rewrite fmap_app, not_elem_of_app in Hw. rewrite fmap_app, not_elem_of_app in Hc.
  assert (Hstand : ∀ k, q1 = g ++ k → waitQueue l' = k ++ w :: q2 →
    stands (w_workflowID w) (requestedSlots w) (ready w) l').
  { intros k -> Hq'. rewrite fmap_app, not_elem_of_app in Hw. rewrite fmap_app, not_elem_of_app in Hc.
    split.
    - apply D.
    - by rewrite (dr_other _ _ _ D) by naive_solver.
    - rewrite (dr_closed _ _ _ D), not_elem_of_union, elem_of_list_to_set. naive_solver.
    - by rewrite Hnc.
    - exists k, w, q2. rewrite !fmap_app, !not_elem_of_app. naive_solver. }
  apply app_eq_inv in Hg as [(k & Hk & Hq')|(k & Hk & Hq')]; [by left; apply (Hstand k)|].
  destruct k as [|x k]; simplify_eq/=.
  { left. apply (Hstand []); [by rewrite !app_nil_r|done]. }
  right. rewrite fmap_app, not_elem_of_app in Hw. split.
  2:{ rewrite (dr_closed _ _ _ D), elem_of_union, elem_of_list_to_set, fmap_app, elem_of_app.
      left. right. by left. }
  split.
  - apply D.
  - destruct (dr_granted _ _ _ D (w_workflowID x)) as (y & r & Hy & Hid & -> & Hr & Hu).
    { apply list_elem_of_fmap. exists x. split; [done|]. rewrite elem_of_app, elem_of_cons. auto. }
    simpl. unfold sizes. rewrite Hr, Hu. do 3 f_equal.
    rewrite elem_of_app, elem_of_cons in Hy.
    destruct Hy as [Hy|[-> |Hy]]; [|done|]; exfalso;
      apply (list_elem_of_fmap_2 w_workflowID) in Hy; rewrite Hid in Hy; naive_solver.
  - intros r u [= <- <-]. lia.
  - naive_solver.
Qed.

Lemma elem_of_fmap_sub {A B} (f : A → B) (l l' : list A) x : l ⊆ l' → x ∈ f <$> l → x ∈ f <$> l'.
Proof. intros Hs (y & -> & Hy)%list_elem_of_fmap. by apply list_elem_of_fmap_2, Hs. Qed.

Lemma removeFirst_split k q1 w q2 :
  k ≠ w_workflowID w →
  ∃ q1' q2', removeFirst k (q1 ++ w :: q2) = q1' ++ w :: q2' ∧ q1' ++ q2' ⊆ q1 ++ q2.
Proof.
  intros Hk. induction q1 as [|x q1 (q1' & q2' & IH & Hs)]; simpl.
  - rewrite (proj2 (String.eqb_neq _ _)) by congruence. exists [], (removeFirst k q2).
    split; [done|]. intros y. apply removeFirst_elem.
  - destruct (String.eqb _ k); [exists q1, q2; split; [done|set_solver]|].
    rewrite IH. exists (x :: q1'), q2'. split; [done|set_solver].
Qed.

Lemma stands_others wf n ch l l' :
  stands wf n ch l → n ≤ max_request → others wf l l' →
  stands wf n ch l' ∨ called wf n ch l'.
Proof.
  intros H Hn (a & s & s' & <- & <- & Hf & Hg & Hs).
  pose proof (foreign_step wf a s s' Hf Hs (st_heap _ _ _ _ H)) as Hsh. rewrite Hg in Hsh.
  remember false as b. destruct Hsh as [b l' Hl|b clk l' Hl|b k m now l' Hl Hk|b k Hk]; subst b.
  - left. by eapply stands_spares.
  - apply stands_grants; [|done]. by eapply stands_spares.
  - left. destruct (stands_spares _ _ _ _ _ H Hl) as [Hh Hno Hop Hm (q1 & w & q2 & Hq & ? & ? & ? & Hw & Hc)].
    split; try done; simpl.
    + by eapply heap_ok_frame.
    + lia.
    + exists q1, w, (q2 ++ [mkWaiting k m now (nextChan l')]). rewrite Hq, <- (assoc_L (++)).
      split_and!; try done.
      * rewrite (assoc_L (++)), fmap_app, not_elem_of_app. split; [done|]. simpl.
        rewrite list_elem_of_singleton. congruence.
      * rewrite (assoc_L (++)), fmap_app, not_elem_of_app. split; [done|]. simpl.
        rewrite list_elem_of_singleton. lia.
  - left. destruct H as [Hh Hno Hop Hm (q1 & w & q2 & Hq & Hid & ? & ? & Hw & Hc)].
    split; try done; [by eapply heap_ok_frame|].
    destruct (removeFirst_split k q1 w q2) as (q1' & q2' & Hq' & Hsub); [rewrite Hid; auto|].
    exists q1', w, q2'. simpl. rewrite Hq, Hq'. split_and!; try done.
    + intros Hin. apply Hw. by eapply elem_of_fmap_sub.
    + intros Hin. apply Hc. by eapply elem_of_fmap_sub.
Qed.

Lemma called_others wf n ch l l' : called wf n ch l → rtc (others wf) l l' → called wf n ch l'.
Proof.
  intros [H Hc] Hr. induction Hr as [|l l1 l' (a & s & s' & <- & <- & Hf & _ & Hs) _ IH]; [done|].
  apply IH; [by eapply holds_foreign|].
  by apply (shape_closed _ _ _ _ (foreign_step wf a s s' Hf Hs (h_heap _ _ _ H))).
Qed.

Lemma stands_rtc wf n ch l l' :
  stands wf n ch l → n ≤ max_request → rtc (others wf) l l' →
  stands wf n ch l' ∨ called wf n ch l'.
Proof.
  intros H Hn Hr. induction Hr as [l|l l1 l' Hs Hr IH]; [by left|].
  destruct (stands_others wf n ch l l1 H Hn Hs) as [H1|H1]; [by apply IH|right].
  by eapply called_others.
Qed.

(** The workflow's own calls are those of the counter. *)
Lemma holds_call wf o clk m l :
  wf ≠ "" → holds wf o l →
  (perform clk (LCall wf m) l).1 = (spec_call (LCall wf m) o).1 ∧
  holds wf (spec_call (LCall wf m) o).2 (perform clk (LCall wf m) l).2.
Proof.
  intros Hne H. apply String.eqb_neq in Hne.
  unfold perform, limited, ConsumeWithOperation, WithWorkflowID, WorkflowIDFromContext. rewrite Hne.
  destruct (holds_lookup wf o l H) as [[-> ->]|(p & r & E & ->)]; [done|]. rewrite E.
  cbn [spec_call sizes].
  destruct (slotsReserved r <=? slotsConsumed r) eqn:Hc; z_bools.
  { replace (slotsConsumed r <? slotsReserved r) with false by lia. done. }
  replace (slotsConsumed r <? slotsReserved r) with true by lia. cbn [fst snd is_ok].
  split; [done|]. destruct (h_sane _ _ _ H _ _ eq_refl) as [H0 Hr].
  rewrite i64_id by (unfold max_request in *; lia).
  pose proof (holds_reset wf _ (clk 0%nat) _ H) as H1.
  destruct (reset_frame (clk 0%nat) l) as (_&Ha&Hob&_).
  set (l1 := (resetWindowIfNeeded _ l).1) in *.
  assert (H2 : holds wf (Some (sizes r)) (set_consumed (i64 (consumed l1 + 1)) l1)).
  { eapply holds_same; [exact H1| |done|apply H1]. eapply heap_ok_frame; [apply H1|done..]. }
  eapply (holds_object_own _ _ p r (with_consumed (slotsConsumed r + 1) r)) in H2; [exact H2| |].
  - unfold lookup_reservation in *. simpl. rewrite Ha, Hob. exact E.
  - simpl. lia.
Qed.

Lemma perform_spec wf o clk c l :
  wf ≠ "" → own wf c = true → holds wf o l →
  (perform clk c l).1 = (spec_call c o).1 ∧ holds wf (spec_call c o).2 (perform clk c l).2.
Proof.
  intros Hne Hown H. pose proof Hne as Hne'. apply String.eqb_neq in Hne'.
  destruct c as [w n|w m|w n|w|w]; cbn [own] in Hown; [done|apply String.eqb_eq in Hown as ->..].
  - by apply holds_call.
  - unfold perform, AdjustDown. rewrite Hne'.
    destruct (holds_lookup wf o l H) as [[-> ->]|(p & r & E & ->)]; [done|]. rewrite E.
    cbn [spec_call sizes]. destruct (h_sane _ _ _ H _ _ eq_refl) as [H0 Hr].
    destruct (n <? slotsConsumed r) eqn:Hn; [done|].
    destruct (slotsReserved r <=? n) eqn:Hr'; z_bools; cbn [fst snd is_ok]; (split; [done|]).
    + by rewrite Z.min_l by lia.
    + rewrite Z.min_r by lia. apply holds_tryGrant.
      eapply (holds_object_own _ _ p r (with_reserved n r)); [done|done|]. simpl. lia.
  - unfold perform, SignalComplete. rewrite Hne'.
    destruct (holds_lookup wf o l H) as [[-> ->]|(p & r & E & ->)]; [done|]. rewrite E.
    cbn [spec_call sizes fst snd is_ok]. split; [done|]. apply holds_tryGrant.
    eapply (holds_object_own _ _ p r (with_completed r)); [done|done|].
    by apply (h_sane _ _ _ H).
  - unfold perform, Release. rewrite Hne'.
    destruct (holds_lookup wf o l H) as [[-> ->]|(p & r & E & ->)]; [done|]. rewrite E.
    cbn [spec_call sizes fst snd is_ok]. split; [done|]. apply holds_tryGrant.
    pose proof (holds_delete wf wf _ _ H) as Hd. by rewrite decide_True in Hd by done.
Qed.

Lemma interleaved_spec wf cs l outs l' o :
  wf ≠ "" → Forall (λ c, own wf c = true) cs → interleaved wf cs l outs l' → holds wf o l →
  outs = (spec_run cs o).1 ∧ holds wf (spec_run cs o).2 l'.
Proof.
  intros Hne Hall Hi. revert o. induction Hi as [l|cs outs a s s' l' Hf Hs Hi IH|c cs outs clk b l l1 l' Hp Hi IH];
    intros o H.
  - done.
  - apply IH; [done|]. by eapply holds_foreign.
  - apply Forall_cons_1 in Hall as [Hc Hall].
    destruct (perform_spec wf o clk c l) as [Hb Ho]; [done..|].
    rewrite Hp in Hb, Ho. cbn [fst snd] in Hb, Ho. cbn [spec_run].
    destruct (spec_call c o) as [b' o']. cbn [fst snd] in *.
    destruct (IH Hall o' Ho) as [-> Hn]. destruct (spec_run cs o') as [bs o'']. simpl in *.
    by subst.
Qed.

(** A granted [Reserve] gives the workflow its counter. *)
Lemma Reserve_holds wf n clk l l' :
  heap_ok l → n ≤ max_request → wf ∉ (w_workflowID <$> waitQueue l) →
  Reserve wf n clk l = (Granted, l') → holds wf (Some (n, 0)) l'.
Proof.
  intros Hh Hn Hq. unfold Reserve.
  destruct (String.eqb wf ""); [done|]. destruct (n <=? 0); [done|].
  destruct (activeReservations l !! wf); [done|].
  destruct (fits _ _ _); intros; simplify_eq.
  destruct (reset_frame (clk 0%nat) l) as (_&_&_&Hwq&_).
  pose proof (heap_ok_reset (clk 0%nat) l Hh) as Hh1. split.
  - by apply heap_ok_store.
  - rewrite reservations_store by done. by rewrite lookup_insert_eq.
  - intros r u [= <- <-]. lia.
  - cbn. by rewrite Hwq.
Qed.

Lemma Reserve_stands wf n clk l ch l' :
  heap_ok l → channels_ok l → wf ∉ (w_workflowID <$> waitQueue l) →
  Reserve wf n clk l = (Queued ch, l') → stands wf n ch l'.
Proof.
  intros Hh [Hcl Hrd] Hq. unfold Reserve.
  destruct (String.eqb wf ""); [done|]. destruct (n <=? 0); [done|].
  destruct (activeReservations l !! wf) eqn:Ha; [done|].
  destruct (reset_frame (clk 0%nat) l) as (Hv&_&_&Hwq&Hc&Hnc&_).
  pose proof (heap_ok_reset (clk 0%nat) l Hh) as Hh1.
  destruct (fits _ _ _); intros; simplify_eq. split; simpl.
  - by eapply heap_ok_frame.
  - change (reservations (resetWindowIfNeeded (clk 0%nat) l).1 !! wf = None). rewrite Hv.
    unfold reservations, reservations_of. by rewrite lookup_omap, Ha.
  - rewrite Hc, Hnc. intros Hin%Hcl. lia.
  - lia.
  - rewrite Hwq, Hnc. eexists _, _, []. split; [done|]. rewrite app_nil_r. split_and!; try done.
    intros (w & Hw & Hin)%list_elem_of_fmap. apply Hrd in Hin. lia.
Qed.

Lemma stands_gone wf n ch l : stands wf n ch l → holds wf None (ReserveCancelled wf l).2.
Proof.
  intros [Hh Hno Hop Hm (q1 & w & q2 & Hq & <- & <- & <- & Hw & Hc)].
  rewrite fmap_app, not_elem_of_app in Hw. destruct Hw as [Hw1 Hw2].
  assert (Hrm : removeFirst (w_workflowID w) (q1 ++ w :: q2) = q1 ++ q2).
  { clear -Hw1. induction q1 as [|x q1 IH]; simpl; [by rewrite String.eqb_refl|].
    rewrite fmap_cons, not_elem_of_cons in Hw1.
    rewrite (proj2 (String.eqb_neq _ _)) by naive_solver. by rewrite IH by naive_solver. }
  split; simpl.
  - by eapply heap_ok_frame.
  - by apply fmap_None.
  - done.
  - rewrite Hq, Hrm, fmap_app, not_elem_of_app. done.
Qed.

Lemma channels_advance l l' : channels_ok l → advances l l' → channels_ok l'.
Proof.
  intros [Hc Hq] (g & Hg & Hcl & Hn).
  assert (Hin : ∀ w, w ∈ g ∨ w ∈ waitQueue l' → (ready w < nextChan l')%nat).
  { intros w Hw. rewrite Hn. apply Hq. rewrite Hg. by apply elem_of_app. }
  split; [|by auto]. intros ch. rewrite Hcl, elem_of_union, elem_of_list_to_set.
  intros [(w & -> & Hw)%list_elem_of_fmap|Hch]; [by auto|rewrite Hn; auto].
Qed.

Lemma step_channels_ok a s s' : step a s = Some s' → channels_ok (lim s) → channels_ok (lim s').
Proof.
  intros Hs H. destruct a; cbn [step] in Hs;
    try (repeat case_match; simplify_eq; cbn [lim with_lim];
         (done || (eapply channels_advance; [exact H|]; eauto with limiter)); fail).
  - unfold Reserve in Hs. pose proof (channels_advance _ _ H (advances_reset (clk 0%nat) (lim s))) as H1.
    destruct (String.eqb wf ""), (count <=? 0); try by simplify_eq.
    destruct (activeReservations (lim s) !! wf); [by simplify_eq|].
    destruct (fits _ _ _); simplify_eq; cbn [lim with_lim]; [exact H1|].
    destruct H1 as [Hc Hq]. split; simpl; [intros ch Hch%Hc; lia|].
    intros w. rewrite elem_of_app, list_elem_of_singleton. intros [Hw%Hq| ->]; simpl; lia.
  - destruct (blocked s !! ch); simplify_eq. destruct H as [Hc Hq]. split; [done|].
    intros w Hw%removeFirst_elem. auto.
  - destruct (Extend wf additional now (lim s)) as [o l] eqn:E.
    assert (channels_ok l) by (eapply channels_advance; [exact H|];
      change l with (o, l).2; rewrite <- E; auto with limiter).
    by destruct o; simplify_eq.
  - simplify_eq. eapply channels_advance; [exact H|]. apply advances_reset.
  - destruct (Stop (lim s)) as [l|] eqn:E; simplify_eq/=. eapply channels_advance; [exact H|].
    by apply advances_Stop.
Qed.

(** Every limiter of a run knows the channels it made. *)
Lemma run_channels_ok acts : ∀ s s', run acts s = Some s' → channels_ok (lim s) → channels_ok (lim s').
Proof.
  induction acts as [|a acts IH]; intros s s' Hr H; simplify_eq/=; [done|].
  destruct (step a s) as [s1|] eqn:Hs; simplify_eq/=. eapply IH; [done|]. by eapply step_channels_ok.
Qed.

(** However [Reserve] ends, the workflow knows what it holds. *)
Lemma reserve_ends_holds wf n clk l0 b l :
  heap_ok l0 → channels_ok l0 → n ≤ max_request → wf ∉ (w_workflowID <$> waitQueue l0) →
  reserve_ends wf n clk l0 b l → holds wf (if b then Some (n, 0) else None) l.
Proof.
  intros Hh Hch Hn Hq [l' Hr|ch l1 l' Hr Ho Hc|ch l1 l' Hr Ho Hc];
    [by eapply Reserve_holds|..];
    (destruct (stands_rtc wf n ch l1 l') as [H|[H ?]];
     [by eapply Reserve_stands|done|done|..]); try done.
  - by destruct (st_open _ _ _ _ H).
  - by eapply stands_gone.
Qed.

(** ** The workflows of the engine *)

Fixpoint requests (cs : list lcall) : nat :=
  match cs with
  | [] => 0
  | LCall _ _ :: cs => S (requests cs)
  | _ :: cs => requests cs
  end.

Lemma deal_workflow_nonempty wi : deal_workflow wi ≠ "".
Proof. done. Qed.

(** C8.  The limiter implements the counter of a workflow: whatever the other workflows,
    the watcher and the cancelled callers do between its calls, each call of a
    workflow that holds [r] slots and has used [u] succeeds exactly when the
    counter says so, and the reservation ends as the counter does. *)
Theorem workflow_counter wf cs l outs l' o :
  wf ≠ "" → Forall (λ c, own wf c = true) cs → holds wf o l → interleaved wf cs l outs l' →
  outs = (spec_run cs o).1 ∧ sizes <$> reservations l' !! wf = (spec_run cs o).2.
Proof.
  intros Hne Hall H Hi. destruct (interleaved_spec _ _ _ _ _ _ Hne Hall Hi H) as [? H'].
  split; [done|]. apply H'.
Qed.

(** C11.  [HandleDeal] keeps the reservation protocol, whatever the other workflows,
    the watcher and the cancelled callers do before, between and after its calls.
    Once its [Reserve] of two slots is granted, at once or after any wait in the
    line, it makes one request, none of its limiter calls fails, and it leaves
    neither a reservation nor a place in the line behind, whether the deal is
    missing, processed or fails to process.  When its context ends while the
    request still stands in the line it makes no request, reports the error, and
    leaves nothing behind either.  (A context that ends after the grant and
    before the caller has looked does leave the reservation:
    [RateLimitFacts.cancelled_grant_leaks].) *)
Theorem handle_deal_protocol {A} wi (granted : bool) deal
    (process : TcDeal → result engine_error A) r calls clk l0 l outs l' :
  wk_DealID wi ≠ 0 → HandleDeal true wi granted deal process = (r, calls) →
  heap_ok l0 → channels_ok l0 → deal_workflow wi ∉ (w_workflowID <$> waitQueue l0) →
  reserve_ends (deal_workflow wi) 2 clk l0 granted l →
  interleaved (deal_workflow wi) (tail calls) l outs l' →
  requests calls = (if granted then 1 else 0)%nat ∧ Forall (λ b, b = true) outs ∧
  reservations l' !! deal_workflow wi = None ∧
  deal_workflow wi ∉ (w_workflowID <$> waitQueue l') ∧
  r ≠ Ok None ∧ (granted = false → r = Err ErrReserve).
Proof.
  intros Hd Hc Hh Hch Hq Hr Hi. unfold HandleDeal in Hc.
  destruct (wk_DealID wi =? 0) eqn:E; [z_bools; done|]. clear E Hd.
  apply reserve_ends_holds in Hr; [|done..|by unfold max_request; lia|done].
  set (wf := deal_workflow wi) in *. set (o := if granted then Some (2, 0) else None) in *.
  assert (Hs : Forall (λ c, own wf c = true) (tail calls) ∧
    requests calls = (if granted then 1 else 0)%nat ∧
    Forall (λ b, b = true) (spec_run (tail calls) o).1 ∧
    (spec_run (tail calls) o).2 = None ∧ r ≠ Ok None ∧ (granted = false → r = Err ErrReserve)).
  { unfold o. destruct granted; cbn [andb negb] in Hc; [|by simplify_eq].
    destruct deal as [d|]; [destruct (process d)|]; simplify_eq; split_and!; try done;
      cbn -[String.eqb]; rewrite ?String.eqb_refl;
      repeat first [apply Forall_nil_2 | apply Forall_cons_2];
      first [reflexivity | exact (String.eqb_refl wf)]. }
  destruct Hs as (Ho & Hn & Hb & He & Hx & Hx').
  destruct (interleaved_spec _ _ _ _ _ _ (deal_workflow_nonempty wi) Ho Hi Hr) as [-> H'].
  rewrite He in H'. destruct H' as [_ Hn' _ Hq']. split_and!; try done.
  by apply fmap_None in Hn'.
Qed.

Lemma spec_run_app cs1 cs2 o :
  spec_run (cs1 ++ cs2) o =
  ((spec_run cs1 o).1 ++ (spec_run cs2 (spec_run cs1 o).2).1,
   (spec_run cs2 (spec_run cs1 o).2).2).
Proof.
  revert o. induction cs1 as [|c cs1 IH]; intros o; simpl; [by destruct spec_run|].
  destruct (spec_call c o) as [b o']. rewrite IH. by destruct (spec_run cs1 o').
Qed.

(** Requests past the reservation fail, all of them. *)
Lemma spec_run_requests {A} wf m (xs : list A) r u :
  0 ≤ u ≤ r →
  spec_run ((λ _, LCall wf m) <$> xs) (Some (r, u)) =
  (replicate (Z.to_nat (Z.min (Z.of_nat (length xs)) (r - u))) true ++
   replicate (Z.to_nat (Z.of_nat (length xs) - (r - u))) false,
   Some (r, Z.min r (u + Z.of_nat (length xs)))).
Proof.
  revert u. induction xs as [|x xs IH]; intros u Hu; cbn [fmap list_fmap spec_run length].
  - replace (Z.to_nat (Z.min (Z.of_nat 0) (r - u))) with 0%nat by lia.
    replace (Z.to_nat (Z.of_nat 0 - (r - u))) with 0%nat by lia.
    by replace (Z.min r (u + Z.of_nat 0)) with u by lia.
  - cbn [spec_call]. destruct (u <? r) eqn:E; z_bools; rewrite IH by lia.
    + replace (Z.to_nat (Z.min (Z.of_nat (S (length xs))) (r - u)))
        with (S (Z.to_nat (Z.min (Z.of_nat (length xs)) (r - (u + 1))))) by lia.
      replace (Z.of_nat (S (length xs)) - (r - u))
        with (Z.of_nat (length xs) - (r - (u + 1))) by lia.
      by replace (u + 1 + Z.of_nat (length xs)) with (u + Z.of_nat (S (length xs))) by lia.
    + assert (u = r) as -> by lia.
      replace (Z.to_nat (Z.min (Z.of_nat (length xs)) (r - r))) with 0%nat by lia.
      replace (Z.to_nat (Z.min (Z.of_nat (S (length xs))) (r - r))) with 0%nat by lia.
      replace (Z.to_nat (Z.of_nat (S (length xs)) - (r - r)))
        with (S (Z.to_nat (Z.of_nat (length xs) - (r - r)))) by lia.
      by replace (Z.min r (r + Z.of_nat (S (length xs)))) with (Z.min r (r + Z.of_nat (length xs))) by lia.
Qed.

(** [ProduceActiveDeals] reserves the whole quota of a window and never more: with
    [n] bots and a quota of [limit], the requests of the first [limit - 1] bots to
    reach the limiter are sent and those of all others are refused, however long
    the workflow takes and whatever the windows and the other workflows do.  The
    adjustment to the number of bots can only lower the reservation. *)
Theorem produce_requests limit bots clk l0 l outs l' :
  let n := Z.of_nat (length bots) in
  heap_ok l0 → limit ≤ max_request → produce_workflow ∉ (w_workflowID <$> waitQueue l0) →
  Reserve produce_workflow limit clk l0 = (Granted, l) →
  interleaved produce_workflow (tail (ProduceActiveDeals_calls true limit true (Some bots)))
    l outs l' →
  outs = [true; true] ++ replicate (Z.to_nat (Z.min n (limit - 1))) true ++
         replicate (Z.to_nat (n - (limit - 1))) false ++ [true; true] ∧
  reservations l' !! produce_workflow = None.
Proof.
  intros n Hh Hl Hq Hr Hi.
  assert (1 ≤ limit) as H1.
  { revert Hr. unfold Reserve. cbn. destruct (limit <=? 0) eqn:E; z_bools; [done|lia]. }
  apply Reserve_holds in Hr; [|done..].
  eapply interleaved_spec in Hi as [-> H']; [|done| |done].
  2:{ cbn. repeat constructor. rewrite Forall_app. split; [|by repeat constructor].
      by apply Forall_fmap, Forall_true. }
  assert (Hs : spec_run (tail (ProduceActiveDeals_calls true limit true (Some bots)))
    (Some (limit, 0)) = ([true; true] ++ replicate (Z.to_nat (Z.min n (limit - 1))) true ++
         replicate (Z.to_nat (n - (limit - 1))) false ++ [true; true], None)).
  { cbn -[produce_workflow]. replace (0 <? limit) with true by lia.
    cbn -[produce_workflow]. replace (1 + Z.of_nat (length bots) <? 0 + 1) with false by lia.
    rewrite spec_run_app, spec_run_requests by lia. cbn. fold n. rewrite <- app_assoc.
    replace (Z.to_nat (Z.min n (Z.min limit (1 + n) - (0 + 1))))
      with (Z.to_nat (Z.min n (limit - 1))) by lia.
    by replace (Z.to_nat (n - (Z.min limit (1 + n) - (0 + 1))))
      with (Z.to_nat (n - (limit - 1))) by lia. }
  rewrite Hs in *. split; [done|]. destruct H' as [_ Hn' _ _].
  by apply fmap_None in Hn'.
Qed.

(** ** Witnesses *)

Fixpoint perform_all (clk : nat → Z) (cs : list lcall) (l : Limiter) : list bool * Limiter :=
  match cs with
  | [] => ([], l)
  | c :: cs =>
    let '(b, l) := perform clk c l in
    let '(bs, l) := perform_all clk cs l in
    (b :: bs, l)
  end.

Lemma perform_all_interleaved wf clk cs l :
  interleaved wf cs l (perform_all clk cs l).1 (perform_all clk cs l).2.
Proof.
  revert l. induction cs as [|c cs IH]; intros l; cbn [perform_all]; [constructor|].
  destruct (perform clk c l) as [b l1] eqn:E. specialize (IH l1).
  destruct (perform_all clk cs l1) as [bs l2]. by econstructor.
Qed.

Definition fresh : Limiter := NewLimiter starter 0.
Lemma fresh_heap : heap_ok fresh.
Proof. split; intros *; cbn; rewrite ?lookup_empty; done. Qed.

Definition demo_key : WorkKey := mkWorkKey 7 3.
Definition granted (wf : string) (n : Z) : Limiter := (Reserve wf n (at_ 1) fresh).2.

(** Another workflow's reservation between the deal's own calls. *)
Definition crowded (l : Limiter) : Limiter :=
  match step (AReserve "other" 4 (at_ 2)) (mkSys l ∅ []) with
  | Some s => lim s
  | None => l
  end.

Lemma crowded_interleaved wf cs l outs l' :
  String.eqb "other" wf = false → interleaved wf cs (crowded l) outs l' →
  interleaved wf cs l outs l'.
Proof.
  unfold crowded. destruct (step _ _) as [s|] eqn:E; [|done]. intros Hwf Hi.
  refine (il_foreign wf cs outs _ (mkSys l ∅ []) s l' _ E Hi). cbn [foreign]. by rewrite Hwf.
Qed.

Definition demo_calls : list lcall :=
  [LCall (deal_workflow demo_key) "GetDealForID"; LAdjustDown (deal_workflow demo_key) 1;
   LSignalComplete (deal_workflow demo_key); LRelease (deal_workflow demo_key)].

Lemma workflow_counter_witness :
  (perform_all (at_ 3) demo_calls (crowded (granted (deal_workflow demo_key) 2))).1 =
    [true; true; true; true].
Proof.
  refine (proj1 (workflow_counter (deal_workflow demo_key) demo_calls
    (granted (deal_workflow demo_key) 2) _ _ (Some (2, 0)) _ _ _ _)).
  - discriminate.
  - repeat constructor.
  - apply (Reserve_holds _ _ (at_ 1) fresh); [apply fresh_heap|done|apply not_elem_of_nil|].
    vm_compute. reflexivity.
  - apply crowded_interleaved; [reflexivity|]. apply perform_all_interleaved.
Defined.

(** The request waits until the workflow that holds the quota gives it back. *)
Definition demo_busy : Limiter := granted "other" 5.
Definition demo_standing : Limiter := (Reserve (deal_workflow demo_key) 2 (at_ 2) demo_busy).2.
Definition demo_woken : Limiter := (Release "other" (at_ 3) demo_standing).2.

Lemma demo_reserve_ends : reserve_ends (deal_workflow demo_key) 2 (at_ 2) demo_busy true demo_woken.
Proof.
  apply (ends_woken _ _ _ _ 0 demo_standing).
  - vm_compute. reflexivity.
  - apply rtc_once. exists (ARelease "other" (at_ 3)), (mkSys demo_standing ∅ []), (mkSys demo_woken ∅ []).
    split_and!; reflexivity.
  - vm_compute. by apply (bool_decide_unpack _).
Qed.

Lemma demo_busy_ok :
  heap_ok demo_busy ∧ channels_ok demo_busy ∧
  deal_workflow demo_key ∉ (w_workflowID <$> waitQueue demo_busy).
Proof.
  split_and!; [by apply (heap_ok_store "other" 5 1 fresh), fresh_heap|split|].
  - intros ch Hch. by apply elem_of_empty in Hch.
  - intros w Hw. by apply elem_of_nil in Hw.
  - apply not_elem_of_nil.
Qed.

Lemma handle_deal_protocol_witness :
  requests (LReserve (deal_workflow demo_key) 2 :: LCall (deal_workflow demo_key) "GetDealForID"
    :: [LSignalComplete (deal_workflow demo_key); LRelease (deal_workflow demo_key)]) = 1%nat.
Proof.
  refine (proj1 (handle_deal_protocol demo_key true None (λ _, Ok tt) (Err ErrGetDeal) _ (at_ 2)
    demo_busy demo_woken
    (perform_all (at_ 3) _ (crowded demo_woken)).1 _ _ _ _ _ _ _ _)).
  - discriminate.
  - reflexivity.
  - apply demo_busy_ok.
  - apply demo_busy_ok.
  - apply demo_busy_ok.
  - apply demo_reserve_ends.
  - apply crowded_interleaved; [reflexivity|]. apply perform_all_interleaved.
Defined.

Definition demo_bots : list Bot := (λ i, mkBot i 0) <$> [1; 2; 3; 4; 5; 6].

(** Six bots against the starter quota of five calls: bots five and six are refused. *)
Lemma produce_requests_witness :
  (perform_all (at_ 3)
     (tail (ProduceActiveDeals_calls true 5 true (Some demo_bots)))
     (granted produce_workflow 5)).1 =
  [true; true; true; true; true; true; false; false; true; true].
Proof.
  refine (proj1 (produce_requests 5 demo_bots (at_ 1) fresh (granted produce_workflow 5) _
    (perform_all (at_ 3)
     (tail (ProduceActiveDeals_calls true 5 true (Some demo_bots)))
     (granted produce_workflow 5)).2 _ _ _ _ _)).
  - apply fresh_heap.
  - by vm_compute.
  - apply not_elem_of_nil.
  - vm_compute. reflexivity.
  - apply perform_all_interleaved.
Defined.

End Workflows.
