(* ===== verification/EmitterFacts.v ===== *)
(** * What the emitters guarantee

    A logic for the effects of one [Emit], the pacing of its calls, the journal it
    keeps of what it sent, and the creates it makes. *)

From S2P Require Import Prelude GoFloat GoString OrderId Domain Store Adapter Hl Emitter.
Import GoFloat GoString Domain Store Adapter Hl Emitter.

Module EmitterFacts.

(** ** Running an emission

    [runs m tr Q]: started after the trace [tr], [m] adds effects and returns a
    result that satisfy [Q]. *)

Definition runs {A} (m : M A) (tr : trace) (Q : A → trace → Prop) : Prop :=
  ∃ did, (m tr).2 = tr ++ did ∧ Q (m tr).1 did.

Lemma runs_ret {A} (a : A) tr (Q : A → trace → Prop) : Q a [] → runs (mret a : M A) tr Q.
Proof. intros H. exists []. by rewrite app_nil_r. Qed.

Lemma runs_tell e tr (Q : unit → trace → Prop) : Q tt [e] → runs (tell e) tr Q.
Proof. intros H. by exists [e]. Qed.

Lemma runs_ask {A} (f : trace → A) tr (Q : A → trace → Prop) : Q (f tr) [] → runs (ask f) tr Q.
Proof. intros H. exists []. by rewrite app_nil_r. Qed.

Lemma runs_bind {A B} (m : M A) (f : A → M B) tr (P : A → trace → Prop) (Q : B → trace → Prop) :
  runs m tr P → (∀ a d, P a d → runs (f a) (tr ++ d) (λ b d', Q b (d ++ d'))) →
  runs (m ≫= f) tr Q.
Proof.
  intros (d & Hd & HP) Hf. unfold runs, mbind, st_bind.
  destruct (m tr) as [a tr1]. simpl in Hd, HP. subst tr1.
  destruct (Hf a d HP) as (d' & Hd' & HQ). exists (d ++ d'). by rewrite app_assoc.
Qed.

Lemma runs_mono {A} (m : M A) tr (P Q : A → trace → Prop) :
  runs m tr P → (∀ a d, P a d → Q a d) → runs m tr Q.
Proof. intros (d & Hd & HP) H. exists d. eauto. Qed.

Lemma runs_tell_eq e tr : runs (tell e) tr (λ _ d, d = [e]).
Proof. by apply runs_tell. Qed.
Lemma runs_ask_eq {A} (f : trace → A) tr : runs (ask f) tr (λ a d, a = f tr ∧ d = []).
Proof. by apply runs_ask. Qed.

(** ** Views of a trace *)

Definition is_call (x : effect) : bool :=
  match x with Ordered _ | Modified _ | CancelledByCloid _ _ => true | _ => false end.
Definition is_record (x : effect) : bool :=
  match x with RecordedOrder _ _ _ | RecordedModify _ _ _ | RecordedCancel _ _ _ => true | _ => false end.

Definition calls (d : trace) : trace := filter (λ x, is_call x = true) d.
Definition records (d : trace) : trace := filter (λ x, is_record x = true) d.

(** Whether each call of the exchange had a turn of the gate of its own: [turn]
    says whether one is at hand; [None] is a call without. *)
Fixpoint paced (turn : bool) (d : trace) : option bool :=
  match d with
  | [] => Some turn
  | Waited :: d => paced true d
  | x :: d => if is_call x then (if turn then paced false d else None) else paced turn d
  end.

Lemma calls_app d1 d2 : calls (d1 ++ d2) = calls d1 ++ calls d2.
Proof. apply filter_app. Qed.
Lemma records_app d1 d2 : records (d1 ++ d2) = records d1 ++ records d2.
Proof. apply filter_app. Qed.
Lemma paced_app turn d1 d2 : paced turn (d1 ++ d2) = paced turn d1 ≫= λ t, paced t d2.
Proof.
  revert turn. induction d1 as [|x d1 IH]; intros turn; [done|].
  destruct x; simpl; try apply IH; destruct turn; try apply IH; done.
Qed.

(** Effects that are neither calls nor records nor turns. *)
Definition idle (d : trace) : Prop :=
  calls d = [] ∧ records d = [] ∧ ∀ turn, paced turn d = Some turn.

Lemma idle_nil : idle [].
Proof. done. Qed.
Lemma idle_app d1 d2 : idle d1 → idle d2 → idle (d1 ++ d2).
Proof.
  intros (H1 & H2 & H3) (H4 & H5 & H6). split_and!.
  - by rewrite calls_app, H1, H4.
  - by rewrite records_app, H2, H5.
  - intros turn. rewrite paced_app, H3. apply H6.
Qed.

Section Emit.
Context {sdk : SDK} {R : GoRange} {store : TrackerStore} {exchange : Exchange}.

(** Requests that differ at most in price and size. *)
Definition same_order (a b : CreateOrderRequest) : Prop :=
  co_Coin b = co_Coin a ∧ co_IsBuy b = co_IsBuy a ∧ co_ReduceOnly b = co_ReduceOnly a ∧
  co_OrderType b = co_OrderType a ∧ co_ClientOrderID b = co_ClientOrderID a.

Lemma same_order_refl a : same_order a a.
Proof. done. Qed.
Lemma same_order_trans a b c : same_order a b → same_order b c → same_order a c.
Proof. unfold same_order. intuition congruence. Qed.
Lemma same_order_price p a : same_order a (with_price p a).
Proof. done. Qed.
Lemma same_order_rounded a : same_order a (rounded a).
Proof. done. Qed.

Lemma runs_setMarketPrice ws o tr :
  runs (setMarketPrice ws o) tr (λ o' d, same_order o o' ∧ idle d).
Proof.
  destruct ws as [c|]; [|by apply runs_ret].
  eapply runs_bind; [apply runs_tell_eq|]. intros [] d ->. destruct (feq (co_Price o) fzero).
  - eapply runs_bind; [apply runs_ask_eq|]. intros b d [-> ->].
    apply runs_ret. split; [|done]. destruct (wc_best c _ _); done.
  - by apply runs_ret.
Qed.

Lemma runs_constrained e o tr :
  runs (constrained e o) tr (λ o' d, same_order o o' ∧ d = []).
Proof.
  unfold constrained, constrainPrice.
  apply (runs_bind _ _ _ (λ _ d, d = [])).
  - destruct (he_constraints e); [|by apply runs_ret].
    eapply runs_bind; [apply runs_ask_eq|]. intros x d [_ ->]. by apply runs_ret.
  - intros r d ->. apply runs_ret. by destruct r.
Qed.

Lemma same_order_ioc e o k : same_order o (applyIOCOffset e o k).
Proof. unfold applyIOCOffset. by repeat case_match. Qed.

Lemma runs_attempt_request e ws k o tr :
  runs (attempt_request e ws k o) tr (λ o' d, same_order o o' ∧ idle d).
Proof.
  eapply runs_bind; [apply runs_setMarketPrice|]. intros o1 d [H1 Hd].
  eapply runs_mono; [apply runs_constrained|]. intros o2 d' [H2 ->]. rewrite app_nil_r.
  split; [|done]. eapply same_order_trans; [done|]. eapply same_order_trans; [|done].
  apply same_order_ioc.
Qed.

Lemma runs_cooldown e msg tr :
  runs (if is_rate_limited msg then applyCooldown (10 * second) e else mret tt) tr
    (λ _ d, idle d).
Proof.
  destruct (is_rate_limited msg); [|by apply runs_ret]. unfold applyCooldown.
  destruct (he_gated e); [by apply runs_tell|by apply runs_ret].
Qed.

(** ** The loop of a create *)

Definition orders (d : trace) : list CreateOrderRequest :=
  omap (λ x, match x with Ordered r => Some r | _ => None end) d.

Lemma orders_app d1 d2 : orders (d1 ++ d2) = orders d1 ++ orders d2.
Proof. apply omap_app. Qed.
Lemma orders_idle d : idle d → orders d = [].
Proof.
  intros [Hc _]. induction d as [|x d IH]; [done|].
  destruct x; try done; by apply IH.
Qed.

(** Refusals that the loop answers with another attempt. *)
Definition unmatched (tr : trace) (q : CreateOrderRequest) : Prop :=
  ∃ msg, on_order tr q = Err msg ∧ Contains msg no_match_error = true.

(** Every order sent before another one was refused as unmatched. *)
Definition retried (tr d : trace) : Prop :=
  ∀ d1 q d2, d = d1 ++ Ordered q :: d2 → orders d2 ≠ [] → unmatched (tr ++ d1) q.

Record place_post (e : HyperLiquidEmitter) (w : OrderWork) (n : nat) (k : Z)
    (req : CreateOrderRequest) (tr : trace) (r : placed) (d : trace) : Prop := {
  pp_calls : calls d = Ordered <$> orders d;
  pp_len : (length (orders d) ≤ n)%nat;
  pp_same : ∀ q, q ∈ orders d → same_order req q;
  pp_paced : he_gated e = true → is_Some (paced (k =? 0) d);
  pp_records : records d =
    match r with
    | PlacedIgnored => (λ q, RecordedOrder (ow_Identifier w) q (be_RowID (ow_BotEvent w))) <$>
        option_list (last (orders d))
    | _ => []
    end;
  pp_last : match r with
    | Placed q _ _ => last (orders d) = Some q
    | PlacedIgnored => is_Some (last (orders d))
    | PlaceFailed f => f ≠ OrderAlreadySatisfied
    | PlaceExhausted _ => True
    end;
  pp_retried : retried tr d;
}.

(** A trace with at most one order asks nothing of the refusals. *)
Lemma retried_idle tr d : orders d = [] → retried tr d.
Proof.
  intros Hd d1 q d2 ->. rewrite orders_app in Hd. by destruct (orders d1).
Qed.

Lemma retried_cons tr d0 q d :
  orders d0 = [] → (orders d ≠ [] → unmatched (tr ++ d0) q) →
  retried (tr ++ d0 ++ [Ordered q]) d → retried tr (d0 ++ Ordered q :: d).
Proof.
  intros H0 Hq Hr d1 q' d2 Heq Hne.
  assert (Hc : (d1 = d0 ∧ q' = q ∧ d2 = d) ∨ ∃ d1', d1 = d0 ++ Ordered q :: d1' ∧ d = d1' ++ Ordered q' :: d2).
  { clear Hq Hr Hne. revert d1 Heq. induction d0 as [|x d0 IH]; intros d1 Heq.
    - destruct d1 as [|y d1]; simplify_eq/=; [by left|]. right. eauto.
    - destruct d1 as [|y d1]; simpl in Heq; [injection Heq as -> _; discriminate H0|].
      injection Heq as -> Heq. assert (H0' : orders d0 = []) by (destruct y; done).
      destruct (IH H0' _ Heq) as [(-> & -> & ->)|(d1' & -> & ->)]; [by left|right; by eauto]. }
  destruct Hc as [(-> & -> & ->)|(d1' & -> & ->)]; [by apply Hq|].
  replace (tr ++ d0 ++ Ordered q :: d1') with ((tr ++ d0 ++ [Ordered q]) ++ d1')
    by (by rewrite <- !app_assoc).
  by apply (Hr d1' q' d2).
Qed.

(** What precedes an attempt's call. *)
Record quiet (e : HyperLiquidEmitter) (k : Z) (d : trace) : Prop := {
  q_calls : calls d = [];
  q_records : records d = [];
  q_orders : orders d = [];
  q_paced : he_gated e = true → paced (k =? 0) d = Some true;
}.

Lemma runs_turn e k tr :
  0 ≤ k → runs (if 0 <? k then waitTurn e else mret None) tr (λ _ d, quiet e k d).
Proof.
  intros Hk. unfold waitTurn. destruct (0 <? k) eqn:E; z_bools.
  - destruct (he_gated e) eqn:Eg; [|by apply runs_ret; split; try done; congruence].
    eapply runs_bind; [apply runs_ask_eq|]. intros x d [_ ->].
    eapply runs_bind; [apply runs_tell_eq|]. intros [] d ->. apply runs_ret. by split.
  - apply runs_ret. assert (k = 0) as -> by lia. by split.
Qed.

Lemma quiet_idle e k d0 d1 : quiet e k d0 → idle d1 → quiet e k (d0 ++ d1).
Proof.
  intros [H1 H2 H3 H4] Hi. pose proof (orders_idle d1 Hi) as Ho. destruct Hi as (H5 & H6 & H7). split.
  - by rewrite calls_app, H1, H5.
  - by rewrite records_app, H2, H6.
  - by rewrite orders_app, H3, Ho.
  - intros Hg. rewrite paced_app, H4 by done. apply H7.
Qed.

Definition recorded_order (w : OrderWork) (q : CreateOrderRequest) : effect :=
  RecordedOrder (ow_Identifier w) q (be_RowID (ow_BotEvent w)).

Lemma last_cons_some {A} (x : A) l : is_Some (last l) → last (x :: l) = last l.
Proof. by destruct l; [intros [? [=]]|]. Qed.

(** An attempt's call followed by what the loop does after it. *)
Lemma place_post_step e w n k req tr r pre q d :
  quiet e k pre → same_order req q →
  calls d = Ordered <$> orders d → (length (orders d) ≤ n)%nat →
  (∀ q', q' ∈ orders d → same_order q q') →
  (he_gated e = true → is_Some (paced false d)) →
  records d = match r with
    | PlacedIgnored => recorded_order w <$> option_list (last (q :: orders d)) | _ => [] end →
  match r with Placed q' _ _ => last (q :: orders d) = Some q'
  | PlaceFailed f => f ≠ OrderAlreadySatisfied | _ => True end →
  (orders d ≠ [] → unmatched (tr ++ pre) q) → retried (tr ++ pre ++ [Ordered q]) d →
  place_post e w (S n) k req tr r (pre ++ Ordered q :: d).
Proof.
  intros [H1 H2 H3 H4] Hq Hc Hl Hs Hp Hr Hla Hu Hre.
  assert (Ho : orders (pre ++ Ordered q :: d) = q :: orders d) by (by rewrite orders_app, H3).
  split; rewrite ?Ho.
  - rewrite calls_app, H1. cbn. by f_equal.
  - simpl. lia.
  - intros q' [->|Hin]%elem_of_cons; [done|]. eapply same_order_trans; [done|by apply Hs].
  - intros Hg. rewrite paced_app, H4 by done. by apply Hp.
  - rewrite records_app, H2. done.
  - destruct r; try done. destruct (orders d) as [|y l]; [eauto|]. rewrite last_cons. destruct (last _); eauto.
  - by apply retried_cons.
Qed.

Lemma place_post_none e w n k req tr r d :
  calls d = [] → records d = [] → orders d = [] →
  (he_gated e = true → is_Some (paced (k =? 0) d)) →
  match r with PlaceFailed f => f ≠ OrderAlreadySatisfied | PlaceExhausted _ => True | _ => False end →
  place_post e w n k req tr r d.
Proof.
  intros H1 H2 H3 H4 Hr. split; rewrite ?H1, ?H2, ?H3.
  - done.
  - simpl. lia.
  - intros q Hq. by apply elem_of_nil in Hq.
  - done.
  - by destruct r.
  - by destruct r.
  - by apply retried_idle.
Qed.

(** The loop ends with this call; nothing but records and cooldowns follow it. *)
Lemma place_post_final e w n k req tr r pre q d :
  quiet e k pre → same_order req q → calls d = [] → orders d = [] →
  (∀ t, paced t d = Some t) →
  records d = match r with PlacedIgnored => [recorded_order w q] | _ => [] end →
  match r with Placed q' _ _ => q = q' | PlaceFailed f => f ≠ OrderAlreadySatisfied | _ => True end →
  place_post e w (S n) k req tr r (pre ++ Ordered q :: d).
Proof.
  intros Hp Hq H1 H2 H3 H4 H5. apply place_post_step; rewrite ?H1, ?H2; try done.
  - simpl. lia.
  - intros q' Hq'. by apply elem_of_nil in Hq'.
  - intros _. rewrite H3. eauto.
  - destruct r; by rewrite ?H5.
  - by apply retried_idle.
Qed.

Lemma runs_place e w ws n : ∀ k retries req tr,
  0 ≤ k → runs (place e w ws n k retries req) tr (place_post e w n k req tr).
Proof.
  induction n as [|n IH]; intros k retries req tr Hk; cbn [place].
  { apply runs_ret. by apply place_post_none. }
  eapply runs_bind; [by apply runs_turn|]. intros [msg|] d0 Hd0.
  { apply runs_ret. rewrite app_nil_r. destruct Hd0 as [H1 H2 H3 H4].
    apply place_post_none; try done. intros Hg. rewrite H4; eauto. }
  eapply runs_bind; [apply runs_attempt_request|]. intros q d1 [Hq Hd1].
  eapply runs_bind; [apply runs_ask_eq|]. intros x d [-> ->]. rewrite app_nil_r.
  eapply runs_bind; [apply runs_tell_eq|]. intros [] d ->.
  pose proof (quiet_idle _ _ _ _ Hd0 Hd1) as Hpre. rewrite <- app_assoc.
  destruct (on_order (tr ++ d0 ++ d1) q) as [status|msg] eqn:Hans.
  { apply runs_ret. cbn [app]. rewrite app_assoc. by apply place_post_final. }
  destruct (Contains msg min_value_error || Contains msg reduce_only_error).
  { eapply runs_bind; [apply runs_tell_eq|]. intros [] d ->. apply runs_ret.
    cbn [app]. rewrite app_assoc. by apply place_post_final. }
  destruct (Contains msg no_match_error) eqn:Hnm; cbn [andb]; [destruct (0 <? n)%nat|].
  2,3: eapply runs_bind; [apply runs_cooldown|]; intros [] d Hd; apply runs_ret; cbn [app];
    rewrite app_nil_r, app_assoc; apply place_post_final; try done; try apply Hd;
    by apply orders_idle.
  eapply runs_mono; [apply IH; lia|]. intros r d [P1 P2 P3 P4 P5 P6 P7].
  cbn [app]. rewrite app_assoc. apply place_post_step; try done.
  - intros Hg. specialize (P4 Hg). by replace (k + 1 =? 0) with false in P4 by lia.
  - rewrite P5. destruct r; try done. by rewrite last_cons_some.
  - destruct r; try done. rewrite last_cons_some; [done|]. rewrite P6. eauto.
  - intros _. exists msg. split; [|done]. by rewrite Hans.
  - by rewrite (app_assoc tr).
Qed.

(** ** Modifications *)

Definition recorded_modify (w : OrderWork) (m : ModifyOrderRequest) : effect :=
  RecordedModify (ow_Identifier w) m (be_RowID (ow_BotEvent w)).

Record modify_post (w : OrderWork) (m : ModifyOrderRequest) (r : result failure (option OrderStatus))
    (d : trace) : Prop := {
  mp_calls : calls d = [Modified m];
  mp_paced : paced true d = Some false;
  mp_records : records d =
    match r with Ok (Some _) => [recorded_modify w m] | _ => [] end;
  mp_failure : r ≠ Err OrderAlreadySatisfied;
}.

Lemma runs_confirm e w m tr :
  runs (confirmModifyViaStatus e w m) tr (λ _ d, idle d).
Proof.
  unfold confirmModifyViaStatus.
  destruct (he_statusClient e) as [c|]; [|by apply runs_ret].
  destruct (mo_Cloid m) as [id|]; [|by apply runs_ret].
  eapply runs_bind; [apply runs_ask_eq|]. intros x d [_ ->].
  eapply runs_bind; [apply runs_tell_eq|]. intros [] d ->. by apply runs_ret.
Qed.

Lemma modify_post_intro w m r d1 d2 :
  idle d1 → d2 = match r with Ok (Some _) => [recorded_modify w m] | _ => [] end →
  r ≠ Err OrderAlreadySatisfied → modify_post w m r (Modified m :: d1 ++ d2).
Proof.
  intros (H1 & H2 & H3) -> Hr. split; [| | |done].
  - change (calls (Modified m :: ?x)) with (Modified m :: calls x).
    rewrite calls_app, H1. by destruct r as [[]|].
  - cbn. rewrite paced_app, H3. by destruct r as [[]|].
  - change (records (Modified m :: ?x)) with (records x).
    rewrite records_app, H2. by destruct r as [[]|].
Qed.

Lemma runs_submitModify e w m tr :
  runs (submitModify e w m) tr (modify_post w m).
Proof.
  unfold submitModify.
  eapply runs_bind; [apply runs_ask_eq|]. intros x d [_ ->].
  eapply runs_bind; [apply runs_tell_eq|]. intros [] d ->.
  destruct x as [status|msg].
  { eapply runs_bind; [apply runs_tell_eq|]. intros [] d ->. apply runs_ret.
    by apply (modify_post_intro w m (Ok (Some status)) [] [recorded_modify w m]). }
  eapply runs_bind; [apply runs_cooldown|]. intros [] d Hd. cbn [app].
  destruct (Contains msg missingModifyResponseDataFragment).
  - eapply runs_bind; [apply runs_confirm|]. intros [status|why] d' Hd'.
    + eapply runs_bind; [apply runs_tell_eq|]. intros [] d'' ->. apply runs_ret.
      rewrite app_nil_r, app_assoc. apply modify_post_intro; [by apply idle_app|done|done].
    + apply runs_ret. rewrite app_assoc. apply modify_post_intro; [by apply idle_app|done|done].
  - destruct (Contains _ cannotModifyFilledFragment); apply runs_ret;
      by apply modify_post_intro.
Qed.

(** ** One emission *)

(** What an emission leaves behind: the trace of its calls and the journal. *)
Definition journal (w : OrderWork) (r : result failure emitted) (d : trace) : Prop :=
  match r with
  | Ok Nothing => calls d = [] ∧ records d = []
  | Ok Ignored => ∃ q, last (calls d) = Some (Ordered q) ∧ records d = [recorded_order w q]
  | Ok (Sent a st _) =>
    match ac_Type a with
    | ActionNone => False
    | ActionCreate =>
      last (calls d) = Some (Ordered (ac_Create a)) ∧ records d = [recorded_order w (ac_Create a)]
    | ActionModify =>
      calls d = [Modified (ac_Modify a)] ∧
      records d = match st with Some _ => [recorded_modify w (ac_Modify a)] | None => [] end
    | ActionCancel =>
      calls d = [CancelledByCloid (ca_Coin (ac_Cancel a)) (ca_Cloid (ac_Cancel a))] ∧
      records d = [RecordedCancel (ow_Identifier w) (ac_Cancel a) (be_RowID (ow_BotEvent w))]
    end
  | Err OrderAlreadySatisfied =>
    (ac_Type (ow_Action w) = ActionCreate ∧ calls d = [] ∧ records d = []) ∨
    (ac_Type (ow_Action w) = ActionCancel ∧
     records d = [RecordedCancel (ow_Identifier w) (ac_Cancel (ow_Action w)) (be_RowID (ow_BotEvent w))])
  | Err _ => records d = []
  end.

(** The calls of a create: a live order is modified at most once and never created
    again; otherwise the loop's bound and its retries. *)
Definition create_calls (e : HyperLiquidEmitter) (w : OrderWork) (tr d : trace) : Prop :=
  match live_status (wsFor (oi_VenueID (ow_Identifier w)) e) (ow_OrderId w) with
  | Some _ => orders d = [] ∧ (length (calls d) ≤ 1)%nat
  | None =>
    Z.of_nat (length (orders d)) ≤ Z.max 1 (MaxIOCRetries (he_cfg e)) ∧
    (∀ q, q ∈ orders d → same_order (ac_Create (ow_Action w)) q) ∧
    calls d = Ordered <$> orders d ∧ retried tr d
  end.

Lemma orders_has d1 q d2 : orders (d1 ++ Ordered q :: d2) ≠ [].
Proof. rewrite orders_app. by destruct (orders d1). Qed.

Lemma retried_app_r tr d post : orders post = [] → retried tr d → retried tr (d ++ post).
Proof.
  intros Hp Hr d1 q d2 Heq Hne.
  apply app_eq_inv in Heq as [(k & -> & Hk)|(k & -> & ->)]; [|by apply orders_has in Hp].
  destruct k as [|x k]; simpl in Hk.
  - subst post. by apply (orders_has [] q d2) in Hp.
  - injection Hk as <- ->. eapply Hr; [done|]. by rewrite orders_app, Hp, app_nil_r in Hne.
Qed.

Lemma retried_app_l tr pre d : orders pre = [] → retried (tr ++ pre) d → retried tr (pre ++ d).
Proof.
  intros Hp Hr d1 q d2 Heq Hne.
  apply app_eq_inv in Heq as [(k & -> & Hk)|(k & -> & ->)].
  - destruct k as [|x k]; simpl in Hk.
    + subst d. specialize (Hr [] q d2 eq_refl Hne). by rewrite !app_nil_r in Hr.
    + injection Hk as <- ->. by apply orders_has in Hp.
  - rewrite app_assoc. by apply (Hr k q d2).
Qed.

Lemma orders_calls d : calls d = [] → orders d = [].
Proof. induction d as [|x d IH]; [done|]. destruct x; try done; by apply IH. Qed.

Lemma last_fmap_some {A B} (f : A → B) l x : last l = Some x → last (f <$> l) = Some (f x).
Proof. rewrite fmap_last. by intros ->. Qed.

(** How often one emission may call the exchange. *)
Definition attempts (e : HyperLiquidEmitter) : nat := Z.to_nat (Z.max 1 (MaxIOCRetries (he_cfg e))).

(** What one emission does, once its turn of the gate has come. *)
Record emit_post (e : HyperLiquidEmitter) (w : OrderWork) (tr : trace)
    (r : result failure emitted) (d : trace) : Prop := {
  ep_journal : journal w r d;
  ep_paced : he_gated e = true → is_Some (paced true d);
  ep_create : ac_Type (ow_Action w) = ActionCreate → create_calls e w tr d;
  ep_attempts : (length (calls d) ≤ attempts e)%nat;
}.

Lemma attempts_one e : (1 ≤ attempts e)%nat.
Proof. unfold attempts. lia. Qed.

Lemma journal_frame w r d0 d : calls d0 = [] → records d0 = [] → journal w r d → journal w r (d0 ++ d).
Proof. unfold journal. rewrite calls_app, records_app. by intros -> ->. Qed.

Lemma create_calls_frame e w tr d0 d :
  calls d0 = [] → create_calls e w (tr ++ d0) d → create_calls e w tr (d0 ++ d).
Proof.
  unfold create_calls. intros H0. pose proof (orders_calls d0 H0) as Ho.
  rewrite orders_app, calls_app, H0, Ho. cbn [app]. destruct (live_status _ _); [done|].
  intros (H1 & H2 & H3 & H4). split_and!; try done. by apply retried_app_l.
Qed.

Lemma emit_post_frame e w tr r d0 d :
  idle d0 → emit_post e w (tr ++ d0) r d → emit_post e w tr r (d0 ++ d).
Proof.
  intros (H1 & H2 & H3) [J P C L]. split.
  - by apply journal_frame.
  - intros Hg. rewrite paced_app, H3. by apply P.
  - intros Hc. by apply create_calls_frame, C.
  - by rewrite calls_app, H1.
Qed.

Lemma runs_frame {A} e w (m : M A) (f : A → M (result failure emitted)) tr (P : A → trace → Prop) :
  runs m tr P → (∀ a d, P a d → idle d ∧ ∀ tr, runs (f a) tr (emit_post e w tr)) →
  runs (m ≫= f) tr (emit_post e w tr).
Proof.
  intros Hm Hf. eapply runs_bind; [exact Hm|]. intros a d Hd. destruct (Hf a d Hd) as [Hi Hr].
  eapply runs_mono; [apply Hr|]. intros r d'. by apply emit_post_frame.
Qed.

(** The outcome of the loop with its record. *)
Lemma placed_post e w tr req r d :
  ac_Type (ow_Action w) = ActionCreate →
  live_status (wsFor (oi_VenueID (ow_Identifier w)) e) (ow_OrderId w) = None →
  same_order (ac_Create (ow_Action w)) req →
  place_post e w (Z.to_nat (if MaxIOCRetries (he_cfg e) <=? 0 then 1
                            else MaxIOCRetries (he_cfg e))) 0 req tr r d →
  match r with
  | PlaceFailed f => emit_post e w tr (Err f) d
  | PlaceExhausted msg => emit_post e w tr (Err (CouldNotPlace msg)) d
  | PlacedIgnored => emit_post e w tr (Ok Ignored) d
  | Placed q st n => emit_post e w tr (Ok (Sent (work_create w q) (Some st) n)) (d ++ [recorded_order w q])
  end.
Proof.
  intros Hty Hlive Hs [P1 P2 P3 P4 P5 P6 P7]. change (0 =? 0) with true in P4.
  assert (Hc : ∀ post, calls post = [] → create_calls e w tr (d ++ post)).
  { intros post Hp. unfold create_calls. rewrite Hlive, orders_app, (orders_calls post Hp), app_nil_r.
    split_and!.
    - destruct (MaxIOCRetries (he_cfg e) <=? 0) eqn:E; z_bools; lia.
    - intros q Hq. eapply same_order_trans; [done|by apply P3].
    - by rewrite calls_app, Hp, app_nil_r.
    - by apply retried_app_r; [apply orders_calls|]. }
  assert (Hc0 : create_calls e w tr d) by (rewrite <- (app_nil_r d); by apply Hc).
  assert (Hlen : (length (calls d) ≤ attempts e)%nat).
  { rewrite P1, length_fmap. unfold attempts. destruct (MaxIOCRetries (he_cfg e) <=? 0) eqn:E; z_bools; lia. }
  destruct r as [q st n| |f|msg].
  - split; [|intros Hg; rewrite paced_app; destruct (P4 Hg) as [t ->]; cbn; eauto|by intros; apply Hc
      |by rewrite calls_app, app_nil_r].
    cbn. rewrite Hty. split.
    + rewrite calls_app, P1, app_nil_r. by apply last_fmap_some.
    + by rewrite records_app, P5.
  - destruct P6 as [q Hq]. rewrite Hq in P5. split; [|done|done|done]. exists q.
    split; [rewrite P1; by apply last_fmap_some|done].
  - split; [by destruct f|done|done|done].
  - by split.
Qed.

Lemma runs_emit_modify_with e w m (f : option OrderStatus → emitted) tr :
  (∀ st, journal w (Ok (f st)) = (λ d, calls d = [Modified m] ∧
     records d = match st with Some _ => [recorded_modify w m] | None => [] end)) →
  (ac_Type (ow_Action w) = ActionCreate →
     is_Some (live_status (wsFor (oi_VenueID (ow_Identifier w)) e) (ow_OrderId w))) →
  runs (r ← submitModify e w m; mret match r with Err x => Err x | Ok st => Ok (f st) end) tr
    (emit_post e w tr).
Proof.
  intros Hf Hc. eapply runs_bind; [apply runs_submitModify|]. intros r d [M1 M2 M3 M4].
  apply runs_ret. rewrite app_nil_r. split.
  - destruct r as [st|x]; [by rewrite Hf|]. cbn. destruct x; try done.
  - intros _. rewrite M2. eauto.
  - intros Hty. unfold create_calls. destruct (Hc Hty) as [s ->]. rewrite M1. split; [|simpl; lia].
    assert (Ho : orders d = orders (calls d)); [|by rewrite Ho, M1].
    clear. induction d as [|x d IH]; [done|]. destruct x; try exact IH. exact (f_equal (cons req) IH).
  - rewrite M1. apply attempts_one.
Qed.

Lemma runs_emit_create e w tr :
  ac_Type (ow_Action w) = ActionCreate →
  runs (emit_create e w (wsFor (oi_VenueID (ow_Identifier w)) e)) tr (emit_post e w tr).
Proof.
  intros Hty. unfold emit_create. set (ws := wsFor _ e).
  eapply runs_frame; [apply runs_setMarketPrice|]. intros o1 d [H1 Hi]. split; [done|]. clear tr d Hi.
  intros tr. eapply runs_frame; [apply runs_constrained|]. intros o2 d [H2 ->]. split; [done|].
  clear tr. intros tr. pose proof (same_order_trans _ _ _ H1 H2) as Hs.
  destruct (live_status ws (ow_OrderId w)) as [status|] eqn:Hlive.
  - destruct (ordersMatch _ _ _).
    + apply runs_ret. split; [by left|eauto| |simpl; lia]. intros _. unfold create_calls. fold ws.
      rewrite Hlive. split; [done|simpl; lia].
    + apply (runs_emit_modify_with e w _ (λ st, Sent _ st _)); [done|]. intros _. fold ws. by rewrite Hlive.
  - eapply runs_bind; [by apply runs_place|]. intros r d Hp.
    pose proof (placed_post e w tr o2 r d Hty Hlive Hs Hp) as Hpost.
    destruct r as [q st n| |f|msg]; try (apply runs_ret; by rewrite app_nil_r).
    eapply runs_bind; [apply runs_tell_eq|]. intros [] d' ->. apply runs_ret. by rewrite app_nil_r.
Qed.

Lemma runs_emit_cancel e w tr :
  ac_Type (ow_Action w) = ActionCancel → runs (emit_cancel e w) tr (emit_post e w tr).
Proof.
  intros Hty. unfold emit_cancel.
  eapply runs_bind; [apply runs_ask_eq|]. intros x d [_ ->].
  eapply runs_bind; [apply runs_tell_eq|]. intros [] d ->. cbn [app].
  destruct x as [msg|].
  - destruct (isAlreadyClosedCancelError msg).
    + eapply runs_bind; [apply runs_tell_eq|]. intros [] d ->. apply runs_ret.
      split; [by right|cbn; eauto|by rewrite Hty|apply attempts_one].
    + eapply runs_bind; [apply runs_cooldown|]. intros [] d (Hd1 & Hd2 & Hd3). apply runs_ret.
      rewrite app_nil_r. split; [done|cbn; rewrite Hd3; eauto|by rewrite Hty|].
      cbn. change (length (CancelledByCloid (ca_Coin (ac_Cancel (ow_Action w))) (ca_Cloid (ac_Cancel (ow_Action w))) :: calls d) ≤ attempts e)%nat.
      rewrite Hd1. apply attempts_one.
  - eapply runs_bind; [apply runs_tell_eq|]. intros [] d ->. apply runs_ret.
    split; [unfold journal; rewrite Hty; done|cbn; eauto|by rewrite Hty|apply attempts_one].
Qed.

Lemma runs_emit_modify e w ws tr :
  ac_Type (ow_Action w) = ActionModify → runs (emit_modify e w ws) tr (emit_post e w tr).
Proof.
  intros Hty. unfold emit_modify.
  eapply runs_frame; [apply runs_setMarketPrice|]. intros o1 d [_ Hi]. split; [done|]. clear tr d Hi.
  intros tr. eapply runs_frame; [apply runs_constrained|]. intros o2 d [_ ->]. split; [done|].
  clear tr. intros tr.
  apply (runs_emit_modify_with e w (mkModify _ _) (λ st, Sent _ st _)); [|by rewrite Hty].
  intros st. unfold journal. cbn. by rewrite Hty.
Qed.

Lemma runs_Emit e w tr :
  runs (Emit e w) tr (λ r d, journal w r d ∧ (he_gated e = true → is_Some (paced false d)) ∧
    (ac_Type (ow_Action w) = ActionCreate →
     calls d = [] ∨ create_calls e w tr d) ∧ (length (calls d) ≤ attempts e)%nat).
Proof.
  unfold Emit. destruct (decide _); [apply runs_ret; cbn; by eauto 10 with lia|].
  destruct (negb _ && negb _); [apply runs_ret; cbn; by eauto 10 with lia|].
  destruct (ac_Type (ow_Action w)) eqn:Hty; [apply runs_ret; cbn; by eauto 10 with lia|..].
  all: apply (runs_bind _ _ _ (λ _ d, calls d = [] ∧ records d = [] ∧
    (he_gated e = true → paced false d = Some true)));
    [unfold waitTurn; destruct (he_gated e);
      [eapply runs_bind; [apply runs_ask_eq|]; intros x d [_ ->];
       eapply runs_bind; [apply runs_tell_eq|]; intros [] d ->; by apply runs_ret
      |by apply runs_ret]|].
  all: intros [msg|] d (H1 & H2 & H3);
    [apply runs_ret; rewrite app_nil_r; split_and!; [done|intros Hg; rewrite H3; eauto|by left|rewrite H1; cbn; lia]|].
  all: eapply runs_mono;
    [first [by apply runs_emit_create | by apply runs_emit_cancel | by apply runs_emit_modify]|].
  all: intros r d' [J P C L]; split_and!;
    [by apply journal_frame|intros Hg; rewrite paced_app, H3 by done; by apply P| |by rewrite calls_app, H1].
  all: intros Hc; try congruence. right. apply create_calls_frame; [done|]. by apply C.
Qed.

(** ** The properties *)

(** C29.  The journal is the truth about the exchange: an emission records a request
    exactly when the exchange took it, refused it for a reason the emitter ignores,
    or had the order closed already, and it records the very request of its last
    call; an emission that fails leaves no record, so the next event of the order
    starts over. *)
Theorem emit_journal e w tr r tr' :
  Emit e w tr = (r, tr') → ∃ did, tr' = tr ++ did ∧ journal w r did.
Proof.
  intros H. destruct (runs_Emit e w tr) as (d & Hd & J & _). rewrite H in Hd, J. eauto.
Qed.

(** Every call of the exchange waits for a turn of the rate gate of its own, the
    attempts of an immediate-or-cancel order included. *)
Theorem emit_paced e w tr r tr' :
  he_gated e = true → Emit e w tr = (r, tr') →
  ∃ did, tr' = tr ++ did ∧ is_Some (paced false did).
Proof.
  intros Hg H. destruct (runs_Emit e w tr) as (d & Hd & _ & P & _). rewrite H in Hd. eauto.
Qed.

(** C31.  A create is sent at most [MaxIOCRetries] times, and again only after a refusal
    for want of a matching order; all attempts are the same order up to price and
    size.  An order that the websocket shows live is not created a second time. *)
Theorem emit_creates e w tr r tr' :
  ac_Type (ow_Action w) = ActionCreate → Emit e w tr = (r, tr') →
  ∃ did, tr' = tr ++ did ∧ (calls did = [] ∨ create_calls e w tr did).
Proof.
  intros Hty H. destruct (runs_Emit e w tr) as (d & Hd & _ & _ & C & _). rewrite H in Hd. eauto.
Qed.

End Emit.

(** ** A concrete order *)

#[local] Existing Instance demo_sdk.
#[local] Existing Instance list_range.
#[local] Existing Instance empty_store.

(** The first attempt finds no match, the second is filled. *)
#[local] Instance demo_exchange : Exchange := {|
  on_wait := λ _, None;
  on_order := λ tr _,
    if decide (orders tr = []) then Err no_match_error
    else Ok (mkOrderStatus None (Some "7") None);
  on_modify := λ _ _, Err "down";
  on_cancel := λ _ _ _, None |}.

Definition demo_ident : OrderIdentifier := NewOrderIdentifier "hl" "0xabc" OrderId.sample.
Definition demo_emitter : HyperLiquidEmitter :=
  NewHyperLiquidEmitter "hl" (Some (mkWsClient "hl" "0xabc" (λ _ _, None))) None [].
Definition demo_req : CreateOrderRequest :=
  mkCreate "DOGE" true (f_of_Z 3) (f_of_Z 7) false (mkOrderType (Some TifIoc) None)
    (Some (OrderId.Hex OrderId.sample)).
Definition demo_work : OrderWork :=
  mkOrderWork demo_ident OrderId.sample (action_create demo_req "") zero_botevent.
Definition demo_run : result failure emitted * trace := Emit demo_emitter demo_work [].

Example demo_attempts :
  length (orders demo_run.2) = 2%nat ∧ length (records demo_run.2) = 1%nat ∧
  paced false demo_run.2 = Some false.
Proof. vm_compute. done. Qed.

Lemma emit_journal_witness :
  ∃ did, demo_run.2 = [] ++ did ∧ journal demo_work demo_run.1 did.
Proof.
  refine (emit_journal demo_emitter demo_work [] demo_run.1 demo_run.2 _).
  vm_compute. reflexivity.
Defined.

Lemma emit_paced_witness : ∃ did, demo_run.2 = [] ++ did ∧ is_Some (paced false did).
Proof.
  refine (emit_paced demo_emitter demo_work [] demo_run.1 demo_run.2 _ _);
    vm_compute; reflexivity.
Defined.

Lemma emit_creates_witness :
  ∃ did, demo_run.2 = [] ++ did ∧ (calls did = [] ∨ create_calls demo_emitter demo_work [] did).
Proof.
  refine (emit_creates demo_emitter demo_work [] demo_run.1 demo_run.2 _ _);
    vm_compute; reflexivity.
Defined.

End EmitterFacts.
