(* ===== verification/VaultFacts.v ===== *)
(** * What the vault guarantees

    The life cycle of the controller under any sequence of calls, the callers that
    wait for it to be unsealed, and what validation accepts. *)

From Stdlib Require Import Ascii.
From S2P Require Import Prelude GoString Domain Vault.
Import GoString Domain Vault.

Module VaultFacts.

Section Facts.
Context {json : Type}.
Abbreviation Secrets := (@Secrets json).
Abbreviation Controller := (@Controller json).
Abbreviation controllerConfig := (@controllerConfig json).

(** ** Runs *)

Inductive vault_op :=
| OSetUser (u : option User)
| ORequireSetup (now : Z)
| OSeal (now : Z)
| OUnseal (secrets : Secrets) (exp : option Z) (now : Z).

Definition vault_step (c : Controller) (o : vault_op) : Controller :=
  match o with
  | OSetUser u => SetUser u c
  | ORequireSetup now => RequireSetup now c
  | OSeal now => (Seal now c).2
  | OUnseal s e now => (Unseal s e now c).2
  end.

Definition vault_run (ops : list vault_op) (c : Controller) : Controller :=
  fold_left vault_step ops c.

(** How the program starts the controller. *)
Definition starts_locked (initial : State) (cfg : controllerConfig) : Prop :=
  (initial = StateSetupRequired ∨ initial = StateSealed) ∧
  cf_secrets cfg = None ∧ cf_sessionExpiresAt cfg = None.

Record vault_inv (c : Controller) : Prop := {
  v_state : cc_state c = StateSetupRequired ∨ cc_state c = StateSealed ∨ cc_state c = StateUnsealed;
  v_secrets : cc_state c = StateUnsealed ↔ is_Some (cc_secrets c);
  v_session : is_Some (cc_sessionExpiresAt c) → cc_state c = StateUnsealed;
  v_primary : ∀ s, cc_secrets c = Some s → existsb vs_Primary (Venues (se_Secrets s)) = true;
  v_ready : cc_readyClosed c = true ↔ cc_state c = StateUnsealed;
  v_closed : cc_ready c ∈ cc_closed c ↔ cc_readyClosed c = true;
  v_fresh : ∀ ch, ch ∈ cc_closed c → (ch ≤ cc_ready c)%nat;
}.

Lemma existsb_clone (l : list (@VenueSecret json)) :
  existsb vs_Primary (CloneVenue <$> l) = existsb vs_Primary l.
Proof. induction l as [|v l IH]; [done|]. cbn. f_equal. apply IH. Qed.

Lemma vault_inv_init initial cfg :
  starts_locked initial cfg → vault_inv (NewController initial cfg).
Proof.
  intros ([-> | ->] & Hs & He); split; simpl; rewrite ?Hs, ?He; try done;
    try (by split; [done|intros [? ?]]); try (by intros [? ?]); try set_solver; auto.
Qed.

Lemma vault_inv_reset (c : Controller) state sealed unsealed :
  vault_inv c → state = StateSetupRequired ∨ state = StateSealed →
  vault_inv (mkController state (cc_user c) sealed unsealed None None
    (cc_ready (resetReadyLocked c)) (cc_readyClosed (resetReadyLocked c))
    (cc_closed (resetReadyLocked c))).
Proof.
  intros [H1 H2 H3 H4 H5 H6 H7] Hst.
  assert (Hne : state ≠ StateUnsealed) by (by destruct Hst as [-> | ->]).
  unfold resetReadyLocked. destruct (cc_readyClosed c) eqn:Hr; split; simpl; try done;
    try (by intros [? ?]); try (by split; [done|intros [? ?]]); try tauto; rewrite ?Hr; try done.
  - split; [|done]. intros Hin. specialize (H7 _ Hin). lia.
  - intros ch Hin. specialize (H7 _ Hin). lia.
Qed.

Lemma vault_inv_step c o : vault_inv c → vault_inv (vault_step c o).
Proof.
  intros H. destruct o as [u|now|now|s e now]; simpl.
  - destruct H; by split.
  - unfold RequireSetup. destruct (String.eqb _ _); [done|].
    assert (Hu : cc_user (resetReadyLocked c) = cc_user c) by (unfold resetReadyLocked; by destruct cc_readyClosed).
    rewrite Hu. apply vault_inv_reset; auto.
  - unfold Seal. destruct (String.eqb _ _); [done|]. destruct (_ || _); [|done]. cbn [snd].
    assert (Hu : cc_user (resetReadyLocked c) = cc_user c) by (unfold resetReadyLocked; by destruct cc_readyClosed).
    rewrite Hu. apply vault_inv_reset; auto.
  - unfold Unseal. destruct (_ || _); [|done].
    unfold ensurePrimaryVenuePresent. destruct (existsb _ _) eqn:Hp; [|done]. cbn [snd].
    destruct H as [H1 H2 H3 H4 H5 H6 H7]. unfold signalReadyLocked. simpl.
    destruct (cc_readyClosed c) eqn:Hr; split; simpl; try tauto; try done; eauto;
      try (by intros x [= <-]; simpl; rewrite existsb_clone).
    + split; [done|]. intros _. set_solver.
    + intros ch [->%elem_of_singleton|Hin]%elem_of_union; [lia|by apply H7].
Qed.

Lemma vault_inv_run ops c : vault_inv c → vault_inv (vault_run ops c).
Proof.
  revert c. induction ops as [|o ops IH]; intros c H; [done|]. by apply IH, vault_inv_step.
Qed.

(** C30.  The secrets are guarded: whatever calls a controller that starts locked gets,
    it exposes secrets exactly while it is unsealed, they always name a primary
    venue, a session only lasts while it is unsealed, and no call is ever refused
    as an invalid transition; an unsealing is refused only for want of a primary
    venue, and then nothing changes. *)
Theorem vault_guarded initial cfg ops :
  starts_locked initial cfg →
  let c := vault_run ops (NewController initial cfg) in
  (is_Some (GetSecrets c) ↔ cc_state c = StateUnsealed) ∧
  (∀ s, GetSecrets c = Some s → ensurePrimaryVenuePresent (se_Secrets s) = None) ∧
  (is_Some (cc_sessionExpiresAt c) → cc_state c = StateUnsealed) ∧
  (∀ now, (Seal now c).1 = None) ∧
  (∀ s e now, (Unseal s e now c).1 = ensurePrimaryVenuePresent (se_Secrets s) ∧
    ((Unseal s e now c).1 ≠ None → (Unseal s e now c).2 = c)).
Proof.
  intros Hl c. pose proof (vault_inv_run ops _ (vault_inv_init _ _ Hl)) as H. fold c in H.
  destruct H as [H1 H2 H3 H4 H5 H6 H7]. split_and!.
  - unfold GetSecrets. rewrite fmap_is_Some. by rewrite H2.
  - intros s Hs. unfold GetSecrets in Hs. apply fmap_Some in Hs as (s0 & Hs0 & ->).
    unfold ensurePrimaryVenuePresent. simpl. rewrite existsb_clone. by rewrite (H4 _ Hs0).
  - done.
  - intros now. unfold Seal. by destruct H1 as [-> |[-> | ->]].
  - intros s e now. unfold Unseal.
    assert (String.eqb (cc_state c) StateSealed || String.eqb (cc_state c) StateSetupRequired ||
      String.eqb (cc_state c) StateUnsealed = true) as -> by (by destruct H1 as [-> |[-> | ->]]).
    by destruct (ensurePrimaryVenuePresent _).
Qed.

(** ** Waiting for the vault *)

Lemma closed_mono c o : cc_closed c ⊆ cc_closed (vault_step c o).
Proof.
  destruct o as [u|now|now|s e now]; simpl.
  - done.
  - unfold RequireSetup, resetReadyLocked. destruct (String.eqb _ _); [done|]. by destruct cc_readyClosed.
  - unfold Seal, resetReadyLocked. destruct (String.eqb _ _); [done|]. destruct (_ || _); [|done].
    by destruct cc_readyClosed.
  - unfold Unseal, signalReadyLocked. destruct (_ || _); [|done]. destruct (ensurePrimaryVenuePresent _); [done|].
    simpl. destruct (cc_readyClosed c); simpl; set_solver.
Qed.

Lemma closed_mono_run ops c : cc_closed c ⊆ cc_closed (vault_run ops c).
Proof.
  revert c. induction ops as [|o ops IH]; intros c; [done|].
  etrans; [apply closed_mono|]. apply IH.
Qed.

(** While the vault stays locked, its channel stays. *)
Lemma locked_step c o :
  vault_inv c → cc_state c ≠ StateUnsealed → cc_state (vault_step c o) ≠ StateUnsealed →
  cc_ready (vault_step c o) = cc_ready c.
Proof.
  intros [_ _ _ _ H5 _ _] Hn Hn'. assert (Hr : cc_readyClosed c = false).
  { apply not_true_is_false. by rewrite H5. }
  destruct o as [u|now|now|s e now]; simpl in *.
  - done.
  - unfold RequireSetup, resetReadyLocked in *. rewrite Hr. by destruct (String.eqb _ _).
  - unfold Seal, resetReadyLocked in *. rewrite Hr. destruct (String.eqb _ _); [done|]. by destruct (_ || _).
  - unfold Unseal, signalReadyLocked in *. destruct (_ || _); [|done].
    destruct (ensurePrimaryVenuePresent _); [done|]. simpl in *. by rewrite Hr.
Qed.

Lemma unsealing_closes c o :
  vault_inv c → cc_state c ≠ StateUnsealed → cc_state (vault_step c o) = StateUnsealed →
  cc_ready c ∈ cc_closed (vault_step c o).
Proof.
  intros [_ _ _ _ H5 _ _] Hn Hu. assert (Hr : cc_readyClosed c = false).
  { apply not_true_is_false. by rewrite H5. }
  destruct o as [u|now|now|s e now]; simpl in *.
  - done.
  - unfold RequireSetup in *. by destruct (String.eqb _ _) in Hu.
  - unfold Seal in *. destruct (String.eqb _ _) in Hu; [done|]. by destruct (_ || _) in Hu.
  - unfold Unseal, signalReadyLocked in *. destruct (_ || _); [|done].
    destruct (ensurePrimaryVenuePresent _); [done|]. simpl in *. rewrite Hr. simpl. set_solver.
Qed.

(** A caller of [WaitUntilUnsealed] is woken if and only if the vault has been
    unsealed since it started to wait, even when it has been sealed again by then:
    no wake-up is lost and none is spurious. *)
Theorem vault_wakes initial cfg before ops ch :
  starts_locked initial cfg →
  let c := vault_run before (NewController initial cfg) in
  WaitUntilUnsealed c = Some ch →
  (ch ∈ cc_closed (vault_run ops c) ↔
   ∃ n, cc_state (vault_run (take n ops) c) = StateUnsealed).
Proof.
  intros Hl c Hw. pose proof (vault_inv_run before _ (vault_inv_init _ _ Hl)) as H. fold c in H.
  clearbody c. clear Hl. unfold WaitUntilUnsealed in Hw.
  destruct (String.eqb_spec (cc_state c) StateUnsealed) as [|Hn]; [done|]. injection Hw as <-.
  revert c H Hn. induction ops as [|o ops IH]; intros c H Hn.
  - simpl. split.
    + intros Hin. destruct H as [_ _ _ _ H5 H6 _]. exfalso. by apply Hn, H5, H6.
    + intros [n Hu]. by rewrite take_nil in Hu.
  - destruct (String.eqb_spec (cc_state (vault_step c o)) StateUnsealed) as [Hu|Hu].
    + split.
      * intros _. by exists 1%nat.
      * intros _. apply (closed_mono_run ops (vault_step c o)). by apply unsealing_closes.
    + simpl. rewrite <- (locked_step c o) by done.
      rewrite (IH (vault_step c o)); [|by apply vault_inv_step|done]. split.
      * intros [n Hx]. by exists (S n).
      * intros [[|n] Hx]; [by exfalso|]. by exists n.
Qed.

(** ** Validation *)

Abbreviation VenueSecret := (@VenueSecret json).

(** [n] hexadecimal digits, with or without [0x] and surrounding spaces. *)
Definition hex_text (n : nat) (s : string) : Prop :=
  let clean := TrimPrefix (TrimSpace s) "0x" in
  String.length clean = n ∧ all_chars is_hex clean = true.

Definition venue_id (v : VenueSecret) : string := TrimSpace (vs_ID v).

Record venue_ok (v : VenueSecret) : Prop := {
  ok_id : venue_id v ≠ "";
  ok_type : blank (vs_Type v) = false;
  ok_wallet : hex_text 40 (vs_Wallet v);
  ok_key : hex_text 64 (vs_PrivateKey v);
}.

Definition primaries (l : list VenueSecret) : nat := length (filter (λ v, vs_Primary v = true) l).

Lemma hex_text_not_blank n s : (0 < n)%nat → hex_text n s → blank s = false.
Proof.
  intros Hn [Hl _]. unfold blank. apply String.eqb_neq. intros E. rewrite E in Hl. simpl in Hl. lia.
Qed.

Lemma validate_venue_spec seen (v : VenueSecret) id :
  validate_venue seen v = Ok id ↔ venue_ok v ∧ venue_id v ∉ seen ∧ id = venue_id v.
Proof.
  unfold validate_venue. fold (venue_id v). split.
  - destruct (String.eqb_spec (venue_id v) ""); [done|].
    destruct (decide (venue_id v ∈ seen)); [done|].
    destruct (blank (vs_Type v)) eqn:Ht; [done|]. destruct (blank (vs_Wallet v)) eqn:Hw; [done|].
    destruct (String.length _ =? 40)%nat eqn:H40; [|done].
    destruct (all_chars is_hex _) eqn:Hh; [|done].
    destruct (blank (vs_PrivateKey v)) eqn:Hk; [done|].
    destruct (String.length _ =? 64)%nat eqn:H64; [|done].
    destruct (all_chars is_hex (TrimPrefix (TrimSpace (vs_PrivateKey v)) "0x")) eqn:Hh'; [|done].
    intros [= <-]. apply Nat.eqb_eq in H40, H64. split_and!; [|done|done]. by split.
  - intros ([Hid Ht Hw Hk] & Hs & ->).
    apply String.eqb_neq in Hid. rewrite Hid, decide_False, Ht by done.
    rewrite (hex_text_not_blank 40) by (done || lia). rewrite (hex_text_not_blank 64 (vs_PrivateKey v)) by (done || lia).
    destruct Hw as [-> ->], Hk as [-> ->]. done.
Qed.

Lemma validate_venues_spec (l : list VenueSecret) : ∀ seen n, 0 ≤ n →
  validate_venues l seen n = None ↔
  Forall venue_ok l ∧ NoDup (venue_id <$> l) ∧ Forall (λ v, venue_id v ∉ seen) l ∧
  n + Z.of_nat (primaries l) = 1.
Proof.
  induction l as [|v l IH]; intros seen n Hn; cbn [validate_venues].
  - unfold primaries. simpl. destruct (n =? 0) eqn:E0; z_bools.
    { split; [done|]. intros (_ & _ & _ & ?). lia. }
    destruct (1 <? n) eqn:E1; z_bools; split; try done.
    + intros (_ & _ & _ & ?). lia.
    + intros _. split_and!; [by constructor|by constructor|by constructor|lia].
  - assert (Hp : Z.of_nat (primaries (v :: l)) =
      (if vs_Primary v then 1 else 0) + Z.of_nat (primaries l)).
    { unfold primaries. destruct (vs_Primary v) eqn:E;
        [rewrite filter_cons_True by done|rewrite filter_cons_False by congruence]; simpl; lia. }
    rewrite Hp, !Forall_cons, fmap_cons, NoDup_cons.
    destruct (validate_venue seen v) as [id|e] eqn:Hv.
    + apply validate_venue_spec in Hv as (Hok & Hs & ->).
      rewrite IH by (destruct (vs_Primary v); lia). rewrite !Forall_forall.
      assert (Hnin : venue_id v ∉ (venue_id <$> l) ↔ ∀ x, x ∈ l → venue_id x ≠ venue_id v).
      { rewrite list_elem_of_fmap. naive_solver. }
      rewrite Hnin. setoid_rewrite not_elem_of_union. setoid_rewrite not_elem_of_singleton.
      destruct (vs_Primary v); split; intros; destruct_and!; split_and!; try done; try lia; naive_solver.
    + split; [done|]. intros ([Hok _] & _ & [Hs _] & _). exfalso.
      assert (validate_venue seen v = Ok (venue_id v)); [|congruence].
      by apply validate_venue_spec.
Qed.

Lemma tier_not_blank raw : is_ok (ParseThreeCommasPlanTier raw) = true → blank raw = false.
Proof.
  unfold ParseThreeCommasPlanTier, normalizeThreeCommasPlanTier, blank. intros H.
  apply String.eqb_neq. intros E. by rewrite E in H.
Qed.

(** What validation accepts: the three account fields are there, the tier is one of
    the three, and the venues are absent altogether or all well formed (an id, a
    type, a wallet of 40 and a key of 64 hexadecimal digits), under distinct ids,
    with exactly one primary among them. *)
Theorem Validate_spec (d : @Data json) :
  Validate d = None ↔
  blank (THREECOMMASAPIKEY d) = false ∧ blank (THREECOMMASPRIVATEKEY d) = false ∧
  is_ok (ParseThreeCommasPlanTier (THREECOMMASPLANTIER d)) = true ∧
  (Venues d = [] ∨
   Forall venue_ok (Venues d) ∧ NoDup (venue_id <$> Venues d) ∧ primaries (Venues d) = 1%nat).
Proof.
  unfold Validate. destruct (blank (THREECOMMASAPIKEY d)); [split; [done|by intros [? _]]|].
  destruct (blank (THREECOMMASPRIVATEKEY d)); [split; [done|by intros (_ & ? & _)]|].
  pose proof (tier_not_blank (THREECOMMASPLANTIER d)) as Ht.
  destruct (blank (THREECOMMASPLANTIER d)).
  { split; [done|]. intros (_ & _ & H & _). by specialize (Ht H). }
  destruct (ParseThreeCommasPlanTier _); [|split; [done|by intros (_ & _ & ? & _)]].
  destruct (Venues d) as [|v l] eqn:Hv; [split; [|done]; by auto|].
  rewrite validate_venues_spec by done. split.
  - intros (H1 & H2 & _ & H4). split_and!; try done. right. split_and!; try done. lia.
  - intros (_ & _ & _ & [?|(H1 & H2 & H4)]); [done|]. split_and!; try done; [|lia].
    apply Forall_forall. intros x _. apply not_elem_of_empty.
Qed.

Lemma primaries_exists l : (0 < primaries l)%nat → existsb vs_Primary l = true.
Proof.
  induction l as [|v l IH]; unfold primaries; [simpl; lia|].
  destruct (vs_Primary v) eqn:E; [simpl; by rewrite E|].
  rewrite filter_cons_False by congruence. simpl. rewrite E. apply IH.
Qed.

(** A validated payload may lock its owner out: validation calls the venues optional,
    but the secrets of a payload without venues can never unseal the vault again,
    and they are the only validated secrets that cannot. *)
Theorem validated_unseals (d : @Data json) initial cfg ops raw at_ e now :
  starts_locked initial cfg → Validate d = None →
  let c := vault_run ops (NewController initial cfg) in
  ((Unseal (mkSecrets d raw at_) e now c).1 = None ↔ Venues d ≠ []) ∧
  (Venues d = [] → (Unseal (mkSecrets d raw at_) e now c).1 = Some ErrPrimaryVenueRequired).
Proof.
  intros Hl Hv c. pose proof (vault_inv_run ops _ (vault_inv_init _ _ Hl)) as H. fold c in H.
  assert (Hu : (Unseal (mkSecrets d raw at_) e now c).1 = ensurePrimaryVenuePresent d).
  { unfold Unseal. destruct (v_state c H) as [-> |[-> | ->]]; simpl;
      by destruct (ensurePrimaryVenuePresent d). }
  rewrite Hu. unfold ensurePrimaryVenuePresent. unfold Validate in Hv.
  destruct (blank _); [done|]. destruct (blank _); [done|]. destruct (blank _); [done|].
  destruct (ParseThreeCommasPlanTier _); [|done].
  destruct (Venues d) as [|v l] eqn:Hvs; [by split|].
  apply validate_venues_spec in Hv as (_ & _ & _ & Hp); [|done].
  rewrite primaries_exists by lia. by split.
Qed.

End Facts.

(** ** A concrete vault *)

Definition demo_wallet : string := "0x00000000000000000000000000000000000000ab".
Definition demo_key : string :=
  "00000000000000000000000000000000000000000000000000000000000000cd".
Definition demo_venue : @VenueSecret unit :=
  mkVenueSecret "hl" "hyperliquid" "HL" demo_wallet demo_key "" "" None true.
Definition demo_data (vs : list (@VenueSecret unit)) : @Data unit := mkData "key" "secret" "Pro" vs.
Definition demo_secrets : @Secrets unit := mkSecrets (demo_data [demo_venue]) None 0.
Definition demo_cfg : @controllerConfig unit := mkConfig None None None None None.
Definition demo_ops : list (@vault_op unit) := [OSeal 1; OUnseal demo_secrets (Some 9) 2; OSeal 3].

Lemma demo_locked : starts_locked StateSetupRequired demo_cfg.
Proof. split; [by left|done]. Qed.

Lemma vault_guarded_witness :
  is_Some (GetSecrets (vault_run (take 2 demo_ops) (NewController StateSetupRequired demo_cfg))) ∧
  (is_Some (GetSecrets (vault_run demo_ops (NewController StateSetupRequired demo_cfg))) ↔
   cc_state (vault_run demo_ops (NewController StateSetupRequired demo_cfg)) = StateUnsealed).
Proof.
  split; [vm_compute; eauto|].
  exact (proj1 (vault_guarded StateSetupRequired demo_cfg demo_ops demo_locked)).
Defined.

(** A caller that waits from the start is woken although the vault is sealed again. *)
Lemma vault_wakes_witness :
  0%nat ∈ cc_closed (vault_run demo_ops (NewController StateSetupRequired demo_cfg)).
Proof.
  refine (proj2 (vault_wakes StateSetupRequired demo_cfg [] demo_ops 0%nat demo_locked eq_refl) _).
  exists 2%nat. vm_compute. reflexivity.
Defined.

Example demo_valid : Validate (demo_data [demo_venue]) = None.
Proof. vm_compute. reflexivity. Qed.

Lemma validated_unseals_witness :
  Validate (demo_data []) = None ∧
  (Unseal (mkSecrets (demo_data []) None 0) None 5
     (vault_run [] (NewController StateSetupRequired demo_cfg))).1 = Some ErrPrimaryVenueRequired.
Proof.
  assert (H : Validate (demo_data []) = None) by (vm_compute; reflexivity).
  split; [exact H|].
  exact (proj2 (validated_unseals (demo_data []) StateSetupRequired demo_cfg [] None 0 None 5
    demo_locked H) eq_refl).
Defined.

End VaultFacts.
