(* ===== verification/TablesFacts.v ===== *)
(** * Laws of the tables: the order of an ORDER BY, wallet moves *)

From S2P Require Import Prelude GoFloat GoString OrderId Domain Store Tables Queries.
Import Store Tables.

Module TablesFacts.

Lemma filter_all {A} (P : A → Prop) `{∀ x, Decision (P x)} (l : list A) :
  Forall P l → filter P l = l.
Proof.
  intros H0. induction H0 as [|x l Hx _ IH]; [done|]. by rewrite filter_cons_True, IH.
Qed.

Lemma filter_none {A} (P : A → Prop) `{∀ x, Decision (P x)} (l : list A) :
  (∀ x, x ∈ l → ¬ P x) → filter P l = [].
Proof.
  intros Hl. induction l as [|x l IH]; [done|]. rewrite filter_cons_False by (apply Hl; by left).
  apply IH. intros y Hy. apply Hl. by right.
Qed.

(** ** Orders of columns *)

(** A comparison that orders its arguments totally, up to equal columns. *)
Record ordering {A} (c : A → A → Z) : Prop := {
  ord_flip : ∀ a b, Z.sgn (c b a) = - Z.sgn (c a b);
  ord_trans : ∀ x y z, c x y ≤ 0 → c y z ≤ 0 → c x z ≤ 0;
}.

Lemma by_int_ordering {A} (f : A → Z) : ordering (by_int f).
Proof. split; unfold by_int; intros; lia. Qed.
Lemma desc_ordering {A} (c : A → A → Z) : ordering c → ordering (desc c).
Proof.
  intros [Hf Ht]. split; unfold desc.
  - intros a b. specialize (Hf a b). lia.
  - intros x y z H1 H2. pose proof (Hf x y). pose proof (Hf y z). pose proof (Hf x z).
    assert (c z x ≤ 0); [|lia]. apply (Ht z y x); lia.
Qed.
#[export] Hint Resolve by_int_ordering desc_ordering : core.

Lemma lex_le_cons {A} (c : A → A → Z) cs a b :
  lex_le (c :: cs) a b = true ↔ c a b < 0 ∨ (c a b = 0 ∧ lex_le cs a b = true).
Proof.
  unfold lex_le. rewrite fmap_cons. destruct (decide (c a b = 0)) as [E|E].
  - rewrite filter_cons_False by auto. split.
    + intros H. right. by split.
    + intros [H|H]; [lia|apply H].
  - rewrite filter_cons_True by done. rewrite Z.ltb_lt. split.
    + intros H. by left.
    + intros [H|H]; [done|lia].
Qed.

Lemma lex_le_total {A} (cs : list (A → A → Z)) :
  Forall ordering cs → ∀ a b, lex_le cs a b = true ∨ lex_le cs b a = true.
Proof.
  intros H. induction H as [|c cs Hc _ IH]; intros a b; [by left|].
  rewrite !lex_le_cons. pose proof (ord_flip c Hc a b).
  destruct (IH a b), (Z.lt_total (c a b) 0) as [?|[?|?]]; intuition lia.
Qed.

Lemma lex_le_trans {A} (cs : list (A → A → Z)) :
  Forall ordering cs → ∀ x y z, lex_le cs x y = true → lex_le cs y z = true → lex_le cs x z = true.
Proof.
  intros H. induction H as [|c cs Hc _ IH]; intros x y z; [done|].
  rewrite !lex_le_cons. pose proof (ord_flip c Hc x y). pose proof (ord_flip c Hc y z).
  pose proof (ord_flip c Hc x z). pose proof (ord_trans c Hc x y z).
  pose proof (ord_trans c Hc z x y). pose proof (ord_trans c Hc y z x).
  pose proof (ord_trans c Hc z y x).
  intros [L1|[L1 L1']] [L2|[L2 L2']]; try (left; lia).
  right. split; [lia|]. by eapply IH.
Qed.

(** ** ORDER BY *)

Section order_by.
Context {A : Type} (cs : list (A → A → Z)) (Hcs : Forall ordering cs).
Abbreviation le := (lex_le cs).

Lemma order_by_perm (l : list A) : order_by le l ≡ₚ l.
Proof. apply merge_sort_Permutation. Qed.

Lemma order_by_sorted (l : list A) : StronglySorted (λ a b, Is_true (le a b)) (order_by le l).
Proof.
  apply StronglySorted_merge_sort.
  - intros x y z H1 H2. apply Is_true_eq_left, (lex_le_trans cs Hcs x y z); by apply Is_true_eq_true.
  - intros x y. destruct (lex_le_total cs Hcs x y); [left|right]; by apply Is_true_eq_left.
Qed.

Lemma elem_of_order_by x l : x ∈ order_by le l ↔ x ∈ l.
Proof. by rewrite order_by_perm. Qed.

(** Rows that the columns tell apart come in one order only. *)
Lemma order_by_unique (l k : list A) :
  (∀ x y, x ∈ l → y ∈ l → le x y = true → le y x = true → x = y) →
  StronglySorted (λ a b, Is_true (le a b)) k → k ≡ₚ l → order_by le l = k.
Proof.
  intros Hanti Hk Hp. apply (StronglySorted_unique_strong (λ a b, Is_true (le a b))).
  - intros x y Hx Hy H1 H2. rewrite elem_of_order_by in Hx. rewrite Hp in Hy.
    apply Hanti; [done..| |]; by apply Is_true_eq_true.
  - apply order_by_sorted.
  - done.
  - by rewrite order_by_perm.
Qed.

Lemma order_by_filter (P : A → Prop) `{∀ x, Decision (P x)} (l : list A) :
  (∀ x y, x ∈ l → y ∈ l → le x y = true → le y x = true → x = y) →
  order_by le (filter P l) = filter P (order_by le l).
Proof.
  intros Hanti. apply order_by_unique.
  - intros x y Hx Hy. apply Hanti; by eapply list_elem_of_filter.
  - pose proof (order_by_sorted l) as Hs. induction Hs as [|x m Hs IH Hx]; [constructor|].
    destruct (decide (P x)).
    + rewrite filter_cons_True by done. constructor; [done|].
      rewrite Forall_forall in *. intros y Hy. apply Hx. by apply list_elem_of_filter in Hy as [_ ?].
    + by rewrite filter_cons_False by done.
  - by rewrite order_by_perm.
Qed.

End order_by.

(** ** Concrete codecs, for evaluation *)

(** The texts of finitely many values. *)
Definition table_codec {A} `{EqDecision A} (l : list (string * A)) : Codec A :=
  Build_Codec A (λ a, fst <$> find (λ x, bool_decide (x.2 = a)) l)
    (λ raw, snd <$> find (λ x, String.eqb x.1 raw) l).

(** Every text that is not empty is taken for JSON and kept as it is. *)
Definition plain_json (text : string → string → option string)
    (integer : string → string → option Z) : SqliteJSON :=
  Build_SqliteJSON (λ raw, if String.eqb raw "" then None else Some raw) text integer
    (λ _ _, None).

Lemma find_text {A} (l : list (string * A)) t a :
  NoDup l.*1 → (t, a) ∈ l → find (λ x, String.eqb x.1 t) l = Some (t, a).
Proof.
  induction l as [|[t' a'] l IH]; intros Hnd Hin; [by apply elem_of_nil in Hin|].
  cbn in Hnd. apply NoDup_cons in Hnd as [Hnot Hnd]. cbn [find fst].
  apply elem_of_cons in Hin as [[= <- <-]|Hin]; [by rewrite String.eqb_refl|].
  rewrite (proj2 (String.eqb_neq _ _)); [by apply IH|]. intros ->. apply Hnot.
  apply list_elem_of_fmap. by exists (t, a).
Qed.

Lemma table_codec_laws {A} `{EqDecision A} (l : list (string * A)) text integer :
  bool_decide (NoDup l.*1 ∧ "" ∉ l.*1) = true →
  CodecLaws (H := plain_json text integer) A (H0 := table_codec l).
Proof.
  intros Hl. apply bool_decide_eq_true in Hl as [Hnd Hne].
  assert (Hmarshal : ∀ a raw, fst <$> find (λ x, bool_decide (x.2 = a)) l = Some raw →
                              (raw, a) ∈ l).
  { intros a raw Hf. apply fmap_Some in Hf as ([t a'] & Hf & ->). apply find_some in Hf as [Hin Hf].
    apply bool_decide_eq_true in Hf. cbn in *. subst. by apply list_elem_of_In. }
  assert (Htext : ∀ a raw, (raw, a) ∈ l → raw ≠ "").
  { intros a raw Hin ->. apply Hne, list_elem_of_fmap. by exists (""%string, a). }
  split; cbn; intros a raw Hm.
  - by eapply Htext, Hmarshal.
  - apply Hmarshal, Htext in Hm. rewrite (proj2 (String.eqb_neq _ _)) by done. eauto.
  - apply Hmarshal in Hm. by rewrite (find_text l raw a).
  - destruct (String.eqb_spec a ""); [done|]. by injection Hm as <-.
Qed.

End TablesFacts.
