(* ===== verification/Paging.v ===== *)
(** * Pages of the listings: what following the tokens shows *)

From Stdlib Require Import Ascii.
From S2P Require Import Prelude GoFloat GoString OrderId Domain Store Tables Queries Stream.
From S2P Require Import Storage ScalerStorage StorageApi TablesFacts.
Import GoFloat GoString Domain Store Tables Storage StorageApi TablesFacts.

Module Paging.

(** ** Tokens *)

Lemma byte_of_digit n : 0 ≤ n < 10 → byte_of (of_byte (byte_of "0" + n)) = 48 + n.
Proof.
  intros Hn. change (byte_of "0") with 48. unfold byte_of, of_byte.
  rewrite Z.mod_small by lia. rewrite N_ascii_embedding; lia.
Qed.

Fixpoint all_chars (P : ascii → bool) (s : string) : bool :=
  match s with EmptyString => true | String c s => P c && all_chars P s end.

Lemma parse_digits_loop fuel n acc s :
  0 ≤ n < 2 ^ Z.of_nat fuel → 0 ≤ acc →
  ∃ k, 0 ≤ k ∧ n < 10 ^ k ∧
  parse_digits acc (digits_loop fuel n s) = parse_digits (acc * 10 ^ k + n) s.
Proof.
  revert n acc s. induction fuel as [|fuel IH]; intros n acc s Hn Hacc.
  { change (2 ^ Z.of_nat 0) with 1 in Hn. exists 0. cbn [digits_loop]. rewrite Z.pow_0_r.
    split; [lia|]. split; [lia|]. f_equal. lia. }
  cbn [digits_loop]. assert (Hd : 0 ≤ n mod 10 < 10) by (apply Z.mod_pos_bound; lia).
  assert (Hdiv := Z.div_mod n 10 ltac:(lia)).
  assert (Hchar : ∀ a, parse_digits a (String (of_byte (byte_of "0" + n mod 10)) s) =
                       parse_digits (10 * a + n mod 10) s).
  { intros a. cbn [parse_digits]. unfold is_digit, between. rewrite byte_of_digit by done.
    change (byte_of "0") with 48. change (byte_of "9") with 57.
    rewrite (proj2 (Z.leb_le _ _)), (proj2 (Z.leb_le _ _)) by lia. cbn [andb]. f_equal. lia. }
  destruct (Z.ltb_spec n 10).
  - exists 1. split; [lia|]. split; [lia|]. rewrite Hchar. f_equal.
    rewrite Z.mod_small by lia. lia.
  - destruct (IH (n / 10) acc (String (of_byte (byte_of "0" + n mod 10)) s)) as (k & Hk & Hlt & ->).
    { split; [apply Z.div_pos; lia|]. apply Z.div_lt_upper_bound; [lia|].
      rewrite Nat2Z.inj_succ, Z.pow_succ_r in Hn by lia. lia. }
    { done. }
    exists (k + 1). split; [lia|]. rewrite Z.pow_add_r by lia. split; [lia|].
    rewrite Hchar. f_equal. lia.
Qed.

Lemma all_digits_loop P fuel n s :
  (∀ d, 0 ≤ d < 10 → P (of_byte (byte_of "0" + d)) = true) →
  all_chars P s = true → all_chars P (digits_loop fuel n s) = true.
Proof.
  intros HP. revert n s. induction fuel as [|fuel IH]; intros n s Hs; [done|]. cbn [digits_loop].
  assert (Hc : all_chars P (String (of_byte (byte_of "0" + n mod 10)) s) = true).
  { cbn [all_chars]. rewrite HP by (apply Z.mod_pos_bound; lia). done. }
  case_match; [done|]. by apply IH.
Qed.

Lemma digits_bound n : 0 ≤ n → n < 2 ^ Z.of_nat (S (Z.to_nat (Z.log2 n))).
Proof.
  intros Hn. rewrite Nat2Z.inj_succ, Z2Nat.id by apply Z.log2_nonneg.
  destruct (decide (n = 0)) as [->|]; [done|]. apply Z.log2_spec. lia.
Qed.

Lemma parse_digits_digits n : 0 ≤ n → parse_digits 0 (digits n) = Some n.
Proof.
  intros Hn. unfold digits.
  destruct (parse_digits_loop (S (Z.to_nat (Z.log2 n))) n 0 EmptyString) as (k & _ & _ & ->);
    [split; [done|by apply digits_bound]|done|]. by simpl.
Qed.

Definition token_char (c : ascii) : bool := is_digit c || Ascii.eqb c "-".

(** A digit, for the characters of an integer. *)
Lemma digit_chars (P : ascii → bool) :
  forallb (λ d, P (of_byte (byte_of "0" + d))) [0;1;2;3;4;5;6;7;8;9] = true →
  ∀ d, 0 ≤ d < 10 → P (of_byte (byte_of "0" + d)) = true.
Proof.
  intros H d Hd. rewrite forallb_forall in H. apply H.
  assert (d = 0 ∨ d = 1 ∨ d = 2 ∨ d = 3 ∨ d = 4 ∨ d = 5 ∨ d = 6 ∨ d = 7 ∨ d = 8 ∨ d = 9) by lia.
  simpl. naive_solver.
Qed.

Lemma all_digits n : all_chars is_digit (digits n) = true.
Proof. apply all_digits_loop; [|done]. apply digit_chars. by vm_compute. Qed.

Lemma all_chars_mono (P Q : ascii → bool) s :
  (∀ c, P c = true → Q c = true) → all_chars P s = true → all_chars Q s = true.
Proof.
  intros H. induction s as [|c s IH]; [done|]. cbn [all_chars]. rewrite !andb_true_iff.
  intros [H1 H2]. auto.
Qed.

Lemma all_Itoa n : all_chars token_char (Itoa n) = true.
Proof.
  assert (Hd : ∀ m, all_chars token_char (digits m) = true).
  { intros m. apply (all_chars_mono is_digit); [|apply all_digits]. intros c Hc.
    unfold token_char. by rewrite Hc. }
  unfold Itoa. case_match; [|done]. cbn. apply Hd.
Qed.

Lemma digits_nonempty n : digits n ≠ EmptyString.
Proof.
  unfold digits. cbn [digits_loop].
  assert (H : ∀ fuel m c s, digits_loop fuel m (String c s) ≠ EmptyString).
  { intros fuel. induction fuel as [|fuel IH]; intros m c s; [done|]. cbn [digits_loop].
    case_match; [done|apply IH]. }
  case_match; [done|apply H].
Qed.

(** [ParseInt] reads back what [%d] writes of a 64-bit integer. *)
Lemma ParseInt_Itoa n : - 2 ^ 63 ≤ n < 2 ^ 63 → ParseInt (Itoa n) = Some n.
Proof.
  intros Hn. unfold Itoa. destruct (Z.ltb_spec n 0).
  - pose proof (parse_digits_digits (- n) ltac:(lia)) as Hp.
    destruct (digits (- n)) eqn:E; [by apply digits_nonempty in E|].
    change (ParseInt ("-" +:+ String a s)) with
      (m ← parse_digits 0 (String a s); if m <=? 2 ^ 63 then Some (- m) else None).
    rewrite Hp. cbn. rewrite (proj2 (Z.leb_le _ _)) by lia. f_equal. lia.
  - pose proof (all_digits n) as Hall. pose proof (parse_digits_digits n ltac:(lia)) as Hp.
    destruct (digits n) as [|c s] eqn:E; [by apply digits_nonempty in E|].
    cbn [all_chars] in Hall. apply andb_true_iff in Hall as [Hc _].
    assert (ParseInt (String c s) =
      m ← parse_magnitude (String c s); if m <? 2 ^ 63 then Some m else None) as ->.
    { destruct c as [[][][][][][][][]]; try done; by vm_compute in Hc. }
    cbn [parse_magnitude]. rewrite Hp. cbn. by rewrite (proj2 (Z.ltb_lt _ _)) by lia.
Qed.

Lemma split_on_none c s :
  all_chars (λ x, negb (Ascii.eqb x c)) s = true → split_on c s = [s].
Proof.
  induction s as [|x s IH]; [done|]. cbn [all_chars split_on]. rewrite andb_true_iff.
  intros [Hx Hs]. apply negb_true_iff in Hx. by rewrite Hx, IH.
Qed.

Lemma split_on_app c s t :
  all_chars (λ x, negb (Ascii.eqb x c)) s = true →
  split_on c (s +:+ String c t) = s :: split_on c t.
Proof.
  induction s as [|x s IH].
  { intros _. change (EmptyString +:+ String c t) with (String c t). cbn [split_on].
    by rewrite Ascii.eqb_refl. }
  change (String x s +:+ String c t) with (String x (s +:+ String c t)).
  cbn [all_chars split_on]. rewrite andb_true_iff.
  intros [Hx Hs]. apply negb_true_iff in Hx. by rewrite Hx, IH.
Qed.

Lemma token_char_no_colon s :
  all_chars token_char s = true → all_chars (λ x, negb (Ascii.eqb x cursorSeparator)) s = true.
Proof.
  apply all_chars_mono. intros c Hc. by destruct c as [[][][][][][][][]]; vm_compute in Hc |- *.
Qed.

(** A token gives back the two numbers it was made of. *)
Lemma decode_encodeCursor a b :
  - 2 ^ 63 ≤ a < 2 ^ 63 → - 2 ^ 63 ≤ b < 2 ^ 63 → decodeCursor (encodeCursor a b) = Some (a, b).
Proof.
  intros Ha Hb. unfold decodeCursor, encodeCursor.
  rewrite split_on_app, split_on_none by apply token_char_no_colon, all_Itoa.
  by rewrite !ParseInt_Itoa.
Qed.

Lemma encodeCursor_nonempty a b : encodeCursor a b ≠ EmptyString.
Proof. unfold encodeCursor. by destruct (Itoa a). Qed.

(** ** One page *)

Definition columns {A} (key : A → Z * Z) : list (A → A → Z) :=
  [desc (by_int (fst ∘ key)); desc (by_int (snd ∘ key))].

Lemma columns_ordering {A} (key : A → Z * Z) : Forall ordering (columns key).
Proof. unfold columns. rewrite !Forall_cons, Forall_nil. auto. Qed.

Definition after (c k : Z * Z) : bool := (k.1 <? c.1) || ((k.1 =? c.1) && (k.2 <? c.2)).

Section page.
Context {A : Type} (key : A → Z * Z) (P : A → bool) (rows : list A).
Hypothesis Hkeys : NoDup (key <$> rows).

Abbreviation le := (lex_le (columns key)).

(** All the rows of the listing, newest first. *)
Definition listing : list A := order_by le (filter (λ r, Is_true (P r)) rows).

Lemma le_after x r : le x r = negb (after (key r) (key x)).
Proof.
  apply eq_true_iff_eq. unfold columns. rewrite !lex_le_cons. unfold desc, by_int, after, compose.
  rewrite negb_true_iff, orb_false_iff, andb_false_iff, !Z.ltb_ge, Z.eqb_neq.
  unfold lex_le. cbn. intuition lia.
Qed.

Lemma le_antisym x y : x ∈ rows → y ∈ rows → le x y = true → le y x = true → x = y.
Proof.
  intros Hx Hy H1 H2. rewrite le_after in H1, H2. unfold after in *.
  assert (key x = key y) as E.
  { destruct (key x) as [a b], (key y) as [a' b']. cbn in *.
    apply negb_true_iff, orb_false_iff in H1 as [? H1], H2 as [? H2].
    apply andb_false_iff in H1, H2. z_bools. rewrite Z.eqb_neq, Z.ltb_ge in *. f_equal; lia. }
  apply list_elem_of_lookup in Hx as [i Hi], Hy as [j Hj].
  assert (i = j) as ->; [|congruence].
  apply (NoDup_lookup _ i j (key x) Hkeys); rewrite list_lookup_fmap, ?Hi, ?Hj; cbn; congruence.
Qed.

Lemma listing_sorted : StronglySorted (λ a b, Is_true (le a b)) listing.
Proof. apply order_by_sorted, columns_ordering. Qed.

Lemma listing_rows x : x ∈ listing → x ∈ rows.
Proof.
  unfold listing. rewrite elem_of_order_by by apply columns_ordering.
  intros H. by apply list_elem_of_filter in H as [_ ?].
Qed.

Lemma listing_NoDup : NoDup listing.
Proof.
  unfold listing. rewrite order_by_perm. apply NoDup_filter.
  by apply NoDup_fmap_1 in Hkeys.
Qed.

(** In a listing the rows after the [i]-th are those after its key. *)
Lemma filter_after l i r :
  StronglySorted (λ a b, Is_true (le a b)) l → NoDup l → (∀ x, x ∈ l → x ∈ rows) →
  l !! i = Some r → filter (λ x, Is_true (after (key r) (key x))) l = drop (S i) l.
Proof.
  intros Hs. revert i. induction Hs as [|x l Hs IH Hx]; intros i Hnd Hl Hi; [done|].
  apply NoDup_cons in Hnd as [Hxl Hnd]. rewrite Forall_forall in Hx.
  assert (Hsub : ∀ y, y ∈ l → y ∈ rows) by (intros y Hy; apply Hl; by right).
  destruct i as [|i].
  - injection Hi as <-. cbn [drop]. rewrite filter_cons_False.
    + rewrite drop_0. apply filter_all. rewrite Forall_forall. intros y Hy.
      apply Is_true_eq_left. destruct (after (key x) (key y)) eqn:E; [done|].
      assert (le y x = true) by (by rewrite le_after, E).
      assert (x = y) as ->; [|done].
      apply le_antisym; [apply Hl; by left|by apply Hsub| |done]. by apply Is_true_eq_true, Hx.
    + unfold after. rewrite !Z.ltb_irrefl, andb_false_r. by intros [].
  - cbn in Hi. cbn [drop]. rewrite filter_cons_False.
    + by apply IH.
    + apply list_elem_of_lookup_2, Hx, Is_true_eq_true in Hi. rewrite le_after in Hi.
      apply negb_true_iff in Hi. rewrite Hi. by intros [].
Qed.

Lemma page_first n : page_rows key P None n rows = take (Z.to_nat (n + 1)) listing.
Proof.
  unfold page_rows, listing, columns. do 2 f_equal. apply list_filter_iff. intros x. cbn.
  by rewrite andb_true_r.
Qed.

Lemma page_next n i r :
  listing !! i = Some r →
  page_rows key P (Some (key r)) n rows = take (Z.to_nat (n + 1)) (drop (S i) listing).
Proof.
  intros Hi. unfold page_rows. f_equal.
  rewrite <- (filter_after listing i r); [|apply listing_sorted|apply listing_NoDup|
    apply listing_rows|done].
  unfold listing. rewrite <- order_by_filter.
  - fold (columns key). f_equal. rewrite list_filter_filter. apply list_filter_iff.
    intros x. cbn. fold (after (key r) (key x)). destruct (P x), (after _ _); cbn; tauto.
  - apply columns_ordering.
  - intros x y Hx Hy. apply le_antisym; by eapply list_elem_of_filter.
Qed.

End page.

(** ** All the pages *)

(** The tokens are followed to the end, at most [fuel] pages. *)
Fixpoint follow {B} (fuel : nat) (fetch : string → result store_error (list B * option string))
    (token : string) : option (list B) :=
  match fuel with
  | O => None
  | S fuel =>
    match fetch token with
    | Err _ => None
    | Ok (items, None) => Some items
    | Ok (items, Some next) => app items <$> follow fuel fetch next
    end
  end.

#[local] Arguments Nat.modulo : simpl never.

(** Of [n + 1] consecutive elements the last is left out. *)
Definition but_every {B} (n : nat) (l : list B) : list B :=
  omap id (imap (λ i x, if (i mod S n =? n)%nat then None else Some x) l).

Lemma omap_id_Some {B} (l : list B) : omap id (Some <$> l) = l.
Proof. induction l as [|x l IH]; [done|]. cbn. by rewrite IH. Qed.

Lemma but_every_short {B} n (l : list B) : (length l <= n)%nat → but_every n l = l.
Proof.
  intros Hl. unfold but_every. rewrite <- (omap_id_Some l) at 2. f_equal.
  rewrite <- (imap_const Some). apply imap_ext. intros i x Hi. apply lookup_lt_Some in Hi.
  rewrite Nat.mod_small by lia. rewrite (proj2 (Nat.eqb_neq _ _)) by lia. done.
Qed.

Lemma but_every_app {B} n (l1 l2 : list B) :
  length l1 = S n → but_every n (l1 ++ l2) = take n l1 ++ but_every n l2.
Proof.
  intros Hl. unfold but_every. rewrite imap_app, omap_app. f_equal.
  - destruct l1 as [|z k _] using rev_ind; [done|]. rewrite length_app in Hl. cbn in Hl.
    assert (length k = n) as <- by lia. rewrite take_app_length, imap_app, omap_app. cbn.
    rewrite Nat.add_0_r, Nat.mod_small, Nat.eqb_refl by lia. rewrite app_nil_r.
    by apply but_every_short.
  - f_equal. apply imap_ext. intros i x _. rewrite Hl.
    replace (S n + i)%nat with (i + 1 * S n)%nat by lia. by rewrite Nat.Div0.mod_add.
Qed.

Section follow.
Context {A B : Type} (key : A → Z * Z) (P : A → bool) (rows : list A) (dec : A → option B).
Context (limit : Z) (fetch : string → result store_error (list B * option string)).
Hypothesis Hkeys : NoDup (key <$> rows).
Hypothesis Hrange : ∀ r, r ∈ rows →
  - 2 ^ 63 ≤ (key r).1 < 2 ^ 63 ∧ - 2 ^ 63 ≤ (key r).2 < 2 ^ 63.
Hypothesis Hlimit : 0 < limit.
(** A page is cut from the rows after its cursor and decoded. *)
Hypothesis Hfetch : ∀ token c, cursor_of token = Ok c →
  ∀ items next, cut_page limit key (page_rows key P c limit rows) = (items, next) →
  ∀ out, mapM dec items = Some out → fetch token = Ok (out, next).

Abbreviation L := (listing key P rows).

Lemma follow_from fuel token i k out :
  (cursor_of token = Ok None ∧ i = 0%nat) ∨
  (∃ j r, L !! j = Some r ∧ cursor_of token = Ok (Some (key r)) ∧ i = S j) →
  k = drop i L → mapM dec k = Some out → (length k < fuel)%nat →
  follow fuel fetch token = Some (but_every (Z.to_nat limit) out).
Proof.
  revert token i k out. induction fuel as [|fuel IH]; intros token i k out Htok -> Hdec Hfuel; [lia|].
  assert (∃ c, cursor_of token = Ok c ∧
               page_rows key P c limit rows = take (Z.to_nat (limit + 1)) (drop i L)) as (c & Hc & Hpage).
  { destruct Htok as [[Hc ->]|(j & r & Hj & Hc & ->)]; eexists; (split; [exact Hc|]).
    - by rewrite page_first, drop_0.
    - by apply page_next. }
  clear Htok. set (l := drop i L) in *. replace (Z.to_nat (limit + 1)) with (S (Z.to_nat limit)) in Hpage by lia.
  pose proof (Hfetch token c Hc) as Hf. rewrite Hpage in Hf. unfold cut_page in Hf.
  rewrite length_take in Hf. set (n := Z.to_nat limit) in *.
  pose proof (Forall2_length _ _ _ (mapM_Some_1 _ _ _ Hdec)) as Hlen.
  cbn [follow]. destruct (decide (length l <= n)%nat) as [Hle|Hgt].
  - rewrite (proj2 (Z.ltb_ge _ _)) in Hf by lia. rewrite take_ge in Hf by lia.
    rewrite (Hf _ _ eq_refl out Hdec). by rewrite but_every_short by lia.
  - rewrite (proj2 (Z.ltb_lt _ _)) in Hf by lia. rewrite take_take, Nat.min_l in Hf by lia.
    destruct (lookup_lt_is_Some_2 l n) as [r Hr]; [lia|].
    rewrite lookup_take_lt, Hr in Hf by lia. cbn in Hf.
    assert (Hout : mapM dec (take n l) = Some (take n out) ∧
                   mapM dec (drop (S n) l) = Some (drop (S n) out)).
    { rewrite !mapM_Some in *. split; [by apply Forall2_take|by apply Forall2_drop]. }
    destruct Hout as [Htake Hdrop]. rewrite (Hf _ _ eq_refl _ Htake).
    assert (HrL : L !! (i + n)%nat = Some r) by (by rewrite <- lookup_drop).
    assert (Hmem : r ∈ rows) by (eapply listing_rows, list_elem_of_lookup_2; exact HrL).
    rewrite (IH _ (S (i + n)) (drop (S n) l) (drop (S n) out)); [| |
      unfold l; rewrite drop_drop; f_equal; lia|done|rewrite length_drop; lia].
    + cbn. f_equal. rewrite <- (take_drop (S n) out) at 3. rewrite but_every_app.
      * f_equal. rewrite take_take. f_equal. lia.
      * rewrite length_take. lia.
    + right. exists (i + n)%nat, r. split; [done|]. split; [|done].
      unfold cursor_of. rewrite (proj2 (String.eqb_neq _ _)) by apply encodeCursor_nonempty.
      destruct (Hrange r Hmem). rewrite decode_encodeCursor by done. by destruct (key r).
Qed.

Lemma follow_all out :
  mapM dec L = Some out →
  follow (S (length L)) fetch "" = Some (but_every (Z.to_nat limit) out).
Proof. intros Hdec. apply (follow_from _ "" 0 L); [by left|by rewrite drop_0|done|lia]. Qed.

End follow.

Lemma length_but_every {B} n (l : list B) : (length (but_every n l) <= length l)%nat.
Proof.
  unfold but_every. rewrite <- (length_imap (λ i x, if (i mod S n =? n)%nat then None else Some x) l).
  generalize (imap (λ i x, if (i mod S n =? n)%nat then None else Some x) l) as k.
  induction k as [|[x|] k IH]; cbn; lia.
Qed.

(** Nothing is left out exactly when everything fits on one page. *)
Lemma but_every_complete {B} n (l : list B) : but_every n l = l ↔ (length l <= n)%nat.
Proof.
  split; [|apply but_every_short]. intros E.
  destruct (decide (length l <= n)%nat) as [|Hgt]; [done|exfalso].
  rewrite <- (take_drop (S n) l) in E at 1.
  rewrite but_every_app in E by (rewrite length_take; lia).
  apply (f_equal length) in E. rewrite length_app, !length_take in E.
  pose proof (length_but_every n (drop (S n) l)) as H. rewrite length_drop in H. lia.
Qed.

(** ** The listing of the deals *)

Definition with_token (token : string) (opts : ListDealsOptions) : ListDealsOptions :=
  mkDealsOptions (ld_DealID opts) (ld_BotID opts) (ld_UpdatedFrom opts) (ld_UpdatedTo opts)
    (ld_Limit opts) token.

(** The deals that the filters let through, newest first. *)
Definition all_deals (opts : ListDealsOptions) (s : Storage) : list (Z * deal_row) :=
  listing deal_key (deal_wanted opts) (map_to_list (db_deals (sg_db s))).

(** A client that reads the listing page by page. *)
Definition read_deals {json_deal : Codec TcDeal} (fuel : nat) (opts : ListDealsOptions)
    (s : Storage) : option (list TcDeal) :=
  follow fuel (λ token, (ListDeals (with_token token opts) s).1) "".

Definition is_i64 (z : Z) : Prop := - 2 ^ 63 ≤ z < 2 ^ 63.

(** C28.  Following the page tokens of the deals ends within a page per deal, and what
    has been read then is every deal but the last of each [limit + 1]: the token
    of a page is made from the first row that did not fit, and the next page
    starts after it.  So the reading is complete only when one page holds all. *)
Theorem deals_pages {json_deal : Codec TcDeal} (opts : ListDealsOptions) (s : Storage)
    (deals : list TcDeal)
    (Hlimit : 0 < ld_Limit opts)
    (Hrange : map_Forall (λ id row, is_i64 id ∧ is_i64 (de_updated_at_utc row))
                (db_deals (sg_db s)))
    (Hdec : mapM decode_deal (all_deals opts s) = Some deals) :
  let n := Z.to_nat (ld_Limit opts) in
  read_deals (S (length deals)) opts s = Some (but_every n deals) ∧
  (but_every n deals = deals ↔ (length deals <= n)%nat).
Proof.
  cbn zeta. split; [|apply but_every_complete].
  rewrite <- (Forall2_length _ _ _ (mapM_Some_1 _ _ _ Hdec)). unfold read_deals, all_deals.
  apply (follow_all deal_key (deal_wanted opts) _ decode_deal (ld_Limit opts)); [| |done| |done].
  - apply (NoDup_fmap_1 snd). rewrite <- list_fmap_compose. apply NoDup_fst_map_to_list.
  - intros [id row] Hr%elem_of_map_to_list. cbn. split; apply (Hrange id row Hr).
  - intros token c Hc items next Hpage out Hout. unfold ListDeals, page_limit. cbn.
    rewrite (proj2 (Z.leb_gt _ _)) by done. rewrite Hc. cbn.
    change (deal_wanted (with_token token opts)) with (deal_wanted opts).
    sto_run. by rewrite Hpage, Hout.
Qed.

(** Three deals read one at a time: the second is never shown. *)
Definition demo_deal (id : Z) : TcDeal := mkTcDeal id 7 false "bought" "DOGE" second [].
Definition demo_codec : Codec TcDeal :=
  Build_Codec TcDeal (λ d, Some (Itoa (dl_Id d))) (λ raw, demo_deal <$> parse_magnitude raw).
Definition demo_storage : Storage :=
  mkStorage (with_deals (list_to_map [(1, mkDealRow 7 0 300 "1"); (2, mkDealRow 7 0 200 "2");
                                      (3, mkDealRow 7 0 100 "3")]) empty_database) None.
Definition demo_options : ListDealsOptions := mkDealsOptions None None None None 1 "".

Lemma deals_pages_witness :
  0 < 1 ∧ read_deals (json_deal := demo_codec) 4 demo_options demo_storage =
            Some [demo_deal 1; demo_deal 3].
Proof.
  split; [lia|].
  apply (deals_pages (json_deal := demo_codec) demo_options demo_storage
           [demo_deal 1; demo_deal 2; demo_deal 3]).
  - vm_compute. reflexivity.
  - refine (proj1 (bool_decide_spec _) _). vm_compute. exact I.
  - vm_compute. reflexivity.
Defined.

End Paging.
