(* ===== verification/StorageFacts.v ===== *)
(** * What the storage remembers: submissions and statuses *)

From S2P Require Import Prelude GoFloat GoString OrderId Domain Store Tables Queries Stream.
From S2P Require Import Storage TablesFacts.
Import GoFloat GoString Domain Store Tables Storage TablesFacts.

Module StorageFacts.

(** ** Running operations *)

(** Publishing does not touch the database and never fails. *)
Lemma publish_db now evt s :
  ∃ l, publishStreamEventLocked now evt s = (Ok tt, mkStorage (sg_db s) l).
Proof. destruct s as [d [l|]]; cbn; eauto. Qed.

Section facts.
Context {sqlite : SqliteJSON} {R : GoRange}.
Context {json_event : Codec TcBotEvent} {json_status : Codec WsOrder}.
Context {json_create : Codec CreateOrderRequest} {json_modify : Codec ModifyOrderRequest}
  {json_cancel : Codec CancelOrderRequestByCloid}.

Lemma publish_submission_db now ident sub row s :
  ∃ l, publishHyperliquidSubmissionLocked now ident sub row s = (Ok tt, mkStorage (sg_db s) l).
Proof.
  unfold publishHyperliquidSubmissionLocked. destruct s as [d [l|]]; [|cbn; eauto].
  apply publish_db.
Qed.

(** ** The journal of submissions *)

Context {laws_create : CodecLaws CreateOrderRequest} {laws_modify : CodecLaws ModifyOrderRequest}
  {laws_cancel : CodecLaws CancelOrderRequestByCloid}.

(** A call of one of the three operations that record what was sent. *)
Inductive submit :=
| Create (now : Z) (ident : OrderIdentifier) (req : CreateOrderRequest) (row : Z)
| Modify (now : Z) (ident : OrderIdentifier) (req : ModifyOrderRequest) (row : Z)
| Cancel (now : Z) (ident : OrderIdentifier) (req : CancelOrderRequestByCloid) (row : Z).

Definition run_submit (op : submit) : Sto unit :=
  match op with
  | Create now ident req row => RecordHyperliquidOrderRequest now ident req row
  | Modify now ident req row => AppendHyperliquidModify now ident req row
  | Cancel now ident req row => RecordHyperliquidCancel now ident req row
  end.

Definition run_submits (ops : list submit) (s : Storage) : Storage :=
  fold_left (λ s op, (run_submit op s).2) ops s.

(** The specification: an order has the last request of each kind, and the kind
    of the last request of all. *)
Definition submit_ident (op : submit) : OrderIdentifier :=
  match op with
  | Create _ ident _ _ | Modify _ ident _ _ | Cancel _ ident _ _ => ident
  end.

Definition same_order (a b : OrderIdentifier) : bool :=
  bool_decide (key_of (ensureIdentifier a) = key_of (ensureIdentifier b)).

Definition remember (prev : option Action) (op : submit) : option Action :=
  let a := default zero_action prev in
  match op with
  | Create _ _ req _ =>
    match Marshal req with Some _ => Some (mkAction ActionCreate req (ac_Modify a) (ac_Cancel a) "") | None => prev end
  | Modify _ _ req _ =>
    match Marshal req with Some _ => Some (mkAction ActionModify (ac_Create a) req (ac_Cancel a) "") | None => prev end
  | Cancel _ _ req _ =>
    match Marshal req with Some _ => Some (mkAction ActionCancel (ac_Create a) (ac_Modify a) req "") | None => prev end
  end.

Definition remembered (ident : OrderIdentifier) (ops : list submit) : option Action :=
  fold_left remember (filter (λ op, Is_true (same_order (submit_ident op) ident)) ops) None.

(** ** Rows and the actions they stand for *)

Definition kind_text (t : ActionType) : string :=
  match t with
  | ActionCreate => hyperliquidSubmissionActionCreate
  | ActionModify => hyperliquidSubmissionActionModify
  | _ => hyperliquidSubmissionActionCancel
  end.

(** A nullable payload holds a request, or its absence the zero value. *)
Definition holds {A} `{Codec A} (zero : A) (col : option string) (a : A) : Prop :=
  match col with
  | Some raw => raw ≠ "" ∧ Unmarshal raw = Some a
  | None => a = zero
  end.

Record represents (row : submission_row) (a : Action) : Prop := {
  rep_kind : sr_action_kind row = kind_text (ac_Type a);
  rep_type : ac_Type a ≠ ActionNone;
  rep_create : holds zero_create (sr_create_payload row) (ac_Create a);
  rep_modify : ∃ ms, mapM Unmarshal (sr_modify_payloads row) = Some ms ∧
                     ac_Modify a = default zero_modify (last ms);
  rep_cancel : holds zero_cancel (sr_cancel_payload row) (ac_Cancel a);
  rep_create_some : ac_Type a = ActionCreate → sr_create_payload row ≠ None;
  rep_modify_some : ac_Type a = ActionModify → sr_modify_payloads row ≠ [];
  rep_cancel_some : ac_Type a = ActionCancel → sr_cancel_payload row ≠ None;
  rep_reason : ac_Reason a = "";
}.

Definition row_represents (r : option submission_row) (a : option Action) : Prop :=
  match r, a with
  | Some row, Some a => represents row a
  | None, None => True
  | _, _ => False
  end.

Lemma decode_column {A} `{Codec A} (zero : A) col a :
  holds zero col a → ∃ o, decode_request (column col) = Ok o ∧ default zero o = a ∧
                          (col ≠ None → o = Some a).
Proof.
  destruct col as [raw|]; cbn; unfold decode_request, column; cbn.
  - intros [Hne Hu]. rewrite (proj2 (String.eqb_neq _ _)) by done. rewrite Hu. eauto.
  - intros ->. exists None. by split_and!.
Qed.

(** Loading the row of an order gives the action it stands for. *)
Lemma load_represents ident s a :
  row_represents (db_submissions (sg_db s) !! key_of (ensureIdentifier ident)) a →
  LoadHyperliquidSubmission ident s = (Ok a, s).
Proof.
  intros Hrep. unfold LoadHyperliquidSubmission, Queries.FetchHyperliquidSubmission. sto_run.
  destruct (db_submissions (sg_db s) !! _) as [row|], a as [a|]; try done.
  destruct Hrep as [Hk Ht Hc (ms & Hms & Hm) Hca Hc1 Hm1 Hca1 Hr]. cbn [one_of].
  destruct (decode_column _ _ _ Hc) as (oc & Ec & Dc & Sc).
  destruct (decode_column _ _ _ Hca) as (oca & Eca & Dca & Sca).
  assert (Em : decodeLatestModifyRequest (sr_modify_payloads row) "" = Ok (last ms)).
  { unfold decodeLatestModifyRequest. rewrite Hms. by destruct (last ms). }
  unfold decodeCreateRequest, decodeCancelRequest. rewrite Ec, Em, Eca, Hk.
  assert (Hlast : ac_Type a = ActionModify → ∃ m, last ms = Some m).
  { intros H. apply last_is_Some. intros ->. apply Hm1 in H. apply mapM_Some_1 in Hms.
    by inversion Hms. }
  destruct a as [t c m ca r]; cbn [ac_Type ac_Create ac_Modify ac_Cancel ac_Reason] in *.
  subst r. destruct t; [done| | |]; cbn.
  - rewrite (Sc (Hc1 eq_refl)). subst. destruct oca, (last ms); done.
  - destruct (Hlast eq_refl) as [m' E]. rewrite E in *. subst. destruct oc, oca; done.
  - rewrite (Sca (Hca1 eq_refl)). subst. destruct oc, (last ms); done.
Qed.

(** What a marshalled request becomes in its column. *)
Lemma stored_payload {A} `{Codec A} `{!CodecLaws A} (req : A) raw :
  Marshal req = Some raw → ∃ p, json raw = Some p ∧ p ≠ "" ∧ Unmarshal p = Some req.
Proof.
  intros Hm. destruct (marshal_json req raw Hm) as [p Hp]. exists p.
  destruct (unmarshal_json (A := A) raw p Hp) as [Hne Hu]. split_and!; [done|done|].
  rewrite Hu. by apply unmarshal_marshal.
Qed.

(** The rows after an operation. *)
Definition submit_row (op : submit) (prev : option submission_row) : option submission_row :=
  let create := prev ≫= sr_create_payload in
  let modifies := default [] (sr_modify_payloads <$> prev) in
  let cancel := prev ≫= sr_cancel_payload in
  let owner row := default row (sr_botevent_row_id <$> prev) in
  match op with
  | Create now _ req row =>
    raw ← Marshal req; p ← json raw;
    Some (mkSubRow "create" (Some p) modifies cancel hyperliquidCreatePayloadType raw
            (unix_milli now) (owner row))
  | Modify now _ req row =>
    raw ← Marshal req; p ← json raw;
    Some (mkSubRow "modify" create (modifies ++ [p]) cancel hyperliquidModifyPayloadType raw
            (unix_milli now) (owner row))
  | Cancel now _ req row =>
    raw ← Marshal req; p ← json raw;
    Some (mkSubRow "cancel" create modifies (Some p) hyperliquidCancelPayloadType raw
            (unix_milli now) (owner row))
  end.

Definition submit_table (op : submit) (t : gmap order_key submission_row)
    : gmap order_key submission_row :=
  let k := key_of (ensureIdentifier (submit_ident op)) in
  match submit_row op (t !! k) with Some row => <[k := row]> t | None => t end.

Lemma ensure_idempotent i : ensureIdentifier (ensureIdentifier i) = ensureIdentifier i.
Proof.
  destruct i as [v w o]. unfold ensureIdentifier. cbn.
  destruct (String.eqb v "") eqn:Ev; destruct (String.eqb w "") eqn:Ew; cbn; by rewrite ?Ev, ?Ew.
Qed.

(** Recording changes the table of submissions only, and the stream. *)
Lemma run_submit_db op s :
  sg_db (run_submit op s).2 = with_submissions (submit_table op (db_submissions (sg_db s))) (sg_db s).
Proof.
  assert (Hid : ∀ d, d = with_submissions (db_submissions d) d) by by intros [].
  destruct op as [now i req row|now i req row|now i req row];
    unfold run_submit, RecordHyperliquidOrderRequest, AppendHyperliquidModify,
      RecordHyperliquidCancel, Queries.UpsertHyperliquidCreate, Queries.AppendHyperliquidModify,
      Queries.UpsertHyperliquidCancel, submit_table, submit_row; cbn [submit_ident]; sto_run;
    (destruct (Marshal req) as [raw|]; [|apply Hid]); cbn;
    (destruct (json raw) as [p|]; [|apply Hid]); cbn;
    match goal with |- context [publishHyperliquidSubmissionLocked ?a ?b ?c ?d ?e] =>
      destruct (publish_submission_db a b c d e) as [l ->] end; cbn;
    by destruct (db_submissions (sg_db s) !! _).
Qed.

Lemma represents_step op r a :
  row_represents r a →
  row_represents (match submit_row op r with Some row => Some row | None => r end) (remember a op).
Proof.
  intros Hrep.
  assert (Hc : holds zero_create (r ≫= sr_create_payload) (ac_Create (default zero_action a)))
    by (destruct r, a; try done; apply Hrep).
  assert (Hca : holds zero_cancel (r ≫= sr_cancel_payload) (ac_Cancel (default zero_action a)))
    by (destruct r, a; try done; apply Hrep).
  assert (∃ ms, mapM Unmarshal (default [] (sr_modify_payloads <$> r)) = Some ms ∧
                ac_Modify (default zero_action a) = default zero_modify (last ms)) as (ms & Hms & Hm)
    by (destruct r, a; try done; [apply Hrep|by exists []]).
  destruct op as [now i req row|now i req row|now i req row]; cbn [submit_row remember];
    (destruct (Marshal req) as [raw|] eqn:Em; [|exact Hrep]); cbn;
    destruct (stored_payload req raw Em) as (p & -> & Hne & Hu); cbn;
    (split; cbn; [done|done| | | |done| |done|done]); try done; try (by exists ms).
  - exists (ms ++ [req]). split; [|by rewrite last_snoc]. apply mapM_Some.
    apply Forall2_app; [by apply mapM_Some|]. by constructor.
  - intros _ []%app_eq_nil. done.
Qed.

(** Loading after any sequence of recordings. *)
Lemma run_submits_represents ident ops : ∀ s a,
  row_represents (db_submissions (sg_db s) !! key_of (ensureIdentifier ident)) a →
  row_represents (db_submissions (sg_db (run_submits ops s)) !! key_of (ensureIdentifier ident))
    (fold_left remember (filter (λ op, Is_true (same_order (submit_ident op) ident)) ops) a).
Proof.
  induction ops as [|op ops IH]; intros s a Hrep; [done|]. cbn [run_submits fold_left].
  unfold same_order.
  destruct (decide (key_of (ensureIdentifier (submit_ident op)) = key_of (ensureIdentifier ident)))
    as [Ek|Ek].
  - rewrite filter_cons_True by (by rewrite bool_decide_true). cbn [fold_left]. apply IH.
    rewrite run_submit_db. cbn. unfold submit_table. rewrite Ek.
    pose proof (represents_step op _ _ Hrep) as Hstep.
    destruct (submit_row op _); [by rewrite lookup_insert_eq|done].
  - rewrite filter_cons_False by (rewrite bool_decide_false by done; by intros []).
    apply IH. rewrite run_submit_db. cbn. unfold submit_table.
    destruct (submit_row op _); [by rewrite lookup_insert_ne|done].
Qed.

(** C23.  What the storage has recorded of an order is the last request of each kind
    that was sent for it, under the kind of the very last one: the row that the
    upserts build stands for the journal, whatever was recorded for other orders
    in between and whether or not the request could be marshalled. *)
Theorem submissions_journal (ident : OrderIdentifier) (ops : list submit) (s : Storage)
    (Hempty : db_submissions (sg_db s) = ∅) :
  LoadHyperliquidSubmission ident (run_submits ops s) =
    (Ok (remembered ident ops), run_submits ops s).
Proof. apply load_represents, run_submits_represents. by rewrite Hempty, lookup_empty. Qed.

(** ** Statuses *)

Context {laws_status : CodecLaws WsOrder}.

Implicit Types (t : gmap (order_key * Z) status_row).

(** The last row of an order is the one that is fetched. *)
Lemma fetch_latest k m row d :
  db_statuses d !! (k, m) = Some row →
  (∀ e row', db_statuses d !! (k, e) = Some row' → e ≤ m) →
  Queries.FetchLatestHyperliquidStatus k d = Ok row.
Proof.
  intros Hrow Hmax. unfold Queries.FetchLatestHyperliquidStatus.
  set (cs := [desc (by_int (snd ∘ fst))]).
  assert (Hcs : Forall ordering cs) by (unfold cs; rewrite Forall_cons, Forall_nil; auto).
  assert (Hin : ∀ x, x ∈ order_by (lex_le cs) (Queries.status_rows k d) ↔
                     x.1.1 = k ∧ db_statuses d !! x.1 = Some x.2).
  { intros [[k' e] r]. rewrite elem_of_order_by by done. unfold Queries.status_rows.
    rewrite list_elem_of_filter, elem_of_map_to_list. done. }
  pose proof (order_by_sorted cs Hcs (Queries.status_rows k d)) as Hs.
  destruct (order_by (lex_le cs) (Queries.status_rows k d)) as [|[[k' e] r] l].
  { exfalso. apply (not_elem_of_nil (k, m, row)), Hin. by split. }
  cbn. destruct (proj1 (Hin (k', e, r))) as [Hk He]; [by left|]. cbn in Hk, He. subst k'.
  assert (e = m) as ->; [|congruence].
  apply Z.le_antisymm; [by eapply Hmax|].
  assert (Hm : (k, m, row) ∈ (k, e, r) :: l) by (by apply Hin).
  apply elem_of_cons in Hm as [[= -> _]|Hm]; [done|].
  apply StronglySorted_inv in Hs as [_ Hs]. rewrite Forall_forall in Hs.
  specialize (Hs _ Hm). apply Is_true_eq_true in Hs. unfold cs in Hs. rewrite lex_le_cons in Hs.
  unfold desc, by_int, compose in Hs. cbn in Hs. lia.
Qed.

(** The loop takes the first free millisecond of those it tries. *)
Lemma insert_status_spec fuel k raw recorded e0 s :
  let occupied m := is_Some (db_statuses (sg_db s) !! (k, m)) in
  let row := mkStatusRow hyperliquidStatusPayloadType raw in
  (fuel ≠ 0%nat ∨ is_Some e0) →
  (∃ m, recorded ≤ m < recorded + Z.of_nat fuel ∧ ¬ occupied m ∧
        (∀ i, recorded ≤ i < m → occupied i) ∧
        insert_status fuel k raw recorded e0 s =
          (Ok tt, mkStorage (with_statuses (<[(k, m) := row]> (db_statuses (sg_db s)))
                               (sg_db s)) (sg_stream s))) ∨
  ((∀ i, recorded ≤ i < recorded + Z.of_nat fuel → occupied i) ∧
   ∃ e, insert_status fuel k raw recorded e0 s = (Err e, s)).
Proof.
  cbn zeta. revert recorded e0. induction fuel as [|fuel IH]; intros recorded e0 Hfuel.
  { right. split; [lia|]. destruct Hfuel as [|[e ->]]; [done|]. cbn. by exists e. }
  cbn [insert_status]. unfold Queries.InsertHyperliquidStatus. sto_run.
  destruct (db_statuses (sg_db s) !! (k, recorded)) as [r|] eqn:E; cbn.
  - change (isUniqueConstraintError _) with true. cbn.
    assert (Hr : is_Some (db_statuses (sg_db s) !! (k, recorded))) by (by rewrite E).
    destruct (IH (recorded + 1) (Some (Queries.status_taken)) ltac:(right; by eexists))
      as [(m & Hm & Hfree & Hocc & Hrun)|[Hocc Hrun]].
    + left. exists m. split; [lia|]. split; [done|]. split; [|exact Hrun].
      intros i Hi. destruct (decide (i = recorded)) as [->|]; [done|]. apply Hocc. lia.
    + right. split; [|exact Hrun]. intros i Hi.
      destruct (decide (i = recorded)) as [->|]; [done|]. apply Hocc. lia.
  - left. exists recorded. rewrite E. split; [lia|]. split; [by intros []|]. split; [lia|done].
Qed.

(** Seen from a clock that does not go back, the times of an order have no gap
    from now on. *)
Definition gapless (now : Z) (t : gmap (order_key * Z) status_row) : Prop :=
  ∀ k e, is_Some (t !! (k, e)) → ∀ i, now ≤ i ≤ e → is_Some (t !! (k, i)).

Lemma gapless_later now now' t : now ≤ now' → gapless now t → gapless now' t.
Proof. intros Hle Hg k e He i Hi. apply (Hg k e He). lia. Qed.

Lemma gapless_insert now t k m row :
  gapless now t → now ≤ m → t !! (k, m) = None →
  (∀ i, now ≤ i < m → is_Some (t !! (k, i))) →
  gapless now (<[(k, m) := row]> t) ∧ ∀ e, is_Some (t !! (k, e)) → e < m.
Proof.
  intros Hg Hm Hfree Hocc. split.
  - intros k' e He i Hi. destruct (decide ((k', i) = (k, m))) as [->|Hne];
      [by rewrite lookup_insert_eq|]. rewrite lookup_insert_ne by done.
    destruct (decide ((k', e) = (k, m))) as [[= -> ->]|Hne'].
    + apply Hocc. split; [lia|]. destruct (decide (i = m)) as [->|]; [done|lia].
    + rewrite lookup_insert_ne in He by done. by apply (Hg k' e He).
  - intros e He. destruct (decide (e < m)); [done|exfalso].
    destruct (Hg k e He m ltac:(lia)) as [? H]. congruence.
Qed.

(** A call of [RecordHyperliquidStatus]. *)
Record status_call := mkStatusCall {
  st_now : Z;
  st_ident : OrderIdentifier;
  st_status : WsOrder;
}.
Definition run_status (op : status_call) : Sto unit :=
  RecordHyperliquidStatus (st_now op) (st_ident op) (st_status op).

(** The state after the calls, and the last status recorded for [ident]: that of
    the last call for it that succeeded and was not for the default alias. *)
Fixpoint run_statuses (ident : OrderIdentifier) (ops : list status_call)
    (acc : option WsOrder) (s : Storage) : option WsOrder * Storage :=
  match ops with
  | [] => (acc, s)
  | op :: ops =>
    let '(r, s') := run_status op s in
    run_statuses ident ops
      (if is_ok r && same_order (st_ident op) ident &&
          negb (String.eqb (oi_VenueID (st_ident op)) defaultHyperliquidVenueID)
       then Some (st_status op) else acc) s'
  end.

Definition latest_is (k : order_key) (t : gmap (order_key * Z) status_row) (o : option WsOrder)
    : Prop :=
  match o with
  | Some st => ∃ m row, t !! (k, m) = Some row ∧ Unmarshal (tr_payload_blob row) = Some st ∧
                        ∀ e row', t !! (k, e) = Some row' → e ≤ m
  | None => ∀ e, t !! (k, e) = None
  end.

Lemma run_status_step op k o s :
  let t := db_statuses (sg_db s) in
  let s' := (run_status op s).2 in
  let accepted := is_ok (run_status op s).1 &&
    negb (String.eqb (oi_VenueID (st_ident op)) defaultHyperliquidVenueID) in
  gapless (unix_milli (st_now op)) t → latest_is k t o →
  gapless (unix_milli (st_now op)) (db_statuses (sg_db s')) ∧
  latest_is k (db_statuses (sg_db s'))
    (if accepted && bool_decide (key_of (ensureIdentifier (st_ident op)) = k)
     then Some (st_status op) else o).
Proof.
  destruct op as [now i st]. cbn zeta. cbn [st_now st_ident st_status]. intros Hg Hl.
  unfold run_status, RecordHyperliquidStatus. cbn [st_now st_ident st_status].
  destruct (String.eqb (oi_VenueID i) defaultHyperliquidVenueID) eqn:Ev; [by cbn|].
  sto_run. destruct (Marshal st) as [raw|] eqn:Em; cbn beta iota; [|done].
  destruct (insert_status_spec 5 (key_of (ensureIdentifier i)) raw (unix_milli now) None s
    ltac:(by left)) as [(m & Hm & Hfree & Hocc & ->)|[_ [e ->]]]; cbn; [|done].
  match goal with |- context [publishStreamEventLocked ?a ?b ?c] =>
    destruct (publish_db a b c) as [l ->] end. cbn.
  apply eq_None_not_Some in Hfree.
  destruct (gapless_insert _ _ _ m (mkStatusRow hyperliquidStatusPayloadType raw) Hg
    ltac:(lia) Hfree Hocc) as [Hg' Hmax].
  split; [exact Hg'|]. case_bool_decide as Ek.
  - subst k. exists m, (mkStatusRow hyperliquidStatusPayloadType raw).
    rewrite lookup_insert_eq. split; [done|]. split; [by apply unmarshal_marshal|].
    intros e row' He. destruct (decide (e = m)) as [->|]; [done|].
    rewrite lookup_insert_ne in He by congruence. assert (e < m); [|lia]. apply Hmax. eauto.
  - assert (Hsame : ∀ e, <[(key_of (ensureIdentifier i), m):=mkStatusRow hyperliquidStatusPayloadType raw]>
      (db_statuses (sg_db s)) !! (k, e) = db_statuses (sg_db s) !! (k, e)).
    { intros e. apply lookup_insert_ne. congruence. }
    destruct o as [w|]; cbn in *; [|intros e; by rewrite Hsame].
    destruct Hl as (m' & row & Hrow & Hu & Hl). exists m', row. rewrite Hsame.
    split_and!; [done|done|]. intros e row'. rewrite Hsame. apply Hl.
Qed.

Lemma run_statuses_latest ident ops : ∀ acc s now,
  gapless now (db_statuses (sg_db s)) →
  latest_is (key_of (ensureIdentifier ident)) (db_statuses (sg_db s)) acc →
  Sorted Z.le (now :: (unix_milli ∘ st_now <$> ops)) →
  let '(o, s') := run_statuses ident ops acc s in
  latest_is (key_of (ensureIdentifier ident)) (db_statuses (sg_db s')) o.
Proof.
  induction ops as [|op ops IH]; intros acc s now Hg Hl Hs; [done|]. cbn [run_statuses].
  apply Sorted_inv in Hs as [Hs Hhd]. apply HdRel_inv in Hhd.
  destruct (run_status_step op (key_of (ensureIdentifier ident)) acc s) as [Hg' Hl'];
    [by eapply gapless_later|done|].
  destruct (run_status op s) as [r s']. cbn [fst snd] in *.
  apply (IH _ s' (unix_milli (st_now op))); [done| |done].
  unfold same_order. rewrite <- andb_assoc, (andb_comm (bool_decide _)), andb_assoc. exact Hl'.
Qed.

(** The latest row is what a load answers. *)
Lemma load_latest ident o s :
  latest_is (key_of (ensureIdentifier ident)) (db_statuses (sg_db s)) o →
  LoadHyperliquidStatus ident s = (Ok o, s).
Proof.
  intros Hl. unfold LoadHyperliquidStatus, loadLatestHyperliquidStatusLocked. sto_run.
  destruct o as [st|]; cbn in Hl.
  - destruct Hl as (m & row & Hrow & Hu & Hmax). by rewrite (fetch_latest _ m row), Hu.
  - unfold Queries.FetchLatestHyperliquidStatus.
    assert (Queries.status_rows (key_of (ensureIdentifier ident)) (sg_db s) = []) as ->; [|done].
    apply filter_none. intros [[k e] row] Hin%elem_of_map_to_list. cbn. intros ->.
    by rewrite Hl in Hin.
Qed.

(** While the clock does not go back, the status that is loaded for an order is
    the one of its last recording that succeeded, even when several fall on the
    same millisecond: a recording moves to the next free millisecond, and that
    lies after all the times the order has.  Recordings for the default alias
    leave nothing. *)
Theorem last_status_loaded (ident : OrderIdentifier) (ops : list status_call) (s : Storage)
    (Hempty : db_statuses (sg_db s) = ∅)
    (Hclock : Sorted Z.le (unix_milli ∘ st_now <$> ops)) :
  let '(last, s') := run_statuses ident ops None s in
  LoadHyperliquidStatus ident s' = (Ok last, s').
Proof.
  assert (Hl : let '(o, s') := run_statuses ident ops None s in
               latest_is (key_of (ensureIdentifier ident)) (db_statuses (sg_db s')) o).
  { apply (run_statuses_latest ident ops None s
             (match unix_milli ∘ st_now <$> ops with z :: _ => z | [] => 0 end)).
    - intros k e [row He]. by rewrite Hempty in He.
    - cbn. intros e. by rewrite Hempty.
    - destruct (unix_milli ∘ st_now <$> ops) as [|z zs]; [by repeat constructor|].
      constructor; [exact Hclock|]. constructor. lia. }
  destruct (run_statuses ident ops None s) as [o s']. by apply load_latest.
Qed.

End facts.

(** ** Concrete recordings *)

Definition demo_json : SqliteJSON := plain_json (λ _ _, None) (λ _ _, None).
Definition demo_ident : OrderIdentifier :=
  NewOrderIdentifier "hyperliquid:a" "0xabc" (OrderId.mkOrderId 1 2 3).
Definition demo_create (size : Z) : CreateOrderRequest :=
  mkCreate "DOGE" true fone (f_of_Z size) false (mkOrderType None None) None.
Definition demo_modify : ModifyOrderRequest := mkModify None (demo_create 3).
Definition demo_cancel : CancelOrderRequestByCloid := mkCancel "DOGE" "0x".
Definition demo_creates : Codec CreateOrderRequest :=
  table_codec [("c1"%string, demo_create 1); ("c2"%string, demo_create 2)].
Definition demo_modifies : Codec ModifyOrderRequest := table_codec [("m"%string, demo_modify)].
Definition demo_cancels : Codec CancelOrderRequestByCloid := table_codec [("x"%string, demo_cancel)].

Lemma demo_creates_laws : CodecLaws (H := demo_json) CreateOrderRequest (H0 := demo_creates).
Proof. apply table_codec_laws. vm_compute. reflexivity. Qed.
Lemma demo_modifies_laws : CodecLaws (H := demo_json) ModifyOrderRequest (H0 := demo_modifies).
Proof. apply table_codec_laws. vm_compute. reflexivity. Qed.
Lemma demo_cancels_laws : CodecLaws (H := demo_json) CancelOrderRequestByCloid (H0 := demo_cancels).
Proof. apply table_codec_laws. vm_compute. reflexivity. Qed.

(** Created, modified, created anew: the modification is still remembered. *)
Lemma submissions_journal_witness :
  (LoadHyperliquidSubmission (json_create := demo_creates) (json_modify := demo_modifies)
     (json_cancel := demo_cancels) demo_ident
     (run_submits (sqlite := demo_json) (json_event := table_codec [])
        (json_create := demo_creates) (json_modify := demo_modifies) (json_cancel := demo_cancels)
        [Create 0 demo_ident (demo_create 1) 1; Modify 1 demo_ident demo_modify 1;
         Create 2 demo_ident (demo_create 2) 1] (mkStorage empty_database None))).1 =
  Ok (Some (mkAction ActionCreate (demo_create 2) demo_modify zero_cancel "")).
Proof.
  pose proof (submissions_journal (sqlite := demo_json) (json_event := table_codec [])
    (json_create := demo_creates) (json_modify := demo_modifies) (json_cancel := demo_cancels)
    (laws_create := demo_creates_laws) (laws_modify := demo_modifies_laws)
    (laws_cancel := demo_cancels_laws) demo_ident
    [Create 0 demo_ident (demo_create 1) 1; Modify 1 demo_ident demo_modify 1;
     Create 2 demo_ident (demo_create 2) 1] (mkStorage empty_database None) eq_refl) as H.
  apply (f_equal fst) in H. refine (eq_trans H _). vm_compute. reflexivity.
Defined.

Definition demo_status (text : string) : WsOrder :=
  mkWsOrder (mkWsBasicOrder "DOGE" "B" "1" "1" 7 0 "1" None) text 0.
Definition demo_statuses : Codec WsOrder :=
  table_codec [("o"%string, demo_status "open"); ("f"%string, demo_status "filled")].
Lemma demo_statuses_laws : CodecLaws (H := demo_json) WsOrder (H0 := demo_statuses).
Proof. apply table_codec_laws. vm_compute. reflexivity. Qed.

(** Two statuses within one millisecond. *)
Lemma last_status_loaded_witness :
  let '(last, s') := run_statuses (json_status := demo_statuses) demo_ident
    [mkStatusCall 5000000 demo_ident (demo_status "open");
     mkStatusCall 5000001 demo_ident (demo_status "filled")] None (mkStorage empty_database None) in
  (LoadHyperliquidStatus (json_status := demo_statuses) demo_ident s').1 =
    Ok (Some (demo_status "filled")).
Proof.
  pose proof (last_status_loaded (sqlite := demo_json) (json_status := demo_statuses)
    (laws_status := demo_statuses_laws) demo_ident
    [mkStatusCall 5000000 demo_ident (demo_status "open");
     mkStatusCall 5000001 demo_ident (demo_status "filled")] (mkStorage empty_database None)
    eq_refl ltac:(repeat constructor; vm_compute; discriminate)) as H.
  assert (E : (run_statuses (json_status := demo_statuses) demo_ident
    [mkStatusCall 5000000 demo_ident (demo_status "open");
     mkStatusCall 5000001 demo_ident (demo_status "filled")] None (mkStorage empty_database None)).1
    = Some (demo_status "filled")) by (vm_compute; reflexivity).
  destruct (run_statuses _ _ _ _) as [last s']. cbn in E. subst last.
  exact (f_equal fst H).
Defined.

End StorageFacts.
