(* ===== verification/WalletFacts.v ===== *)
(** * Moving the default venue to another wallet *)

From S2P Require Import Prelude GoFloat GoString OrderId Domain Store Tables Queries Stream.
From S2P Require Import Storage TablesFacts.
Import GoString Domain Store Tables Storage TablesFacts.

Module WalletFacts.

(** ** Copying the rows of a wallet *)

Section rekey.
Context {K A : Type} `{Countable K} (f : K → K) (P : K → bool).
Implicit Types t : gmap K A.

Definition rekeyed t : gmap K A :=
  list_to_map (prod_map f id <$> filter (λ r, Is_true (P r.1)) (map_to_list t)).

Lemma rekeyed_NoDup t :
  (∀ a b, P a = true → P b = true → f a = f b → a = b) →
  NoDup (prod_map f id <$> filter (λ r, Is_true (P r.1)) (map_to_list t)).*1.
Proof.
  intros Hinj. rewrite <- list_fmap_compose.
  apply (NoDup_fmap_2_strong (fst ∘ prod_map f id)).
  - intros [a x] [b y] Ha Hb E. cbn in E.
    apply list_elem_of_filter in Ha as [Ha Ha'], Hb as [Hb Hb']. cbn in *.
    rewrite elem_of_map_to_list in Ha', Hb'.
    assert (a = b) as -> by (apply Hinj; [by apply Is_true_eq_true..|done]). congruence.
  - apply NoDup_filter, NoDup_map_to_list.
Qed.

Lemma lookup_rekeyed t k x :
  (∀ a b, P a = true → P b = true → f a = f b → a = b) →
  rekeyed t !! k = Some x ↔ ∃ a, P a = true ∧ f a = k ∧ t !! a = Some x.
Proof.
  intros Hinj. unfold rekeyed. rewrite <- elem_of_list_to_map by by apply rekeyed_NoDup.
  rewrite list_elem_of_fmap. split.
  - intros ([a y] & [= -> ->] & Hin). apply list_elem_of_filter in Hin as [Ha Hin].
    rewrite elem_of_map_to_list in Hin. cbn in Ha. exists a. split_and!; [|done|done].
    by apply Is_true_eq_true.
  - intros (a & Ha & <- & Hx). exists (a, x). split; [done|]. apply list_elem_of_filter.
    split; [by apply Is_true_eq_left|]. by apply elem_of_map_to_list.
Qed.

End rekey.

Lemma of_wallet_spec v w k : Queries.of_wallet v w k = true ↔ k.1.1 = v ∧ k.1.2 = w.
Proof. unfold Queries.of_wallet. by rewrite andb_true_iff, !String.eqb_eq. Qed.

Lemma set_wallet_same w (k : order_key) : k.1.2 = w → k = Queries.set_wallet w k.
Proof. destruct k as [[??]?]. unfold Queries.set_wallet. cbn. congruence. Qed.

(** ** What a table looks like after the move *)

(** The rows of [from] are found under [to], unless [to] had a row of its own
    there; under [from] there are none.  [put] changes the wallet in a key of
    the table and [acct] gives the order it belongs to. *)
Definition moved {K A} (acct : K → order_key) (put : string → K → K) (from to : string)
    (lookup : K → option A) (k : K) : option A :=
  if Queries.of_wallet defaultHyperliquidVenueID from (acct k) then None
  else match lookup k with
       | Some row => Some row
       | None => if Queries.of_wallet defaultHyperliquidVenueID to (acct k)
                 then lookup (put from k) else None
       end.

Section moved.
Context {K A : Type} `{Countable K} (acct : K → order_key) (put : string → K → K).
Context (Hacct : ∀ w k, acct (put w k) = Queries.set_wallet w (acct k)).
Context (Hput : ∀ w w' k, acct k = Queries.set_wallet w (acct k) → put w (put w' k) = k).
Implicit Types t : gmap K A.

Lemma put_inj v w to a b :
  Queries.of_wallet v w (acct a) = true → Queries.of_wallet v w (acct b) = true →
  put to a = put to b → a = b.
Proof.
  rewrite !of_wallet_spec. intros [_ Ha] [_ Hb] E.
  by rewrite <- (Hput w to a), <- (Hput w to b), E by by apply set_wallet_same.
Qed.

Lemma lookup_moved (from to : string) t k :
  let v := defaultHyperliquidVenueID in
  filter (λ r, ¬ Is_true (Queries.of_wallet v from (acct r.1)))
    (t ∪ rekeyed (put to) (λ k, Queries.of_wallet v from (acct k)) t) !! k =
  moved acct put from to (t !!.) k.
Proof.
  cbn zeta. unfold moved. set (v := defaultHyperliquidVenueID).
  destruct (Queries.of_wallet v from (acct k)) eqn:Ef.
  { apply map_lookup_filter_None. right. intros x _. cbn. rewrite Ef. by intros []. }
  set (t' := t ∪ rekeyed _ _ t).
  assert (E : t' !! k =
    match t !! k with Some row => Some row
    | None => if Queries.of_wallet v to (acct k) then t !! put from k else None end).
  { unfold t'. rewrite lookup_union. destruct (t !! k) as [row|] eqn:Ek; [by apply union_Some_l|].
    rewrite (left_id_L None _). apply option_eq. intros x.
    rewrite lookup_rekeyed by (intros a b; apply put_inj). split.
    - intros (a & Ha & <- & Hx). apply of_wallet_spec in Ha as [Hv Hw].
      rewrite Hacct. rewrite (proj2 (of_wallet_spec _ _ _)) by (by destruct (acct a) as [[??]?]).
      by rewrite Hput by by apply set_wallet_same.
    - destruct (Queries.of_wallet v to (acct k)) eqn:Et; [|done]. intros Hx.
      apply of_wallet_spec in Et as [Hv Hw]. exists (put from k).
      rewrite Hacct, of_wallet_spec, Hput by by apply set_wallet_same.
      by split_and!. }
  destruct (t' !! k) as [x|] eqn:Ex; rewrite <- E.
  - apply map_lookup_filter_Some. split; [done|]. cbn. rewrite Ef. by intros [].
  - apply map_lookup_filter_None. by left.
Qed.

End moved.

(** The three tables that are kept by wallet. *)
Definition moved_order {A} := @moved order_key A id Queries.set_wallet.
Definition moved_status {A} :=
  @moved (order_key * Z) A fst (λ w k, (Queries.set_wallet w k.1, k.2)).

Lemma set_set_wallet w w' (k : order_key) :
  k = Queries.set_wallet w k → Queries.set_wallet w (Queries.set_wallet w' k) = k.
Proof. destruct k as [[??]?]. unfold Queries.set_wallet. cbn. congruence. Qed.

Lemma migrate_tables from to d :
  from ≠ to →
  let d' := migrateDefaultVenueWalletLocked from to d in
  (∀ k, db_submissions d' !! k = moved_order from to (db_submissions d !!.) k) ∧
  (∀ k, db_scaled d' !! k = moved_order from to (db_scaled d !!.) k) ∧
  (∀ k, db_statuses d' !! k = moved_status from to (db_statuses d !!.) k) ∧
  db_venues d' = db_venues d.
Proof.
  intros Hne. cbn zeta. unfold migrateDefaultVenueWalletLocked.
  rewrite (proj2 (String.eqb_neq _ _)) by done.
  split_and!; [| | |done]; intros k.
  - apply (lookup_moved id Queries.set_wallet); [done|]. intros. by apply set_set_wallet.
  - apply (lookup_moved id Queries.set_wallet); [done|]. intros. by apply set_set_wallet.
  - apply (lookup_moved fst (λ w k, (Queries.set_wallet w k.1, k.2))); [done|].
    intros w w' [k0 e] E. cbn in *. f_equal. by apply set_set_wallet.
Qed.

(** ** [EnsureDefaultVenueWallet] *)

Section wallet.
Context {sqlite : SqliteJSON} {R : GoRange}.

(** The wallet that the rows of the default venue are under. *)
Definition current_wallet (d : Database) : string :=
  match db_venues d !! defaultHyperliquidVenueID with
  | Some v => if String.eqb (vr_wallet v) "" then defaultHyperliquidWallet else vr_wallet v
  | None => defaultHyperliquidWallet
  end.

(** Another venue that has the wallet already. *)
Definition wallet_taken (wallet : string) (d : Database) : Prop :=
  ∃ id v, db_venues d !! id = Some v ∧ id ≠ defaultHyperliquidVenueID ∧
          vr_type v = defaultHyperliquidVenueType ∧ vr_wallet v = wallet.

(** No two venues have the type and the wallet in common. *)
Definition unique_accounts (d : Database) : Prop :=
  ∀ a b va vb, db_venues d !! a = Some va → db_venues d !! b = Some vb →
  vr_type va = vr_type vb → vr_wallet va = vr_wallet vb → a = b.

Lemma UpsertVenue_default_spec (wallet : string) (d : Database) flags :
  json "{}" = Some flags →
  let v := mkVenueRow defaultHyperliquidVenueType defaultHyperliquidName wallet flags in
  (wallet_taken wallet d ∧
   Queries.UpsertVenue defaultHyperliquidVenueID defaultHyperliquidVenueType
     defaultHyperliquidName wallet "{}" d = Err (unique_message "venues.type, venues.wallet")) ∨
  (¬ wallet_taken wallet d ∧
   Queries.UpsertVenue defaultHyperliquidVenueID defaultHyperliquidVenueType
     defaultHyperliquidName wallet "{}" d =
   Ok (with_venues (<[defaultHyperliquidVenueID := v]> (db_venues d)) d)).
Proof.
  intros Hj. cbn zeta. unfold Queries.UpsertVenue. rewrite Hj.
  destruct (existsb _ _) eqn:E; [left|right]; (split; [|done]).
  - apply existsb_exists in E as ([id v] & Hin & E). apply list_elem_of_In, elem_of_map_to_list in Hin.
    rewrite !andb_true_iff, negb_true_iff, String.eqb_neq, !String.eqb_eq in E.
    exists id, v. naive_solver.
  - intros (id & v & Hv & Hne & Ht & Hw). apply not_true_iff_false in E. apply E.
    apply existsb_exists. exists (id, v).
    rewrite <- list_elem_of_In, elem_of_map_to_list, !andb_true_iff, negb_true_iff, String.eqb_neq,
      !String.eqb_eq. done.
Qed.

Lemma GetVenueByTypeAndWallet_taken wallet d :
  unique_accounts d → wallet_taken wallet d →
  ∃ id v, Queries.GetVenueByTypeAndWallet defaultHyperliquidVenueType wallet d = Ok (id, v) ∧
          id ≠ defaultHyperliquidVenueID.
Proof.
  intros Hu (id & v & Hv & Hne & Ht & Hw). unfold Queries.GetVenueByTypeAndWallet.
  set (l := filter _ _).
  assert (Hl : ∀ x, x ∈ l ↔ (vr_type x.2 = defaultHyperliquidVenueType ∧ vr_wallet x.2 = wallet) ∧
                            db_venues d !! x.1 = Some x.2).
  { intros [i x]. unfold l. by rewrite list_elem_of_filter, elem_of_map_to_list. }
  destruct l as [|[id' v'] l'].
  - exfalso. by apply (not_elem_of_nil (id, v)), Hl.
  - exists id', v'. split; [done|].
    destruct (proj1 (Hl (id', v'))) as [[Ht' Hw'] Hv']; [by left|]. cbn in *.
    assert (id = id') as <-; [|done]. by eapply Hu; try done; congruence.
Qed.

Lemma upsertDefaultVenue_succeeds wallet s :
  is_Some (json "{}") → unique_accounts (sg_db s) → (upsertDefaultVenueLocked wallet s).1 = Ok tt.
Proof.
  intros [flags Hj] Hu. destruct s as [d l]. unfold upsertDefaultVenueLocked.
  set (w := if String.eqb wallet "" then _ else wallet). clearbody w. sto_run.
  destruct (UpsertVenue_default_spec w d flags Hj) as [[Ht ->]|[Ht ->]]; cbn beta iota.
  - destruct (GetVenueByTypeAndWallet_taken w d Hu Ht) as (id & v & -> & Hne).
    rewrite (proj2 (String.eqb_neq _ _)) by done.
    by change (Contains _ "UNIQUE constraint failed") with true.
  - by destruct (String.eqb _ w).
Qed.

(** C24.  Pointing the default venue at a wallet never fails.  When another venue has
    the wallet already, nothing changes at all; otherwise the default venue has
    it afterwards, and its submissions, audits and statuses are exactly those it
    had, found under the new wallet - a row that was there already is kept - and
    no other venue's rows are touched. *)
Theorem wallet_migration (wallet : string) (s : Storage)
    (Hjson : is_Some (json "{}")) (Hwallet : wallet ≠ "") (Hunique : unique_accounts (sg_db s)) :
  let '(r, s') := EnsureDefaultVenueWallet wallet s in
  let from := current_wallet (sg_db s) in
  let renamed := negb (String.eqb from wallet) in
  r = Ok tt ∧
  (wallet_taken wallet (sg_db s) → s' = s) ∧
  (¬ wallet_taken wallet (sg_db s) →
   current_wallet (sg_db s') = wallet ∧
   (∀ k, db_submissions (sg_db s') !! k =
         if renamed then moved_order from wallet (db_submissions (sg_db s) !!.) k
         else db_submissions (sg_db s) !! k) ∧
   (∀ k, db_scaled (sg_db s') !! k =
         if renamed then moved_order from wallet (db_scaled (sg_db s) !!.) k
         else db_scaled (sg_db s) !! k) ∧
   (∀ k, db_statuses (sg_db s') !! k =
         if renamed then moved_status from wallet (db_statuses (sg_db s) !!.) k
         else db_statuses (sg_db s) !! k)).
Proof.
  destruct Hjson as [flags Hj]. destruct s as [d l].
  unfold EnsureDefaultVenueWallet, upsertDefaultVenueLocked.
  rewrite (proj2 (String.eqb_neq _ _)) by done. sto_run.
  set (cur := match Queries.GetVenue defaultHyperliquidVenueID d with Ok v => _ | Err _ => _ end).
  assert (Hcur : cur = current_wallet d).
  { unfold cur, current_wallet, Queries.GetVenue. by destruct (db_venues d !! _). }
  rewrite Hcur. clear Hcur cur.
  destruct (UpsertVenue_default_spec wallet d flags Hj) as [[Ht ->]|[Ht ->]]; cbn beta iota.
  - destruct (GetVenueByTypeAndWallet_taken wallet d Hunique Ht) as (id & v & -> & Hne).
    rewrite (proj2 (String.eqb_neq _ _)) by done.
    change (Contains _ "UNIQUE constraint failed") with true. cbn. done.
  - cbn [sg_db sg_stream]. set (d1 := with_venues _ d).
    assert (Hw : ∀ d', db_venues d' = db_venues d1 → current_wallet d' = wallet).
    { intros d' E. unfold current_wallet. rewrite E. unfold d1. cbn. rewrite lookup_insert_eq.
      cbn. by rewrite (proj2 (String.eqb_neq _ _)). }
    destruct (String.eqb_spec (current_wallet d) wallet) as [E|Hne]; cbn.
    + split; [done|]. split; [done|]. intros _. split; [by apply Hw|done].
    + split; [done|]. split; [done|]. intros _.
      destruct (migrate_tables (current_wallet d) wallet d1 Hne) as (H1 & H2 & H3 & H4).
      split; [by apply Hw|]. done.
Qed.

End wallet.

(** A submission made while the wallet was still the placeholder is found under
    the real one. *)
Definition demo_json : SqliteJSON := plain_json (λ _ _, None) (λ _ _, None).
Definition demo_row : submission_row := mkSubRow "create" (Some "c") [] None "t" "c" 0 1.
Definition demo_storage : Storage :=
  mkStorage
    (with_submissions {[(defaultHyperliquidVenueID : string, "default"%string, "0x01"%string) := demo_row]}
      (with_venues {[(defaultHyperliquidVenueID : string) :=
          mkVenueRow "hyperliquid" "Default" "default" "{}"]} empty_database)) None.

Lemma wallet_migration_witness :
  let '(r, s') := EnsureDefaultVenueWallet (sqlite := demo_json) "0xabc" demo_storage in
  r = Ok tt ∧
  db_submissions (sg_db s') !! (defaultHyperliquidVenueID : string, "0xabc"%string, "0x01"%string) =
    Some demo_row.
Proof.
  assert (Hu : unique_accounts (sg_db demo_storage)).
  { intros a b va vb Ha Hb. cbn in Ha, Hb. apply lookup_singleton_Some in Ha as [<- _], Hb as [<- _].
    done. }
  assert (Ht : ¬ wallet_taken "0xabc" (sg_db demo_storage)).
  { intros (id & v & Hv & Hne & _). cbn in Hv. apply lookup_singleton_Some in Hv as [<- _]. done. }
  pose proof (wallet_migration (sqlite := demo_json) "0xabc" demo_storage
    ltac:(by eexists) ltac:(done) Hu) as H.
  destruct (EnsureDefaultVenueWallet _ _) as [r s']. destruct H as (-> & _ & H).
  split; [done|]. destruct (H Ht) as (_ & -> & _). vm_compute. reflexivity.
Defined.

End WalletFacts.
