(* ===== verification/Integrity.v ===== *)
(** * The integrity of the database

    What every row of the database satisfies, whatever operations ran and however
    often the program was restarted: the keys of the schema are unique, rows are
    filed under the identifiers they name and their payloads can be read back.  A
    logic of postconditions for the operations of [Storage] carries the proofs. *)

From Stdlib Require Import Ascii.
From S2P Require Import Prelude GoFloat GoString OrderId Domain Store Tables Queries Stream.
From S2P Require Import Storage ScalerStorage StorageApi TablesFacts StorageFacts WalletFacts.
Import GoFloat GoString Domain Store Tables Storage TablesFacts.

Module Integrity.

(** ** Rows *)

Definition event_key (r : botevent_row) : string * Z * Z :=
  (er_order_id r, er_botevent_id r, er_created_at_utc r).

(** Venue and wallet are given and the order id is one of [Hex]. *)
Definition order_ok (k : order_key) : Prop :=
  k.1.1 ≠ "" ∧ k.1.2 ≠ "" ∧ ∃ oid, OrderId.valid oid = true ∧ k.2 = OrderId.Hex oid.

(** The kind of a submission has its payload. *)
Definition kind_ok (r : submission_row) : Prop :=
  (sr_action_kind r = hyperliquidSubmissionActionCreate ∧ is_Some (sr_create_payload r)) ∨
  (sr_action_kind r = hyperliquidSubmissionActionModify ∧ sr_modify_payloads r ≠ []) ∨
  (sr_action_kind r = hyperliquidSubmissionActionCancel ∧ is_Some (sr_cancel_payload r)).

Definition assignments_ok (t : gmap (Z * string) assignment_row) : Prop :=
  (∀ k a, t !! k = Some a → ar_is_primary a = 0 ∨ ar_is_primary a = 1) ∧
  (∀ b v v' a a', t !! (b, v) = Some a → t !! (b, v') = Some a' →
     ar_is_primary a = 1 → ar_is_primary a' = 1 → v = v').

Section Integrity.
Context {sqlite : SqliteJSON} {R : GoRange} {HR : FairRange R}.
Context {json_event : Codec TcBotEvent} {json_deal : Codec TcDeal} {json_status : Codec WsOrder}.
Context {json_create : Codec CreateOrderRequest} {json_modify : Codec ModifyOrderRequest}
  {json_cancel : Codec CancelOrderRequestByCloid} {json_flags : Codec (gmap string flag)}
  {json_payload : Codec ScalerStorage.scaledOrderPayload}
  {json_volumes : Codec ScalerStorage.DealVolumes}.
Context {Bot : Type} {json_bot : Codec Bot} (bot_id : Bot → Z).

Definition decodes (A : Type) `{Codec A} (raw : string) : Prop :=
  raw ≠ "" ∧ is_Some (Unmarshal (A := A) raw).

(** The row holds an event, filed under the order and the times it names. *)
Definition event_ok (r : botevent_row) : Prop :=
  ∃ oid ev, OrderId.valid oid = true ∧ Unmarshal (er_payload r) = Some ev ∧
    er_order_id r = OrderId.Hex oid ∧ er_bot_id r = OrderId.BotID oid ∧
    er_deal_id r = OrderId.DealID oid ∧ er_botevent_id r = OrderId.BotEventID oid ∧
    er_created_at_utc r = unix_milli (ev_CreatedAt ev).

Record events_ok (t : auto botevent_row) : Prop := {
  et_rows : Forall event_ok (au_rows t);
  et_keys : NoDup (event_key <$> au_rows t);
  et_ids : StronglySorted Z.lt (er_id <$> au_rows t);
  et_seq : Forall (λ r, 0 < er_id r ≤ au_seq t) (au_rows t);
  et_next : 0 ≤ au_seq t;
}.

Definition bot_ok (id : Z) (r : bot_row) : Prop :=
  ∃ b, Unmarshal (bo_payload r) = Some b ∧ bot_id b = id.

Definition deal_ok (id : Z) (r : deal_row) : Prop :=
  ∃ deal, Unmarshal (de_payload r) = Some deal ∧ dl_Id deal = id ∧ de_bot_id r = dl_BotId deal.

Definition venue_ok (id : string) (r : venue_row) : Prop :=
  id ≠ "" ∧ decodes (gmap string flag) (vr_flags r).

Definition venues_ok (t : gmap string venue_row) : Prop :=
  map_Forall venue_ok t ∧
  (∀ i j v w, t !! i = Some v → t !! j = Some w → vr_type v = vr_type w →
     vr_wallet v = vr_wallet w → i = j).

Definition submission_ok (k : order_key) (r : submission_row) : Prop :=
  order_ok k ∧ kind_ok r ∧
  (∀ p, sr_create_payload r = Some p → decodes CreateOrderRequest p) ∧
  Forall (decodes ModifyOrderRequest) (sr_modify_payloads r) ∧
  (∀ p, sr_cancel_payload r = Some p → decodes CancelOrderRequestByCloid p).

Definition status_ok (k : order_key * Z) (r : status_row) : Prop :=
  order_ok k.1 ∧ decodes WsOrder (tr_payload_blob r).

Definition scaled_ok (k : order_key) (r : scaled_row) : Prop :=
  k.1.1 ≠ "" ∧ k.1.2 ≠ "" ∧
  (∃ oid at_, OrderId.valid oid = true ∧
     k.2 = ScalerStorage.audit_order_id oid (cd_stack_index r) at_) ∧
  (cd_skipped r = 0 ∨ cd_skipped r = 1) ∧
  (cd_payload_type r = None ∨
   ∃ p, cd_payload_blob r = Some p ∧ decodes ScalerStorage.scaledOrderPayload p).

Record integrity (d : Database) : Prop := {
  in_botevents : events_ok (db_botevents d);
  in_log : events_ok (db_botevents_log d);
  in_bots : map_Forall bot_ok (db_bots d);
  in_deals : map_Forall deal_ok (db_deals d);
  in_venues : venues_ok (db_venues d);
  in_assignments : assignments_ok (db_assignments d);
  in_submissions : map_Forall submission_ok (db_submissions d);
  in_statuses : map_Forall status_ok (db_statuses d);
  in_scaler : is_Some (db_scaler d);
  in_scaled : map_Forall scaled_ok (db_scaled d);
}.

(** ** Postconditions

    [post m Q]: from a sound database [m] leaves a sound one, and what it returns
    satisfies [Q]. *)

Definition post {A} (m : Sto A) (Q : A → Prop) : Prop :=
  ∀ s, integrity (sg_db s) → integrity (sg_db (m s).2) ∧ ∀ a, (m s).1 = Ok a → Q a.

Abbreviation keeps m := (post m (λ _, True)).

Lemma post_weaken {A} (m : Sto A) (Q Q' : A → Prop) :
  post m Q → (∀ a, Q a → Q' a) → post m Q'.
Proof. intros Hm HQ s Hs. destruct (Hm s Hs). eauto. Qed.

Lemma post_ret {A} (a : A) (Q : A → Prop) : Q a → post (mret a) Q.
Proof. intros HQ s Hs. split; [done|]. by intros ? [= <-]. Qed.

Lemma post_bind {A B} (m : Sto A) (f : A → Sto B) (P : A → Prop) (Q : B → Prop) :
  post m P → (∀ a, P a → post (f a) Q) → post (m ≫= f) Q.
Proof.
  intros Hm Hf s Hs. destruct (Hm s Hs) as [H1 H2]. cbv [mbind sto_bind].
  destruct (m s) as [[a|e] s']; cbn in *; [|done]. by apply Hf; [apply H2|].
Qed.

Lemma post_fmap {A B} (m : Sto A) (f : A → B) (P : A → Prop) (Q : B → Prop) :
  post m P → (∀ a, P a → Q (f a)) → post (f <$> m) Q.
Proof. intros Hm Hf. eapply post_bind; [done|]. intros a Ha. by apply post_ret, Hf. Qed.

Lemma post_fail {A} e (Q : A → Prop) : post (fail e) Q.
Proof. by intros s Hs. Qed.

Lemma post_ask {A} (f : Database → A) (Q : A → Prop) :
  (∀ d, integrity d → Q (f d)) → post (ask f) Q.
Proof. intros HQ s Hs. split; [done|]. intros a [= <-]. by apply HQ. Qed.

Lemma post_query {A} (f : Database → result store_error A) (Q : A → Prop) :
  (∀ d a, integrity d → f d = Ok a → Q a) → post (query f) Q.
Proof. intros HQ s Hs. split; [done|]. intros a. by apply HQ. Qed.

Lemma post_exec f :
  (∀ d d', integrity d → f d = Ok d' → integrity d') → keeps (exec f).
Proof. intros Hf s Hs. unfold exec. destruct (f (sg_db s)) eqn:E; cbn; eauto. Qed.

Lemma post_exec_ok f : (∀ d, integrity d → integrity (f d)) → keeps (exec (λ d, Ok (f d))).
Proof. intros Hf. apply post_exec. intros d ? Hd [= <-]. auto. Qed.

Lemma post_exec_returning {A} f (Q : A → Prop) :
  (∀ d a d', integrity d → f d = Ok (a, d') → integrity d' ∧ Q a) → post (exec_returning f) Q.
Proof.
  intros Hf s Hs. unfold exec_returning. destruct (f (sg_db s)) as [[a d']|e] eqn:E; cbn; [|done].
  destruct (Hf _ _ _ Hs E). split; [done|]. by intros ? [= <-].
Qed.

Lemma post_attempt {A} (m : Sto A) (Q : A → Prop) :
  post m Q → post (attempt m) (λ r, ∀ a, r = Ok a → Q a).
Proof.
  intros Hm s Hs. destruct (Hm s Hs) as [H1 H2]. unfold attempt. destruct (m s) as [r s'].
  split; [done|]. cbn in *. by intros ? [= <-].
Qed.

Lemma post_transaction {A} (m : Sto A) (Q : A → Prop) : post m Q → post (transaction m) Q.
Proof.
  intros Hm s Hs. destruct (Hm s Hs) as [H1 H2]. unfold transaction.
  destruct (m s) as [[a|e] s']; cbn in *; eauto.
Qed.

Lemma post_or_fail {A} (o : option A) msg (Q : A → Prop) :
  (∀ a, o = Some a → Q a) → post (or_fail o msg) Q.
Proof. intros HQ. destruct o; [apply post_ret; auto|apply post_fail]. Qed.

Lemma post_publish now evt : keeps (publishStreamEventLocked now evt).
Proof. intros s Hs. destruct (StorageFacts.publish_db now evt s) as [l ->]. by split. Qed.

Lemma post_publish_submission now ident sub row :
  keeps (publishHyperliquidSubmissionLocked now ident sub row).
Proof.
  intros s Hs. destruct (StorageFacts.publish_submission_db now ident sub row s) as [l ->].
  by split.
Qed.

(** ** Statements *)

Context {laws_event : CodecLaws TcBotEvent} {laws_deal : CodecLaws TcDeal}
  {laws_status : CodecLaws WsOrder} {laws_create : CodecLaws CreateOrderRequest}
  {laws_modify : CodecLaws ModifyOrderRequest} {laws_cancel : CodecLaws CancelOrderRequestByCloid}
  {laws_flags : CodecLaws (gmap string flag)}
  {laws_payload : CodecLaws ScalerStorage.scaledOrderPayload} {laws_bot : CodecLaws Bot}.
Context (empty_flags : is_Some (Unmarshal (A := gmap string flag) "{}")).

Lemma marshal_decodes {A} {c : Codec A} {laws : CodecLaws A} (a : A) raw : Marshal a = Some raw → decodes A raw.
Proof.
  intros Hm. split; [by eapply marshal_nonempty|]. by rewrite (unmarshal_marshal a).
Qed.

Lemma json_decodes {A} {c : Codec A} {laws : CodecLaws A} raw p :
  is_Some (Unmarshal (A := A) raw) → json raw = Some p → decodes A p.
Proof. intros Hu Hj. destruct (unmarshal_json raw p Hj) as [Hne E]. split; [done|]. by rewrite E. Qed.

Lemma insert_event_ok now oid ev raw (t t' : auto botevent_row) id :
  OrderId.valid oid = true → Marshal ev = Some raw → events_ok t →
  Queries.insert_event now (OrderId.Hex oid) (OrderId.BotID oid) (OrderId.DealID oid)
    (OrderId.BotEventID oid) (unix_milli (ev_CreatedAt ev)) raw t = Ok (id, t') → events_ok t'.
Proof.
  intros Hoid Hm [Hrows Hkeys Hids Hseq Hnext]. unfold Queries.insert_event.
  destruct (existsb _ _) eqn:E; [done|]. intros [= <- <-]. split; cbn.
  - apply Forall_app; split; [done|]. constructor; [|done]. exists oid, ev. cbn.
    by rewrite (unmarshal_marshal ev).
  - rewrite fmap_app. apply NoDup_app. split_and!; [done| |apply NoDup_singleton].
    intros k (r & -> & Hr)%list_elem_of_fmap Hk%list_elem_of_singleton.
    rewrite <- not_true_iff_false, existsb_exists in E. apply E. exists r.
    split; [by apply list_elem_of_In|]. injection Hk as -> -> ->.
    by rewrite String.eqb_refl, !Z.eqb_refl.
  - rewrite fmap_app. apply StronglySorted_app_2; [|done|repeat constructor].
    intros x y (r & -> & Hr)%list_elem_of_fmap ->%list_elem_of_singleton. cbn.
    rewrite Forall_forall in Hseq. specialize (Hseq r Hr). lia.
  - apply Forall_app; split; [|constructor; [cbn; lia|done]].
    eapply Forall_impl; [done|]. cbn. intros; lia.
  - lia.
Qed.

(** A statement changes one table: the others keep what they satisfy. *)
Ltac one_table := intros []; split; cbn; try done.

Lemma with_botevents_ok t d : events_ok t → integrity d → integrity (with_botevents t d).
Proof. intros Ht. by one_table. Qed.
Lemma with_log_ok t d : events_ok t → integrity d → integrity (with_botevents_log t d).
Proof. intros Ht. by one_table. Qed.
Lemma with_submissions_ok t d :
  map_Forall submission_ok t → integrity d → integrity (with_submissions t d).
Proof. intros Ht. by one_table. Qed.
Lemma with_statuses_ok t d : map_Forall status_ok t → integrity d → integrity (with_statuses t d).
Proof. intros Ht. by one_table. Qed.
Lemma with_scaled_ok t d : map_Forall scaled_ok t → integrity d → integrity (with_scaled t d).
Proof. intros Ht. by one_table. Qed.
Lemma with_venues_ok t d : venues_ok t → integrity d → integrity (with_venues t d).
Proof. intros Ht. by one_table. Qed.
Lemma with_assignments_ok t d :
  assignments_ok t → integrity d → integrity (with_assignments t d).
Proof. intros Ht. by one_table. Qed.

Lemma UpsertVenue_ok id type name wallet flags d d' :
  id ≠ "" → is_Some (Unmarshal (A := gmap string flag) flags) →
  integrity d → Queries.UpsertVenue id type name wallet flags d = Ok d' → integrity d'.
Proof.
  intros Hid Hf Hd. unfold Queries.UpsertVenue. destruct (json flags) as [f|] eqn:Ej; [|done].
  destruct (existsb _ _) eqn:E; [done|]. intros [= <-]. apply with_venues_ok; [|done].
  destruct (in_venues d Hd) as [Hv Hu]. split.
  { apply map_Forall_insert_2; [|done]. split; [done|]. by apply (json_decodes flags). }
  assert (Hnew : ∀ j w, j ≠ id → db_venues d !! j = Some w → vr_type w = type →
                 vr_wallet w = wallet → False).
  { intros j w Hj Hw H1 H2. rewrite <- not_true_iff_false, existsb_exists in E. apply E.
    exists (j, w). split; [by apply list_elem_of_In, elem_of_map_to_list|].
    apply String.eqb_neq in Hj. by rewrite Hj, H1, H2, !String.eqb_refl. }
  intros i j v w [[<- <-]|[Hi Hvi]]%lookup_insert_Some [[<- <-]|[Hj Hwj]]%lookup_insert_Some H1 H2;
    cbn in H1, H2; [done| | |by eapply Hu].
  - by destruct (Hnew j w).
  - by destruct (Hnew i v).
Qed.

Lemma DeleteVenue_ok id d : integrity d → integrity (Queries.DeleteVenue id d).
Proof.
  intros Hd. apply with_venues_ok; [|done]. destruct (in_venues d Hd) as [Hv Hu]. split.
  - by apply map_Forall_delete.
  - intros i j v w [_ Hi]%lookup_delete_Some [_ Hj]%lookup_delete_Some. by apply Hu.
Qed.

Lemma assign_ok now b v p d d' :
  p = 0 ∨ p = 1 → integrity d →
  Queries.UpsertBotVenueAssignment now b v p d = Ok d' → integrity d'.
Proof.
  intros Hp Hd. unfold Queries.UpsertBotVenueAssignment.
  destruct (_ && _) eqn:E; [done|]. intros [= <-]. apply with_assignments_ok; [|done].
  destruct (in_assignments d Hd) as [H1 H2].
  assert (Hnew : ∀ w a, w ≠ v → p = 1 → db_assignments d !! (b, w) = Some a →
                 ar_is_primary a ≠ 1).
  { intros w a Hw -> Ha Hpr. cbn in E. rewrite <- not_true_iff_false in E.
    unfold Queries.other_primary in E. rewrite existsb_exists in E. apply E.
    exists ((b, w), a). split; [by apply list_elem_of_In, elem_of_map_to_list|].
    apply String.eqb_neq in Hw. by rewrite Hw, Hpr, !Z.eqb_refl. }
  split.
  - intros k a [[_ <-]|[_ Ha]]%lookup_insert_Some; [done|]. by eapply H1.
  - intros b' w w' a a' Ha Ha'.
    apply lookup_insert_Some in Ha as [[Hk <-]|[Hne Ha]],
      Ha' as [[Hk' <-]|[Hne' Ha']]; intros Hpa Hpa'; simplify_eq/=.
    + done.
    + destruct (decide (w = w')); [done|]. by destruct (Hnew w' a').
    + destruct (decide (w = w')); [done|]. by destruct (Hnew w a).
    + by eapply H2.
Qed.

Lemma clear_primary_ok b d : integrity d → integrity (Queries.clear_primary b d).
Proof.
  intros Hd. apply with_assignments_ok; [|done]. destruct (in_assignments d Hd) as [H1 H2].
  assert (Hl : ∀ k a, map_imap (λ k a, Some (if k.1 =? b
      then mkAssignRow 0 (ar_assigned_at_utc a) else a)) (db_assignments d) !! k = Some a →
    (k.1 = b ∧ ar_is_primary a = 0) ∨ (k.1 ≠ b ∧ db_assignments d !! k = Some a)).
  { intros k a. rewrite map_lookup_imap. destruct (db_assignments d !! k) as [x|]; [|done]. cbn.
    destruct (Z.eqb_spec k.1 b); intros [= <-]; auto. }
  split.
  - intros k a [[_ ?]|[_ Ha]]%Hl; [by left|]. by eapply H1.
  - intros b' w w' a a' [[_ ?]|[_ Ha]]%Hl [[_ ?]|[_ Ha']]%Hl ??; [congruence..|]. by eapply H2.
Qed.

Lemma DeleteAssignment_ok b v d : integrity d → integrity (Queries.DeleteBotVenueAssignment b v d).
Proof.
  intros Hd. apply with_assignments_ok; [|done]. destruct (in_assignments d Hd) as [H1 H2]. split.
  - intros k a [_ Ha]%lookup_delete_Some. by eapply H1.
  - intros b' w w' a a' [_ Ha]%lookup_delete_Some [_ Ha']%lookup_delete_Some. by eapply H2.
Qed.

(** *** Submissions and statuses *)

Definition ident_ok (ident : OrderIdentifier) : Prop := OrderId.valid (oi_OrderId ident) = true.

Lemma key_ok ident : ident_ok ident → order_ok (key_of (ensureIdentifier ident)).
Proof.
  intros Hid. unfold order_ok, key_of, ensureIdentifier, Venue, Hex. cbn.
  split_and!; [by case_match; [|apply String.eqb_neq]..|]. by eexists.
Qed.

Lemma submission_put k r d :
  submission_ok k r → integrity d → integrity (with_submissions (<[k := r]> (db_submissions d)) d).
Proof.
  intros Hr Hd. apply with_submissions_ok; [|done].
  by apply map_Forall_insert_2; [|apply in_submissions].
Qed.

(** Each of the three statements adds the payload of its kind and keeps the others. *)
Ltac submitted raw :=
  let p := fresh "p" in
  destruct (json raw) as [p|] eqn:Ej; [|done]; intros [= <-];
  apply submission_put; [|done];
  match goal with |- context [db_submissions ?d !! ?k] =>
    destruct (db_submissions d !! k) eqn:Er;
      [destruct (in_submissions d ltac:(assumption) k _ Er) as (_ & _ & ? & ? & ?)|] end;
  unfold submission_ok, kind_ok; cbn; split_and!; try done; try (intros ? [= <-]);
  try (by eapply json_decodes).

Lemma UpsertCreate_ok now k raw ty blob row d d' :
  order_ok k → is_Some (Unmarshal (A := CreateOrderRequest) raw) → integrity d →
  Queries.UpsertHyperliquidCreate now k raw ty blob row d = Ok d' → integrity d'.
Proof.
  intros Hk Hraw Hd. unfold Queries.UpsertHyperliquidCreate. submitted raw; by left.
Qed.

Lemma AppendModify_ok now k raw ty blob row d d' :
  order_ok k → is_Some (Unmarshal (A := ModifyOrderRequest) raw) → integrity d →
  Queries.AppendHyperliquidModify now k raw ty blob row d = Ok d' → integrity d'.
Proof.
  intros Hk Hraw Hd. unfold Queries.AppendHyperliquidModify. submitted raw.
  - right; left. split; [done|]. by destruct (sr_modify_payloads _).
  - apply Forall_app; split; [done|]. constructor; [by eapply json_decodes|done].
  - by right; left.
  - constructor; [by eapply json_decodes|done].
Qed.

Lemma UpsertCancel_ok now k raw ty blob row d d' :
  order_ok k → is_Some (Unmarshal (A := CancelOrderRequestByCloid) raw) → integrity d →
  Queries.UpsertHyperliquidCancel now k raw ty blob row d = Ok d' → integrity d'.
Proof.
  intros Hk Hraw Hd. unfold Queries.UpsertHyperliquidCancel. submitted raw; by right; right.
Qed.

Lemma InsertStatus_ok k ty raw recorded d d' :
  order_ok k → decodes WsOrder raw → integrity d →
  Queries.InsertHyperliquidStatus k ty raw recorded d = Ok d' → integrity d'.
Proof.
  intros Hk Hraw Hd. unfold Queries.InsertHyperliquidStatus.
  destruct (db_statuses d !! (k, recorded)); [done|]. intros [= <-].
  apply with_statuses_ok; [|done]. by apply map_Forall_insert_2; [|apply in_statuses].
Qed.

Lemma InsertScaled_ok k row d d' :
  scaled_ok k row → integrity d → Queries.InsertScaledOrder k row d = Ok d' → integrity d'.
Proof.
  intros Hk Hd. unfold Queries.InsertScaledOrder. destruct (db_scaled d !! k); [done|].
  intros [= <-]. apply with_scaled_ok; [|done]. by apply map_Forall_insert_2; [|apply in_scaled].
Qed.

(** *** Wallets *)

Lemma union_rekeyed_Forall {K A} `{Countable K} (P : K → A → Prop) (f : K → K) (sel : K → bool)
    (t : gmap K A) :
  map_Forall P t → (∀ k x, P k x → P (f k) x) →
  map_Forall P (t ∪ list_to_map (prod_map f id <$>
    filter (λ r, Is_true (sel r.1)) (map_to_list t))).
Proof.
  intros Ht Hf k x [Hx|[_ Hx]]%lookup_union_Some_raw; [by apply Ht|].
  apply elem_of_list_to_map_2, list_elem_of_fmap in Hx as ([k' x'] & [= -> ->] & Hin).
  apply list_elem_of_filter in Hin as [_ Hin%elem_of_map_to_list]. by apply Hf, Ht.
Qed.

Lemma filter_Forall {K A} `{Countable K} (P : K → A → Prop) (Q : K * A → Prop)
    `{∀ x, Decision (Q x)} (t : gmap K A) : map_Forall P t → map_Forall P (filter Q t).
Proof. intros Ht k x [Hx _]%map_lookup_filter_Some. by apply Ht. Qed.

Lemma set_wallet_ok to k : to ≠ "" → order_ok k → order_ok (Queries.set_wallet to k).
Proof. by intros Hto (? & ? & ?). Qed.

Lemma migrate_ok from to d :
  to ≠ "" → integrity d → integrity (migrateDefaultVenueWalletLocked from to d).
Proof.
  intros Hto Hd. unfold migrateDefaultVenueWalletLocked. case_match; [done|].
  pose proof (λ k, set_wallet_ok to k Hto) as Hset. destruct Hd.
  split; cbn; try done; apply filter_Forall.
  - apply (union_rekeyed_Forall _ _ (Queries.of_wallet _ from)); [done|].
    intros k r [Hk Hr]. split; auto.
  - apply (union_rekeyed_Forall _ (λ k, (Queries.set_wallet to k.1, k.2))
      (λ k, Queries.of_wallet _ from k.1)); [done|].
    intros k r [Hk Hr]. split; auto; cbn; auto.
  - apply (union_rekeyed_Forall _ _ (Queries.of_wallet _ from)); [done|].
    intros k r (Hk & _ & Hr). by split; [|split].
Qed.

(** ** Operations *)

(** Splits an operation into its statements. *)
Ltac post_step :=
  first
  [ apply post_ret | apply post_fail | apply post_publish | apply post_publish_submission
  | apply post_ask; intros ? ? | apply post_or_fail; intros ? ?
  | eapply post_bind; [|intros ? ?] | eapply post_fmap; [|intros ? ?] ].
Ltac keep := repeat first [done | post_step | case_match].

Lemma schemaDDL_ok now d : integrity d → integrity (schemaDDL now d).
Proof. intros []. unfold schemaDDL. destruct (db_scaler d) eqn:E; split; cbn; try done; by rewrite E. Qed.

Lemma empty_ok now : integrity (schemaDDL now empty_database).
Proof.
  split; cbn; try done; try apply map_Forall_empty; try (by split; cbn; constructor || lia).
Qed.

Lemma upsertDefaultVenue_ok wallet : keeps (upsertDefaultVenueLocked wallet).
Proof.
  unfold upsertDefaultVenueLocked. set (w := if String.eqb wallet "" then _ else wallet).
  assert (Hw : w ≠ "").
  { unfold w. case_match eqn:E; [done|]. by apply String.eqb_neq in E. }
  clearbody w. do 2 (eapply post_bind; [by apply (post_ask _ (λ _, True))|intros ? _]). cbn zeta.
  eapply (post_bind _ _ (λ _, True)); [|intros; keep].
  eapply post_weaken; [apply (post_attempt _ (λ _, True)), post_transaction|done].
  eapply (post_bind _ _ (λ _, True)).
  - apply post_exec. intros d d' Hd. by apply UpsertVenue_ok.
  - intros _ _. destruct (String.eqb _ w); [by apply post_ret|].
    apply post_exec_ok. intros d. by apply migrate_ok.
Qed.

Lemma New_ok now stream d s :
  integrity (schemaDDL now d) → New now stream d = Ok s → integrity (sg_db s).
Proof.
  intros Hd. unfold New, ensureDefaultVenue.
  match goal with |- context [upsertDefaultVenueLocked ?w ?s0] =>
    destruct (upsertDefaultVenue_ok w s0 Hd) as [Hs _]; destruct (upsertDefaultVenueLocked w s0)
      as [[]] end; by intros [= <-].
Qed.

Lemma RecordEvent_ok now oid ev :
  OrderId.valid oid = true → keeps (RecordThreeCommasBotEvent now oid ev).
Proof.
  intros Hoid. unfold RecordThreeCommasBotEvent.
  eapply (post_bind _ _ (λ raw, Marshal ev = Some raw)); [by apply post_or_fail|intros raw Hraw].
  eapply (post_bind _ _ (λ _, True)); [|intros; keep].
  apply post_exec_returning. intros d id d' Hd. unfold Queries.InsertThreeCommasBotEvent.
  cbv [mbind result_bind]. destruct (Queries.insert_event _ _ _ _ _ _ _ _) as [[i t]|] eqn:E;
    [|done]. intros [= <- <-]. split; [|done]. apply with_botevents_ok; [|done].
  eapply insert_event_ok; [..|exact E]; [done..|]. apply Hd.
Qed.

Lemma RecordEventLog_ok now oid ev :
  OrderId.valid oid = true → keeps (RecordThreeCommasBotEventLog now oid ev).
Proof.
  intros Hoid. unfold RecordThreeCommasBotEventLog.
  eapply (post_bind _ _ (λ raw, Marshal ev = Some raw)); [by apply post_or_fail|intros raw Hraw].
  apply post_exec_returning. intros d id d' Hd. unfold Queries.InsertThreeCommasBotEventLog.
  cbv [mbind result_bind]. destruct (Queries.insert_event _ _ _ _ _ _ _ _) as [[i t]|] eqn:E;
    [|done]. intros [= <- <-]. split; [|done]. apply with_log_ok; [|done].
  eapply insert_event_ok; [..|exact E]; [done..|]. apply Hd.
Qed.

Lemma RecordCreate_ok now ident req row :
  ident_ok ident → keeps (RecordHyperliquidOrderRequest now ident req row).
Proof.
  intros Hid. unfold RecordHyperliquidOrderRequest.
  eapply (post_bind _ _ (λ raw, Marshal req = Some raw)); [by apply post_or_fail|intros raw Hraw].
  eapply (post_bind _ _ (λ _, True)); [|intros; keep]. apply post_exec. intros d d'.
  apply UpsertCreate_ok; [by apply key_ok|]. rewrite (unmarshal_marshal req); by try eexists.
Qed.

Lemma AppendHyperliquidModify_ok now ident req row :
  ident_ok ident → keeps (AppendHyperliquidModify now ident req row).
Proof.
  intros Hid. unfold AppendHyperliquidModify.
  eapply (post_bind _ _ (λ raw, Marshal req = Some raw)); [by apply post_or_fail|intros raw Hraw].
  eapply (post_bind _ _ (λ _, True)); [|intros; keep]. apply post_exec. intros d d'.
  apply AppendModify_ok; [by apply key_ok|]. rewrite (unmarshal_marshal req); by try eexists.
Qed.

Lemma RecordCancel_ok now ident req row :
  ident_ok ident → keeps (RecordHyperliquidCancel now ident req row).
Proof.
  intros Hid. unfold RecordHyperliquidCancel.
  eapply (post_bind _ _ (λ raw, Marshal req = Some raw)); [by apply post_or_fail|intros raw Hraw].
  eapply (post_bind _ _ (λ _, True)); [|intros; keep]. apply post_exec. intros d d'.
  apply UpsertCancel_ok; [by apply key_ok|]. rewrite (unmarshal_marshal req); by try eexists.
Qed.

Lemma insert_status_ok fuel k raw recorded e :
  order_ok k → decodes WsOrder raw → keeps (insert_status fuel k raw recorded e).
Proof.
  intros Hk Hraw. revert recorded e. induction fuel as [|fuel IH]; intros recorded e; cbn; [keep|].
  eapply (post_bind _ _ (λ _, True)).
  - eapply post_weaken; [apply (post_attempt _ (λ _, True)), post_exec|done].
    intros d d'. by apply InsertStatus_ok.
  - intros r _. case_match; [by apply post_ret|]. case_match; [apply IH|apply post_fail].
Qed.

Lemma RecordStatus_ok now ident status :
  ident_ok ident → keeps (RecordHyperliquidStatus now ident status).
Proof.
  intros Hid. unfold RecordHyperliquidStatus. case_match; [by apply post_ret|].
  eapply (post_bind _ _ (λ raw, Marshal status = Some raw)); [by apply post_or_fail|intros raw Hraw].
  eapply (post_bind _ _ (λ _, True)); [|intros; apply post_publish].
  apply insert_status_ok; [by apply key_ok|by eapply marshal_decodes].
Qed.

Lemma RecordDeal_ok created deal : keeps (RecordThreeCommasDeal created deal).
Proof.
  unfold RecordThreeCommasDeal.
  eapply (post_bind _ _ (λ raw, Marshal deal = Some raw)); [by apply post_or_fail|intros raw Hraw].
  apply post_exec_ok. intros d []. split; try done. apply map_Forall_insert_2; [|done].
  exists deal. by rewrite (unmarshal_marshal deal).
Qed.

Lemma RecordBot_ok bot at_ : keeps (RecordBot bot_id bot at_).
Proof.
  unfold RecordBot.
  eapply (post_bind _ _ (λ raw, Marshal bot = Some raw)); [by apply post_or_fail|intros raw Hraw].
  apply post_exec_ok. intros d []. split; try done. apply map_Forall_insert_2; [|done].
  exists bot. by rewrite (unmarshal_marshal bot).
Qed.

Lemma TouchBot_ok id at_ : keeps (TouchBot id at_).
Proof.
  apply post_exec_ok. intros d []. split; try done. cbn. intros i b.
  rewrite lookup_alter_Some. intros [(-> & b0 & Hb & ->)|[_ Hb]]; by apply in_bots0 in Hb.
Qed.

(** *** Venues *)

Lemma wallet_or_default (w : string) :
  (if String.eqb w "" then defaultHyperliquidWallet else w) ≠ "".
Proof. case_match eqn:E; [done|]. by apply String.eqb_neq in E. Qed.

Lemma venue_rows d : integrity d → Forall (λ r, venue_ok r.1 r.2) (Queries.ListVenues d).
Proof.
  intros Hd. apply Forall_forall. intros [id row] Hr. unfold Queries.ListVenues in Hr.
  rewrite order_by_perm, elem_of_map_to_list in Hr. by apply (in_venues d Hd).
Qed.

(** The flags of a venue decode, so that the search finds a venue or none. *)
Lemma find_primary_spec rows :
  Forall (λ r, venue_ok r.1 r.2) rows →
  match find_primary rows with
  | Ok a => va_VenueID a ≠ "" ∧ va_Wallet a ≠ ""
  | Err e => e = errPrimaryHyperliquidVenueNotFound
  end.
Proof.
  induction 1 as [|[id row] rows [Hid [Hne [flags Hf]]] _ IH]; [done|]. cbn [find_primary].
  destruct (negb _); [done|]. unfold decodeVenueFlags. cbn in Hid, Hne, Hf.
  apply String.eqb_neq in Hne. rewrite Hne, Hf. destruct (negb _); [done|]. cbn.
  split; [done|apply wallet_or_default].
Qed.

(** The default venue is always found, and finding it changes nothing. *)
Lemma default_assignment s :
  integrity (sg_db s) →
  ∃ a, defaultVenueAssignmentLocked s = (Ok a, s) ∧ va_VenueID a ≠ "" ∧ va_Wallet a ≠ "".
Proof.
  intros Hs. unfold defaultVenueAssignmentLocked, findPrimaryHyperliquidVenueLocked.
  unfold Queries.GetVenue. sto_run. destruct (db_venues (sg_db s) !! _) as [row|] eqn:Er; cbn;
    [|by eexists].
  pose proof (wallet_or_default (vr_wallet row)) as Hw.
  set (w := if String.eqb (vr_wallet row) "" then _ else _) in *.
  destruct (negb _); [by eexists|].
  pose proof (find_primary_spec _ (venue_rows _ Hs)) as Hp.
  destruct (find_primary _) as [a|e]; [by exists a|]. subst e. cbn. by eexists.
Qed.

Lemma default_assignment_post :
  post defaultVenueAssignmentLocked (λ a, va_VenueID a ≠ "" ∧ va_Wallet a ≠ "").
Proof.
  intros s Hs. destruct (default_assignment s Hs) as (a & -> & Ha). split; [done|].
  by intros ? [= <-].
Qed.

Lemma UpsertBotVenueAssignment_ok now b v p : keeps (UpsertBotVenueAssignment now b v p).
Proof. apply post_exec. intros d d' Hd. apply assign_ok; [destruct p; auto|done]. Qed.

Lemma ApiUpsertVenue_ok id payload : keeps (StorageApi.UpsertVenue id payload).
Proof.
  unfold StorageApi.UpsertVenue. cbn zeta. set (tid := TrimSpace id).
  destruct (String.eqb tid "") eqn:Eid; [apply post_fail|]. apply String.eqb_neq in Eid.
  case_match; [apply post_fail|].
  destruct (match StorageApi.vu_Flags payload with None => _ | Some f => _ end) as [f|] eqn:Ef;
    [|apply post_fail].
  eapply (post_bind _ _ (λ _, True)).
  - apply post_exec. intros d d' Hd. apply UpsertVenue_ok; [done| |done].
    destruct (StorageApi.vu_Flags payload) as [fl|]; [|by injection Ef as <-].
    rewrite (unmarshal_marshal fl); by try eexists.
  - intros _ _. eapply post_bind; [by apply (post_ask _ (λ _, True))|]. intros. keep.
Qed.

Lemma require_venue_ok id : keeps (StorageApi.require_venue id).
Proof.
  eapply post_bind; [by apply (post_ask _ (λ _, True))|]. intros. keep.
Qed.

Lemma ApiDeleteVenue_ok id : keeps (StorageApi.DeleteVenue id).
Proof.
  unfold StorageApi.DeleteVenue. do 2 (case_match; [apply post_fail|]).
  eapply (post_bind _ _ (λ _, True)); [apply require_venue_ok|]. intros _ _.
  apply post_exec_ok, DeleteVenue_ok.
Qed.

Lemma ApiUpsertAssignment_ok now id b p : keeps (StorageApi.UpsertVenueAssignment now id b p).
Proof.
  unfold StorageApi.UpsertVenueAssignment. case_match; [apply post_fail|].
  eapply (post_bind _ _ (λ _, True)); [apply require_venue_ok|]. intros _ _.
  eapply (post_bind _ _ (λ _, True)).
  - eapply post_weaken; [apply (post_attempt _ (λ _, True)), post_transaction|done].
    eapply (post_bind _ _ (λ _, True)).
    + destruct p; [|by apply post_ret]. apply post_exec_ok. intros d. apply clear_primary_ok.
    + intros _ _. apply post_exec. intros d d' Hd. apply assign_ok; [destruct p; auto|done].
  - intros r _. destruct r; [|by case_match; apply post_fail].
    eapply post_bind; [by apply (post_ask _ (λ _, True))|]. intros. keep.
Qed.

Lemma ApiDeleteAssignment_ok id b : keeps (StorageApi.DeleteVenueAssignment id b).
Proof.
  unfold StorageApi.DeleteVenueAssignment. case_match; [apply post_fail|].
  eapply post_bind; [by apply (post_ask _ (λ _, True))|]. intros l _.
  case_match; [apply post_fail|]. apply post_exec_ok, DeleteAssignment_ok.
Qed.

(** *** Scalers *)

(** A read of the storage changes nothing. *)
Ltac keep_reads :=
  repeat first [done | apply post_ret | apply post_fail | apply post_publish
    | eapply post_bind; [first [by apply (post_ask _ (λ _, True)) | by apply (post_query _ (λ _, True))]
                        |intros ? _]
    | case_match].

Lemma UpsertOrderScaler_ok now m by_ notes : keeps (ScalerStorage.UpsertOrderScaler now m by_ notes).
Proof.
  unfold ScalerStorage.UpsertOrderScaler. eapply (post_bind _ _ (λ _, True)).
  - apply post_exec_ok. intros d []. by split.
  - intros _ _. keep_reads. eapply (post_bind _ _ (λ _, True)); [apply post_publish|]. keep.
Qed.

Lemma UpsertBotOrderScaler_ok now b m notes by_ :
  keeps (ScalerStorage.UpsertBotOrderScaler now b m notes by_).
Proof.
  unfold ScalerStorage.UpsertBotOrderScaler. eapply (post_bind _ _ (λ _, True)).
  - apply post_exec_ok. intros d []. by split.
  - intros _ _. keep_reads. eapply (post_bind _ _ (λ _, True)); [apply post_publish|]. keep.
Qed.

Lemma DeleteBotOrderScaler_ok now b by_ : keeps (ScalerStorage.DeleteBotOrderScaler now b by_).
Proof.
  unfold ScalerStorage.DeleteBotOrderScaler. eapply (post_bind _ _ (λ _, True)).
  - apply post_exec_ok. intros d []. by split.
  - intros _ _. keep_reads.
Qed.

Lemma InsertAudit_ok now params :
  ident_ok (ScalerStorage.ap_Identifier params) → keeps (ScalerStorage.InsertScaledOrderAudit now params).
Proof.
  intros Hid. unfold ScalerStorage.InsertScaledOrderAudit. cbn zeta.
  set (ident := ScalerStorage.ap_Identifier params) in *.
  eapply (post_bind _ _ (λ blob, ScalerStorage.ap_SubmittedOrderID params = None ∨
    ∃ p, blob = Some p ∧ decodes ScalerStorage.scaledOrderPayload p)).
  { destruct (ScalerStorage.ap_SubmittedOrderID params); [|by apply post_ret; left].
    eapply post_fmap; [apply post_or_fail; intros a Ha; exact Ha|]. cbn. intros raw Hraw.
    right. exists raw. split; [done|by eapply marshal_decodes]. }
  intros blob Hblob.
  eapply (post_bind _ _ (λ owner, owner.1 ≠ "" ∧ owner.2 ≠ "")).
  { destruct (String.eqb (oi_VenueID ident) "") eqn:Ev, (String.eqb (oi_Wallet ident) "") eqn:Ew;
      cbn [orb]; try (eapply post_bind; [apply default_assignment_post|]; intros a []);
      apply post_ret; by rewrite ?String.eqb_neq in *. }
  intros [v w] [Hv Hw]. eapply (post_bind _ _ (λ _, True)).
  { apply post_exec. intros d d'. apply InsertScaled_ok. split_and!; [done..|by do 2 eexists| |].
    - cbn. destruct (ScalerStorage.ap_Skipped params); auto.
    - cbn. destruct Hblob as [->|?]; auto. }
  intros _ _. keep_reads; (eapply (post_bind _ _ (λ _, True)); [keep_reads|intros; keep_reads]);
    (eapply (post_bind _ _ (λ _, True)); [apply post_publish|keep]).
Qed.

Lemma ResolveScaler_ok oid : keeps (ScalerStorage.ResolveEffectiveOrderScaler oid).
Proof. unfold ScalerStorage.ResolveEffectiveOrderScaler. keep_reads. Qed.

Lemma RecordScaledOrder_ok now params :
  ident_ok (rp_Identifier params) → keeps (ScalerStorage.RecordScaledOrder now params).
Proof.
  intros Hid. unfold ScalerStorage.RecordScaledOrder.
  eapply (post_bind _ _ (λ _, True)); [apply ResolveScaler_ok|]. intros e _.
  eapply (post_bind _ _ (λ _, True)); [by apply InsertAudit_ok|]. keep.
Qed.

(** ** Every storage the program can be in

    The operations that write, with their arguments. *)

Inductive operation :=
| OpRecordEvent (now : Z) (oid : OrderId.OrderId) (ev : TcBotEvent)
| OpRecordEventLog (now : Z) (oid : OrderId.OrderId) (ev : TcBotEvent)
| OpCreate (now : Z) (ident : OrderIdentifier) (req : CreateOrderRequest) (row : Z)
| OpModify (now : Z) (ident : OrderIdentifier) (req : ModifyOrderRequest) (row : Z)
| OpCancel (now : Z) (ident : OrderIdentifier) (req : CancelOrderRequestByCloid) (row : Z)
| OpStatus (now : Z) (ident : OrderIdentifier) (status : WsOrder)
| OpRecordDeal (created : TcDeal → Z) (deal : TcDeal)
| OpRecordBot (bot : Bot) (at_ : Z)
| OpTouchBot (bot : Z) (at_ : Z)
| OpDefaultWallet (wallet : string)
| OpAssign (now : Z) (bot : Z) (venue : VenueID) (primary : bool)
| OpUpsertVenue (venue : string) (payload : StorageApi.VenueUpsertRequest)
| OpDeleteVenue (venue : string)
| OpUpsertAssignment (now : Z) (venue : string) (bot : Z) (primary : bool)
| OpDeleteAssignment (venue : string) (bot : Z)
| OpUpsertScaler (now : Z) (multiplier : f64) (by_ : string) (notes : option string)
| OpUpsertBotScaler (now bot : Z) (multiplier : option f64) (notes : option string) (by_ : string)
| OpDeleteBotScaler (now bot : Z) (by_ : string)
| OpInsertAudit (now : Z) (params : ScalerStorage.ScaledOrderAuditParams)
| OpRecordScaled (now : Z) (params : RecordScaledOrderParams).

(** An order identifier of the program has three [uint32]. *)
Definition typed (op : operation) : Prop :=
  match op with
  | OpRecordEvent _ oid _ | OpRecordEventLog _ oid _ => OrderId.valid oid = true
  | OpCreate _ ident _ _ | OpModify _ ident _ _ | OpCancel _ ident _ _ | OpStatus _ ident _ =>
    ident_ok ident
  | OpInsertAudit _ params => ident_ok (ScalerStorage.ap_Identifier params)
  | OpRecordScaled _ params => ident_ok (rp_Identifier params)
  | _ => True
  end.

Definition run (op : operation) (s : Storage) : Storage :=
  match op with
  | OpRecordEvent now oid ev => (RecordThreeCommasBotEvent now oid ev s).2
  | OpRecordEventLog now oid ev => (RecordThreeCommasBotEventLog now oid ev s).2
  | OpCreate now ident req row => (RecordHyperliquidOrderRequest now ident req row s).2
  | OpModify now ident req row => (AppendHyperliquidModify now ident req row s).2
  | OpCancel now ident req row => (RecordHyperliquidCancel now ident req row s).2
  | OpStatus now ident status => (RecordHyperliquidStatus now ident status s).2
  | OpRecordDeal created deal => (RecordThreeCommasDeal created deal s).2
  | OpRecordBot bot at_ => (RecordBot bot_id bot at_ s).2
  | OpTouchBot bot at_ => (TouchBot bot at_ s).2
  | OpDefaultWallet wallet => (EnsureDefaultVenueWallet wallet s).2
  | OpAssign now bot venue primary => (UpsertBotVenueAssignment now bot venue primary s).2
  | OpUpsertVenue venue payload => (StorageApi.UpsertVenue venue payload s).2
  | OpDeleteVenue venue => (StorageApi.DeleteVenue venue s).2
  | OpUpsertAssignment now venue bot primary =>
    (StorageApi.UpsertVenueAssignment now venue bot primary s).2
  | OpDeleteAssignment venue bot => (StorageApi.DeleteVenueAssignment venue bot s).2
  | OpUpsertScaler now m by_ notes => (ScalerStorage.UpsertOrderScaler now m by_ notes s).2
  | OpUpsertBotScaler now bot m notes by_ =>
    (ScalerStorage.UpsertBotOrderScaler now bot m notes by_ s).2
  | OpDeleteBotScaler now bot by_ => (ScalerStorage.DeleteBotOrderScaler now bot by_ s).2
  | OpInsertAudit now params => (ScalerStorage.InsertScaledOrderAudit now params s).2
  | OpRecordScaled now params => (ScalerStorage.RecordScaledOrder now params s).2
  end.

(** A fresh database file, operations on it in any order, restarts in between. *)
Inductive reached : Storage → Prop :=
| reached_created now stream s : New now stream empty_database = Ok s → reached s
| reached_restarted now stream s s' :
    reached s → New now stream (sg_db s) = Ok s' → reached s'
| reached_run op s : reached s → typed op → reached (run op s).

Lemma run_ok op : typed op → ∀ s, integrity (sg_db s) → integrity (sg_db (run op s)).
Proof.
  intros Hop s Hs. destruct op; cbn in *.
  - by apply RecordEvent_ok.
  - by apply RecordEventLog_ok.
  - by apply RecordCreate_ok.
  - by apply AppendHyperliquidModify_ok.
  - by apply RecordCancel_ok.
  - by apply RecordStatus_ok.
  - by apply RecordDeal_ok.
  - by apply RecordBot_ok.
  - by apply TouchBot_ok.
  - by apply upsertDefaultVenue_ok.
  - by apply UpsertBotVenueAssignment_ok.
  - by apply ApiUpsertVenue_ok.
  - by apply ApiDeleteVenue_ok.
  - by apply ApiUpsertAssignment_ok.
  - by apply ApiDeleteAssignment_ok.
  - by apply UpsertOrderScaler_ok.
  - by apply UpsertBotOrderScaler_ok.
  - by apply DeleteBotOrderScaler_ok.
  - by apply InsertAudit_ok.
  - by apply RecordScaledOrder_ok.
Qed.

Lemma reached_integrity s : reached s → integrity (sg_db s).
Proof.
  induction 1 as [now stream s Hs|now stream s s' _ IH Hs|op s _ IH Hop].
  - by apply (New_ok now stream empty_database); [apply empty_ok|].
  - by apply (New_ok now stream (sg_db s)); [apply schemaDDL_ok|].
  - by apply run_ok.
Qed.

(** C14.  Whatever happened, the database is sound: the events have distinct keys and
    rising ids, a bot has one primary venue at most, a venue's account is its own,
    every row is filed under the identifiers of its payload, the last request of
    an order is there, and no payload is unreadable.  And the program starts
    again. *)
Theorem schema_invariant (s : Storage) (Hjson : is_Some (json "{}")) (Hs : reached s) :
  integrity (sg_db s) ∧
  ∀ now stream, ∃ s', New now stream (sg_db s) = Ok s' ∧ integrity (sg_db s').
Proof.
  pose proof (reached_integrity s Hs) as Hd. split; [done|]. intros now stream.
  pose proof (schemaDDL_ok now _ Hd) as Hd'.
  assert (Hnew : ∃ s', New now stream (sg_db s) = Ok s').
  { unfold New, ensureDefaultVenue.
    match goal with |- context [upsertDefaultVenueLocked ?w ?s0] =>
      pose proof (WalletFacts.upsertDefaultVenue_succeeds w s0 Hjson
        (proj2 (in_venues _ Hd'))) as E; destruct (upsertDefaultVenueLocked w s0) as [r s'] end.
    cbn in E. subst r. by eexists. }
  destruct Hnew as [s' E]. exists s'. split; [done|]. by eapply New_ok.
Qed.

End Integrity.

End Integrity.
