(* ===== verification/Reads.v ===== *)
(** * Reading a sound database

    In a database that satisfies [integrity] no read of the storage fails: every
    payload decodes and every identifier is one.  And every bot has a venue. *)

From Stdlib Require Import Ascii.
From S2P Require Import Prelude GoFloat GoString OrderId Domain Store Tables Queries Stream.
From S2P Require Import Storage ScalerStorage StorageApi TablesFacts StorageFacts Integrity.
Import GoFloat GoString Domain Store Tables Storage TablesFacts Integrity.

Module Reads.

Section Reads.
Context {sqlite : SqliteJSON} {R : GoRange} {HR : FairRange R}.
Context {json_event : Codec TcBotEvent} {json_deal : Codec TcDeal} {json_status : Codec WsOrder}.
Context {json_create : Codec CreateOrderRequest} {json_modify : Codec ModifyOrderRequest}
  {json_cancel : Codec CancelOrderRequestByCloid} {json_flags : Codec (gmap string flag)}
  {json_payload : Codec ScalerStorage.scaledOrderPayload}
  {json_volumes : Codec ScalerStorage.DealVolumes}.
Context {Bot : Type} {json_bot : Codec Bot} (bot_id : Bot → Z).

(** [m] succeeds, changes nothing, and its answer satisfies [Q]. *)
Definition answers {A} (m : Sto A) (Q : A → Prop) (s : Storage) : Prop :=
  ∃ a, m s = (Ok a, s) ∧ Q a.

(** ** Rows decode *)

Lemma mapM_result {E A B} (f : A → result E B) (l : list A) :
  (∀ x, x ∈ l → ∃ y, f x = Ok y) → ∃ k, mapM f l = Ok k.
Proof.
  induction l as [|x l IH]; intros Hl; [by eexists|]. cbn.
  destruct (Hl x) as [y Hy]; [by left|]. destruct IH as [k Hk]; [intros; apply Hl; by right|].
  exists (y :: k). by rewrite Hy; cbn; rewrite Hk.
Qed.

Lemma mapM_option {A B} (f : A → option B) (l : list A) :
  (∀ x, x ∈ l → is_Some (f x)) → is_Some (mapM f l).
Proof. intros Hl. apply mapM_is_Some_2, Forall_forall. done. Qed.

Context (s : Storage) (Hs : integrity (Bot := Bot) bot_id (sg_db s)).

Lemma event_row r : r ∈ au_rows (db_botevents (sg_db s)) → event_ok r.
Proof. apply Forall_forall, Hs. Qed.
Lemma log_row r : r ∈ au_rows (db_botevents_log (sg_db s)) → event_ok r.
Proof. apply Forall_forall, Hs. Qed.

Lemma decodes_value `{Codec A} raw : decodes A raw → is_Some (Unmarshal (A := A) raw).
Proof. by intros []. Qed.

Lemma decode_request_some `{Codec A} raw : decodes A raw → ∃ a, decode_request raw = Ok (Some a).
Proof.
  intros [Hne [a Ha]]. unfold decode_request. apply String.eqb_neq in Hne. rewrite Hne, Ha.
  by eexists.
Qed.

(** A nullable payload is absent or decodes. *)
Lemma column_decodes `{Codec A} (o : option string) :
  (∀ p, o = Some p → decodes A p) →
  ∃ r, decode_request (column o) = Ok r ∧ (is_Some o → is_Some r).
Proof.
  intros Ho. destruct o as [p|]; [|by exists None; split; [|intros []]].
  destruct (decode_request_some p (Ho p eq_refl)) as [a Ha]. by exists (Some a).
Qed.

Lemma decode_modifies (l : list string) :
  Forall (decodes ModifyOrderRequest) l →
  ∃ r, decodeLatestModifyRequest l "" = Ok r ∧ (l ≠ [] → is_Some r).
Proof.
  intros Hl. unfold decodeLatestModifyRequest.
  destruct (mapM_option (Unmarshal (A := ModifyOrderRequest)) l) as [k Hk].
  { intros x Hx. rewrite Forall_forall in Hl. by apply decodes_value, Hl. }
  rewrite Hk. destruct (last k) as [m|] eqn:El; [by exists (Some m)|].
  apply last_None in El as ->. apply mapM_Some_1, Forall2_length in Hk.
  exists None. split; [done|]. by destruct l.
Qed.

(** ** Events *)

Lemma one_cases {A} (l : list A) : one l = Err ErrNoRows ∨ ∃ x, one l = Ok x ∧ x ∈ l.
Proof. destruct l as [|x l]; [by left|]. right. exists x. split; [done|by left]. Qed.

Lemma event_decodes r : event_ok r → ∃ ev : TcBotEvent, Unmarshal (er_payload r) = Some ev.
Proof. intros (oid & ev & _ & Hev & _). by exists ev. Qed.

Lemma event_order_id r :
  event_ok r → ∃ oid, OrderId.FromHexString (er_order_id r) = Ok oid ∧
    er_order_id r = OrderId.Hex oid ∧ OrderId.DealID oid = er_deal_id r.
Proof.
  intros (oid & ev & Hv & _ & E & _ & Ed & _). exists oid.
  rewrite E. by rewrite OrderId.FromHexString_Hex.
Qed.

Lemma ListEventsForOrder_answers b deal e : answers (ListEventsForOrder b deal e) (λ _, True) s.
Proof.
  unfold answers, ListEventsForOrder. sto_run.
  match goal with |- context [mapM decode_event ?l] => destruct (mapM_option decode_event l) as [k ->] end;
    [|by eexists].
  unfold Queries.ListThreeCommasBotEventsForOrder. intros r.
  rewrite order_by_perm, list_elem_of_filter. intros [_ Hr%event_row%event_decodes].
  unfold decode_event. destruct Hr as [ev ->]. by eexists.
Qed.

Lemma ListEventsLog_answers : answers ListEventsLog (λ _, True) s.
Proof.
  unfold answers, ListEventsLog. sto_run.
  destruct (mapM_result decode_log_row (Queries.ListThreeCommasBotEventLogs (sg_db s)))
    as [k ->]; [|by eexists].
  unfold Queries.ListThreeCommasBotEventLogs. intros r. rewrite order_by_perm. intros Hr%log_row.
  unfold decode_log_row. destruct (event_decodes r Hr) as [ev ->].
  destruct (event_order_id r Hr) as (oid & -> & _). by eexists.
Qed.

Lemma LoadThreeCommasBotEvent_answers oid : answers (LoadThreeCommasBotEvent oid) (λ _, True) s.
Proof.
  unfold answers, LoadThreeCommasBotEvent, Queries.FetchThreeCommasBotEvent. sto_run.
  match goal with |- context [one ?l] => destruct (one_cases l) as [->|(r & -> & Hr)] end;
    [by eexists|]. cbn.
  rewrite order_by_perm, list_elem_of_filter in Hr. destruct Hr as [_ Hr%event_row%event_decodes].
  destruct Hr as [ev ->]. by eexists.
Qed.

(** The orders of a deal are of that deal. *)
Lemma ListOrderIdsForDeal_answers deal :
  answers (ListOrderIdsForDeal deal) (Forall (λ oid, OrderId.DealID oid = deal)) s.
Proof.
  unfold answers, ListOrderIdsForDeal. sto_run.
  assert (Hl : ∀ h, h ∈ Queries.GetOrderIdForDeal deal (sg_db s) →
    ∃ oid, OrderId.FromHexString h = Ok oid ∧ h = OrderId.Hex oid ∧ OrderId.DealID oid = deal).
  { intros h. unfold Queries.GetOrderIdForDeal, Queries.distinct.
    rewrite list_elem_of_In, <- in_rev, <- list_elem_of_In, elem_of_remove_dups, list_elem_of_In,
      <- in_rev, <- list_elem_of_In, list_elem_of_fmap.
    intros (r & -> & [Hde Hr%event_row]%list_elem_of_filter).
    destruct (event_order_id r Hr) as (oid & H1 & H2 & H3). exists oid. by rewrite H3. }
  revert Hl. generalize (Queries.GetOrderIdForDeal deal (sg_db s)) as l.
  induction l as [|h l IH]; intros Hl; [by exists []|].
  destruct (Hl h) as (oid & Hh & E & Hde); [by left|].
  assert (Ed : decode_hex h = Ok [oid]).
  { unfold decode_hex. rewrite (proj2 (String.eqb_neq h "")) by (by subst h). by rewrite Hh. }
  destruct IH as (k & Hk & Hf); [intros; apply Hl; by right|].
  exists (oid :: k). cbn. rewrite Ed. cbn. destruct (mapM decode_hex l) as [ks|]; cbn in *; [|done].
  injection Hk as <-. split; [done|by constructor].
Qed.

Lemma LoadTakeProfit_answers deal :
  (LoadTakeProfitForDeal deal s).1 = Err ErrNoRows ∨
  answers (LoadTakeProfitForDeal deal) (λ x, OrderId.DealID x.1 = deal) s.
Proof.
  unfold answers, LoadTakeProfitForDeal, Queries.GetTPForDeal. sto_run.
  match goal with |- context [one ?l] => destruct (one_cases l) as [->|(r & -> & Hr)] end;
    [by left|right]. cbn.
  rewrite order_by_perm, list_elem_of_filter in Hr. destruct Hr as [[Hde _] Hr%event_row].
  destruct (event_order_id r Hr) as (oid & -> & _ & E), (event_decodes r Hr) as [ev ->].
  eexists. split; [done|]. cbn. congruence.
Qed.

(** ** Submissions and statuses *)

(** A recorded submission is one of the three actions. *)
Lemma LoadHyperliquidSubmission_answers ident :
  answers (LoadHyperliquidSubmission ident)
    (λ o, ∀ a, o = Some a → ac_Type a ≠ ActionNone) s.
Proof.
  unfold answers, LoadHyperliquidSubmission, Queries.FetchHyperliquidSubmission. sto_run.
  destruct (db_submissions (sg_db s) !! _) as [r|] eqn:Er; cbn; [|by exists None].
  destruct (in_submissions _ _ Hs _ _ Er) as (_ & Hkind & Hc & Hm & Hx).
  destruct (column_decodes _ Hc) as (c & Ec & Hc'), (decode_modifies _ Hm) as (m & Em & Hm'),
    (column_decodes _ Hx) as (x & Ex & Hx').
  unfold decodeCreateRequest, decodeCancelRequest. rewrite Ec, Em, Ex.
  destruct Hkind as [[-> Hk]|[[-> Hk]|[-> Hk]]];
    first [apply Hc' in Hk as [? ->] | apply Hm' in Hk as [? ->] | apply Hx' in Hk as [? ->]];
    (repeat case_match); cbn in *; simplify_eq; eexists; (split; [done|]); by intros ? [= <-].
Qed.

Lemma LoadHyperliquidStatus_answers ident : answers (LoadHyperliquidStatus ident) (λ _, True) s.
Proof.
  unfold answers, LoadHyperliquidStatus, loadLatestHyperliquidStatusLocked,
    Queries.FetchLatestHyperliquidStatus, Queries.status_rows. sto_run.
  match goal with |- context [one ?l] => destruct (one_cases l) as [->|([k r] & -> & Hr)] end;
    [by eexists|]. cbn.
  rewrite order_by_perm, list_elem_of_filter, elem_of_map_to_list in Hr. destruct Hr as [_ Hr].
  destruct (in_statuses _ _ Hs _ _ Hr) as [_ [_ [st ->]]]. by eexists.
Qed.

Lemma ListHyperliquidStatuses_answers ident : answers (ListHyperliquidStatuses ident) (λ _, True) s.
Proof.
  unfold answers, ListHyperliquidStatuses, Queries.ListHyperliquidStatuses, Queries.status_rows.
  sto_run.
  match goal with |- context [mapM ?f ?l] => destruct (mapM_option f l) as [k ->] end;
    [|by eexists].
  intros r (x & -> & Hr)%list_elem_of_fmap.
  rewrite order_by_perm, list_elem_of_filter in Hr. destruct x as [k x], Hr as [_ Hr].
  rewrite elem_of_map_to_list in Hr. by destruct (in_statuses _ _ Hs _ _ Hr) as [_ [_ ?]].
Qed.

Ltac found_ids E :=
  cbn beta iota;
  match goal with |- context [mapM decode_order_key ?l] =>
    match type of E with _ = ?r => rewrite (E : mapM decode_order_key l = r) end end;
  by eexists.

Lemma ListHyperliquidOrderIds_answers : answers ListHyperliquidOrderIds (λ _, True) s.
Proof.
  unfold answers, ListHyperliquidOrderIds.
  assert (Hq : ∀ ids, ∃ k, mapM decode_order_key
    (ids ≫= (λ v, Queries.ListHyperliquidOrderIds v (sg_db s))) = Ok k).
  { intros ids. apply mapM_result. intros k (v & Hk & _)%list_elem_of_bind.
    unfold Queries.ListHyperliquidOrderIds in Hk.
    rewrite order_by_perm, list_elem_of_filter, list_elem_of_fmap in Hk.
    destruct Hk as [_ ([k' r] & -> & Hr%elem_of_map_to_list)].
    destruct (in_submissions _ _ Hs _ _ Hr) as ((_ & _ & oid & Hv & E) & _).
    destruct k' as [[ve w] h]. cbn in E. subst h. unfold decode_order_key.
    cbn [fst]. rewrite (proj2 (String.eqb_neq (OrderId.Hex oid) "")) by done. rewrite OrderId.FromHexString_Hex by done.
    by eexists. }
  destruct (default_assignment bot_id s Hs) as (a & Ha & _).
  sto_run. destruct (Queries.ListVenues (sg_db s)) as [|v l].
  - rewrite Ha. destruct (Hq [va_VenueID a]) as [k E]. found_ids E.
  - destruct (Hq ((v :: l).*1)) as [k E]. found_ids E.
Qed.

(** ** Deals, bots and audits *)

Lemma LoadThreeCommasDeal_answers deal :
  answers (LoadThreeCommasDeal deal) (λ o, ∀ d, o = Some d → dl_Id d = deal) s.
Proof.
  unfold answers, LoadThreeCommasDeal, Queries.FetchDeal. sto_run.
  destruct (db_deals (sg_db s) !! deal) as [r|] eqn:Er; cbn; [|by exists None].
  destruct (in_deals _ _ Hs _ _ Er) as (d & -> & Hid & _). eexists. split; [done|].
  by intros ? [= <-].
Qed.

Lemma LoadBot_answers b :
  answers (LoadBot (Bot := Bot) b) (λ o, ∀ x, o = Some x → bot_id x.1 = b) s.
Proof.
  unfold answers, LoadBot, Queries.FetchBot. sto_run.
  destruct (db_bots (sg_db s) !! b) as [r|] eqn:Er; cbn; [|by exists None].
  destruct (in_bots _ _ Hs _ _ Er) as (x & -> & Hid). eexists. split; [done|].
  by intros ? [= <-].
Qed.

Lemma ResolveEffectiveOrderScaler_answers oid :
  answers (ScalerStorage.ResolveEffectiveOrderScaler oid) (λ e, ef_OrderId e = oid) s.
Proof.
  unfold answers, ScalerStorage.ResolveEffectiveOrderScaler, Queries.GetOrderScaler,
    Queries.GetBotOrderScaler. sto_run. destruct (in_scaler _ _ Hs) as [r ->]. cbn.
  destruct (db_bot_scalers (sg_db s) !! _) as [o|]; cbn; eexists; (split; [done|]);
    unfold ScalerStorage.effective_scaler; by repeat case_match.
Qed.

Lemma before_hash_cons c t : Ascii.eqb c "#" = false →
  ScalerStorage.before_hash (String c t) = String c (ScalerStorage.before_hash t).
Proof. destruct c as [[] [] [] [] [] [] [] []]; done. Qed.

Lemma hex_digit_not_hash b :
  OrderId.is_byte b →
  Ascii.eqb (hex_digit (Z.shiftr b 4)) "#" || Ascii.eqb (hex_digit (Z.land b 15)) "#" = false.
Proof.
  intros Hb. apply negb_true_iff.
  apply (OrderId.byte_bits_in (λ b, negb (Ascii.eqb (hex_digit (Z.shiftr b 4)) "#" ||
    Ascii.eqb (hex_digit (Z.land b 15)) "#"))); [vm_compute; reflexivity|done].
Qed.

Lemma before_hash_encoded bs t :
  Forall OrderId.is_byte bs →
  ScalerStorage.before_hash (EncodeToString bs +:+ String "#" t) = EncodeToString bs.
Proof.
  induction 1 as [|b bs Hb _ IH]; [done|]. cbn [EncodeToString].
  apply hex_digit_not_hash, orb_false_iff in Hb as [H1 H2].
  change (String ?c (String ?c' ?u) +:+ ?v) with (String c (String c' (u +:+ v))).
  by rewrite !before_hash_cons, IH by done.
Qed.

Lemma before_hash_audit oid i at_ :
  ScalerStorage.before_hash (ScalerStorage.audit_order_id oid i at_) = OrderId.Hex oid.
Proof.
  unfold ScalerStorage.audit_order_id, OrderId.Hex.
  change (("0x" +:+ ?u) +:+ ?v) with (String "0" (String "x" (u +:+ v))).
  rewrite !before_hash_cons by done. change ("0x" +:+ ?u) with (String "0" (String "x" u)).
  do 2 f_equal. change ("#" +:+ ?t) with (String "#" t) at 1. apply before_hash_encoded, OrderId.AsHex_bytes.
Qed.

(** An audit is read back under the order it was made for. *)
Lemma convertScaledOrder_answers k r :
  scaled_ok k r → ∃ a, ScalerStorage.convertScaledOrder (k, r) = Ok a ∧
    OrderId.Hex (sa_OrderId a) = ScalerStorage.before_hash k.2.
Proof.
  intros (_ & _ & (oid & at_ & Hv & E) & _ & Hp). destruct k as [[v w] h]. cbn in E. subst h.
  unfold ScalerStorage.convertScaledOrder. cbn [snd].
  rewrite before_hash_audit, OrderId.FromHexString_Hex by done.
  destruct Hp as [->|(p & -> & Hp)].
  - by eexists.
  - destruct (bool_decide _ && _); [|by eexists].
    unfold column. cbn. destruct Hp as [_ [x ->]]. by eexists.
Qed.

Lemma audits_answer (l : list (order_key * scaled_row)) :
  (∀ x, x ∈ l → db_scaled (sg_db s) !! x.1 = Some x.2) →
  ∃ k, mapM ScalerStorage.convertScaledOrder l = Ok k.
Proof.
  intros Hl. apply mapM_result. intros [k r] Hx. specialize (Hl _ Hx). cbn in Hl.
  destruct (convertScaledOrder_answers k r) as (a & Ha & _); [|by exists a].
  by apply (in_scaled _ _ Hs) in Hl.
Qed.

Lemma in_range_scaled x : x ∈ go_range 0 (db_scaled (sg_db s)) → db_scaled (sg_db s) !! x.1 = Some x.2.
Proof. rewrite range_perm. destruct x. apply elem_of_map_to_list. Qed.

Lemma ListScaledOrdersByOrderId_answers oid :
  answers (ScalerStorage.ListScaledOrdersByOrderId oid) (λ _, True) s.
Proof.
  unfold answers, ScalerStorage.ListScaledOrdersByOrderId, Queries.ListScaledOrdersByOrderId. sto_run.
  match goal with |- context [mapM _ ?l] => destruct (audits_answer l) as [k ->] end; [|by eexists].
  intros x. unfold Queries.scaled_order. rewrite order_by_perm, list_elem_of_filter.
  by intros [_ Hx%in_range_scaled].
Qed.

Lemma ListScaledOrdersByDeal_answers deal :
  answers (ScalerStorage.ListScaledOrdersByDeal deal) (λ _, True) s.
Proof.
  unfold answers, ScalerStorage.ListScaledOrdersByDeal, Queries.ListScaledOrdersByDeal. sto_run.
  match goal with |- context [mapM _ ?l] => destruct (audits_answer l) as [k ->] end; [|by eexists].
  intros x. unfold Queries.scaled_order. rewrite order_by_perm, list_elem_of_filter.
  by intros [_ Hx%in_range_scaled].
Qed.

(** ** Venues of a bot *)

(** At least one, each once, one of them primary at most, all with a wallet. *)
Definition venues_sound (l : list VenueAssignment) : Prop :=
  l ≠ [] ∧ NoDup (va_VenueID <$> l) ∧
  (∀ v w, v ∈ l → w ∈ l → va_IsPrimary v = true → va_IsPrimary w = true →
     va_VenueID v = va_VenueID w) ∧
  Forall (λ v, va_Wallet v ≠ "") l.

Lemma NoDup_omap {A B K} (f : A → option B) (g : A → K) (h : B → K) (l : list A) :
  (∀ a b, f a = Some b → h b = g a) → NoDup (g <$> l) → NoDup (h <$> omap f l).
Proof.
  intros Hf. induction l as [|a l IH]; [done|]. rewrite fmap_cons, NoDup_cons. intros [Ha Hl].
  cbn. destruct (f a) as [b|] eqn:E; [|by apply IH]. rewrite fmap_cons, NoDup_cons.
  split; [|by apply IH]. rewrite (Hf a b E). contradict Ha.
  apply list_elem_of_fmap in Ha as (b' & Eb & (a' & Ha' & E')%list_elem_of_omap).
  apply list_elem_of_fmap. exists a'. by rewrite Eb, (Hf a' b' E').
Qed.

(** The venue that a row of assignments stands for. *)
Definition venue_of (d : Database) (a : Z * string * assignment_row) : option VenueAssignment :=
  match Queries.GetVenue a.1.2 d with
  | Err _ => None
  | Ok row =>
    let wallet := if String.eqb (vr_wallet row) "" then defaultHyperliquidWallet
                  else vr_wallet row in
    Some (mkAssignment a.1.2 wallet (negb (ar_is_primary a.2 =? 0)))
  end.

Lemma venue_of_Some d a v :
  venue_of d a = Some v →
  va_VenueID v = a.1.2 ∧ va_IsPrimary v = negb (ar_is_primary a.2 =? 0) ∧ va_Wallet v ≠ "".
Proof.
  unfold venue_of. destruct (Queries.GetVenue _ _) as [row|]; [|done]. intros [= <-].
  split_and!; [done..|apply wallet_or_default].
Qed.

Lemma bot_assignments b :
  let rows := Queries.ListBotVenueAssignments b (sg_db s) in
  NoDup ((λ x, x.1.2) <$> rows) ∧
  ∀ x, x ∈ rows → x.1.1 = b ∧ db_assignments (sg_db s) !! x.1 = Some x.2.
Proof.
  cbn zeta. unfold Queries.ListBotVenueAssignments. split.
  - rewrite order_by_perm. apply NoDup_fmap_2_strong; [|apply NoDup_filter, NoDup_map_to_list].
    intros [[b1 v1] r1] [[b2 v2] r2] H1 H2 E.
    apply list_elem_of_filter in H1 as [H1 Hin1], H2 as [H2 Hin2].
    rewrite elem_of_map_to_list in *. cbn in *. congruence.
  - intros [k r]. by rewrite order_by_perm, list_elem_of_filter, elem_of_map_to_list.
Qed.

Lemma assigned_venues_sound b :
  let l := omap (venue_of (sg_db s)) (Queries.ListBotVenueAssignments b (sg_db s)) in
  l ≠ [] → venues_sound l.
Proof.
  cbn zeta. intros Hne. destruct (bot_assignments b) as [Hnd Hin].
  set (rows := Queries.ListBotVenueAssignments b (sg_db s)) in *. split_and!; [done| | |].
  - apply (NoDup_omap _ (λ x, x.1.2)); [|done]. by intros x v [? _]%venue_of_Some.
  - destruct (in_assignments _ _ Hs) as [Hbit Hprim].
    assert (Hp : ∀ v, v ∈ omap (venue_of (sg_db s)) rows → va_IsPrimary v = true →
      ∃ r, db_assignments (sg_db s) !! (b, va_VenueID v) = Some r ∧ ar_is_primary r = 1).
    { intros v ([[b' v'] r] & Hx & Hv)%list_elem_of_omap Hpv.
      destruct (Hin _ Hx) as [Eb Hr]. cbn in Eb, Hr. subst b'.
      apply venue_of_Some in Hv as (-> & E & _). cbn in *. exists r. split; [done|].
      destruct (Hbit _ _ Hr) as [H0|]; [|done]. rewrite E, H0 in Hpv. done. }
    intros v w Hv Hw Pv Pw. destruct (Hp v Hv Pv) as (r & Hr & P1), (Hp w Hw Pw) as (r' & Hr' & P2).
    by eapply Hprim.
  - apply Forall_forall. by intros v (x & _ & (_ & _ & Hw)%venue_of_Some)%list_elem_of_omap.
Qed.

Lemma ListVenuesForBot_answers b : answers (ListVenuesForBot b) venues_sound s.
Proof.
  destruct (default_assignment bot_id s Hs) as (a & Ha & Hid & Hw).
  assert (Hone : venues_sound [a]).
  { split_and!; [done|apply NoDup_singleton| |by constructor].
    by intros v w ->%list_elem_of_singleton ->%list_elem_of_singleton. }
  pose proof (assigned_venues_sound b) as Hl. cbn zeta in Hl.
  unfold answers, ListVenuesForBot. sto_run.
  destruct (Queries.ListBotVenueAssignments b (sg_db s)) as [|x rows].
  { exists [a]. by rewrite Ha. }
  fold (venue_of (sg_db s)). change (λ a0, venue_of (sg_db s) a0) with (venue_of (sg_db s)).
  destruct (omap (venue_of (sg_db s)) (x :: rows)) as [|v l].
  - exists [a]. by rewrite Ha.
  - exists (v :: l). split; [done|]. by apply Hl.
Qed.

End Reads.

(** ** What every reachable storage gives *)

Section reached.
Context {sqlite : SqliteJSON} {R : GoRange} {HR : FairRange R}.
Context {json_event : Codec TcBotEvent} {json_deal : Codec TcDeal} {json_status : Codec WsOrder}.
Context {json_create : Codec CreateOrderRequest} {json_modify : Codec ModifyOrderRequest}
  {json_cancel : Codec CancelOrderRequestByCloid} {json_flags : Codec (gmap string flag)}
  {json_payload : Codec ScalerStorage.scaledOrderPayload}
  {json_volumes : Codec ScalerStorage.DealVolumes}.
Context {Bot : Type} {json_bot : Codec Bot} (bot_id : Bot → Z).
Context {laws_event : CodecLaws TcBotEvent} {laws_deal : CodecLaws TcDeal}
  {laws_status : CodecLaws WsOrder} {laws_create : CodecLaws CreateOrderRequest}
  {laws_modify : CodecLaws ModifyOrderRequest} {laws_cancel : CodecLaws CancelOrderRequestByCloid}
  {laws_flags : CodecLaws (gmap string flag)}
  {laws_payload : CodecLaws ScalerStorage.scaledOrderPayload} {laws_bot : CodecLaws Bot}.

(** C15.  No read fails: whatever was recorded, and whatever the restarts, the queries
    of the engine, of the tracker and of the emitter all answer without an error
    and leave the storage alone.  The orders of a deal belong to the deal, a
    loaded deal or bot is the one asked for, and a loaded submission is a
    creation, a modification or a cancellation. *)
Theorem reads_succeed (empty_flags : is_Some (Unmarshal (A := gmap string flag) "{}"))
    (s : Storage) (Hs : reached bot_id s) :
  (∀ b deal e, answers (ListEventsForOrder b deal e) (λ _, True) s) ∧
  answers ListEventsLog (λ _, True) s ∧
  (∀ oid, answers (LoadThreeCommasBotEvent oid) (λ _, True) s) ∧
  (∀ deal, answers (ListOrderIdsForDeal deal) (Forall (λ oid, OrderId.DealID oid = deal)) s) ∧
  (∀ deal, (LoadTakeProfitForDeal deal s).1 = Err ErrNoRows ∨
     answers (LoadTakeProfitForDeal deal) (λ x, OrderId.DealID x.1 = deal) s) ∧
  (∀ deal, answers (LoadThreeCommasDeal deal) (λ o, ∀ d, o = Some d → dl_Id d = deal) s) ∧
  (∀ b, answers (LoadBot b) (λ o, ∀ x, o = Some x → bot_id x.1 = b) s) ∧
  (∀ ident, answers (LoadHyperliquidSubmission ident)
     (λ o, ∀ a, o = Some a → ac_Type a ≠ ActionNone) s) ∧
  (∀ ident, answers (LoadHyperliquidStatus ident) (λ _, True) s) ∧
  (∀ ident, answers (ListHyperliquidStatuses ident) (λ _, True) s) ∧
  answers ListHyperliquidOrderIds (λ _, True) s ∧
  (∀ oid, answers (ScalerStorage.ResolveEffectiveOrderScaler oid) (λ e, ef_OrderId e = oid) s) ∧
  (∀ oid, answers (ScalerStorage.ListScaledOrdersByOrderId oid) (λ _, True) s) ∧
  (∀ deal, answers (ScalerStorage.ListScaledOrdersByDeal deal) (λ _, True) s).
Proof.
  apply reached_integrity in Hs; [|done..]. split_and!; intros.
  - by eapply ListEventsForOrder_answers.
  - by eapply ListEventsLog_answers.
  - by eapply LoadThreeCommasBotEvent_answers.
  - by eapply ListOrderIdsForDeal_answers.
  - by eapply LoadTakeProfit_answers.
  - by eapply LoadThreeCommasDeal_answers.
  - by eapply LoadBot_answers.
  - by eapply LoadHyperliquidSubmission_answers.
  - by eapply LoadHyperliquidStatus_answers.
  - by eapply ListHyperliquidStatuses_answers.
  - by eapply ListHyperliquidOrderIds_answers.
  - by eapply ResolveEffectiveOrderScaler_answers.
  - by eapply ListScaledOrdersByOrderId_answers.
  - by eapply ListScaledOrdersByDeal_answers.
Qed.

(** Every bot has somewhere to trade: whatever venues and assignments were made
    and deleted, its list of venues is never empty, names no venue twice, has one
    primary venue at most, and gives each a wallet. *)
Theorem bot_venues (empty_flags : is_Some (Unmarshal (A := gmap string flag) "{}"))
    (s : Storage) (Hs : reached bot_id s) (b : Z) :
  ∃ l, ListVenuesForBot b s = (Ok l, s) ∧ l ≠ [] ∧ NoDup (va_VenueID <$> l) ∧
    (∀ v w, v ∈ l → w ∈ l → va_IsPrimary v = true → va_IsPrimary w = true →
       va_VenueID v = va_VenueID w) ∧
    Forall (λ v, va_Wallet v ≠ "") l.
Proof.
  apply reached_integrity in Hs; [|done..]. destruct (ListVenuesForBot_answers bot_id s Hs b) as (l & ? & ?).
  by exists l.
Qed.

End reached.

(** ** A concrete storage *)

#[local] Existing Instance StorageFacts.demo_json.
#[local] Existing Instance list_range.
#[global] Instance flag_eq_dec : EqDecision flag.
Proof. solve_decision. Defined.

(** A type of which nothing is written. *)
Definition silent {A} : Codec A := {| Marshal := λ _, None; Unmarshal := λ _, None |}.
Lemma silent_laws {A} : CodecLaws A (H0 := silent).
Proof.
  split; [done..|]. intros raw raw'. cbn. destruct (String.eqb_spec raw ""); [done|].
  by intros [= <-].
Qed.

Definition demo_oid : OrderId.OrderId := OrderId.mkOrderId 1 2 3.
Definition demo_event : TcBotEvent :=
  mkTcBotEvent 0 "Place" "DOGE" "BUY" "Active" fone fone "Safety" 1 2 false.
Definition demo_events : Codec TcBotEvent := table_codec [("e"%string, demo_event)].
#[local] Existing Instance demo_events.
Definition demo_bots : Codec Z := table_codec [("b"%string, 1)].
#[local] Existing Instance demo_bots.
Definition demo_flags : Codec (gmap string flag) := table_codec [("{}"%string, ∅)].
#[local] Existing Instance demo_flags.
#[local] Existing Instance silent | 100.
#[local] Existing Instance silent_laws | 100.
#[local] Existing Instance StorageFacts.demo_creates.
#[local] Existing Instance StorageFacts.demo_modifies.
#[local] Existing Instance StorageFacts.demo_cancels.
#[local] Existing Instance StorageFacts.demo_statuses.
#[local] Existing Instance StorageFacts.demo_creates_laws.
#[local] Existing Instance StorageFacts.demo_modifies_laws.
#[local] Existing Instance StorageFacts.demo_cancels_laws.
#[local] Existing Instance StorageFacts.demo_statuses_laws.
#[local] Instance demo_events_laws : CodecLaws TcBotEvent.
Proof. apply table_codec_laws. vm_compute. reflexivity. Qed.
#[local] Instance demo_bots_laws : CodecLaws Z.
Proof. apply table_codec_laws. vm_compute. reflexivity. Qed.
#[local] Instance demo_flags_laws : CodecLaws (gmap string flag).
Proof. apply table_codec_laws. vm_compute. reflexivity. Qed.

(** An event of bot 1 is recorded and its order sent; the bot gets two venues, the
    second of them primary; the program restarts. *)
Definition demo_ops : list (operation (Bot := Z)) :=
  [OpRecordBot 1 0; OpRecordEvent 0 demo_oid demo_event;
   OpCreate 1 StorageFacts.demo_ident (StorageFacts.demo_create 1) 1;
   OpUpsertVenue "a" (StorageApi.mkVenueRequest "hyperliquid" "A" "0xabc" None);
   OpUpsertAssignment 2 "a" 1 true; OpUpsertAssignment 3 defaultHyperliquidVenueID 1 true].

Definition started (d : Database) : Storage :=
  match New 0 false d with Ok s => s | Err _ => mkStorage d None end.
Definition demo_storage : Storage :=
  started (sg_db (fold_left (λ s op, run id op s) demo_ops (started empty_database))).

Lemma demo_reached : reached (id : Z → Z) demo_storage.
Proof.
  apply (reached_restarted _ 0 false
    (fold_left (λ s op, run id op s) demo_ops (started empty_database)));
    [|vm_compute; reflexivity].
  assert (H0 : reached (id : Z → Z) (started empty_database)).
  { apply (reached_created _ 0 false). vm_compute. reflexivity. }
  assert (Ht : Forall (typed (Bot := Z)) demo_ops) by (repeat constructor).
  revert H0. generalize (started empty_database). induction Ht as [|op ops Hop _ IH]; [done|].
  intros s H0. cbn. apply IH. by constructor.
Qed.

Lemma reads_succeed_witness :
  answers (ListOrderIdsForDeal 2) (Forall (λ oid, OrderId.DealID oid = 2)) demo_storage ∧
  answers (LoadHyperliquidSubmission StorageFacts.demo_ident)
    (λ o, ∀ a, o = Some a → ac_Type a ≠ ActionNone) demo_storage.
Proof.
  assert (H : is_Some (Unmarshal (A := gmap string flag) "{}")) by (eexists; reflexivity).
  pose proof (reads_succeed (HR := list_range_fair) (id : Z → Z) H demo_storage demo_reached)
    as (_ & _ & _ & H1 & _ & _ & _ & H2 & _).
  exact (conj (H1 2) (H2 StorageFacts.demo_ident)).
Defined.

Lemma bot_venues_witness :
  (ListVenuesForBot 1 demo_storage).1 =
    Ok [mkAssignment "a" "0xabc" false; mkAssignment defaultHyperliquidVenueID "default" true] ∧
  ∃ l, ListVenuesForBot 1 demo_storage = (Ok l, demo_storage) ∧ NoDup (va_VenueID <$> l).
Proof.
  split; [vm_compute; reflexivity|].
  assert (H : is_Some (Unmarshal (A := gmap string flag) "{}")) by (eexists; reflexivity).
  destruct (bot_venues (id : Z → Z) H demo_storage demo_reached 1)
    as (l & Hl & _ & Hn & _).
  exists l. split; [exact Hl|exact Hn].
Defined.

Lemma schema_invariant_witness :
  integrity (id : Z → Z) (sg_db demo_storage) ∧
  au_rows (db_botevents (sg_db demo_storage)) ≠ [].
Proof.
  assert (H : is_Some (Unmarshal (A := gmap string flag) "{}")) by (eexists; reflexivity).
  assert (Hj : is_Some (json "{}")) by (eexists; reflexivity).
  split; [|vm_compute; discriminate].
  exact (proj1 (schema_invariant (id : Z → Z) H demo_storage Hj demo_reached)).
Defined.


End Reads.
