(* ===== verification/Polling.v ===== *)
(** * Polling a deal over the storage

    The engine against the storage instead of against given answers: the
    queries of [EngineStore] and [TrackerStore] are those of a [Storage], and a
    poll changes it.  Polling a deal a second time is silent. *)

From S2P Require Import Prelude GoFloat GoString OrderId Domain Adapter Store Tables Queries.
From S2P Require Import Stream Storage ScalerStorage Hl FillTracker OrderScaler Engine.
From S2P Require Import TablesFacts StorageFacts FillTrackerDemo EngineDemo.
Import GoFloat GoString Domain Store Tables Storage TablesFacts StorageFacts.

Module Polling.

Section Polling.
Context {sdk : SDK} {sqlite : SqliteJSON} {R : GoRange} {HR : FairRange R}.
Context {json_event : Codec TcBotEvent} {json_deal : Codec TcDeal} {json_status : Codec WsOrder}.
Context {json_create : Codec CreateOrderRequest} {json_modify : Codec ModifyOrderRequest}
  {json_cancel : Codec CancelOrderRequestByCloid} {json_flags : Codec (gmap string flag)}
  {json_payload : Codec ScalerStorage.scaledOrderPayload}.

(** ** The storage answers the queries *)

(** What the first loop of [processDeal] records of an event. *)
Definition record_one (now : Z) (wi : Engine.WorkKey) (s : Storage) (ev : TcBotEvent) : Storage :=
  let oid := Engine.event_oid wi ev in
  let s := (RecordThreeCommasBotEventLog now oid ev s).2 in
  if Engine.ignored_take_profit ev then s
  else if Engine.acted_on ev then (RecordThreeCommasBotEvent now oid ev s).2 else s.

(** The storage when the loop gets to the [j]-th event; [clock] is the time of
    each round. *)
Definition storage_at (clock : nat → Z) (wi : Engine.WorkKey) (events : list TcBotEvent)
    (s : Storage) (j : nat) : Storage :=
  foldl (λ s '(i, ev), record_one (clock i) wi s ev) s (imap pair (take j events)).

Definition polled (clock : nat → Z) (wi : Engine.WorkKey) (events : list TcBotEvent)
    (s : Storage) : Storage := storage_at clock wi events s (length events).

(** Later queries see the storage after the loop. *)
Definition engine_store (clock : nat → Z) (wi : Engine.WorkKey) (events : list TcBotEvent)
    (s : Storage) : Engine.EngineStore :=
  let after := polled clock wi events s in
  {| Engine.ListVenuesForBot := λ b, (ListVenuesForBot b after).1;
     Engine.ListEventsForOrder := λ b d e, (ListEventsForOrder b d e after).1;
     Engine.ResolveDefaultAlias := (ResolveDefaultAlias after).1;
     Engine.RecordThreeCommasBotEventLog := λ j oid ev,
       (RecordThreeCommasBotEventLog (clock j) oid ev (storage_at clock wi events s j)).1;
     Engine.RecordThreeCommasBotEvent := λ j oid ev,
       (RecordThreeCommasBotEvent (clock j) oid ev
          (RecordThreeCommasBotEventLog (clock j) oid ev (storage_at clock wi events s j)).2).1 |}.

Definition tracker_store (s : Storage) : TrackerStore :=
  {| Store.ListDealIDs := (ListDealIDs s).1;
     Store.LoadThreeCommasBotEvent := λ oid, (LoadThreeCommasBotEvent oid s).1;
     Store.LoadThreeCommasDeal := λ id, (LoadThreeCommasDeal id s).1;
     Store.ListOrderIdsForDeal := λ id, (ListOrderIdsForDeal id s).1;
     Store.ListSubmissionIdentifiersForOrder := λ oid,
       (ListSubmissionIdentifiersForOrder oid s).1;
     Store.ListScaledOrdersByOrderId := λ oid, (ScalerStorage.ListScaledOrdersByOrderId oid s).1;
     Store.LoadHyperliquidStatus := λ i, (LoadHyperliquidStatus i s).1;
     Store.LoadHyperliquidSubmission := λ i, (LoadHyperliquidSubmission i s).1;
     Store.LoadTakeProfitForDeal := λ id, (LoadTakeProfitForDeal id s).1 |}.

(** The scaler's queries. *)
Definition scaler_store {json_volumes : Codec ScalerStorage.DealVolumes} (now : Z) (s : Storage)
    : OrderScaler.ScalerStore :=
  {| OrderScaler.ResolveEffectiveOrderScaler := λ oid,
       (ScalerStorage.ResolveEffectiveOrderScaler oid s).1;
     OrderScaler.RecordScaledOrder := λ params, (ScalerStorage.RecordScaledOrder now params s).1;
     OrderScaler.ListTakeProfitStackSizes := λ oid n,
       (ScalerStorage.ListTakeProfitStackSizes oid n s).1 |}.

(** ** Recording an event twice *)

(** A table has a row for the event of an order. *)
Definition has_event (oid : OrderId.OrderId) (ev : TcBotEvent) (t : auto botevent_row) : Prop :=
  ∃ r, r ∈ au_rows t ∧ er_order_id r = OrderId.Hex oid ∧
       er_botevent_id r = OrderId.BotEventID oid ∧
       er_created_at_utc r = unix_milli (ev_CreatedAt ev).

Lemma insert_event_has now oid ev payload t :
  has_event oid ev t →
  Queries.insert_event now (OrderId.Hex oid) (OrderId.BotID oid) (OrderId.DealID oid)
    (OrderId.BotEventID oid) (unix_milli (ev_CreatedAt ev)) payload t = Err ErrNoRows.
Proof.
  intros (r & Hin & H1 & H2 & H3). unfold Queries.insert_event.
  rewrite (proj2 (existsb_exists _ _)); [done|]. exists r. split; [by apply list_elem_of_In|].
  by rewrite H1, H2, H3, String.eqb_refl, !Z.eqb_refl.
Qed.

Lemma insert_event_new now oid ev payload t :
  match Queries.insert_event now (OrderId.Hex oid) (OrderId.BotID oid) (OrderId.DealID oid)
          (OrderId.BotEventID oid) (unix_milli (ev_CreatedAt ev)) payload t with
  | Ok (_, t') => has_event oid ev t' ∧ (∀ r, r ∈ au_rows t → r ∈ au_rows t')
  | Err e => e = ErrNoRows ∧ has_event oid ev t
  end.
Proof.
  unfold Queries.insert_event. destruct (existsb _ _) eqn:E.
  - split; [done|]. apply existsb_exists in E as (r & Hin & E).
    rewrite !andb_true_iff, String.eqb_eq, !Z.eqb_eq in E. exists r.
    rewrite <- list_elem_of_In in Hin. naive_solver.
  - cbn. split; [|intros r; rewrite elem_of_app; auto]. eexists. cbn.
    rewrite elem_of_app, list_elem_of_singleton. split; [by right|done].
Qed.

Lemma has_event_mono oid ev (t t' : auto botevent_row) :
  (∀ r, r ∈ au_rows t → r ∈ au_rows t') → has_event oid ev t → has_event oid ev t'.
Proof. intros Hsub (r & Hin & Hr). exists r. auto. Qed.

(** The two tables of events and what the recordings do to them. *)
Abbreviation log_of s := (db_botevents_log (sg_db s)).
Abbreviation acted_of s := (db_botevents (sg_db s)).

Lemma record_log_spec now oid ev s :
  let '(r, s') := RecordThreeCommasBotEventLog now oid ev s in
  acted_of s' = acted_of s ∧ (∀ row, row ∈ au_rows (log_of s) → row ∈ au_rows (log_of s')) ∧
  ((is_ok r = true ∨ r = Err ErrNoRows) → is_Some (Marshal ev) ∧ has_event oid ev (log_of s')) ∧
  (is_Some (Marshal ev) → has_event oid ev (log_of s) → r = Err ErrNoRows ∧ sg_db s' = sg_db s).
Proof.
  unfold RecordThreeCommasBotEventLog, Queries.InsertThreeCommasBotEventLog. sto_run.
  destruct (Marshal ev) as [raw|] eqn:Em; cbn.
  - pose proof (insert_event_new (unix_milli now) oid ev raw (log_of s)) as Hnew.
    pose proof (insert_event_has (unix_milli now) oid ev raw (log_of s)) as Hhas.
    destruct (Queries.insert_event _ _ _ _ _ _ _ (log_of s)) as [[id t]|e]; cbn.
    + destruct Hnew. split_and!; try done. intros _ Hx. by specialize (Hhas Hx).
    + destruct Hnew as [-> ?]. by split_and!.
  - split_and!; try done; by intros [|].
Qed.

Lemma record_event_spec now oid ev s :
  let '(r, s') := RecordThreeCommasBotEvent now oid ev s in
  log_of s' = log_of s ∧ (∀ row, row ∈ au_rows (acted_of s) → row ∈ au_rows (acted_of s')) ∧
  ((is_ok r = true ∨ r = Err ErrNoRows) → has_event oid ev (acted_of s')) ∧
  (is_Some (Marshal ev) → has_event oid ev (acted_of s) → r = Err ErrNoRows ∧ sg_db s' = sg_db s).
Proof.
  unfold RecordThreeCommasBotEvent, Queries.InsertThreeCommasBotEvent. sto_run.
  destruct (Marshal ev) as [raw|] eqn:Em; cbn.
  - pose proof (insert_event_new (unix_milli now) oid ev raw (acted_of s)) as Hnew.
    pose proof (insert_event_has (unix_milli now) oid ev raw (acted_of s)) as Hhas.
    destruct (Queries.insert_event _ _ _ _ _ _ _ (acted_of s)) as [[id t]|e]; cbn.
    + assert (H : ∀ s2, sg_db s2 = with_botevents t (sg_db s) →
        log_of s2 = log_of s ∧ (∀ row, row ∈ au_rows (acted_of s) → row ∈ au_rows (acted_of s2)) ∧
        ((is_ok (Ok (E := store_error) id) = true ∨ Ok id = Err ErrNoRows) →
         has_event oid ev (acted_of s2)) ∧
        (is_Some (Some raw) → has_event oid ev (acted_of s) →
         Ok id = Err ErrNoRows ∧ sg_db s2 = sg_db s)).
      { intros s2 ->. cbn. destruct Hnew. split_and!; try done. intros _ Hx.
        by specialize (Hhas Hx). }
      destruct (negb (id =? 0)); [|by apply H].
      match goal with |- context [publishStreamEventLocked ?a ?b ?c] =>
        destruct (publish_db a b c) as [l ->] end. by apply H.
    + destruct Hnew as [-> ?]. by split_and!.
  - split_and!; try done; by intros [|].
Qed.

(** ** Polling *)

(** The event is in the log, and among the events acted upon when it calls for
    an action. *)
Definition registered (wi : Engine.WorkKey) (ev : TcBotEvent) (d : Database) : Prop :=
  let oid := Engine.event_oid wi ev in
  is_Some (Marshal ev) ∧ has_event oid ev (db_botevents_log d) ∧
  (Engine.ignored_take_profit ev = false → Engine.acted_on ev = true →
   has_event oid ev (db_botevents d)).

Definition grows (d d' : Database) : Prop :=
  (∀ r, r ∈ au_rows (db_botevents_log d) → r ∈ au_rows (db_botevents_log d')) ∧
  (∀ r, r ∈ au_rows (db_botevents d) → r ∈ au_rows (db_botevents d')).

#[local] Instance grows_preorder : PreOrder grows.
Proof.
  split; [by intros d; split|]. intros d1 d2 d3 [H1 H2] [H3 H4]. split; auto.
Qed.

Lemma registered_grows wi ev d d' : grows d d' → registered wi ev d → registered wi ev d'.
Proof.
  intros [Hl Ha] (Hm & H1 & H2). split_and!; [done|by eapply has_event_mono|].
  intros. eapply has_event_mono; [done|]. auto.
Qed.

Lemma record_one_grows now wi s ev : grows (sg_db s) (sg_db (record_one now wi s ev)).
Proof.
  unfold record_one. pose proof (record_log_spec now (Engine.event_oid wi ev) ev s) as Hl.
  destruct (RecordThreeCommasBotEventLog _ _ _ s) as [r s1]. destruct Hl as (Ha & Hl & _). cbn.
  assert (H1 : grows (sg_db s) (sg_db s1)) by (split; [done|by rewrite Ha]).
  case_match; [done|]. case_match; [|done].
  pose proof (record_event_spec now (Engine.event_oid wi ev) ev s1) as He.
  destruct (RecordThreeCommasBotEvent _ _ _ s1) as [r2 s2]. destruct He as (El & Hev & _). cbn.
  etrans; [exact H1|]. split; [by rewrite El|done].
Qed.

Lemma storage_at_S clock wi events s j ev :
  events !! j = Some ev →
  storage_at clock wi events s (S j) = record_one (clock j) wi (storage_at clock wi events s j) ev.
Proof.
  intros Hj. unfold storage_at. rewrite (take_S_r _ _ ev) by done. rewrite imap_app, foldl_app. cbn.
  rewrite length_take, Nat.add_0_r, Nat.min_l; [done|]. apply lookup_lt_Some in Hj. lia.
Qed.

Lemma storage_at_grows clock wi events s j k :
  (j <= k)%nat → grows (sg_db (storage_at clock wi events s j)) (sg_db (storage_at clock wi events s k)).
Proof.
  induction 1 as [|k _ IH]; [done|]. etrans; [exact IH|].
  destruct (events !! k) as [ev|] eqn:E; [rewrite (storage_at_S _ _ _ _ _ ev) by done; apply record_one_grows|].
  unfold storage_at. apply lookup_ge_None in E. by rewrite !take_ge by lia.
Qed.

(** A poll that gets through has registered every event. *)
Lemma poll_registers clock wi events s i seen seen' :
  Engine.record_events (estore := engine_store clock wi events s) i wi (drop i events) seen =
    Ok seen' →
  ∀ j ev, (i <= j)%nat → events !! j = Some ev →
  registered wi ev (sg_db (storage_at clock wi events s (S j))).
Proof.
  remember (drop i events) as todo eqn:Htodo. revert i seen Htodo.
  induction todo as [|ev0 todo IH]; intros i seen Htodo Hok j ev Hij Hj.
  { apply lookup_lt_Some in Hj. apply (f_equal length) in Htodo. rewrite length_drop in Htodo.
    cbn in Htodo. lia. }
  assert (Hi : events !! i = Some ev0).
  { rewrite <- (Nat.add_0_r i), <- lookup_drop, <- Htodo. done. }
  assert (Hrest : todo = drop (S i) events).
  { rewrite <- Nat.add_1_r, <- drop_drop, <- Htodo. done. }
  cbn in Hok.
  set (s0 := storage_at clock wi events s i) in *. set (oid := Engine.event_oid wi ev0) in *.
  pose proof (record_log_spec (clock i) oid ev0 s0) as Hl.
  destruct (RecordThreeCommasBotEventLog (clock i) oid ev0 s0) as [r1 s1] eqn:E1.
  destruct Hl as (Ha1 & Hg1 & Hh1 & _). cbn in Hok.
  pose proof (record_event_spec (clock i) oid ev0 s1) as He.
  destruct (RecordThreeCommasBotEvent (clock i) oid ev0 s1) as [r2 s2] eqn:E2.
  destruct He as (El2 & Hg2 & Hh2 & _). cbn in Hok.
  assert (Hstep : storage_at clock wi events s (S i) =
    if Engine.ignored_take_profit ev0 then s1 else if Engine.acted_on ev0 then s2 else s1).
  { rewrite (storage_at_S _ _ _ _ _ ev0) by done. unfold record_one. fold s0 oid.
    rewrite E1. cbn. by rewrite E2. }
  assert (Hr1 : (is_ok r1 = true ∨ r1 = Err ErrNoRows) ∧
    (∃ seen1, Engine.record_events (estore := engine_store clock wi events s) (S i) wi todo seen1 =
              Ok seen') ∧
    (Engine.ignored_take_profit ev0 = false → Engine.acted_on ev0 = true →
     is_ok r2 = true ∨ r2 = Err ErrNoRows)).
  { destruct r1 as [id|[|msg]]; [|..|done];
      (split; [first [by left|by right]|]);
      (destruct (Engine.ignored_take_profit ev0); [split; [by eexists|done]|]);
      (destruct (Engine.acted_on ev0); [|split; [by eexists|done]]);
      destruct r2 as [id2|[|msg2]]; try done; (split; [by eexists|]); intros _ _;
      first [by left|by right]. }
  destruct Hr1 as (Hr1 & (seen1 & Hrec) & Hr2). destruct (Hh1 Hr1) as [Hm Hhas].
  assert (Hreg : registered wi ev0 (sg_db (storage_at clock wi events s (S i)))).
  { rewrite Hstep. split; [done|]. fold oid.
    destruct (Engine.ignored_take_profit ev0); [by split|].
    destruct (Engine.acted_on ev0); [|by split]. split; [by rewrite El2|]. intros _ _. apply Hh2, Hr2; done. }
  destruct (decide (j = i)) as [->|Hne].
  - rewrite Hi in Hj. injection Hj as <-. exact Hreg.
  - apply (IH (S i) seen1 Hrest Hrec j ev); [lia|done].
Qed.

(** Once every event is registered a poll answers [ErrNoRows] throughout and the
    database stays as it is. *)
Lemma registered_still clock wi events s j :
  (∀ ev, ev ∈ events → registered wi ev (sg_db s)) →
  sg_db (storage_at clock wi events s j) = sg_db s.
Proof.
  intros Hreg. induction j as [|j IH]; [done|].
  destruct (events !! j) as [ev|] eqn:E.
  - rewrite (storage_at_S _ _ _ _ _ ev) by done. set (s0 := storage_at _ _ _ _ j) in *.
    destruct (Hreg ev) as (Hm & Hl & Ha); [by eapply list_elem_of_lookup_2|]. unfold record_one.
    pose proof (record_log_spec (clock j) (Engine.event_oid wi ev) ev s0) as H1.
    destruct (RecordThreeCommasBotEventLog _ _ _ s0) as [r1 s1].
    destruct H1 as (_ & _ & _ & H1). destruct (H1 Hm) as [_ E1]; [by rewrite IH|]. cbn.
    case_match; [congruence|]. case_match; [|congruence].
    pose proof (record_event_spec (clock j) (Engine.event_oid wi ev) ev s1) as H2.
    destruct (RecordThreeCommasBotEvent _ _ _ s1) as [r2 s2].
    destruct H2 as (_ & _ & _ & H2). destruct (H2 Hm) as [_ E2]; [rewrite E1, IH; auto|]. cbn.
    congruence.
  - unfold storage_at in *. apply lookup_ge_None in E. by rewrite !take_ge in * by lia.
Qed.

Lemma registered_silent clock wi events s i seen :
  (∀ ev, ev ∈ events → registered wi ev (sg_db s)) →
  Engine.record_events (estore := engine_store clock wi events s) i wi (drop i events) seen = Ok seen.
Proof.
  intros Hreg. remember (drop i events) as todo eqn:Htodo. revert i seen Htodo.
  induction todo as [|ev todo IH]; intros i seen Htodo; [done|].
  assert (Hin : ev ∈ events).
  { rewrite <- (take_drop i events), elem_of_app, <- Htodo. by right; left. }
  assert (Hrest : todo = drop (S i) events).
  { rewrite <- Nat.add_1_r, <- drop_drop, <- Htodo. done. }
  cbn. set (s0 := storage_at clock wi events s i).
  assert (Hs0 : sg_db s0 = sg_db s) by by apply registered_still.
  destruct (Hreg ev Hin) as (Hm & Hl & Ha).
  pose proof (record_log_spec (clock i) (Engine.event_oid wi ev) ev s0) as H1.
  destruct (RecordThreeCommasBotEventLog _ _ _ s0) as [r1 s1].
  destruct H1 as (_ & _ & _ & H1). destruct (H1 Hm) as [-> E1]; [by rewrite Hs0|]. cbn.
  destruct (Engine.ignored_take_profit ev) eqn:Ei; [by apply IH|].
  destruct (Engine.acted_on ev) eqn:Ea; [|by apply IH].
  pose proof (record_event_spec (clock i) (Engine.event_oid wi ev) ev s1) as H2.
  destruct (RecordThreeCommasBotEvent _ _ _ s1) as [r2 s2].
  destruct H2 as (_ & _ & _ & H2). destruct (H2 Hm) as [-> _]; [rewrite E1, Hs0; auto|]. cbn.
  by apply IH.
Qed.

Context {constr : OrderScaler.Constraints} {sstore : OrderScaler.ScalerStore}.

(** C40.  Polling a deal again without news does nothing.  After a poll that recorded
    its events the storage knows all of them, so the next poll of the same events
    - at any later times and with any state of the tracker - finds nothing new:
    it succeeds, emits nothing, leaves the tracker alone and the database as it
    was. *)
Theorem second_poll_silent (e : Engine.Engine) (clock clock' : nat → Z) (now : Z)
    (wi : Engine.WorkKey) (currency : string) (events : list TcBotEvent) (s : Storage)
    (st : Engine.state) (seen : gmap Z OrderId.OrderId)
    (Hfirst : Engine.record_events (estore := engine_store clock wi events s) 0 wi events ∅ =
                Ok seen) :
  let s1 := polled clock wi events s in
  sg_db (polled clock' wi events s1) = sg_db s1 ∧
  Engine.processDeal (tstore := tracker_store (polled clock' wi events s1))
    (estore := engine_store clock' wi events s1) e now wi currency events st = (Ok tt, st).
Proof.
  cbn zeta. set (s1 := polled clock wi events s).
  assert (Hreg : ∀ ev, ev ∈ events → registered wi ev (sg_db s1)).
  { intros ev [j Hj]%list_elem_of_lookup. apply (registered_grows _ _ _ _
      (storage_at_grows clock wi events s (S j) (length events) (lookup_lt_Some _ _ _ Hj))).
    by apply (poll_registers clock wi events s 0 ∅ seen Hfirst); [lia|]. }
  split; [by apply registered_still|]. unfold Engine.processDeal.
  pose proof (registered_silent clock' wi events s1 0 ∅ Hreg) as Hs. rewrite drop_0 in Hs.
  rewrite Hs. assert (go_range 21 (∅ : gmap Z OrderId.OrderId) = []) as ->; [|done].
  apply Permutation_nil_r. by rewrite range_perm, map_to_list_empty.
Qed.

End Polling.

(** ** A deal polled twice *)

#[local] Existing Instance Adapter.demo_sdk.
#[local] Existing Instance list_range.
#[local] Existing Instance EngineDemo.demo_sstore.
#[local] Existing Instance EngineDemo.demo_constr.
#[local] Existing Instance demo_json.
Definition demo_events : Codec TcBotEvent :=
  table_codec [("b"%string, FillTrackerDemo.buy_event); ("t"%string, FillTrackerDemo.tp_event)].
#[local] Existing Instance demo_events.
(** Nothing else is written or read. *)
#[local] Instance unused_codec {A} : Codec A | 100 :=
  {| Marshal := λ _, None; Unmarshal := λ _, None |}.

(** The first poll registers the buy and the take profit of the deal; the second
    is made a minute later. *)
Definition demo_clock (t : Z) (i : nat) : Z := t + Z.of_nat i.
Definition polled_events : list TcBotEvent := [FillTrackerDemo.buy_event; FillTrackerDemo.tp_event].
Definition fresh : Storage := mkStorage empty_database None.
Definition after_poll : Storage := polled (demo_clock 0) EngineDemo.deal_key polled_events fresh.

(** The orders the first poll found. *)
Definition first_seen : gmap Z OrderId.OrderId :=
  match Engine.record_events (estore := engine_store (demo_clock 0) EngineDemo.deal_key
          polled_events fresh) 0 EngineDemo.deal_key polled_events ∅ with
  | Ok seen => seen
  | Err _ => ∅
  end.

Lemma second_poll_silent_witness :
  length (au_rows (db_botevents (sg_db after_poll))) = 2%nat ∧
  sg_db (polled (demo_clock 60) EngineDemo.deal_key polled_events after_poll) = sg_db after_poll ∧
  Engine.processDeal
    (tstore := tracker_store (polled (demo_clock 60) EngineDemo.deal_key polled_events after_poll))
    (estore := engine_store (demo_clock 60) EngineDemo.deal_key polled_events after_poll)
    EngineDemo.demo_engine (14 * second) EngineDemo.deal_key "DOGE" polled_events EngineDemo.demo_st
  = (Ok tt, EngineDemo.demo_st).
Proof.
  split; [vm_compute; reflexivity|].
  assert (Hfirst : Engine.record_events (estore := engine_store (demo_clock 0)
      EngineDemo.deal_key polled_events fresh) 0 EngineDemo.deal_key polled_events ∅ =
    Ok first_seen) by (vm_compute; reflexivity).
  exact (second_poll_silent (HR := list_range_fair) EngineDemo.demo_engine
    (demo_clock 0) (demo_clock 60) (14 * second) EngineDemo.deal_key "DOGE" polled_events fresh
    EngineDemo.demo_st _ Hfirst).
Defined.

End Polling.
