(* ===== verification/Routes.v ===== *)
(** * The API as a whole: the requests it answers

    The strict server interface of [internal/api/ops.gen.go] as one type of calls
    and one function that serves them, in the order the requests are handled.  What
    a client sees of an answer here is its code and the session token that it
    sets. *)

From S2P Require Import Prelude GoFloat GoString OrderId Domain Store Tables Stream Storage.
From S2P Require Import ScalerStorage StorageApi Vault VaultStore Server VaultApi WebAuthn.
From S2P Require Import ApiRecords Api.
Import GoFloat GoString Domain Store Tables Storage Server VaultApi WebAuthn.

Module Routes.

Section Routes.
Context {sqlite : SqliteJSON} {driver : VaultStore.BlobDriver} {R : GoRange} {sdk : SDK}.
Context {json_event : Codec TcBotEvent} {json_deal : Codec TcDeal} {json_status : Codec WsOrder}.
Context {json_create : Codec CreateOrderRequest} {json_modify : Codec ModifyOrderRequest}
  {json_cancel : Codec CancelOrderRequestByCloid} {json_flags : Codec (gmap string flag)}
  {json_payload : Codec ScalerStorage.scaledOrderPayload}
  {json_bundle : Codec VaultSecretsBundle}.
Context {Bot : Type} {json_bot : Codec Bot} (bot_id : Bot → Z).
Context {SessionData LibCredential Creation Assertion ParsedCreation ParsedAssertion : Type}.
Context {lib : @WebAuthnLib SessionData LibCredential Creation Assertion ParsedCreation ParsedAssertion}
  {json_credential : Codec LibCredential}.
Abbreviation Server := (@Server SessionData).
Abbreviation Handler := (@Handler SessionData).

(** A call carries its decoded parameters and body, and the answers of what is
    outside: the queue that takes a cancellation, the subscriptions, the price
    source and the count of active deals. *)
Inductive call :=
| CallListBots (opts : StorageApi.ListBotsOptions) (limit : option Z)
| CallListBotVenues (botID : Z)
| CallListDeals (created : TcDeal → Z) (opts : StorageApi.ListDealsOptions) (limit : option Z)
| CallListOrders (opts : StorageApi.ListOrdersOptions) (includeLog : option bool) (limit : option Z)
| CallListOrderScalers (opts : StorageApi.ListOrdersOptions) (limit : option Z)
| CallCancelOrder (emit : OrderWork → bool) (orderId : string) (venueId : option string)
    (body : option Api.cancel_body)
| CallDeleteBotOrderScalerConfig (botId : Z)
| CallGetBotOrderScalerConfig (botId : Z)
| CallUpsertBotOrderScalerConfig (botId : Z) (body : option (f64 * option string))
| CallGetOrderScalerConfig
| CallUpdateOrderScalerConfig (body : option (f64 * option string))
| CallListVenues
| CallDeleteVenue (venueId : string)
| CallUpsertVenue (venueId : string) (body : option StorageApi.VenueUpsertRequest)
| CallListVenueAssignments (venueId : string)
| CallDeleteVenueAssignment (venueId : string) (botID : Z)
| CallUpsertVenueAssignment (venueId : string) (botID : Z) (body : option bool)
| CallStreamHyperliquidPrices (source : option (string → option unit)) (coins : list string)
| CallStreamOrders (subscribe : result store_error unit)
| CallStreamSystemEvents (subscribe : option unit)
| CallGetSystemStatus (active : option Z) (tracker : option Api.SystemStatusTracker)
| CallGetVaultPayload
| CallUpdateVaultPayload (body : option VaultUpdateRequest)
| CallSealVault
| CallSetupVault (body : option VaultSetupRequest)
| CallGetVaultStatus
| CallUnsealVault (body : option VaultUnsealRequest)
| CallBeginWebauthnLogin (body : option string)
| CallFinishWebauthnLogin (body : option (string * option ParsedAssertion))
| CallBeginWebauthnRegistration (body : option string)
| CallFinishWebauthnRegistration (body : option (string * option ParsedCreation)).

Definition outcome : Type := Z * option string.

(** An error of a handler is answered with [500]. *)
Definition code_of {A} (r : response A) : Z :=
  match r with Reply code _ => code | HandlerError _ => 500 end.

Definition plain {A} (m : Handler (response A)) : Handler outcome :=
  r ← m; mret (code_of r, None).

Definition with_cookie {A} (cookie : A → option string) (m : Handler (response A))
    : Handler outcome :=
  r ← m; mret (code_of r, match r with Reply _ (Some a) => cookie a | _ => None end).

Definition serve (rq : Request) (c : call) : Handler outcome :=
  match c with
  | CallListBots opts limit => plain (Api.ListBots bot_id opts limit)
  | CallListBotVenues botID => plain (Api.ListBotVenues botID)
  | CallListDeals created opts limit => plain (Api.ListDeals rq created opts limit)
  | CallListOrders opts includeLog limit => plain (Api.ListOrders rq opts includeLog limit)
  | CallListOrderScalers opts limit => plain (Api.ListOrderScalers opts limit)
  | CallCancelOrder emit orderId venueId body =>
    plain (Api.CancelOrderByOrderId emit orderId venueId body)
  | CallDeleteBotOrderScalerConfig botId => plain (Api.DeleteBotOrderScalerConfig rq botId)
  | CallGetBotOrderScalerConfig botId => plain (Api.GetBotOrderScalerConfig rq botId)
  | CallUpsertBotOrderScalerConfig botId body =>
    plain (Api.UpsertBotOrderScalerConfig rq botId body)
  | CallGetOrderScalerConfig => plain (Api.GetOrderScalerConfig rq)
  | CallUpdateOrderScalerConfig body => plain (Api.UpdateOrderScalerConfig rq body)
  | CallListVenues => plain Api.ListVenues
  | CallDeleteVenue venueId => plain (Api.DeleteVenue venueId)
  | CallUpsertVenue venueId body => plain (Api.UpsertVenue venueId body)
  | CallListVenueAssignments venueId => plain (Api.ListVenueAssignments venueId)
  | CallDeleteVenueAssignment venueId botID => plain (Api.DeleteVenueAssignment venueId botID)
  | CallUpsertVenueAssignment venueId botID body =>
    plain (Api.UpsertVenueAssignment rq venueId botID body)
  | CallStreamHyperliquidPrices source coins =>
    plain (mret (Api.StreamHyperliquidPrices source coins))
  | CallStreamOrders subscribe => plain (Api.StreamOrders rq subscribe)
  | CallStreamSystemEvents subscribe => plain (Api.StreamSystemEvents rq subscribe)
  | CallGetSystemStatus active tracker =>
    plain (mret (Api.GetSystemStatus (rq_now rq) active tracker))
  | CallGetVaultPayload => plain (GetVaultPayload rq)
  | CallUpdateVaultPayload body => plain (UpdateVaultPayload rq body)
  | CallSealVault => plain (SealVault rq)
  | CallSetupVault body => plain (SetupVault rq body)
  | CallGetVaultStatus => plain (GetVaultStatus rq)
  | CallUnsealVault body => with_cookie (λ a, Some a.2) (UnsealVault rq body)
  | CallBeginWebauthnLogin body => plain (BeginWebauthnLogin rq body)
  | CallFinishWebauthnLogin body => with_cookie id (FinishWebauthnLogin rq body)
  | CallBeginWebauthnRegistration body => plain (BeginWebauthnRegistration rq body)
  | CallFinishWebauthnRegistration body => plain (FinishWebauthnRegistration rq body)
  end.

(** The requests in the order they are handled, with what each was answered. *)
Fixpoint serve_all (calls : list (Request * call)) (s : Server) : list outcome * Server :=
  match calls with
  | [] => ([], s)
  | (rq, c) :: calls =>
    let '(out, s) := serve rq c s in
    let '(outs, s) := serve_all calls s in
    (out :: outs, s)
  end.

End Routes.

End Routes.
