(* ===== verification/Startup.v ===== *)
(** * Starting the program: the vault of [NewApp] in [cmd/recomma/app.go]

    What the program finds on its database decides the state of the vault: it
    waits for its setup unless the first owner has a payload, and no session
    survives. *)

From S2P Require Import Prelude GoFloat GoString OrderId Domain Store Tables Stream Storage.
From S2P Require Import Vault VaultStore Server WebAuthn.
Import GoFloat GoString Domain Store Tables Storage Server.

Module Startup.

Section Startup.
Context {sqlite : SqliteJSON} {driver : VaultStore.BlobDriver}.
Context {json_flags : Codec (gmap string flag)}.
Context {SessionData : Type}.

(** The controller of the owner [GetVaultUser] finds. *)
Definition initialVault (t : VaultStore.VaultTables) : result store_error Controller :=
  existing ← VaultStore.GetVaultUser t;
  match existing with
  | None => Ok (Vault.NewController Vault.StateSetupRequired (Vault.mkConfig None None None None None))
  | Some user =>
    payload ← VaultStore.GetVaultPayloadForUser (Vault.us_ID user) t;
    match payload with
    | None =>
      Ok (Vault.NewController Vault.StateSetupRequired (Vault.mkConfig (Some user) None None None None))
    | Some payload =>
      Ok (Vault.NewController Vault.StateSealed
            (Vault.mkConfig (Some user) (Some (VaultStore.py_UpdatedAt payload)) None None None))
    end
  end.

(** The server as it begins; the queue of orders comes with the unsealing. *)
Definition NewServer (now : Z) (stream debug : bool) (max : f64) (d : Database)
    (t : VaultStore.VaultTables) : result store_error (Server (SessionData := SessionData)) :=
  st ← New now stream d;
  vault ← initialVault t;
  Ok (mkServer st t (Some vault) None (Some (WebAuthn.NewWebAuthnService 0)) debug max None).

End Startup.

End Startup.
