(* ===== verification/SessionFacts.v ===== *)
(** * Who may use the API

    The abstract machine of the vault's phase and the one session, and that the
    server refines it: the code that every guarded endpoint answers, and what each
    answer does to phase and session.  From the machine follows where a session
    that is let through came from. *)

From S2P Require Import Prelude GoFloat GoString OrderId Domain Store Tables Stream Storage.
From S2P Require Import ScalerStorage StorageApi Vault VaultStore Server VaultApi WebAuthn.
From S2P Require Import ApiRecords Api Routes.
Import GoFloat GoString Domain Store Tables Storage Server VaultApi WebAuthn Routes.

Module SessionFacts.

(** ** The machine *)

Inductive phase := Setup | Locked | Open.

Definition state_of (p : phase) : Vault.State :=
  match p with
  | Setup => Vault.StateSetupRequired
  | Locked => Vault.StateSealed
  | Open => Vault.StateUnsealed
  end.

Record gate := mkGate { gt_phase : phase; gt_session : option vaultSession }.

(** The request presents the token of the session. *)
Definition presents (rq : Request) (g : gate) : option Z :=
  match rq_cookie rq, gt_session g with
  | Some cookie, Some v =>
    if String.eqb cookie "" then None
    else if String.eqb (vn_token v) cookie then Some (vn_expiresAt v) else None
  | _, _ => None
  end.

Definition live (rq : Request) (g : gate) : bool :=
  match presents rq g with Some e => rq_now rq <=? e | None => false end.
Definition stale (rq : Request) (g : gate) : bool :=
  match presents rq g with Some e => e <? rq_now rq | None => false end.

Section Calls.
Context {ParsedCreation ParsedAssertion : Type}.
Abbreviation call := (@call ParsedCreation ParsedAssertion).

(** The calls that want a session, and those of them that want the vault open. *)
Definition guarded (c : call) : bool :=
  match c with
  | CallListDeals _ _ _ | CallListOrders _ _ _ | CallStreamOrders _ | CallStreamSystemEvents _
  | CallDeleteBotOrderScalerConfig _ | CallGetBotOrderScalerConfig _
  | CallUpsertBotOrderScalerConfig _ _ | CallGetOrderScalerConfig | CallUpdateOrderScalerConfig _
  | CallGetVaultPayload | CallUpdateVaultPayload (Some _) | CallSealVault => true
  | _ => false
  end.
Definition wants_open (c : call) : bool :=
  match c with
  | CallListDeals _ _ _ | CallListOrders _ _ _ | CallStreamOrders _ | CallStreamSystemEvents _
  | CallUpdateVaultPayload (Some _) => true
  | _ => false
  end.

(** The calls that look at the session: the status does while the vault is open. *)
Definition looks (c : call) (g : gate) : bool :=
  match c with
  | CallGetVaultStatus => match gt_phase g with Open => true | _ => false end
  | _ => guarded c
  end.

(** The session that an answer grants, and the answers that end it. *)
Definition grant (rq : Request) (c : call) (out : outcome) : option vaultSession :=
  match c, out with
  | CallUnsealVault (Some body), (200, Some token) =>
    Some (mkSession token (rq_now rq + deriveSessionTTL (vq_RememberSessionSeconds body)))
  | CallFinishWebauthnLogin _, (200, Some token) =>
    Some (mkSession token (rq_now rq + defaultVaultSessionTTL))
  | _, _ => None
  end.
Definition opens (c : call) : bool := match c with CallUnsealVault _ => true | _ => false end.
Definition ends (c : call) (out : outcome) : bool :=
  match c, out with
  | CallSealVault, (200, _) | CallSetupVault _, (201, _) => true
  | _, _ => false
  end.


(** What an answer does. *)
Definition step (rq : Request) (c : call) (out : outcome) (g : gate) : gate :=
  match grant rq c out with
  | Some v => mkGate (if opens c then Open else gt_phase g) (Some v)
  | None => if ends c out || looks c g && stale rq g then mkGate Locked None else g
  end.

(** The answers the machine allows. *)
Definition allowed (rq : Request) (c : call) (out : outcome) (g : gate) : Prop :=
  guarded c = true →
  (out.1 = 401 ↔ live rq g = false) ∧
  (live rq g = true → wants_open c = true → (out.1 = 403 ↔ gt_phase g ≠ Open)).

Inductive machine_run : gate → list (Request * call * outcome) → gate → Prop :=
| run_done g : machine_run g [] g
| run_step rq c out g tr g' :
    allowed rq c out g → machine_run (step rq c out g) tr g' →
    machine_run g ((rq, c, out) :: tr) g'.

End Calls.

Section SessionFacts.
Context {sqlite : SqliteJSON} {driver : VaultStore.BlobDriver} {R : GoRange} {sdk : SDK}.
Context {json_event : Codec TcBotEvent} {json_deal : Codec TcDeal} {json_status : Codec WsOrder}.
Context {json_create : Codec CreateOrderRequest} {json_modify : Codec ModifyOrderRequest}
  {json_cancel : Codec CancelOrderRequestByCloid} {json_flags : Codec (gmap string flag)}
  {json_payload : Codec ScalerStorage.scaledOrderPayload}
  {json_bundle : Codec VaultSecretsBundle}.
Context {Bot : Type} {json_bot : Codec Bot} (bot_id : Bot → Z).
Context {SessionData LibCredential Creation Assertion ParsedCreation ParsedAssertion : Type}.
Context {lib : @WebAuthnLib SessionData LibCredential Creation Assertion ParsedCreation ParsedAssertion}
  {json_credential : Codec LibCredential}.
Abbreviation Server := (@Server SessionData).
Abbreviation Handler := (@Handler SessionData).
Abbreviation call := (@call ParsedCreation ParsedAssertion).
Abbreviation serve := (serve bot_id).
Abbreviation serve_all := (serve_all bot_id).

(** ** The frame: what a handler does to vault and session *)

Definition access (s : Server) : option Controller * option vaultSession * bool :=
  (sv_vault s, sv_session s, sv_debug s).
Definition frame {A} (m : Handler A) : Prop := ∀ s, access (m s).2 = access s.

Lemma frame_ret {A} (a : A) : frame (mret a).
Proof. intros s; reflexivity. Qed.
Lemma frame_bind {A B} (m : Handler A) (f : A → Handler B) :
  frame m → (∀ a, frame (f a)) → frame (m ≫= f).
Proof.
  intros Hm Hf s. unfold mbind, st_bind. specialize (Hm s).
  destruct (m s) as [a s1]. rewrite (Hf a s1). exact Hm.
Qed.
Lemma frame_gets {A} (f : Server → A) : frame (st_gets f).
Proof. intros s; reflexivity. Qed.
Lemma frame_on_store {A} (m : Sto A) : frame (on_store m).
Proof. intros s. unfold on_store. destruct (m (sv_store s)). reflexivity. Qed.
Lemma frame_on_tables {A} (f : VaultStore.VaultTables → A * VaultStore.VaultTables) :
  frame (on_tables f).
Proof. intros s. unfold on_tables. destruct (f (sv_tables s)). reflexivity. Qed.
Lemma frame_plain {A} (m : Handler (response A)) : frame m → frame (plain m).
Proof. intros H. apply frame_bind; [exact H | intros; apply frame_ret]. Qed.

Lemma frame_if {A} (b : bool) (m1 m2 : Handler A) :
  frame m1 → frame m2 → frame (if b then m1 else m2).
Proof. by destruct b. Qed.

Create HintDb frame.
Hint Resolve frame_if frame_ret frame_bind frame_gets frame_on_store frame_on_tables frame_plain : frame.

Lemma frame_emit_all emit works : frame (Api.emit_all emit works).
Proof.
  induction works as [|w works IH]; [apply frame_ret|].
  intros s. cbn. destruct (emit w); [by rewrite IH | reflexivity].
Qed.
Hint Resolve frame_emit_all : frame.

(** A handler written on the state: every step that returns a new state keeps the
    access. *)
Ltac frame_cases :=
  let s := fresh "s" in intros s;
  repeat (case_match; simplify_eq/=; try reflexivity);
  repeat match goal with
  | H : on_store ?m ?s = (_, ?s') |- _ =>
    let E := fresh in pose proof (frame_on_store m s) as E; rewrite H in E; cbn in E; clear H
  | H : on_tables ?m ?s = (_, ?s') |- _ =>
    let E := fresh in pose proof (frame_on_tables m s) as E; rewrite H in E; cbn in E; clear H
  | H : Api.emit_all ?e ?l ?s = (_, ?s') |- _ =>
    let E := fresh in pose proof (frame_emit_all e l s) as E; rewrite H in E; cbn in E; clear H
  end; unfold access in *; cbn in *; try congruence.

Lemma frame_cancel emit o v b : frame (Api.CancelOrderByOrderId (SessionData := SessionData) emit o v b).
Proof. unfold Api.CancelOrderByOrderId. frame_cases. Qed.
Lemma frame_bot_config botID o : frame (Api.bot_config (SessionData := SessionData) botID o).
Proof. unfold Api.bot_config. eauto 10 with frame. Qed.
Lemma frame_begin_registration rq b : frame (BeginWebauthnRegistration rq b).
Proof. unfold BeginWebauthnRegistration. frame_cases. Qed.
Lemma frame_finish_registration rq b : frame (FinishWebauthnRegistration rq b).
Proof. unfold FinishWebauthnRegistration. frame_cases. Qed.
Lemma frame_begin_login rq b : frame (BeginWebauthnLogin rq b).
Proof. unfold BeginWebauthnLogin. frame_cases. Qed.
Hint Resolve frame_cancel frame_bot_config frame_begin_registration frame_finish_registration
  frame_begin_login : frame.

(** ** The gate of a server *)

Definition gate_is (g : gate) (s : Server) : Prop :=
  sv_debug s = false ∧ sv_session s = gt_session g ∧
  ∃ c, sv_vault s = Some c ∧ Vault.cc_state c = state_of (gt_phase g).

Lemma gate_frame {A} (m : Handler A) g s : frame m → gate_is g s → gate_is g (m s).2.
Proof.
  intros Hm (Hd & Hs & c & Hc & Hp). specialize (Hm s). unfold access in Hm.
  simplify_eq. split; [congruence|]. split; [congruence|]. exists c. split; congruence.
Qed.

Lemma seal_known now (c : Controller) p :
  Vault.cc_state c = state_of p →
  (Vault.Seal now c).1 = None ∧ Vault.cc_state (Vault.Seal now c).2 = Vault.StateSealed.
Proof. unfold Vault.Seal. intros Hc. rewrite Hc. by destruct p. Qed.

(** The session check: it lets a live session through as it is, and seals the vault
    when the session has run out. *)
Lemma require_live rq g s : gate_is g s → live rq g = true → requireSession rq s = ((true, false), s).
Proof.
  intros (Hd & Hs & c & Hc & _) Hl. unfold requireSession. rewrite Hd.
  unfold live, presents in Hl. destruct (rq_cookie rq) as [cookie|]; [|done].
  unfold Validate. rewrite Hs. destruct (gt_session g) as [v|]; [|done].
  destruct (String.eqb cookie ""); [done|].
  destruct (String.eqb (vn_token v) cookie); [|done].
  z_bools. destruct (vn_expiresAt v <? rq_now rq) eqn:E; z_bools; [lia|].
  cbn. by rewrite Hc.
Qed.

Lemma require_not_live rq g s :
  gate_is g s → live rq g = false →
  ∃ expired s', requireSession rq s = ((false, expired), s') ∧
    gate_is (if stale rq g then mkGate Locked None else g) s'.
Proof.
  intros Hg Hl. pose proof Hg as (Hd & Hs & c & Hc & Hp). unfold requireSession. rewrite Hd.
  unfold live, stale, presents in *. destruct (rq_cookie rq) as [cookie|]; [|by exists false, s].
  unfold Validate. rewrite Hs.
  destruct (String.eqb cookie "") eqn:Hcookie.
  - exists false, s. cbn. rewrite Hc. by destruct (gt_session g).
  - destruct (gt_session g) as [v|] eqn:Hv; [|exists false, s; cbn; by rewrite Hc].
    destruct (String.eqb (vn_token v) cookie); [|exists false, s; cbn; by rewrite Hc].
    z_bools. destruct (vn_expiresAt v <? rq_now rq) eqn:E; z_bools; [|lia].
    cbn. rewrite Hc. cbn. eexists _, _. split; [reflexivity|].
    split; [exact Hd|]. split; [reflexivity|]. eexists. split; [reflexivity|].
    exact (proj2 (seal_known _ _ _ Hp)).
Qed.

(** ** One request *)

Lemma authenticated_live {A} rq (k : Handler (response A)) g s :
  gate_is g s → live rq g = true → authenticated rq k s = k s.
Proof.
  intros Hg Hl. unfold authenticated, mbind, st_bind. by rewrite (require_live rq g s Hg Hl).
Qed.

Lemma authenticated_refused {A} rq (k : Handler (response A)) g s :
  gate_is g s → live rq g = false →
  (authenticated rq k s).1 = status 401 ∧
  gate_is (if stale rq g then mkGate Locked None else g) (authenticated rq k s).2.
Proof.
  intros Hg Hl. destruct (require_not_live rq g s Hg Hl) as (e & s' & E & Hs').
  unfold authenticated, mbind, st_bind. rewrite E. split; [reflexivity | exact Hs'].
Qed.

(** The handlers that want the vault open are guarded ones. *)
Definition open_only {A} (k : Handler (response A)) : Handler (response A) := λ s,
  match controllerStatus s with
  | None => (status 500, s)
  | Some st => if String.eqb (Vault.cs_State st) Vault.StateUnsealed then k s else (status 403, s)
  end.

Lemma unsealed_authenticated {A} rq (k : Handler (response A)) s :
  unsealed rq k s = authenticated rq (open_only k) s.
Proof.
  unfold unsealed, authenticated, requireUnsealedSession, open_only, mbind, st_bind, st_gets.
  destruct (requireSession rq s) as [[[] []] s1]; cbn; try reflexivity;
    (destruct (controllerStatus s1) as [st|]; cbn; [|reflexivity];
     by destruct (String.eqb (Vault.cs_State st) Vault.StateUnsealed)).
Qed.

Lemma open_controller g s :
  gate_is g s → ∃ st, controllerStatus s = Some st ∧ Vault.cs_State st = state_of (gt_phase g).
Proof.
  intros (_ & _ & c & Hc & Hp). exists (Vault.Status c). unfold controllerStatus. rewrite Hc.
  by split.
Qed.

Lemma state_open p : String.eqb (state_of p) Vault.StateUnsealed = match p with Open => true | _ => false end.
Proof. by destruct p. Qed.

(** What the body of a guarded handler answers, once its caller is let through. *)
Definition admits {A} (c : call) (g : gate) (k : Handler (response A)) : Prop :=
  ∀ s, gate_is g s → code_of (k s).1 ≠ 401 ∧
    (wants_open c = true → (code_of (k s).1 = 403 ↔ gt_phase g ≠ Open)).

Lemma open_only_admits {A} c g (k : Handler (response A)) :
  (∀ s, code_of (k s).1 ≠ 401 ∧ code_of (k s).1 ≠ 403) → admits c g (open_only k).
Proof.
  intros Hk s Hg. destruct (open_controller g s Hg) as (st & Est & Hst).
  unfold open_only. rewrite Est, Hst, state_open. specialize (Hk s).
  destruct (gt_phase g); cbn; (split; [lia|]); intros _; split; intros; try lia; try done.
Qed.

Lemma open_only_frame {A} (k : Handler (response A)) : frame k → frame (open_only k).
Proof. intros Hk s. unfold open_only. repeat case_match; [apply Hk | reflexivity..]. Qed.

Definition step_sound (rq : Request) (c : call) (g : gate) (s : Server) : Prop :=
  allowed rq c (serve rq c s).1 g ∧ gate_is (step rq c (serve rq c s).1 g) (serve rq c s).2.

Lemma plain_code {A} (m : Handler (response A)) s : (plain m s).1 = (code_of (m s).1, None).
Proof. unfold plain, mbind, st_bind. by destruct (m s). Qed.
Lemma plain_state {A} (m : Handler (response A)) s : (plain m s).2 = (m s).2.
Proof. unfold plain, mbind, st_bind. by destruct (m s). Qed.

(** A guarded call that grants and ends nothing. *)
Lemma guarded_sound {A} (k : Handler (response A)) rq c g s :
  gate_is g s → guarded c = true → looks c g = true →
  (∀ code, step rq c (code, None) g = if stale rq g then mkGate Locked None else g) →
  frame k → admits c g k →
  (∀ s, serve rq c s = plain (authenticated rq k) s) → step_sound rq c g s.
Proof.
  intros Hg Hc Hlook Hstep Hk Ha Hserve. unfold step_sound.
  rewrite Hserve, plain_code, plain_state, Hstep.
  destruct (live rq g) eqn:Hl.
  - rewrite (authenticated_live rq k g s Hg Hl). split.
    + intros _. destruct (Ha s Hg) as [H1 H2]. cbn. rewrite Hl. split; [|by auto].
      split; [by intros ? | done].
    + replace (stale rq g) with false by
        (revert Hl; unfold live, stale; destruct (presents rq g); [|done]; intros; z_bools; lia).
      by apply gate_frame.
  - destruct (authenticated_refused rq k g s Hg Hl) as [E Hs]. rewrite E. split; [|exact Hs].
    intros _. cbn. by rewrite Hl.
Qed.

(** A call that does not look at the session and leaves the vault alone. *)
Lemma unguarded_sound rq c g s :
  gate_is g s → guarded c = false → frame (serve rq c) →
  (∀ out, (serve rq c s).1 = out → step rq c out g = g) → step_sound rq c g s.
Proof.
  intros Hg Hc Hf Hstep. split; [intros ?; congruence|].
  rewrite (Hstep _ eq_refl). by apply gate_frame.
Qed.

Lemma unsealed_sound {A} (k : Handler (response A)) rq c g s :
  gate_is g s → guarded c = true → looks c g = true →
  (∀ code, step rq c (code, None) g = if stale rq g then mkGate Locked None else g) →
  frame k → (∀ s, code_of (k s).1 ≠ 401 ∧ code_of (k s).1 ≠ 403) →
  (∀ s, serve rq c s = plain (unsealed rq k) s) → step_sound rq c g s.
Proof.
  intros Hg Hc Hlook Hstep Hk Ha Hserve.
  apply (guarded_sound (open_only k) rq c g s); try done.
  - by apply open_only_frame.
  - by apply open_only_admits.
  - intros s'. rewrite Hserve. unfold plain, mbind, st_bind. by rewrite unsealed_authenticated.
Qed.

(** Splits a guarded call into its frame and the codes of its body. *)
Ltac guarded_call lemma :=
  eapply lemma; cycle -1;
  [intros ?; reflexivity | eassumption | reflexivity | reflexivity | intros ?; cbn; reflexivity | ..].

Ltac codes :=
  intros ?; unfold mbind, st_bind, st_gets, mret, st_ret, on_store;
  repeat (case_match; simplify_eq/=); repeat split; intros; try done; try lia.

Lemma list_deals_sound rq created opts limit g s :
  gate_is g s → step_sound rq (CallListDeals created opts limit) g s.
Proof.
  intros Hg. guarded_call @unsealed_sound; [eauto 10 with frame | codes].
Qed.

Lemma list_orders_sound rq opts log limit g s :
  gate_is g s → step_sound rq (CallListOrders opts log limit) g s.
Proof.
  intros Hg. guarded_call @unsealed_sound; [eauto 10 with frame | codes].
Qed.

Lemma streams_sound rq g s :
  gate_is g s → (∀ sub, step_sound rq (CallStreamOrders sub) g s) ∧
  (∀ sub, step_sound rq (CallStreamSystemEvents sub) g s).
Proof.
  intros Hg. split; intros sub; guarded_call @unsealed_sound; [eauto with frame | codes ..].
Qed.

Lemma bot_config_code botID o s :
  code_of (Api.bot_config (SessionData := SessionData) botID o s).1 ≠ 401.
Proof.
  unfold Api.bot_config, mbind, st_bind, st_gets, mret, st_ret. destruct (on_store _ s) as [r s1].
  by destruct r as [[[? ?] ?]|].
Qed.

Ltac body_codes :=
  unfold admits; intros ? _; split; [|done]; unfold mbind, st_bind, st_gets, mret, st_ret;
  repeat (case_match; simplify_eq/=; try apply bot_config_code; try done).

Lemma scaler_calls_sound rq g s :
  gate_is g s →
  (∀ b, step_sound rq (CallDeleteBotOrderScalerConfig b) g s) ∧
  (∀ b, step_sound rq (CallGetBotOrderScalerConfig b) g s) ∧
  (∀ b body, step_sound rq (CallUpsertBotOrderScalerConfig b body) g s) ∧
  step_sound rq CallGetOrderScalerConfig g s ∧
  (∀ body, step_sound rq (CallUpdateOrderScalerConfig body) g s).
Proof.
  intros Hg. repeat split_and; intros; guarded_call @guarded_sound;
    lazymatch goal with |- frame _ => repeat case_match; eauto 10 with frame | _ => body_codes end.
Qed.

Lemma get_payload_sound rq g s : gate_is g s → step_sound rq CallGetVaultPayload g s.
Proof.
  intros Hg. guarded_call @guarded_sound; [frame_cases|].
  intros s' _. split; [|done]. repeat (case_match; simplify_eq/=; try done).
Qed.

Lemma update_payload_sound rq body g s :
  gate_is g s → step_sound rq (CallUpdateVaultPayload body) g s.
Proof.
  intros Hg. destruct body as [body|]; [guarded_call @guarded_sound|].
  - frame_cases.
  - intros s' (_ & _ & c & Hc & Hp). rewrite Hc. cbn. rewrite Hp, state_open.
    destruct (gt_phase g); cbn; [split; [lia|]; done..|].
    split; [by repeat case_match|]. intros _. split; [|done].
    intros H. exfalso. revert H. by repeat case_match.
  - apply unguarded_sound; [done | reflexivity | by intros ? | by intros ? <-].
Qed.

Lemma live_not_stale rq g : live rq g = true → stale rq g = false.
Proof.
  unfold live, stale. destruct (presents rq g); [|done]. intros. z_bools. lia.
Qed.

Lemma seal_sound rq g s : gate_is g s → step_sound rq CallSealVault g s.
Proof.
  intros Hg. unfold step_sound. cbn [Routes.serve]. rewrite plain_code, plain_state. unfold SealVault.
  destruct (live rq g) eqn:Hl.
  - rewrite (authenticated_live rq _ g s Hg Hl). destruct Hg as (Hd & Hs & c & Hc & Hp).
    rewrite Hc. destruct (seal_known (rq_now rq) c _ Hp) as [E1 E2].
    destruct (Vault.Seal (rq_now rq) c) as [[e|] c']; [done|]. cbn in *.
    split; [intros _; cbn; rewrite Hl; done|].
    split; [exact Hd|]. split; [reflexivity|]. by exists c'.
  - match goal with |- context [authenticated rq ?k s] => destruct (authenticated_refused rq k g s Hg Hl) as [E Hs] end. rewrite E. split; [|exact Hs].
    intros _. cbn. by rewrite Hl.
Qed.

Lemma setup_sound rq body g s : gate_is g s → step_sound rq (CallSetupVault body) g s.
Proof.
  intros Hg. split; [done|]. cbn [Routes.serve]. rewrite plain_code, plain_state.
  unfold SetupVault. destruct body as [body|]; [|exact Hg].
  pose proof Hg as (Hd & Hs & c & Hc & Hp). rewrite Hc.
  destruct (String.eqb (Vault.cc_state c) Vault.StateSetupRequired); [|exact Hg]. cbn [negb].
  destruct (String.eqb (TrimSpace (vr_Username body)) ""); [exact Hg|].
  destruct (validateEncryptedPayload (vr_Payload body)); [|exact Hg]. cbn [negb].
  pose proof (gate_frame (on_tables (VaultStore.EnsureVaultUser (rq_now rq)
    (TrimSpace (vr_Username body)))) g s (frame_on_tables _) Hg) as H1.
  destruct (on_tables _ s) as [[user|] s1]; cbn in H1; [|exact H1].
  destruct (VaultStore.GetVaultPayloadForUser _ _) as [[?|]|]; [exact H1| |exact H1].
  destruct (buildPayloadInput _ _ _) as [save|]; [|exact H1].
  pose proof (gate_frame (on_tables (VaultStore.UpsertVaultPayload (rq_now rq) save)) g s1
    (frame_on_tables _) H1) as H2.
  destruct (on_tables _ s1) as [[saved|] s2]; cbn in H2; [|exact H2].
  destruct (seal_known (rq_now rq) (Vault.SetUser (Some user) c) _ Hp) as [E1 E2].
  destruct (Vault.Seal (rq_now rq) _) as [[e|] c']; [done|]. cbn in *.
  destruct H2 as (Hd2 & _ & _). split; [exact Hd2|]. split; [reflexivity|]. by exists c'.
Qed.

Lemma status_sound rq g s : gate_is g s → step_sound rq CallGetVaultStatus g s.
Proof.
  intros Hg. split; [done|]. cbn [Routes.serve]. rewrite plain_code, plain_state.
  pose proof Hg as (Hd & Hs & c & Hc & Hp). unfold GetVaultStatus. rewrite Hc.
  replace (Vault.cs_State (Vault.Status c)) with (state_of (gt_phase g)) by (symmetry; exact Hp).
  rewrite state_open. unfold step, looks.
  destruct (gt_phase g) eqn:Hph; [exact Hg..|]. cbn.
  destruct (live rq g) eqn:Hl.
  - rewrite (require_live rq g s Hg Hl), (live_not_stale rq g Hl). exact Hg.
  - destruct (require_not_live rq g s Hg Hl) as (e & s' & E & Hs'). rewrite E. exact Hs'.
Qed.

(** ** Sessions that are issued *)

Lemma issue_spec rq expiry (s : Server) token :
  rq_rand rq = Some token → 0 < expiry →
  Issue (rq_rand rq) expiry s = (Some token, with_session (Some (mkSession token expiry)) s).
Proof.
  intros Hr He. unfold Issue, IsZero, zero_time, second. destruct (_ =? _) eqn:E; z_bools; [lia|].
  by rewrite Hr.
Qed.

Lemma session_ttl seconds : minVaultSessionTTL ≤ deriveSessionTTL seconds ≤ maxVaultSessionTTL.
Proof.
  unfold deriveSessionTTL, minVaultSessionTTL, maxVaultSessionTTL, defaultVaultSessionTTL, second.
  repeat case_match; lia.
Qed.

Lemma unseal_known sec e now (c : Controller) p :
  Vault.cc_state c = state_of p →
  match Vault.Unseal sec e now c with
  | (Some _, c') => c' = c
  | (None, c') => Vault.cc_state c' = Vault.StateUnsealed
  end.
Proof.
  intros Hp. unfold Vault.Unseal, Vault.signalReadyLocked. rewrite Hp.
  destruct (Vault.ensurePrimaryVenuePresent _); destruct p; cbn; try done; by case_match.
Qed.

Lemma unseal_sound rq body g s token :
  rq_rand rq = Some token → 0 ≤ rq_now rq → gate_is g s → step_sound rq (CallUnsealVault body) g s.
Proof.
  intros Hr Hn Hg. split; [done|]. cbn [Routes.serve]. unfold with_cookie, mbind, st_bind.
  unfold UnsealVault. destruct body as [body|]; [|exact Hg].
  pose proof Hg as (Hd & Hs & c & Hc & Hp). rewrite Hc.
  destruct (String.eqb _ _); [exact Hg|].
  destruct (buildSecretsBundle _ _) as [secrets|]; [|exact Hg].
  pose proof (gate_frame (on_store (syncVenueMetadata (Vault.Venues (Vault.se_Secrets secrets)))) g s
    (frame_on_store _) Hg) as H1.
  destruct (on_store _ s) as [[synced|] s1]; cbn in H1; [|exact H1].
  pose proof (unseal_known secrets
    (Some (rq_now rq + deriveSessionTTL (vq_RememberSessionSeconds body))) (rq_now rq) c _ Hp) as H2.
  destruct H1 as (Hd1 & Hs1 & _).
  destruct (Vault.Unseal _ _ _ c) as [[e|] c'].
  - subst c'. by destruct e; (split; [exact Hd1|]; split; [exact Hs1|]; exists c).
  - pose proof (session_ttl (vq_RememberSessionSeconds body)) as Ht.
    unfold minVaultSessionTTL, second in Ht.
    rewrite (issue_spec rq _ _ token Hr) by lia.
    split; [exact Hd1|]. split; [reflexivity|]. by exists c'.
Qed.

Lemma finish_login_sound rq body g s token :
  rq_rand rq = Some token → 0 ≤ rq_now rq → gate_is g s →
  step_sound rq (CallFinishWebauthnLogin body) g s.
Proof.
  intros Hr Hn Hg. split; [done|]. cbn [Routes.serve]. unfold with_cookie, mbind, st_bind.
  unfold FinishWebauthnLogin. destruct (sv_webauthn s) as [w|]; [|exact Hg].
  destruct body as [[tok [parsed|]]|]; [| |exact Hg].
  - destruct (String.eqb _ ""); [exact Hg|].
    destruct (FinishLogin _ _ parsed w _) as [[[cred|e] w'] t].
    + rewrite (issue_spec rq _ _ token Hr) by (unfold defaultVaultSessionTTL, second; lia).
      destruct Hg as (Hd & _ & c & Hc & Hp). split; [exact Hd|]. split; [reflexivity|]. by exists c.
    + destruct Hg as (Hd & Hs & c & Hc & Hp).
      destruct e; (split; [exact Hd|]; split; [exact Hs|]; by exists c).
  - by destruct (String.eqb _ "").
Qed.

(** A request the clock and the random source behind which work: the standard
    library's source does not fail. *)
Definition sane (rq : Request) : Prop := 0 ≤ rq_now rq ∧ is_Some (rq_rand rq).

Lemma serve_sound rq c g s : sane rq → gate_is g s → step_sound rq c g s.
Proof.
  intros [Hn [token Hr]] Hg.
  destruct (scaler_calls_sound rq g s Hg) as (S1 & S2 & S3 & S4 & S5).
  destruct (streams_sound rq g s Hg) as [S6 S7].
  destruct c; auto using list_deals_sound, list_orders_sound, get_payload_sound,
    update_payload_sound, seal_sound, setup_sound, status_sound;
    try (by apply (unseal_sound rq _ g s token));
    try (by apply (finish_login_sound rq _ g s token));
    (apply unguarded_sound; [done | reflexivity | | by intros ? <-]);
    cbn [Routes.serve]; auto 10 with frame;
    try (apply frame_plain; unfold Api.UpsertVenue, Api.DeleteVenue, Api.ListVenueAssignments,
      Api.UpsertVenueAssignment, Api.DeleteVenueAssignment, Api.ListBotVenues;
      repeat case_match; eauto 10 with frame).
Qed.

(** ** Histories *)

Lemma machine_refined calls : ∀ g s,
  Forall (λ x, sane x.1) calls → gate_is g s →
  ∃ g', machine_run g (zip calls (serve_all calls s).1) g' ∧ gate_is g' (serve_all calls s).2.
Proof.
  induction calls as [|[rq c] calls IH]; intros g s Hsane Hg; [exists g; split; [constructor | done]|].
  apply Forall_cons in Hsane as [Hrq Hsane]. cbn.
  destruct (serve_sound rq c g s Hrq Hg) as [Ha Hg1].
  destruct (serve rq c s) as [out s1]. cbn in *.
  destruct (IH _ s1 Hsane Hg1) as (g' & Hrun & Hg').
  destruct (serve_all calls s1) as [outs s2]. cbn in *.
  exists g'. split; [by constructor | exact Hg'].
Qed.

Lemma serve_all_length calls : ∀ s, length (serve_all calls s).1 = length calls.
Proof.
  induction calls as [|[rq c] calls IH]; intros s; [done|]. cbn.
  destruct (serve rq c s) as [out s1]. specialize (IH s1).
  destruct (serve_all calls s1). cbn in *. by f_equal.
Qed.

(** ** Where a session came from *)

(** An answer that neither grants a session nor ends one. *)
Definition quiet (x : Request * call * outcome) : Prop :=
  let '(rq, c, out) := x in grant rq c out = None ∧ ends c out = false.

Definition lasting (x : Request * call * outcome) : Prop := let '(rq, c, out) := x in ends c out = false.

Lemma step_session rq c out g v :
  gt_session (step rq c out g) = Some v →
  grant rq c out = Some v ∨ quiet (rq, c, out) ∧ gt_session g = Some v.
Proof.
  unfold step, quiet. cbn. destruct (grant rq c out) as [v'|]; [by left|].
  destruct (ends c out); [done|]. by destruct (looks c g && stale rq g); [|right].
Qed.

Lemma run_session g tr g' v :
  machine_run g tr g' → gt_session g' = Some v →
  (gt_session g = Some v ∧ Forall quiet tr) ∨
  ∃ pre rq c out post, tr = pre ++ (rq, c, out) :: post ∧ grant rq c out = Some v ∧ Forall quiet post.
Proof.
  induction 1 as [g|rq c out g tr g' Ha Hr IH]; intros Hv; [by left|].
  destruct (IH Hv) as [[Hs Hq]|(pre & rq1 & c1 & out1 & post & -> & Hg1 & Hq)].
  - destruct (step_session _ _ _ _ _ Hs) as [Hg|[Hx Hs']].
    + right. by exists [], rq, c, out, tr.
    + left. split; [done|]. by constructor.
  - right. by exists ((rq, c, out) :: pre), rq1, c1, out1, post.
Qed.

Lemma step_open rq (c : call) out g :
  gt_phase (step rq c out g) = Open →
  (opens c = true ∧ is_Some (grant rq c out)) ∨ ends c out = false ∧ gt_phase g = Open.
Proof.
  unfold step. destruct (grant rq c out) as [v|] eqn:E.
  - destruct (opens c); [by left; eauto|]. right. split; [|done]. by destruct c.
  - destruct (ends c out); [done|]. by destruct (looks c g && stale rq g); [|right].
Qed.

Lemma run_open g tr g' :
  machine_run g tr g' → gt_phase g' = Open →
  (gt_phase g = Open ∧ Forall lasting tr) ∨
  ∃ pre rq body out post, tr = pre ++ (rq, CallUnsealVault body, out) :: post ∧ out.1 = 200 ∧
    Forall lasting post.
Proof.
  induction 1 as [g|rq c out g tr g' Ha Hr IH]; intros Hv; [by left|].
  destruct (IH Hv) as [[Hs Hq]|(pre & rq1 & c1 & out1 & post & -> & Hg1 & Hq)].
  - destruct (step_open _ _ _ _ Hs) as [[Ho [v Hg]]|[Hx Hs']].
    + right. destruct c; try done. exists [], rq, body, out, tr. repeat split; [|done].
      revert Hg. cbn. by repeat case_match.
    + left. split; [done|]. by constructor.
  - right. by exists ((rq, c, out) :: pre), rq1, c1, out1, post.
Qed.

(** C16.  Over any history of requests, whatever their parameters, bodies and cookies, the
    server refines the machine of phase and session: every guarded endpoint answers
    [401] exactly to callers without the live session, and the endpoints on the
    program's data answer [403] exactly while the vault is not open; only an unseal,
    a finished login, a seal, a setup and a stale session change phase and session,
    the way the machine says. *)
Theorem session_refines (calls : list (Request * call)) (g : gate) (s : Server) :
  Forall (λ x, sane x.1) calls → gate_is g s →
  ∃ g', machine_run g (zip calls (serve_all calls s).1) g' ∧ gate_is g' (serve_all calls s).2.
Proof. apply machine_refined. Qed.

(** C17.  A caller that a guarded endpoint lets through presents the token of the last
    grant of the history, before it runs out: an unseal or a finished login, with
    neither another grant nor a seal or a setup since.  On the endpoints that want the
    vault open, an unseal has succeeded with neither a seal nor a setup since. *)
Theorem session_provenance (calls : list (Request * call)) (rq : Request) (c : call) (p : phase)
    (s : Server) :
  Forall (λ x, sane x.1) calls → sane rq → gate_is (mkGate p None) s → p ≠ Open →
  let '(outs, s1) := serve_all calls s in
  let out := (serve rq c s1).1 in
  guarded c = true → out.1 ≠ 401 →
  (∃ pre rq0 c0 out0 post v, zip calls outs = pre ++ (rq0, c0, out0) :: post ∧
    grant rq0 c0 out0 = Some v ∧ Forall quiet post ∧
    rq_cookie rq = Some (vn_token v) ∧ rq_now rq ≤ vn_expiresAt v) ∧
  (wants_open c = true → out.1 ≠ 403 →
   ∃ pre rq0 body out0 post, zip calls outs = pre ++ (rq0, CallUnsealVault body, out0) :: post ∧
    out0.1 = 200 ∧ Forall lasting post).
Proof.
  intros Hs Hrq Hg Hp. destruct (machine_refined calls _ s Hs Hg) as (g' & Hrun & Hg').
  destruct (serve_all calls s) as [outs s1]. cbn in *. intros Hc Hout.
  destruct (serve_sound rq c g' s1 Hrq Hg') as [Ha _]. destruct (Ha Hc) as [H401 H403].
  assert (live rq g' = true) as Hl by (destruct (live rq g'); [done | by destruct H401; auto]).
  split.
  - unfold live, presents in Hl. destruct (rq_cookie rq) as [cookie|]; [|done].
    destruct (gt_session g') as [v|] eqn:Hv; [|done].
    destruct (String.eqb cookie ""); [done|].
    destruct (String.eqb (vn_token v) cookie) eqn:Et; [|done].
    apply String.eqb_eq in Et as <-. z_bools.
    destruct (run_session _ _ _ _ Hrun Hv) as [[? _]|(pre & rq0 & c0 & out0 & post & E & Hgr & Hq)];
      [done|]. by exists pre, rq0, c0, out0, post, v.
  - intros Hw H. destruct (run_open _ _ _ Hrun) as [[? _]|?]; [|done|done].
    destruct (gt_phase g') eqn:Eph; [exfalso; apply H, H403; done..|done].
Qed.

(** ** A setup is lost to an early session *)

Lemma setup_refused rq b g (s : Server) :
  gate_is g s → gt_phase g ≠ Setup → SetupVault rq (Some b) s = (status 409, s).
Proof.
  intros (_ & _ & c & Hc & Hp) Hph. unfold SetupVault. rewrite Hc, Hp. by destruct (gt_phase g).
Qed.

Lemma step_not_setup rq (c : call) out g : gt_phase g ≠ Setup → gt_phase (step rq c out g) ≠ Setup.
Proof. unfold step. intros H. repeat case_match; done. Qed.

Lemma machine_not_setup g (tr : list (Request * call * outcome)) g' :
  machine_run g tr g' → gt_phase g ≠ Setup → gt_phase g' ≠ Setup.
Proof. induction 1; [done|]. intros H1. by apply IHmachine_run, step_not_setup. Qed.

Lemma seal_answer rq g (s : Server) :
  gate_is g s → live rq g = true → code_of (SealVault rq s).1 = 200.
Proof.
  intros Hg Hl. unfold SealVault. rewrite (authenticated_live rq _ g s Hg Hl).
  destruct Hg as (_ & _ & c & Hc & Hp). rewrite Hc.
  destruct (seal_known (rq_now rq) c _ Hp) as [E _]. by destruct (Vault.Seal (rq_now rq) c) as [[e|] c'].
Qed.

(** A passkey can be registered and used before the vault is set up.  A session that
    it gives and that then seals the vault, or is presented when it has run out, ends
    the setup: every later setup is refused with [409], whatever comes in between. *)
Theorem setup_lost (rq rq' : Request) (c : call) (calls : list (Request * call)) (g : gate)
    (s : Server) (body : VaultSetupRequest) :
  gate_is g s → gt_phase g = Setup → sane rq → Forall (λ x, sane x.1) calls →
  (c = CallSealVault ∧ live rq g = true) ∨ (guarded c = true ∧ stale rq g = true) →
  (SetupVault rq' (Some body) (serve_all ((rq, c) :: calls) s).2).1 = status 409.
Proof.
  intros Hg Hph Hrq Hcalls Hc. destruct (serve_sound rq c g s Hrq Hg) as [_ Hg1].
  assert (gt_phase (step rq c (serve rq c s).1 g) ≠ Setup) as Hph1.
  { destruct Hc as [[-> Hl]|[Hgd Hst]].
    - cbn [Routes.serve]. rewrite plain_code, (seal_answer rq g s Hg Hl). discriminate.
    - unfold step. assert (grant rq c (serve rq c s).1 = None) as -> by by destruct c.
      assert (looks c g = true) as -> by by destruct c.
      rewrite Hst, orb_true_r. discriminate. }
  cbn [Routes.serve_all]. destruct (serve rq c s) as [out s1]. cbn [fst snd] in *.
  destruct (machine_refined calls _ s1 Hcalls Hg1) as (g' & Hrun & Hg').
  destruct (serve_all calls s1) as [outs s2]. cbn [fst snd] in *.
  by rewrite (setup_refused rq' body g' s2 Hg' (machine_not_setup _ _ _ Hrun Hph1)).
Qed.

End SessionFacts.

End SessionFacts.
