(* ===== verification/VaultApiFacts.v ===== *)
(** * The vault keeps its payload

    What a setup stored is what its owner gets back, over any requests and
    restarts, until the owner updates it. *)

From S2P Require Import Prelude GoFloat GoString OrderId Domain Store Tables Stream Storage.
From S2P Require Import ScalerStorage StorageApi Vault VaultStore Server VaultApi WebAuthn.
From S2P Require Import ApiRecords Api Routes Startup TablesFacts SessionFacts.
Import GoFloat GoString Domain Store Tables TablesFacts Storage Server VaultApi WebAuthn Routes.
Import SessionFacts.

Module VaultApiFacts.

Section VaultApiFacts.
Context {sqlite : SqliteJSON} {driver : VaultStore.BlobDriver} {R : GoRange} {sdk : SDK}.
Context {blob : VaultStore.BlobLaws driver}.
Context {json_event : Codec TcBotEvent} {json_deal : Codec TcDeal} {json_status : Codec WsOrder}.
Context {json_create : Codec CreateOrderRequest} {json_modify : Codec ModifyOrderRequest}
  {json_cancel : Codec CancelOrderRequestByCloid} {json_flags : Codec (gmap string flag)}
  {json_payload : Codec ScalerStorage.scaledOrderPayload}
  {json_bundle : Codec VaultSecretsBundle}.
Context {laws_flags : CodecLaws (gmap string flag)}.
Context {Bot : Type} {json_bot : Codec Bot} (bot_id : Bot → Z).
Context {SessionData LibCredential Creation Assertion ParsedCreation ParsedAssertion : Type}.
Context {lib : @WebAuthnLib SessionData LibCredential Creation Assertion ParsedCreation ParsedAssertion}
  {json_credential : Codec LibCredential}.
Abbreviation Server := (@Server SessionData).
Abbreviation Handler := (@Handler SessionData).
Abbreviation call := (@call ParsedCreation ParsedAssertion).
Abbreviation serve := (serve bot_id).
Abbreviation VaultTables := VaultStore.VaultTables.

(** ** The users of the vault *)

Record users_ok (t : auto VaultStore.user_row) : Prop := {
  users_sorted : StronglySorted (λ a b, VaultStore.ur_id a < VaultStore.ur_id b) (au_rows t);
  users_below : Forall (λ r, VaultStore.ur_id r ≤ au_seq t) (au_rows t);
}.

(** Users are only ever added, behind those that are there. *)
Definition grown (t t' : auto VaultStore.user_row) : Prop :=
  users_ok t → users_ok t' ∧ au_rows t `prefix_of` au_rows t'.

Lemma first_user t :
  users_ok (VaultStore.vt_users t) →
  VaultStore.q_GetVaultUser t = one (au_rows (VaultStore.vt_users t)).
Proof.
  intros [Hs _]. unfold VaultStore.q_GetVaultUser. f_equal.
  assert (Hle : ∀ a b, lex_le [by_int VaultStore.ur_id] a b = true ↔
                  VaultStore.ur_id a ≤ VaultStore.ur_id b).
  { intros a b. rewrite lex_le_cons. unfold by_int, lex_le. cbn. intuition lia. }
  apply (order_by_unique [by_int VaultStore.ur_id]); [by auto using Forall_cons_2, Forall_nil_2| | |done].
  - intros x y Hx Hy. rewrite !Hle. revert x y Hx Hy.
    induction Hs as [|r l Hs IH Hr]; [by intros ?? ?%not_elem_of_nil|].
    rewrite Forall_forall in Hr.
    intros x y [->|Hx]%elem_of_cons [->|Hy]%elem_of_cons ??; try done.
    + specialize (Hr y Hy). lia.
    + specialize (Hr x Hx). lia.
    + by apply IH.
  - induction Hs as [|r l Hs IH Hr]; constructor; [done|].
    eapply Forall_impl; [exact Hr|]. cbn. intros x Hx. apply Is_true_eq_left, Hle. lia.
Qed.

Lemma ensure_grown now name t :
  grown (VaultStore.vt_users t) (VaultStore.vt_users (VaultStore.EnsureVaultUser now name t).2) ∧
  VaultStore.vt_payloads (VaultStore.EnsureVaultUser now name t).2 = VaultStore.vt_payloads t.
Proof.
  unfold VaultStore.EnsureVaultUser, VaultStore.q_EnsureVaultUser.
  destruct (String.eqb _ ""); [by split|]. destruct (find _ _) as [r|]; [by split|].
  cbn. split; [|done]. intros [Hs Hb]. split; [|by apply prefix_app_r].
  split; cbn.
  - apply StronglySorted_app. split_and!; [|done|by repeat constructor].
    intros a b Ha ->%list_elem_of_singleton. rewrite Forall_forall in Hb.
    specialize (Hb a Ha). cbn. lia.
  - apply Forall_app. split; [|constructor; [cbn; lia|constructor]].
    eapply Forall_impl; [exact Hb|]. cbn. lia.
Qed.

(** ** Calls that leave the vault's payloads and owner alone *)

Definition owner (s : Server) : option Vault.User := sv_vault s ≫= Vault.cc_user.

Record same_vault (s s' : Server) : Prop := {
  same_owner : owner s' = owner s;
  same_payloads : VaultStore.vt_payloads (sv_tables s') = VaultStore.vt_payloads (sv_tables s);
  same_users : grown (VaultStore.vt_users (sv_tables s)) (VaultStore.vt_users (sv_tables s'));
}.

#[local] Instance same_vault_preorder : PreOrder same_vault.
Proof.
  split.
  - intros s. by split.
  - intros s1 s2 s3 [O1 P1 U1] [O2 P2 U2]. split; [congruence..|].
    intros H. destruct (U1 H) as [H2 L1]. destruct (U2 H2) as [H3 L2].
    split; [done | by transitivity (au_rows (VaultStore.vt_users (sv_tables s2)))].
Qed.

Definition stable {A} (m : Handler A) : Prop := ∀ s, same_vault s (m s).2.

Lemma same_vault_eq (s s' : Server) :
  owner s' = owner s → sv_tables s' = sv_tables s → same_vault s s'.
Proof. intros Ho Ht. split; rewrite ?Ht; try done. Qed.

Lemma stable_ret {A} (a : A) : stable (mret a).
Proof. by intros s. Qed.
Lemma stable_gets {A} (f : Server → A) : stable (st_gets f).
Proof. by intros s. Qed.
Lemma stable_bind {A B} (m : Handler A) (f : A → Handler B) :
  stable m → (∀ a, stable (f a)) → stable (m ≫= f).
Proof.
  intros Hm Hf s. unfold mbind, st_bind. specialize (Hm s).
  destruct (m s) as [a s1]. etransitivity; [exact Hm | apply Hf].
Qed.
Lemma stable_if {A} (b : bool) (m1 m2 : Handler A) :
  stable m1 → stable m2 → stable (if b then m1 else m2).
Proof. by destruct b. Qed.
Lemma stable_on_store {A} (m : Sto A) : stable (on_store m).
Proof.
  intros s. unfold on_store. destruct (m (sv_store s)). by apply same_vault_eq.
Qed.
Lemma stable_plain {A} (m : Handler (response A)) : stable m → stable (plain m).
Proof. intros H. apply stable_bind; [exact H | intros; apply stable_ret]. Qed.

Lemma seal_owner now (c : Controller) : Vault.cc_user (Vault.Seal now c).2 = Vault.cc_user c.
Proof. unfold Vault.Seal, Vault.resetReadyLocked. by repeat case_match. Qed.
Lemma unseal_owner sec e now (c : Controller) :
  Vault.cc_user (Vault.Unseal sec e now c).2 = Vault.cc_user c.
Proof. unfold Vault.Unseal, Vault.signalReadyLocked. by repeat case_match. Qed.

Lemma stable_require rq : stable (requireSession rq).
Proof.
  intros s. unfold requireSession, Validate.
  repeat (case_match; simplify_eq/=; try done); apply same_vault_eq; try done;
    unfold owner; cbn; repeat match goal with H : sv_vault _ = _ |- _ => rewrite H end; cbn;
    by rewrite seal_owner.
Qed.

Lemma stable_authenticated {A} rq (k : Handler (response A)) : stable k → stable (authenticated rq k).
Proof.
  intros Hk. apply stable_bind; [apply stable_require|]. intros [valid e].
  by destruct valid.
Qed.
Lemma stable_unsealed {A} rq (k : Handler (response A)) : stable k → stable (unsealed rq k).
Proof.
  intros Hk. apply stable_bind; [|by intros []].
  apply stable_bind; [apply stable_require|]. intros [[] e]; [|apply stable_ret].
  apply stable_bind; [apply stable_gets|]. intros [st|]; apply stable_ret.
Qed.

Create HintDb stable.
Hint Resolve stable_ret stable_gets stable_bind stable_if stable_on_store stable_plain
  stable_authenticated stable_unsealed : stable.

Lemma stable_emit_all emit works : stable (Api.emit_all emit works).
Proof.
  induction works as [|w works IH]; [apply stable_ret|].
  intros s. cbn. destruct (emit w); [etransitivity; [|apply IH]|]; by apply same_vault_eq.
Qed.

Lemma on_store_tables {A} (m : Sto A) (s : Server) : sv_tables (on_store m s).2 = sv_tables s.
Proof. unfold on_store. by destruct (m (sv_store s)). Qed.
Lemma emit_all_tables emit works : ∀ s : Server,
  sv_tables (Api.emit_all emit works s).2 = sv_tables s.
Proof.
  induction works as [|w works IH]; intros s; [done|]. cbn. destruct (emit w); [by rewrite IH|done].
Qed.

Lemma cancel_tables emit o v b (s : Server) :
  sv_tables (Api.CancelOrderByOrderId emit o v b s).2 = sv_tables s.
Proof.
  unfold Api.CancelOrderByOrderId. repeat (case_match; simplify_eq/=; try reflexivity);
  repeat match goal with
  | H : on_store ?m ?s = (_, ?s') |- _ =>
    let E := fresh in pose proof (on_store_tables m s) as E; rewrite H in E; cbn in E; clear H
  | H : Api.emit_all ?e ?l ?s = (_, ?s') |- _ =>
    let E := fresh in pose proof (emit_all_tables e l s) as E; rewrite H in E; cbn in E; clear H
  end; congruence.
Qed.

Lemma stable_cancel emit o v b : stable (Api.CancelOrderByOrderId (SessionData := SessionData) emit o v b).
Proof.
  intros s. apply same_vault_eq; [|apply cancel_tables].
  pose proof (frame_cancel emit o v b s) as H. injection H as H _ _. unfold owner. by rewrite H.
Qed.
Lemma stable_bot_config botID o : stable (Api.bot_config (SessionData := SessionData) botID o).
Proof. unfold Api.bot_config. eauto 10 with stable. Qed.

Lemma save_credential_tables now userID cred t :
  VaultStore.vt_users (save_credential now userID cred t).2 = VaultStore.vt_users t ∧
  VaultStore.vt_payloads (save_credential now userID cred t).2 = VaultStore.vt_payloads t.
Proof.
  unfold save_credential, VaultStore.UpsertWebauthnCredential, VaultStore.q_UpsertWebauthnCredential.
  by repeat (case_match; simplify_eq/=).
Qed.
Lemma finish_tables now entry check t :
  VaultStore.vt_users (finish now entry check t).2 = VaultStore.vt_users t ∧
  VaultStore.vt_payloads (finish now entry check t).2 = VaultStore.vt_payloads t.
Proof.
  unfold finish. repeat (case_match; try done). apply save_credential_tables.
Qed.

Lemma same_vault_tables (s s' : Server) :
  owner s' = owner s →
  VaultStore.vt_users (sv_tables s') = VaultStore.vt_users (sv_tables s) →
  VaultStore.vt_payloads (sv_tables s') = VaultStore.vt_payloads (sv_tables s) → same_vault s s'.
Proof. intros Ho Hu Hp. split; [done..|]. by rewrite Hu. Qed.

Lemma stable_finish_registration rq b : stable (FinishWebauthnRegistration rq b).
Proof.
  intros s. unfold FinishWebauthnRegistration, FinishRegistration.
  repeat (case_match; simplify_eq/=; try reflexivity);
    match goal with H : finish ?n ?e ?c ?t = _ |- _ =>
      let E := fresh in pose proof (finish_tables n e c t) as E; rewrite H in E; destruct E end;
    by apply same_vault_tables.
Qed.
Lemma stable_finish_login rq b : stable (FinishWebauthnLogin rq b).
Proof.
  intros s. unfold FinishWebauthnLogin, FinishLogin, Issue.
  repeat (case_match; simplify_eq/=; try reflexivity);
    match goal with H : finish ?n ?e ?c ?t = _ |- _ =>
      let E := fresh in pose proof (finish_tables n e c t) as E; rewrite H in E; destruct E end;
    by apply same_vault_tables.
Qed.
Lemma stable_begin_login rq b : stable (BeginWebauthnLogin rq b).
Proof.
  intros s. unfold BeginWebauthnLogin. repeat (case_match; simplify_eq/=; try reflexivity);
    by apply same_vault_eq.
Qed.
Lemma begin_registration_tables rq name w t :
  grown (VaultStore.vt_users t) (VaultStore.vt_users (BeginRegistration rq name w t).2) ∧
  VaultStore.vt_payloads (BeginRegistration rq name w t).2 = VaultStore.vt_payloads t.
Proof.
  unfold BeginRegistration. destruct (String.eqb _ ""); [by split|].
  pose proof (ensure_grown (rq_now rq) (TrimSpace name) t) as H.
  destruct (VaultStore.EnsureVaultUser _ _ t) as [user t']. cbn in H.
  repeat (case_match; simplify_eq/=; try done).
Qed.
Lemma stable_begin_registration rq b : stable (BeginWebauthnRegistration rq b).
Proof.
  intros s. unfold BeginWebauthnRegistration.
  destruct (sv_webauthn s) as [w|]; [|reflexivity]. destruct b as [name|]; [|reflexivity].
  destruct (String.eqb _ ""); [reflexivity|].
  destruct (begin_registration_tables rq (TrimSpace name) w (sv_tables s)) as [Hg Hp].
  destruct (BeginRegistration _ _ _ _) as [[[r|e] w'] t]; by split.
Qed.
Hint Resolve stable_emit_all stable_cancel stable_bot_config stable_finish_registration
  stable_finish_login stable_begin_login stable_begin_registration : stable.

(** ** The payload *)

(** The payload as it comes back: its version without the spaces around it, and no
    associated data for empty ones. *)
Definition normal (p : VaultEncryptedPayload) : VaultEncryptedPayload :=
  mkEncrypted (TrimSpace (ep_Version p)) (ep_Ciphertext p) (ep_Nonce p)
    (ep_AssociatedData p ≫= given) (ep_PrfParams p).

Definition holds (user : Z) (p : VaultEncryptedPayload) (t : VaultTables) : Prop :=
  ∃ y, VaultStore.GetVaultPayloadForUser user t = Ok (Some y) ∧ convertVaultPayload y = Some p.

Lemma holds_payloads user p t t' :
  VaultStore.vt_payloads t' = VaultStore.vt_payloads t → holds user p t → holds user p t'.
Proof.
  intros E (y & Hy & Hc). exists y. split; [|done]. revert Hy.
  unfold VaultStore.GetVaultPayloadForUser, VaultStore.q_GetVaultPayloadForUser. by rewrite E.
Qed.

Lemma read_given o : VaultStore.read_blob (o ≫= given) = o ≫= given.
Proof.
  destruct o as [b|]; cbn; [|apply VaultStore.read_null]. unfold given.
  destruct (String.eqb_spec b ""); [apply VaultStore.read_null | by apply VaultStore.read_bytes].
Qed.

(** The row of the user, where it was there and where it was not. *)
Lemma updated_row user rows (new : Z → VaultStore.payload_row) :
  (∀ id, VaultStore.pr_user_id (new id) = user) →
  existsb (λ r, VaultStore.pr_user_id r =? user) rows = true →
  ∃ id, one (filter (λ r, VaultStore.pr_user_id r = user)
    ((λ r, if VaultStore.pr_user_id r =? user then new (VaultStore.pr_id r) else r) <$> rows)) =
    Ok (new id).
Proof.
  intros Hnew E. induction rows as [|r rows IH]; [done|]. rewrite fmap_cons.
  cbn [existsb] in E. destruct (VaultStore.pr_user_id r =? user) eqn:Er; z_bools.
  - rewrite filter_cons_True by apply Hnew. by eexists.
  - rewrite filter_cons_False by done. by apply IH.
Qed.
Lemma appended_row user rows new :
  VaultStore.pr_user_id new = user →
  existsb (λ r, VaultStore.pr_user_id r =? user) rows = false →
  one (filter (λ r, VaultStore.pr_user_id r = user) (rows ++ [new])) = Ok new.
Proof.
  intros Hnew E. induction rows as [|r rows IH]; cbn [app existsb] in *.
  - by rewrite filter_cons_True.
  - apply orb_false_iff in E as [Er E]. z_bools. rewrite filter_cons_False by done. by apply IH.
Qed.

Lemma payload_stored p user now save now' t t' :
  buildPayloadInput p user now = Some save →
  VaultStore.UpsertVaultPayload now' save t = (Ok tt, t') →
  holds user (normal p) t' ∧ VaultStore.vt_users t' = VaultStore.vt_users t.
Proof.
  intros Hb Hu.
  assert (∃ prf, save = VaultStore.mkPayloadInput user (TrimSpace (ep_Version p)) (ep_Ciphertext p)
            (ep_Nonce p) (ep_AssociatedData p ≫= given) prf now ∧
          match ep_PrfParams p with None => prf = None | Some f => ∃ raw, Marshal f = Some raw ∧ prf = Some raw end)
    as (prf & -> & Hprf).
  { unfold buildPayloadInput in Hb. destruct (ep_PrfParams p) as [f|]; [|by eexists; simplify_eq].
    destruct (Marshal f) as [raw|] eqn:E; [|done]. cbn in Hb. simplify_eq. eexists. split; [done|]. by exists raw. }
  assert (∃ prf', VaultStore.json_or_null prf = Ok prf' ∧
    match ep_PrfParams p with None => prf' = None | Some f => ∃ raw, prf' = Some raw ∧ raw ≠ "" ∧ Unmarshal raw = Some f end)
    as (prf' & Hj & Hprf').
  { unfold VaultStore.json_or_null. destruct (ep_PrfParams p) as [f|]; [|exists None; by subst].
    destruct Hprf as (raw & Hm & ->). destruct (marshal_json f raw Hm) as [raw' Ej]. rewrite Ej.
    exists (Some raw'). split; [done|]. destruct (unmarshal_json (A := gmap string flag) raw raw' Ej) as [Hne Hun].
    exists raw'. split_and!; [done..|]. rewrite Hun. by apply unmarshal_marshal. }
  unfold VaultStore.UpsertVaultPayload in Hu. cbn -[TrimSpace] in Hu.
  destruct (user =? 0); [done|]. destruct (String.eqb (TrimSpace (TrimSpace (ep_Version p))) ""); [done|].
  destruct (String.eqb (ep_Ciphertext p) ""); [done|]. destruct (String.eqb (ep_Nonce p) ""); [done|].
  unfold VaultStore.q_UpsertVaultPayload in Hu. cbn -[TrimSpace] in Hu. rewrite Hj in Hu. cbn -[TrimSpace] in Hu. simplify_eq.
  split; [|done]. unfold holds, VaultStore.GetVaultPayloadForUser, VaultStore.q_GetVaultPayloadForUser.
  cbn [VaultStore.vt_payloads VaultStore.put_payloads].
  assert (Hconv : ∀ id updated, convertVaultPayload (VaultStore.mkPayload id user (TrimSpace (ep_Version p))
    (ep_Ciphertext p) (ep_Nonce p) (VaultStore.read_blob (ep_AssociatedData p ≫= given))
    (VaultStore.read_blob prf') updated) = Some (normal p)).
  { intros id updated. unfold convertVaultPayload, normal. cbn -[TrimSpace]. rewrite read_given.
    destruct (ep_PrfParams p) as [f|]; [|subst; by rewrite VaultStore.read_null].
    destruct Hprf' as (raw & -> & Hne & Hun). rewrite VaultStore.read_bytes by done.
    apply String.eqb_neq in Hne. by rewrite Hne, Hun. }
  destruct (existsb _ _) eqn:E; cbn [au_rows].
  - destruct (updated_row user _ (λ id, VaultStore.mkPayloadRow id user (TrimSpace (ep_Version p))
      (ep_Ciphertext p) (ep_Nonce p) (ep_AssociatedData p ≫= given) prf'
      (unix_milli (if IsZero now then now' else now))) (λ _, eq_refl) E) as [id Hid].
    rewrite Hid. eexists. split; [reflexivity|]. apply Hconv.
  - rewrite (appended_row user) by done. eexists. split; [reflexivity|]. apply Hconv.
Qed.

(** ** The owner's vault over requests and restarts *)

Record owned (u : Vault.User) (p : VaultEncryptedPayload) (s : Server) : Prop := {
  owned_gate : ∃ g, gate_is g s ∧ gt_phase g ≠ Setup;
  owned_user : owner s = Some u;
  owned_users : users_ok (VaultStore.vt_users (sv_tables s));
  owned_first : ∃ r rest, au_rows (VaultStore.vt_users (sv_tables s)) = r :: rest ∧
    VaultStore.mapVaultUser r = u;
  owned_payload : holds (Vault.us_ID u) p (sv_tables s);
}.

Lemma owned_kept u p s s' :
  same_vault s s' → (∃ g, gate_is g s' ∧ gt_phase g ≠ Setup) → owned u p s → owned u p s'.
Proof.
  intros [Ho Hp Hu] Hg [_ Hou Hok (r & rest & Hr & Hm) Hh]. destruct (Hu Hok) as [Hok' [k Hk]].
  split; [done|congruence|done| |by apply (holds_payloads _ _ (sv_tables s))].
  exists r, (rest ++ k). by rewrite Hk, Hr.
Qed.

Lemma stable_unseal rq b : stable (UnsealVault rq b).
Proof.
  intros s. unfold UnsealVault. destruct b as [b|]; [|reflexivity].
  destruct (sv_vault s) as [c|] eqn:Hc; [|reflexivity].
  destruct (String.eqb _ _); [reflexivity|]. destruct (buildSecretsBundle _ _) as [sec|]; [|reflexivity].
  pose proof (stable_on_store (syncVenueMetadata (Vault.Venues (Vault.se_Secrets sec))) s) as H1.
  pose proof (frame_on_store (syncVenueMetadata (Vault.Venues (Vault.se_Secrets sec))) s) as H2.
  destruct (on_store _ s) as [[synced|] s1]; cbn in *; [|exact H1].
  etransitivity; [exact H1|]. injection H2 as H2 _ _.
  set (e := rq_now rq + _). pose proof (unseal_owner sec (Some e) (rq_now rq) c) as Hu.
  assert (Hs : ∀ c', Vault.cc_user c' = Vault.cc_user c → same_vault s1 (with_vault (Some c') s1)).
  { intros c' E. apply same_vault_eq; [|done]. unfold owner. cbn. by rewrite E, H2, Hc. }
  destruct (Vault.Unseal sec (Some e) (rq_now rq) c) as [[err|] c']; cbn in Hu.
  - destruct err; by apply Hs.
  - unfold Issue. destruct (IsZero e); [by apply Hs|].
    destruct (rq_rand rq); (etransitivity; [by apply Hs|]); by apply same_vault_eq.
Qed.

Lemma stable_seal rq : stable (SealVault rq).
Proof.
  unfold SealVault. apply stable_authenticated. intros s. destruct (sv_vault s) as [c|] eqn:Hc; [|reflexivity].
  pose proof (seal_owner (rq_now rq) c) as Hu.
  destruct (Vault.Seal (rq_now rq) c) as [[err|] c']; cbn in Hu;
    (apply same_vault_eq; [|done]); unfold owner; cbn; by rewrite Hu, Hc.
Qed.

Lemma stable_status rq : stable (GetVaultStatus rq).
Proof.
  intros s. unfold GetVaultStatus. destruct (sv_vault s); [|reflexivity].
  destruct (String.eqb _ _); [|reflexivity].
  pose proof (stable_require rq s) as H. destruct (requireSession rq s) as [[valid e] s1].
  exact H.
Qed.

Lemma stable_get_payload rq : stable (GetVaultPayload rq).
Proof.
  unfold GetVaultPayload. apply stable_authenticated. intros s.
  by repeat (case_match; simplify_eq/=; try reflexivity).
Qed.
Hint Resolve stable_unseal stable_seal stable_status stable_get_payload : stable.

(** The calls that write a payload. *)
Definition writes (c : call) : bool :=
  match c with CallSetupVault _ | CallUpdateVaultPayload _ => true | _ => false end.

Lemma serve_stable rq c : writes c = false → stable (serve rq c).
Proof.
  destruct c; try done; intros _; cbn [Routes.serve]; unfold with_cookie; eauto 10 with stable;
  apply stable_plain;
  unfold Api.UpsertVenue, Api.DeleteVenue, Api.ListVenueAssignments, Api.UpsertVenueAssignment,
    Api.DeleteVenueAssignment, Api.ListBotVenues, Api.DeleteBotOrderScalerConfig,
    Api.GetBotOrderScalerConfig, Api.UpsertBotOrderScalerConfig, Api.UpdateOrderScalerConfig;
  repeat case_match; eauto 15 with stable;
  apply stable_authenticated; repeat case_match; eauto 15 with stable.
Qed.

(** The payload after an answer. *)
Definition newest (p : VaultEncryptedPayload) (x : Request * call * outcome) : VaultEncryptedPayload :=
  match x with
  | (_, CallUpdateVaultPayload (Some body), (200, _)) => normal (vp_EncryptedPayload body)
  | _ => p
  end.

Lemma update_payload u p rq body (s : Server) :
  owned u p s →
  let '(r, s') := UpdateVaultPayload rq (Some body) s in
  owner s' = Some u ∧ VaultStore.vt_users (sv_tables s') = VaultStore.vt_users (sv_tables s) ∧
  holds (Vault.us_ID u) (if code_of r =? 200 then normal (vp_EncryptedPayload body) else p) (sv_tables s').
Proof.
  intros Ho. assert (Hsame : owner s = Some u ∧ VaultStore.vt_users (sv_tables s) = VaultStore.vt_users (sv_tables s) ∧
    holds (Vault.us_ID u) p (sv_tables s)) by (split_and!; by destruct Ho).
  unfold UpdateVaultPayload, authenticated, mbind, st_bind.
  destruct (owned_gate _ _ _ Ho) as (g & Hg & _).
  destruct (live rq g) eqn:Hl; [rewrite (require_live rq g s Hg Hl)|].
  - destruct (sv_vault s) as [c|] eqn:Hc; [|exact Hsame].
    destruct (negb _); [exact Hsame|].
    replace (Vault.cs_User (Vault.Status c)) with (Some u) by
      (symmetry; change (Vault.cc_user c = Some u); destruct Hsame as [E _]; unfold owner in E; by rewrite Hc in E).
    destruct (negb _); [exact Hsame|]. destruct (buildSecretsBundle _ _) as [sec|]; [|exact Hsame].
    destruct (Vault.Validate _); [exact Hsame|].
    destruct (buildPayloadInput _ _ _) as [save|] eqn:Hb; [|exact Hsame].
    unfold on_tables. destruct (VaultStore.UpsertVaultPayload _ save _) as [[[]|e] t'] eqn:Hu.
    + destruct (payload_stored _ _ _ _ _ _ _ Hb Hu) as [Hh Hus].
      unfold on_store. destruct (syncVenueMetadata _ _) as [synced st]. cbn.
      split_and!; [by apply Hsame | exact Hus | exact Hh].
    + assert (t' = sv_tables s) as ->; [|exact Hsame].
      unfold VaultStore.UpsertVaultPayload in Hu. by repeat (case_match; simplify_eq/=).
  - pose proof (stable_require rq s) as [E1 E2 _].
    destruct (require_not_live rq g s Hg Hl) as (e & s' & E & Hs'). rewrite E in *. cbn in *.
    assert (sv_tables s' = sv_tables s) as Et.
    { revert E. unfold requireSession, Validate. repeat (case_match; simplify_eq/=; try done);
      intros; by simplify_eq. }
    rewrite Et. destruct Hsame as (Ho' & _ & Hh). split_and!; [congruence|done|exact Hh].
Qed.

Lemma owned_step u p rq (c : call) (s : Server) :
  sane rq → owned u p s → owned u (newest p (rq, c, (serve rq c s).1)) (serve rq c s).2.
Proof.
  intros Hrq Ho. destruct (owned_gate _ _ _ Ho) as (g & Hg & Hph).
  destruct (serve_sound bot_id rq c g s Hrq Hg) as [_ Hg'].
  pose proof (step_not_setup rq c (serve rq c s).1 g Hph) as Hph'.
  destruct (writes c) eqn:Hw.
  - destruct c; try done.
    + destruct body as [body|].
      * cbn [Routes.serve] in *. rewrite plain_code, plain_state in *.
        pose proof (update_payload u p rq body s Ho) as H.
        destruct (UpdateVaultPayload rq (Some body) s) as [r s']. destruct H as (H1 & H2 & H3). cbn [fst snd] in *.
        match goal with |- owned u ?x s' =>
          assert (x = if code_of r =? 200 then normal (vp_EncryptedPayload body) else p) as -> end.
        { unfold newest. destruct (Z.eqb_spec (code_of r) 200) as [->|Hn]; [done|]. by repeat case_match. }
        destruct Ho. split; [by eexists|done|by rewrite H2|by rewrite H2|done].
      * apply (owned_kept u p s); [done|by eexists|done].
    + apply (owned_kept u p s); [|by eexists|done]. cbn [Routes.serve]. rewrite plain_state.
      destruct body as [body|]; [|done]. by rewrite (setup_refused rq body g s Hg Hph).
  - assert (newest p (rq, c, (serve rq c s).1) = p) as -> by by destruct c.
    apply (owned_kept u p s); [by apply serve_stable|by eexists|done].
Qed.

(** ** From a fresh installation *)

Lemma upsert_users now save t :
  VaultStore.vt_users (VaultStore.UpsertVaultPayload now save t).2 = VaultStore.vt_users t.
Proof.
  unfold VaultStore.UpsertVaultPayload, VaultStore.q_UpsertVaultPayload, VaultStore.json_or_null.
  repeat (case_match; simplify_eq/=; try done).
Qed.

Lemma require_tables rq (s : Server) : sv_tables (requireSession rq s).2 = sv_tables s.
Proof. unfold requireSession, Validate. by repeat (case_match; simplify_eq/=). Qed.

Lemma update_users rq b (s : Server) :
  VaultStore.vt_users (sv_tables (UpdateVaultPayload rq b s).2) = VaultStore.vt_users (sv_tables s).
Proof.
  unfold UpdateVaultPayload. destruct b as [b|]; [|done].
  unfold authenticated, mbind, st_bind. rewrite <- (require_tables rq s).
  destruct (requireSession rq s) as [[[] e] s1]; [|done]. cbn.
  repeat (case_match; simplify_eq/=; try done).
  all: match goal with H : on_tables (VaultStore.UpsertVaultPayload ?n ?x) ?s = _ |- _ =>
    let E := fresh in pose proof (upsert_users n x (sv_tables s)) as E; unfold on_tables in H;
    destruct (VaultStore.UpsertVaultPayload n x (sv_tables s)) as [? ?]; simplify_eq/= end;
    try (match goal with H : on_store _ _ = (_, ?s') |- _ =>
      unfold on_store in H; case_match; simplify_eq/= end); done.
Qed.

Lemma setup_users rq b (s : Server) :
  grown (VaultStore.vt_users (sv_tables s)) (VaultStore.vt_users (sv_tables (SetupVault rq b s).2)).
Proof.
  unfold SetupVault. destruct b as [b|]; [|done]. destruct (sv_vault s) as [c|]; [|done].
  destruct (negb _); [done|]. destruct (String.eqb _ ""); [done|]. destruct (negb _); [done|].
  unfold on_tables at 1. destruct (ensure_grown (rq_now rq) (TrimSpace (vr_Username b)) (sv_tables s)) as [Hg _].
  destruct (VaultStore.EnsureVaultUser _ _ _) as [[user|e] t]; [|exact Hg]. cbn in *.
  destruct (VaultStore.GetVaultPayloadForUser _ _) as [[y|]|]; [exact Hg| |exact Hg].
  destruct (buildPayloadInput _ _ _) as [save|]; [|exact Hg].
  unfold on_tables. cbn. pose proof (upsert_users (rq_now rq) save t) as Hu.
  destruct (VaultStore.UpsertVaultPayload _ save t) as [[[]|e] t']; cbn in Hu |- *.
  - destruct (Vault.Seal _ _) as [[e|] c']; cbn; by rewrite Hu.
  - by rewrite Hu.
Qed.

Lemma serve_users rq c (s : Server) :
  grown (VaultStore.vt_users (sv_tables s)) (VaultStore.vt_users (sv_tables (serve rq c s).2)).
Proof.
  destruct (writes c) eqn:Hw.
  - destruct c; try done; cbn [Routes.serve]; rewrite plain_state;
      [by rewrite update_users | apply setup_users].
  - exact (same_users _ _ (serve_stable rq c Hw s)).
Qed.

(** A life of the installation: requests, and restarts on the tables they left. *)
Inductive played : Server → list (Request * call * outcome) → Server → Prop :=
| played_none s : played s [] s
| played_request s rq c tr s' :
    sane rq → played (serve rq c s).2 tr s' → played s ((rq, c, (serve rq c s).1) :: tr) s'
| played_restart s now stream max s1 tr s' :
    Startup.NewServer now stream false max (sg_db (sv_store s)) (sv_tables s) = Ok s1 →
    played s1 tr s' → played s tr s'.

Lemma started_gate now stream max d t (s : Server) :
  Startup.NewServer now stream false max d t = Ok s →
  sv_tables s = t ∧ ∃ g, gate_is g s.
Proof.
  unfold Startup.NewServer. destruct (New now stream d) as [st|]; [|done]. cbn.
  unfold Startup.initialVault. destruct (VaultStore.GetVaultUser t) as [[u|]|]; cbn; [| |done].
  - destruct (VaultStore.GetVaultPayloadForUser _ t) as [[y|]|]; cbn; [| |done]; intros; simplify_eq;
      (split; [done|]); [exists (mkGate Locked None)|exists (mkGate Setup None)];
      (split; [done|]; split; [done|]; by eexists).
  - intros; simplify_eq. split; [done|]. exists (mkGate Setup None).
    split; [done|]; split; [done|]; by eexists.
Qed.

Lemma played_well s tr s' :
  played s tr s' → users_ok (VaultStore.vt_users (sv_tables s)) → (∃ g, gate_is g s) →
  users_ok (VaultStore.vt_users (sv_tables s')) ∧ ∃ g, gate_is g s'.
Proof.
  induction 1 as [s|s rq c tr s' Hrq _ IH|s now stream max s1 tr s' Hs _ IH]; intros Hu Hg; [done| |].
  - apply IH; [by apply serve_users|]. destruct Hg as [g Hg].
    destruct (serve_sound bot_id rq c g s Hrq Hg). by eexists.
  - destruct (started_gate _ _ _ _ _ _ Hs) as [Ht Hg']. apply IH; [by rewrite Ht|done].
Qed.

Lemma restart_owned u p (s : Server) now stream max s' :
  owned u p s →
  Startup.NewServer now stream false max (sg_db (sv_store s)) (sv_tables s) = Ok s' → owned u p s'.
Proof.
  intros [Hg Ho Hu (r & rest & Hr & Hm) (y & Hy & Hc)]. unfold Startup.NewServer.
  destruct (New now stream _) as [st|]; [|done].
  assert (VaultStore.GetVaultUser (sv_tables s) = Ok (Some u)) as Hfirst.
  { unfold VaultStore.GetVaultUser. rewrite first_user by done. rewrite Hr. cbn. by rewrite Hm. }
  unfold Startup.initialVault, mbind, result_bind. rewrite Hfirst, Hy.
  intros; simplify_eq. split; cbn; try done.
  - exists (mkGate Locked None). split; [|done]. split; [done|]; split; [done|]; by eexists.
  - by exists r, rest.
  - by exists y.
Qed.

Lemma played_owned u s tr s' :
  played s tr s' → ∀ p, owned u p s → owned u (fold_left newest tr p) s'.
Proof.
  induction 1 as [s|s rq c tr s' Hrq _ IH|s now stream max s1 tr s' Hs _ IH]; intros p Ho; [done| |].
  - cbn. by apply IH, owned_step.
  - apply IH. by eapply restart_owned.
Qed.

(** Nobody but the one that sets the vault up has begun a registration before. *)
Definition first_comer (name : string) (t : VaultTables) : Prop :=
  ∀ r rest, au_rows (VaultStore.vt_users t) = r :: rest → VaultStore.ur_username r = name.

Lemma ensure_first now name t u t' :
  first_comer name t → VaultStore.EnsureVaultUser now name t = (Ok u, t') →
  ∃ r rest, au_rows (VaultStore.vt_users t') = r :: rest ∧ VaultStore.mapVaultUser r = u.
Proof.
  intros Hf. unfold VaultStore.EnsureVaultUser. destruct (String.eqb _ ""); [done|].
  unfold VaultStore.q_EnsureVaultUser, first_comer in *.
  destruct (au_rows (VaultStore.vt_users t)) as [|r rest] eqn:E; cbn.
  - intros; simplify_eq. by eexists _, [].
  - rewrite (Hf r rest eq_refl), String.eqb_refl. intros; simplify_eq. by exists r, rest.
Qed.

Lemma setup_owned rq body g (s : Server) :
  gate_is g s → users_ok (VaultStore.vt_users (sv_tables s)) →
  first_comer (TrimSpace (vr_Username body)) (sv_tables s) →
  code_of (SetupVault rq (Some body) s).1 = 201 →
  ∃ u, owned u (normal (vr_Payload body)) (SetupVault rq (Some body) s).2.
Proof.
  intros Hg Hu Hf. pose proof (setup_users rq (Some body) s) as Hgrow. specialize (Hgrow Hu) as [Hu' _].
  revert Hu'. pose proof Hg as (Hd & _ & c & Hc & Hp). unfold SetupVault. rewrite Hc.
  destruct (negb _); [done|]. destruct (String.eqb _ ""); [done|]. destruct (negb _); [done|].
  unfold on_tables at 1 3 5. 
  destruct (VaultStore.EnsureVaultUser _ _ _) as [[u|e] t] eqn:He; [|done]. cbn.
  destruct (ensure_first _ _ _ _ _ Hf He) as (r & rest & Hr & Hm).
  destruct (VaultStore.GetVaultPayloadForUser _ _) as [[y|]|]; [done| |done].
  destruct (buildPayloadInput _ _ _) as [save|] eqn:Hb; [|done].
  unfold on_tables. cbn. destruct (VaultStore.UpsertVaultPayload _ save t) as [[[]|e] t'] eqn:Hs; [|done].
  destruct (payload_stored _ _ _ _ _ _ _ Hb Hs) as [Hh Hus].
  destruct (seal_known (rq_now rq) (Vault.SetUser (Some u) c) _ Hp) as [E1 E2].
  pose proof (seal_owner (rq_now rq) (Vault.SetUser (Some u) c)) as Ho.
  destruct (Vault.Seal _ _) as [[e|] c']; [done|]. cbn in *. intros Hu' _. exists u.
  split; cbn; [|exact Ho|exact Hu'|by rewrite Hus; exists r, rest|exact Hh].
  exists (mkGate Locked None). split; [|done]. split; [done|]; split; [done|]; by eexists.
Qed.

Lemma owner_reads u p rq g (s : Server) :
  owned u p s → gate_is g s → live rq g = true → (GetVaultPayload rq s).1 = ok p.
Proof.
  intros [(g' & (_ & _ & c' & Hc' & Hp') & Hph) Ho _ _ (y & Hy & Hconv)] Hg Hl. unfold GetVaultPayload.
  rewrite (authenticated_live rq _ g s Hg Hl). unfold owner in Ho. rewrite Hc' in *. cbn in Ho.
  cbn [Vault.cs_User Vault.cs_State Vault.Status]. rewrite Ho, Hp'.
  destruct (gt_phase g'); [done| |]; cbn; by rewrite Hy, Hconv.
Qed.

(** C19.  The vault keeps what it is given.  Whatever was requested of a fresh installation
    before, once its first comer sets the vault up, the owner reads back that payload
    or the last one an update was answered [200] for, byte by byte: after any further
    requests, from anyone and with any answers, and after any restarts. *)
Theorem vault_durable (now : Z) (stream : bool) (max : f64) (d : Database) (s0 s1 s2 : Server)
    (tr1 tr2 : list (Request * call * outcome)) (rq rq' : Request) (body : VaultSetupRequest)
    (g : gate)
    (Hfresh : Startup.NewServer now stream false max d VaultStore.empty_tables = Ok s0)
    (Hbefore : played s0 tr1 s1) (Hrq : sane rq)
    (Hfirst : first_comer (TrimSpace (vr_Username body)) (sv_tables s1))
    (Hsetup : code_of (SetupVault rq (Some body) s1).1 = 201)
    (Hafter : played (SetupVault rq (Some body) s1).2 tr2 s2)
    (Hgate : gate_is g s2) (Hlive : live rq' g = true) :
  (GetVaultPayload rq' s2).1 = ok (fold_left newest tr2 (normal (vr_Payload body))).
Proof.
  destruct (started_gate _ _ _ _ _ _ Hfresh) as [Ht Hg0].
  assert (users_ok (VaultStore.vt_users (sv_tables s0))) as Hu0 by (rewrite Ht; by repeat constructor).
  destruct (played_well _ _ _ Hbefore Hu0 Hg0) as [Hu1 [g1 Hg1]].
  destruct (setup_owned rq body g1 s1 Hg1 Hu1 Hfirst Hsetup) as [u Ho].
  eapply owner_reads; [by eapply played_owned|done..].
Qed.

End VaultApiFacts.

End VaultApiFacts.
