(* ===== verification/ApiDemo.v ===== *)
(** * A concrete API server

    A server on a fresh database, with plain codecs and an authenticator that
    accepts everything. *)

From S2P Require Import Prelude GoFloat GoString OrderId Domain Store Tables Stream Storage.
From S2P Require Import ScalerStorage StorageApi Vault VaultStore Server VaultApi WebAuthn.
From S2P Require Import ApiRecords Api Routes SessionFacts Startup VaultApiFacts Adapter TablesFacts StorageFacts Integrity Reads.
Import GoFloat GoString Domain Store Tables Storage Server VaultApi WebAuthn Routes.

Module ApiDemo.

Definition demo_driver : VaultStore.BlobDriver := id.
Definition demo_bundles : Codec VaultSecretsBundle :=
  {| Marshal := λ _, Some "bundle"%string; Unmarshal := λ _, None |}.
Definition demo_credentials : Codec string := {| Marshal := Some; Unmarshal := Some |}.
Definition demo_flags : Codec (gmap string flag) :=
  TablesFacts.table_codec [("{}"%string, ∅); ("{api_url}"%string, {["api_url"%string := FlagString "https://venue"]})].
Definition demo_lib : @WebAuthnLib unit string unit unit unit unit :=
  {| lib_BeginRegistration := λ _ _ _, Some (tt, tt);
     lib_CreateCredential := λ _ _ _ _, Some "credential"%string;
     lib_BeginLogin := λ _ _, Some (tt, tt);
     lib_ValidateLogin := λ _ _ _ _, Some "credential"%string;
     lib_Expires := λ _, zero_time;
     lib_CredentialID := id |}.

#[export] Existing Instance StorageFacts.demo_json.
#[export] Existing Instance list_range.
#[export] Existing Instance demo_driver.
#[export] Existing Instance demo_bundles.
#[export] Existing Instance demo_credentials.
#[export] Existing Instance demo_lib.
#[export] Existing Instance Adapter.demo_sdk.
#[export] Existing Instance Reads.demo_bots.
#[export] Existing Instance demo_flags.
#[export] Existing Instance Reads.silent | 100.
#[export] Existing Instance StorageFacts.demo_creates.
#[export] Existing Instance StorageFacts.demo_modifies.
#[export] Existing Instance StorageFacts.demo_cancels.
#[export] Existing Instance StorageFacts.demo_statuses.

Definition no_tables : VaultStore.VaultTables :=
  VaultStore.mkVaultTables (mkAuto [] 0) (mkAuto [] 0) (mkAuto [] 0).

(** Before the setup: no owner, no session. *)
Definition demo_server : Server (SessionData := unit) :=
  mkServer (Reads.started empty_database) no_tables
    (Some (Vault.NewController Vault.StateSetupRequired (Vault.mkConfig None None None None None)))
    None (Some (NewWebAuthnService 0)) false fone (Some []).

Definition demo_payload : VaultEncryptedPayload := mkEncrypted " v1 " "cipher" "nonce" None (Some ∅).
Definition demo_venue : VaultVenueSecret :=
  mkVaultVenue "main" "hyperliquid" "0xabc" "key" true None (Some "https://venue"%string) None.
Definition demo_bundle : VaultSecretsBundle := mkBundle "owner" "k" "s" "pro" [demo_venue].

Definition at_minute (cookie : option string) (minute : Z) : Request :=
  mkRequest (minute * 60 * second) cookie (Some "token"%string).

Abbreviation demo_call := (@call unit unit).

Definition demo_history : list (Request * demo_call) :=
  [(at_minute None 1, CallSetupVault (Some (mkSetup " owner " demo_payload)));
   (at_minute None 2, CallUnsealVault (Some (mkUnseal demo_bundle None)))].

Definition demo_list : demo_call :=
  CallListDeals (λ _, 0) (StorageApi.mkDealsOptions None None None None 0 "") None.


(** The owner sets the vault up, unseals it for half an hour and lists deals. *)
Definition demo_request : Request := at_minute (Some "token"%string) 32.

Lemma demo_sane : Forall (λ x : Request * demo_call, SessionFacts.sane x.1) demo_history.
Proof. repeat constructor; vm_compute; (discriminate || by eexists). Defined.

Lemma demo_gate : SessionFacts.gate_is (SessionFacts.mkGate SessionFacts.Setup None) demo_server.
Proof. split; [reflexivity|]. split; [reflexivity|]. eexists. split; reflexivity. Defined.

Lemma session_refines_witness :
  (serve_all id demo_history demo_server).1 = [(201, None); (200, Some "token"%string)] ∧
  ∃ g, SessionFacts.machine_run (SessionFacts.mkGate SessionFacts.Setup None)
         (zip demo_history (serve_all id demo_history demo_server).1) g ∧
       SessionFacts.gate_is g (serve_all id demo_history demo_server).2.
Proof.
  split; [vm_compute; reflexivity|].
  exact (SessionFacts.session_refines id demo_history _ demo_server demo_sane demo_gate).
Defined.

Lemma session_provenance_witness :
  (serve id (at_minute (Some "token"%string) 33) demo_list
     (serve_all id demo_history demo_server).2).1 = (401, None) ∧
  ∃ v, rq_cookie demo_request = Some (vn_token v) ∧ rq_now demo_request ≤ vn_expiresAt v.
Proof.
  split; [vm_compute; reflexivity|].
  assert (Hs : SessionFacts.sane demo_request) by (split; [discriminate | by eexists]).
  pose proof (SessionFacts.session_provenance id demo_history demo_request demo_list
    SessionFacts.Setup demo_server demo_sane Hs demo_gate) as H.
  destruct (serve_all id demo_history demo_server) as [outs s1] eqn:E.
  assert (Ec : (serve id demo_request demo_list s1).1.1 = 200).
  { assert (s1 = (serve_all id demo_history demo_server).2) as -> by (rewrite E; reflexivity).
    vm_compute. reflexivity. }
  destruct H as [(pre & rq0 & c0 & out0 & post & v & _ & _ & _ & Hc & He) _];
    [discriminate | reflexivity | lia |].
  exists v. split; [exact Hc | exact He].
Defined.

(** A passkey is registered and used before the setup, and the session it gives
    seals the vault. *)
Definition early_history : list (Request * demo_call) :=
  [(at_minute None 1, CallBeginWebauthnRegistration (Some "owner"%string));
   (at_minute None 2, CallFinishWebauthnRegistration (Some ("token"%string, Some tt)));
   (at_minute None 3, CallBeginWebauthnLogin (Some "owner"%string));
   (at_minute None 4, CallFinishWebauthnLogin (Some ("token"%string, Some tt)))].
Definition early_server : Server (SessionData := unit) := (serve_all id early_history demo_server).2.
Definition early_gate : SessionFacts.gate :=
  SessionFacts.mkGate SessionFacts.Setup (Some (mkSession "token" (34 * 60 * second))).

Lemma setup_lost_witness :
  (SetupVault (at_minute None 6) (Some (mkSetup "owner" demo_payload))
     (serve_all id [(at_minute (Some "token"%string) 5, CallSealVault)] early_server).2).1 = status 409.
Proof.
  refine (SessionFacts.setup_lost id _ (at_minute None 6) CallSealVault [] early_gate early_server
    (mkSetup "owner" demo_payload) _ eq_refl _ (Forall_nil_2 _) (or_introl (conj eq_refl _))).
  - split; [vm_compute; reflexivity|]. split; [vm_compute; reflexivity|].
    eexists. split; vm_compute; reflexivity.
  - split; [discriminate | by eexists].
  - vm_compute. reflexivity.
Defined.

(** A fresh installation; its owner registers a passkey and sets the vault up; the
    program restarts, and the owner logs in with the passkey. *)
Definition fresh_server : Server (SessionData := unit) :=
  match Startup.NewServer 0 false false fone empty_database VaultStore.empty_tables with
  | Ok s => s
  | Err _ => demo_server
  end.
Definition restarted (s : Server (SessionData := unit)) : Server (SessionData := unit) :=
  match Startup.NewServer 0 false false fone (sg_db (sv_store s)) (sv_tables s) with
  | Ok s => s
  | Err _ => s
  end.
Definition registered : Server (SessionData := unit) :=
  (serve_all id (take 2 early_history) fresh_server).2.
Definition set_up : Server (SessionData := unit) :=
  (SetupVault (at_minute None 3) (Some (mkSetup "owner" demo_payload)) registered).2.
Definition logged_in : Server (SessionData := unit) :=
  (serve_all id (drop 2 early_history) (restarted set_up)).2.

Lemma demo_played calls (s : Server (SessionData := unit)) :
  Forall (λ x : Request * demo_call, SessionFacts.sane x.1) calls →
  VaultApiFacts.played id s (zip calls (serve_all id calls s).1) (serve_all id calls s).2.
Proof.
  intros Hc. revert s. induction Hc as [|[rq c] calls Hrq _ IH]; intros s; [constructor|]. cbn.
  specialize (IH (serve id rq c s).2).
  pose proof (VaultApiFacts.played_request id s rq c _ _ Hrq IH) as H.
  destruct (serve id rq c s) as [out s1]. cbn in *. destruct (serve_all id calls s1). exact H.
Qed.

Lemma vault_durable_witness :
  (GetVaultPayload (at_minute (Some "token"%string) 5) logged_in).1 =
    ok (mkEncrypted "v1" "cipher" "nonce" None (Some ∅)).
Proof.
  assert (Hsane : Forall (λ x : Request * demo_call, SessionFacts.sane x.1) early_history).
  { repeat constructor; vm_compute; (discriminate || by eexists). }
  assert (Hblob : VaultStore.BlobLaws demo_driver) by by split.
  assert (Hflags : CodecLaws (gmap string flag) (H0 := demo_flags)).
  { apply TablesFacts.table_codec_laws. vm_compute. reflexivity. }
  rewrite (VaultApiFacts.vault_durable id 0 false fone empty_database fresh_server registered logged_in
    (zip (take 2 early_history) (serve_all id (take 2 early_history) fresh_server).1)
    (zip (drop 2 early_history) (serve_all id (drop 2 early_history) (restarted set_up)).1)
    (at_minute None 3) (at_minute (Some "token"%string) 5) (mkSetup "owner" demo_payload)
    (SessionFacts.mkGate SessionFacts.Locked (Some (mkSession "token" (34 * 60 * second))))).
  - vm_compute. reflexivity.
  - vm_compute. reflexivity.
  - exact (demo_played (take 2 early_history) fresh_server (Forall_take _ _ _ Hsane)).
  - split; [discriminate | by eexists].
  - vm_compute. by intros ?? [= <- <-].
  - vm_compute. reflexivity.
  - apply (VaultApiFacts.played_restart id set_up 0 false fone (restarted set_up)).
    + vm_compute. reflexivity.
    + exact (demo_played (drop 2 early_history) (restarted set_up) (Forall_drop _ _ _ Hsane)).
  - split; [vm_compute; reflexivity|]. split; [vm_compute; reflexivity|].
    eexists. split; vm_compute; reflexivity.
  - vm_compute. reflexivity.
Defined.

End ApiDemo.
