(* ===== verification/ApiFacts.v ===== *)
(** * Cancelling by hand: what is decided and what is sent *)

From S2P Require Import Prelude GoFloat GoString OrderId Domain Store Tables Stream Storage.
From S2P Require Import ScalerStorage StorageApi Vault VaultStore Server ApiRecords Api.
From S2P Require Import StorageFacts Integrity Reads.
Import GoFloat GoString Domain Store Tables Storage Server ApiRecords Integrity Reads.

Module ApiFacts.

Section ApiFacts.
Context {sqlite : SqliteJSON} {R : GoRange} {HR : FairRange R} {sdk : SDK}.
Context {json_event : Codec TcBotEvent} {json_deal : Codec TcDeal} {json_status : Codec WsOrder}.
Context {json_create : Codec CreateOrderRequest} {json_modify : Codec ModifyOrderRequest}
  {json_cancel : Codec CancelOrderRequestByCloid} {json_flags : Codec (gmap string flag)}
  {json_payload : Codec ScalerStorage.scaledOrderPayload}
  {json_volumes : Codec ScalerStorage.DealVolumes}.
Context {Bot : Type} {json_bot : Codec Bot} (bot_id : Bot → Z).
Context {laws_event : CodecLaws TcBotEvent} {laws_deal : CodecLaws TcDeal}
  {laws_status : CodecLaws WsOrder} {laws_create : CodecLaws CreateOrderRequest}
  {laws_modify : CodecLaws ModifyOrderRequest} {laws_cancel : CodecLaws CancelOrderRequestByCloid}
  {laws_flags : CodecLaws (gmap string flag)}
  {laws_payload : CodecLaws ScalerStorage.scaledOrderPayload} {laws_bot : CodecLaws Bot}.
Context {SessionData : Type}.
Abbreviation Server := (@Server SessionData).

(** ** What the storage knows of an identifier *)

Definition submission (st : Storage) (i : OrderIdentifier) : option Action :=
  match (LoadHyperliquidSubmission i st).1 with Ok a => a | Err _ => None end.
Definition latest (st : Storage) (i : OrderIdentifier) : option WsOrder :=
  match (LoadHyperliquidStatus i st).1 with Ok a => a | Err _ => None end.

(** The last thing recorded for it is a creation or a modification. *)
Definition placed (st : Storage) (i : OrderIdentifier) : bool :=
  match submission st i with
  | Some a => bool_decide (ac_Type a = ActionCreate ∨ ac_Type a = ActionModify)
  | None => false
  end.
(** And its status, if there is one, is open. *)
Definition cancelable (st : Storage) (i : OrderIdentifier) : bool :=
  placed st i && Api.isCancelableStatus (latest st i).

Definition named_coin (st : Storage) (i : OrderIdentifier) : string :=
  match submission st i with Some a => Api.submission_coin a | None => "" end.

(** The identifiers the request is about, and the first coin their submissions name. *)
Definition wanted (venueId : option string) (st : Storage) (oid : OrderId.OrderId)
    : list OrderIdentifier :=
  let venue := TrimSpace (deref venueId) in
  let known := match (ListSubmissionIdentifiersForOrder oid st).1 with Ok l => l | Err _ => [] end in
  if String.eqb venue "" then known else filter (λ i, Is_true (EqualFold (Venue i) venue)) known.
Definition coin (st : Storage) (idents : list OrderIdentifier) : string :=
  default "" (find (λ c, negb (String.eqb c "")) (named_coin st <$> filter (λ i, Is_true (placed st i)) idents)).

(** ** The loop finds out what the storage knows *)

Section scan.
Context (st : Storage) (Hst : integrity bot_id (sg_db st)).

Lemma submission_loaded i : LoadHyperliquidSubmission i st = (Ok (submission st i), st).
Proof.
  destruct (LoadHyperliquidSubmission_answers bot_id st Hst i) as (a & E & _).
  unfold submission. by rewrite E.
Qed.
Lemma status_loaded i : LoadHyperliquidStatus i st = (Ok (latest st i), st).
Proof.
  destruct (LoadHyperliquidStatus_answers bot_id st Hst i) as (a & E & _).
  unfold latest. by rewrite E.
Qed.

Definition scanned (sc : Api.cancel_scan) (i : OrderIdentifier) : Api.cancel_scan :=
  if placed st i then
    Api.mkScan (if String.eqb (Api.cs_coin sc) "" then named_coin st i else Api.cs_coin sc)
      (if cancelable st i then Api.cs_pending sc ++ [i] else Api.cs_pending sc)
      (match latest st i with Some w => Some w | None => Api.cs_lastStatus sc end) true
  else sc.

Lemma scan_one_spec i sc : Api.scan_one i sc st = (Ok (scanned sc i), st).
Proof.
  unfold Api.scan_one, scanned, cancelable, placed, named_coin.
  unfold mbind at 1, sto_bind at 1. rewrite submission_loaded.
  destruct (submission st i) as [a|]; [|done].
  assert (Hs := status_loaded i).
  assert (Hload : ∀ f : option WsOrder → Sto Api.cancel_scan,
    (LoadHyperliquidStatus i ≫= f) st = f (latest st i) st)
    by (intros f; unfold mbind, sto_bind; by rewrite Hs).
  destruct (ac_Type a) eqn:Ea; try done.
  all: repeat rewrite bool_decide_false by (by intros []); repeat rewrite bool_decide_true by (by auto).
  all: cbn [andb negb]; try done; etransitivity; [apply Hload|]; destruct (latest st i) as [w|]; [|done].
  all: by destruct (Api.isCancelableStatus (Some w)).
Qed.

Lemma scan_all_spec idents : ∀ sc,
  Api.scan_all idents sc st = (Ok (fold_left scanned idents sc), st).
Proof.
  induction idents as [|i idents IH]; intros sc; [done|].
  cbn [Api.scan_all fold_left]. unfold mbind, sto_bind. rewrite scan_one_spec. apply IH.
Qed.

Lemma scanned_pending idents : ∀ sc,
  Api.cs_pending (fold_left scanned idents sc) =
  Api.cs_pending sc ++ filter (λ i, Is_true (cancelable st i)) idents.
Proof.
  induction idents as [|i idents IH]; intros sc; [by rewrite app_nil_r|].
  cbn [fold_left]. rewrite IH. unfold scanned.
  destruct (cancelable st i) eqn:Ec.
  - assert (placed st i = true) as -> by (unfold cancelable in Ec; by apply andb_prop in Ec as [? _]).
    rewrite filter_cons_True by by rewrite Ec. cbn. by rewrite <- app_assoc.
  - rewrite filter_cons_False by (rewrite Ec; by intros []).  by destruct (placed st i).
Qed.

Lemma scanned_any idents : ∀ sc,
  Api.cs_anySubmission (fold_left scanned idents sc) = Api.cs_anySubmission sc || existsb (placed st) idents.
Proof.
  induction idents as [|i idents IH]; intros sc; [by rewrite orb_false_r|].
  cbn [fold_left existsb]. rewrite IH. unfold scanned. destruct (placed st i); cbn; [by rewrite orb_true_r|done].
Qed.

Lemma scanned_coin idents : ∀ sc,
  Api.cs_coin (fold_left scanned idents sc) =
  if String.eqb (Api.cs_coin sc) "" then coin st idents else Api.cs_coin sc.
Proof.
  unfold coin. induction idents as [|i idents IH]; intros sc.
  - cbn. by destruct (String.eqb_spec (Api.cs_coin sc) "").
  - cbn [fold_left]. rewrite IH. unfold scanned. destruct (placed st i) eqn:Ep.
    + rewrite filter_cons_True by by rewrite Ep. cbn [Api.cs_coin]. rewrite fmap_cons. cbn [find].
      destruct (String.eqb (Api.cs_coin sc) "") eqn:Ec; [|by rewrite Ec].
      by destruct (String.eqb (named_coin st i) "").
    + by rewrite filter_cons_False by (rewrite Ep; by intros []).
Qed.

End scan.

(** ** The emissions *)

(** The works that are handed to the queue, up to the first that it refuses. *)
Fixpoint handed (emit : OrderWork → bool) (works : list OrderWork) : list OrderWork :=
  match works with
  | [] => []
  | w :: works => if emit w then w :: handed emit works else [w]
  end.

Lemma emit_all_spec emit works : ∀ s : Server, ∀ q, sv_orders s = Some q →
  Api.emit_all emit works s = (forallb emit works, with_orders (Some (q ++ handed emit works)) s).
Proof.
  induction works as [|w works IH]; intros s q Hq; cbn [Api.emit_all forallb handed].
  - rewrite app_nil_r. unfold mret, st_ret. f_equal. unfold with_orders. rewrite <- Hq. by destruct s.
  - rewrite Hq. cbn [fmap option_fmap option_map].
    destruct (emit w); [|done]. rewrite (IH _ (q ++ [w])) by done. by rewrite <- app_assoc.
Qed.

Lemma with_same_store (s : Server) : with_store (sv_store s) s = s.
Proof. by destruct s. Qed.

Lemma on_store_answer {A} (m : Sto A) (a : A) (s : Server) :
  m (sv_store s) = (Ok a, sv_store s) → on_store m s = (Ok a, s).
Proof. intros E. unfold on_store. rewrite E. by rewrite with_same_store. Qed.

Lemma identifiers_listed oid st :
  ∃ l, ListSubmissionIdentifiersForOrder oid st = (Ok l, st).
Proof. by eexists. Qed.

Lemma empty_id_rejected : ∃ e, OrderId.FromHexString "" = Err e.
Proof. by eexists. Qed.

(** The works that a cancellation is made of. *)
Definition cancel_works (st : Storage) (oid : OrderId.OrderId) (reason : string)
    (idents : list OrderIdentifier) : list OrderWork :=
  Api.cancel_work oid (mkCancel (coin st idents) (OrderId.Hex oid)) reason <$>
    filter (λ i, Is_true (cancelable st i)) idents.

(** C20.  What a cancellation by hand answers and hands to the queue.  With the identifiers
    the request is about, the answer is [404] unless one of them was placed and a
    placed one names a coin, and [409] when none of the placed ones is still open.
    Otherwise a dry run sends nothing; without it the queue is handed one cancellation
    for every open identifier, in their order, each naming the order's own identifier
    and the coin, until it refuses one.  The database does not change. *)
Theorem cancel_decision (emit : OrderWork → bool) (orderId : string) (venueId : option string)
    (body : option Api.cancel_body) (s : Server) (q : list OrderWork)
    (empty_flags : is_Some (Unmarshal (A := gmap string flag) "{}"))
    (Hs : reached bot_id (sv_store s)) (Hq : sv_orders s = Some q) :
  let '(r, s') := Api.CancelOrderByOrderId emit orderId venueId body s in
  match OrderId.FromHexString (TrimSpace orderId) with
  | Err _ => r = status 400 ∧ s' = s
  | Ok oid =>
    let st := sv_store s in
    let idents := wanted venueId st oid in
    let works := cancel_works st oid (TrimSpace (deref (body ≫= Api.cb_Reason))) idents in
    if negb (existsb (placed st) idents) || String.eqb (coin st idents) "" then
      r = status 404 ∧ s' = s
    else if bool_decide (works = []) then r = status 409 ∧ s' = s
    else if default false (body ≫= Api.cb_DryRun) then
      s' = s ∧ ∃ resp, r = Reply 202 (Some resp) ∧ Api.cn_Status resp = "validated"%string ∧
        Api.cn_Cancel resp = mkHlCancel (coin st idents) (OrderId.Hex oid)
    else
      s' = with_orders (Some (q ++ handed emit works)) s ∧
      if forallb emit works then
        ∃ resp, r = Reply 202 (Some resp) ∧ Api.cn_Status resp = "queued"%string ∧
          Api.cn_Cancel resp = mkHlCancel (coin st idents) (OrderId.Hex oid)
      else r = status 500
  end.
Proof.
  apply reached_integrity in Hs; [|done..]. unfold Api.CancelOrderByOrderId. rewrite Hq.
  destruct (String.eqb_spec (TrimSpace orderId) "") as [->|_].
  { by destruct empty_id_rejected as [e ->]. }
  destruct (OrderId.FromHexString (TrimSpace orderId)) as [oid|e]; [|done].
  destruct (identifiers_listed oid (sv_store s)) as [known Hknown].
  rewrite (on_store_answer _ _ _ Hknown).
  assert (wanted venueId (sv_store s) oid =
    if String.eqb (TrimSpace (deref venueId)) "" then known
    else filter (λ i, Is_true (EqualFold (Venue i) (TrimSpace (deref venueId)))) known) as <-
    by (unfold wanted; by rewrite Hknown).
  cbv zeta. generalize (wanted venueId (sv_store s) oid). intros idents.
  destruct idents as [|i l] eqn:Ei; [by split|]. rewrite <- Ei. clear Ei i l.
  rewrite (on_store_answer _ _ _ (scan_all_spec _ Hs idents _)).
  set (sc := fold_left _ idents _).
  pose proof (scanned_any (sv_store s) idents (Api.mkScan "" [] None false)) as Hany.
  pose proof (scanned_coin (sv_store s) idents (Api.mkScan "" [] None false)) as Hcoin.
  pose proof (scanned_pending (sv_store s) idents (Api.mkScan "" [] None false)) as Hpend.
  cbn [Api.cs_anySubmission Api.cs_coin Api.cs_pending orb app String.eqb] in *.
  change (fold_left _ idents _) with sc in Hany, Hcoin, Hpend. rewrite Hany, Hcoin.
  destruct (existsb (placed (sv_store s)) idents); [|done]. cbn [negb orb].
  destruct (String.eqb (coin (sv_store s) idents) ""); [done|].
  unfold cancel_works. rewrite <- Hpend. destruct (Api.cs_pending sc) as [|p ps]; [done|].
  rewrite bool_decide_false by done.
  destruct (default false (body ≫= Api.cb_DryRun)); [by eauto 10|].
  rewrite (emit_all_spec _ _ _ q Hq). destruct (forallb emit _); cbn [negb]; (split; [done|]); [|done].
  by eexists.
Qed.

End ApiFacts.

(** ** A concrete cancellation *)

#[local] Existing Instance StorageFacts.demo_json.
#[local] Existing Instance list_range.
#[local] Existing Instance Reads.demo_events.
#[local] Existing Instance Reads.demo_bots.
#[local] Existing Instance Reads.demo_flags.
#[local] Existing Instance Reads.silent | 100.
#[local] Existing Instance Reads.silent_laws | 100.
#[local] Existing Instance StorageFacts.demo_creates.
#[local] Existing Instance StorageFacts.demo_modifies.
#[local] Existing Instance StorageFacts.demo_cancels.
#[local] Existing Instance StorageFacts.demo_statuses.
#[local] Existing Instance StorageFacts.demo_creates_laws.
#[local] Existing Instance StorageFacts.demo_modifies_laws.
#[local] Existing Instance StorageFacts.demo_cancels_laws.
#[local] Existing Instance StorageFacts.demo_statuses_laws.
#[local] Existing Instance Reads.demo_events_laws.
#[local] Existing Instance Reads.demo_bots_laws.
#[local] Existing Instance Reads.demo_flags_laws.

Definition demo_server : Server (SessionData := unit) :=
  mkServer Reads.demo_storage VaultStore.empty_tables None None None false fone (Some []).
Definition demo_hex : string := OrderId.Hex (oi_OrderId StorageFacts.demo_ident).

Lemma cancel_decision_witness :
  let '(r, s') := Api.CancelOrderByOrderId (λ _, true) demo_hex None None demo_server in
  s' = with_orders (Some [Api.cancel_work (oi_OrderId StorageFacts.demo_ident)
         (mkCancel "DOGE" demo_hex) "" StorageFacts.demo_ident]) demo_server ∧
  ∃ resp, r = Reply 202 (Some resp) ∧ Api.cn_Status resp = "queued"%string ∧
    Api.cn_Cancel resp = mkHlCancel "DOGE" demo_hex.
Proof.
  assert (H : is_Some (Unmarshal (A := gmap string flag) "{}")) by (eexists; reflexivity).
  pose proof (cancel_decision (id : Z → Z) (λ _, true) demo_hex None None
    demo_server [] H Reads.demo_reached eq_refl) as T.
  vm_compute in T. vm_compute. exact T.
Defined.

End ApiFacts.
