(* ===== verification/RefreshFacts.v ===== *)
(** * What a refresh of statuses leaves behind

    Every schedule of the tasks ends, and however their steps interleave the
    storage mirrors the answers of the exchange. *)

From S2P Require Import Prelude GoFloat GoString OrderId Domain Store Hl Tables Queries Stream.
From S2P Require Import Adapter Storage StorageApi ScalerStorage TablesFacts StorageFacts Integrity Reads Refresh.
Import GoString Domain Store Tables Storage TablesFacts StorageFacts Integrity Reads Refresh.

Module RefreshFacts.

Section Schedules.
Context {sdk : SDK} {S T : Type} {store : StatusStore S} {tracker : StatusTracker T}.
Context (r : StatusRefresher).
Abbreviation group := (@group S T).
Abbreviation group_step := (group_step (S := S) (T := T) r).

(** ** Where the tasks are *)

Inductive position := Todo | Running (st : stage) | Done (res : result refresh_error bool).

Definition tasks (g : group) : list (OrderIdentifier * position) :=
  ((λ i, (i, Todo)) <$> gr_todo g) ++ ((λ x, (x.1, Running x.2)) <$> gr_running g) ++
  ((λ x, (x.1, Done x.2)) <$> gr_done g).

Lemma middle {A} (x : A) (l1 l2 l3 l4 : list A) :
  l1 ++ (l2 ++ x :: l3) ++ l4 ≡ₚ x :: l1 ++ (l2 ++ l3) ++ l4.
Proof.
  replace (l1 ++ (l2 ++ x :: l3) ++ l4) with ((l1 ++ l2) ++ x :: (l3 ++ l4)) by
    by rewrite <- !app_assoc.
  rewrite <- Permutation_middle. by rewrite <- !app_assoc.
Qed.
Lemma to_end {A} (x : A) (l1 l2 l3 : list A) : l1 ++ l2 ++ x :: l3 ≡ₚ x :: l1 ++ l2 ++ l3.
Proof. rewrite !app_assoc. by rewrite <- Permutation_middle. Qed.

(** A step moves one task. *)
Inductive moved (g g' : group) (i : OrderIdentifier) : position → position → Prop :=
| moved_launch :
    gr_store g' = gr_store g → gr_tracker g' = gr_tracker g → gr_clock g' = gr_clock g →
    moved g g' i Todo (Running AtQuery)
| moved_step st p :
    unix_milli (gr_clock g) ≤ unix_milli (gr_clock g') →
    refreshOne_step r (gr_clock g') i st (gr_store g) (gr_tracker g) = (p, gr_store g', gr_tracker g') →
    moved g g' i (Running st) (match p with Goes st' => Running st' | Ends res => Done res end).

Lemma step_moves g g' :
  group_step g g' →
  ∃ i p p' rest, tasks g ≡ₚ (i, p) :: rest ∧ tasks g' ≡ₚ (i, p') :: rest ∧ moved g g' i p p'.
Proof.
  intros [g0 g1 H|now k g0 g1 Hnow H]; [unfold launch in H|unfold advance in H].
  - destruct (gr_todo g0) as [|i todo] eqn:E; [done|]. destruct (_ <? _); [|done]. simplify_eq.
    exists i, Todo, (Running AtQuery), (tasks (mkGroup (gr_store g0) (gr_tracker g0) todo (gr_running g0)
      (gr_done g0) (gr_clock g0))).
    unfold tasks. cbn. rewrite E. split; [done|]. split; [|by constructor].
    rewrite fmap_app. cbn. rewrite middle, app_nil_r. done.
  - destruct (gr_running g0 !! k) as [[i st]|] eqn:E; [|done].
    pose proof (take_drop_middle _ _ _ E) as Hl. pose proof (lookup_lt_Some _ _ _ E) as Hlt.
    set (a := take k (gr_running g0)) in *. set (b := drop (Datatypes.S k) (gr_running g0)) in *.
    assert (Hrest : tasks g0 ≡ₚ (i, Running st) :: tasks (mkGroup (gr_store g0) (gr_tracker g0) (gr_todo g0)
      (a ++ b) (gr_done g0) (gr_clock g0))).
    { unfold tasks. cbn. rewrite <- Hl. rewrite !fmap_app, fmap_cons. cbn. apply middle. }
    destruct (refreshOne_step r now i st (gr_store g0) (gr_tracker g0)) as [[p s] t] eqn:Er.
    assert (Hm : ∀ todo running done_, moved g0 (mkGroup s t todo running done_ now) i (Running st)
      (match p with Goes st' => Running st' | Ends res => Done res end)).
    { intros. apply moved_step; [done|exact Er]. }
    destruct p as [st'|res]; simplify_eq; eexists i, _, _, _; (split; [exact Hrest|]); (split; [|apply Hm]).
    + unfold tasks. cbn. rewrite (insert_take_drop _ _ _ Hlt). fold a b.
      rewrite !fmap_app, fmap_cons. cbn. apply middle.
    + unfold tasks. cbn. rewrite delete_take_drop. fold a b. rewrite !fmap_app. cbn. apply to_end.
Qed.

(** ** Every schedule ends *)

Definition left_to_do (p : position) : nat :=
  match p with
  | Todo => 4
  | Running AtQuery => 3
  | Running (AtRecord _) => 2
  | Running (AtTrack _) => 1
  | Done _ => 0
  end.
Definition work (g : group) : nat := sum_list_with (λ x, left_to_do x.2) (tasks g).

Lemma moved_less g g' i p p' : moved g g' i p p' → (left_to_do p' < left_to_do p)%nat.
Proof.
  destruct 1 as [|st p _ H]; [cbn; lia|]. unfold refreshOne_step in H.
  destruct st; repeat (case_match; simplify_eq/=); lia.
Qed.

Lemma step_less g g' : group_step g g' → (work g' < work g)%nat.
Proof.
  intros (i & p & p' & rest & H1 & H2 & Hm)%step_moves. apply moved_less in Hm.
  unfold work. rewrite H1, H2. cbn. lia.
Qed.

Lemma step_exists g : 1 ≤ sr_maxConcurrency r → finished g ∨ ∃ g', group_step g g'.
Proof.
  intros Hmax. assert (Hmax0 : 0 < sr_maxConcurrency r) by lia.
  destruct (gr_running g) as [|[i st] l] eqn:Er.
  - destruct (gr_todo g) as [|i todo] eqn:Et; [by left|]. right.
    eexists. eapply step_launch. unfold launch. rewrite Et, Er. cbn.
    change (Z.of_nat 0) with 0. apply Z.ltb_lt in Hmax0. rewrite Hmax0. reflexivity.
  - right. destruct (refreshOne_step r (gr_clock g) i st (gr_store g) (gr_tracker g)) as [[[st'|res] s] t] eqn:E;
      eexists; apply (step_advance r (gr_clock g) 0); try reflexivity; unfold advance; rewrite Er; cbn;
      rewrite E; reflexivity.
Qed.

Lemma run_ends g : 1 ≤ sr_maxConcurrency r → ∃ g', rtc group_step g g' ∧ finished g'.
Proof.
  intros Hmax. remember (work g) as n eqn:E. revert g E.
  induction (lt_wf n) as [n _ IH]. intros g ->.
  destruct (step_exists g Hmax) as [?|(g' & H)]; [by exists g; split; [apply rtc_refl|]|].
  destruct (IH _ (step_less _ _ H) g' eq_refl) as (g'' & H1 & H2).
  exists g''. split; [by eapply rtc_l|done].
Qed.

(** With room for at least one task ([NewStatusRefresher] sees to it), no schedule
    of the tasks gets stuck or runs for ever: a run over [idents] takes at most four
    steps per order, and any run can be continued to one in which all tasks ended. *)
Theorem refresh_ends now idents s t g n :
  1 ≤ sr_maxConcurrency r →
  nsteps group_step n (start_group now idents s t) g →
  (n ≤ 4 * length idents)%nat ∧ ∃ g', rtc group_step g g' ∧ finished g'.
Proof.
  intros Hmax Hn. split.
  - assert (Hw : work (start_group now idents s t) = (4 * length idents)%nat).
    { unfold work, tasks. cbn. rewrite app_nil_r. clear. induction idents; cbn in *; lia. }
    rewrite <- Hw. clear Hw. induction Hn as [|n x y z H _ IH]; [lia|]. apply step_less in H. lia.
  - by apply run_ends.
Qed.

End Schedules.

(** ** The storage mirrors the exchange *)

Section Mirror.
Context {sdk : SDK} {sqlite : SqliteJSON} {R : GoRange} {HR : FairRange R}.
Context {json_event : Codec TcBotEvent} {json_deal : Codec TcDeal} {json_status : Codec WsOrder}.
Context {json_create : Codec CreateOrderRequest} {json_modify : Codec ModifyOrderRequest}
  {json_cancel : Codec CancelOrderRequestByCloid} {json_flags : Codec (gmap string flag)}
  {json_payload : Codec ScalerStorage.scaledOrderPayload}
  {json_volumes : Codec ScalerStorage.DealVolumes}.
Context {Bot : Type} {json_bot : Codec Bot} (bot_id : Bot → Z).
Context {laws_status : CodecLaws WsOrder}.
Context {T : Type} {tracker : StatusTracker T}.

(** [runRecomma] gives the refresher the storage. *)
#[local] Instance storage_statuses : StatusStore Storage := {|
  Refresh.ListHyperliquidOrderIds := λ s, (Storage.ListHyperliquidOrderIds s).1;
  Refresh.RecordHyperliquidStatus := Storage.RecordHyperliquidStatus |}.

Abbreviation key i := (key_of (ensureIdentifier i)).
Abbreviation rows s := (db_statuses (sg_db s)).
Abbreviation alias i := (String.eqb (oi_VenueID i) defaultHyperliquidVenueID).
Definition same_rows (k : order_key) (s s' : Storage) : Prop :=
  ∀ e, rows s' !! (k, e) = rows s !! (k, e).

(** A recording after all the times the order has. *)
Lemma record_spec now i w s :
  (∀ e, is_Some (rows s !! (key i, e)) → e ≤ unix_milli now) →
  let '(res, s') := Storage.RecordHyperliquidStatus now i w s in
  (∀ k, k ≠ key i → same_rows k s s') ∧
  (if alias i then res = Ok tt ∧ s' = s
   else match Marshal w with
        | None => res = Err (ErrStore "marshal") ∧ s' = s
        | Some _ => res = Ok tt ∧ latest_is (key i) (rows s') (Some w)
        end).
Proof.
  intros Hle. unfold Storage.RecordHyperliquidStatus. destruct (alias i); [by cbn|].
  sto_run. destruct (Marshal w) as [raw|] eqn:Em; cbn beta iota; [|by cbn].
  destruct (insert_status_spec 5 (key i) raw (unix_milli now) None s ltac:(by left))
    as [(m & Hm & Hfree & Hocc & ->)|[Hocc _]]; cbn.
  2:{ specialize (Hle (unix_milli now + 1) (Hocc (unix_milli now + 1) ltac:(lia))). lia. }
  match goal with |- context [publishStreamEventLocked ?a ?b ?c] =>
    destruct (publish_db a b c) as [l ->] end. cbn.
  split; [intros k Hk e; cbn; apply lookup_insert_ne; congruence|]. split; [done|].
  exists m, (mkStatusRow hyperliquidStatusPayloadType raw). rewrite lookup_insert_eq.
  split; [done|]. split; [by apply unmarshal_marshal|]. intros e row' He.
  destruct (decide (e = m)) as [->|]; [done|]. rewrite lookup_insert_ne in He by congruence.
  pose proof (Hle e ltac:(by eexists)). lia.
Qed.

Lemma load_same i s s' :
  same_rows (key i) s s' → (LoadHyperliquidStatus i s').1 = (LoadHyperliquidStatus i s).1.
Proof.
  intros Hrows. unfold LoadHyperliquidStatus, loadLatestHyperliquidStatusLocked. sto_run.
  assert (Queries.FetchLatestHyperliquidStatus (key i) (sg_db s') =
          Queries.FetchLatestHyperliquidStatus (key i) (sg_db s)) as ->; [|unfold ask, query, or_fail; by repeat (case_match; simplify_eq/=)].
  unfold Queries.FetchLatestHyperliquidStatus. do 2 f_equal.
  assert (Hcs : Forall ordering [desc (by_int (snd ∘ fst (B := status_row) (A := order_key * Z)))])
    by auto using Forall_cons_2, Forall_nil_2.
  assert (Hp : Queries.status_rows (key i) (sg_db s) ≡ₚ Queries.status_rows (key i) (sg_db s')).
  { apply NoDup_Permutation; [apply NoDup_filter, NoDup_map_to_list..|]. intros [[k e] r].
    unfold Queries.status_rows. rewrite !list_elem_of_filter, !elem_of_map_to_list. cbn.
    split; (intros [-> Hk]; split; [done|]); [by rewrite Hrows|by rewrite Hrows in Hk]. }
  apply order_by_unique; [done| |by apply order_by_sorted|by rewrite order_by_perm].
  intros [[k e] row] [[k' e'] row'] Hx Hy.
  unfold Queries.status_rows in Hx, Hy. rewrite list_elem_of_filter, elem_of_map_to_list in Hx, Hy.
  cbn in Hx, Hy. destruct Hx as [-> Hx], Hy as [-> Hy].
  rewrite !lex_le_cons. unfold desc, by_int, compose. cbn. intros. assert (e = e') as -> by lia. congruence.
Qed.

(** The keys of several venues, and the identifiers they decode to. *)
Lemma listed_order_keys s ids :
  integrity bot_id (sg_db s) → NoDup ids →
  let ks := ids ≫= (λ v, Queries.ListHyperliquidOrderIds v (sg_db s)) in
  NoDup ks ∧ Forall order_ok ks.
Proof.
  intros Hs. induction 1 as [|v ids Hv Hids [IH1 IH2]]; [by split; constructor|].
  cbn zeta. rewrite bind_cons. unfold Queries.ListHyperliquidOrderIds at 1 3.
  set (here := filter (λ k0, k0.1.1 = v) (map_to_list (db_submissions (sg_db s))).*1).
  assert (Hin : ∀ x, x ∈ here → x.1.1 = v ∧ order_ok x).
  { intros x. unfold here. rewrite list_elem_of_filter, list_elem_of_fmap.
    intros (Hx & [x' row] & -> & Hrow%elem_of_map_to_list). split; [done|].
    apply (in_submissions _ _ Hs _ _ Hrow). }
  split.
  - apply NoDup_app. split; [rewrite order_by_perm; apply NoDup_filter, NoDup_fst_map_to_list|].
    split; [|done]. intros x Hx (v' & Hx' & Hv')%list_elem_of_bind.
    rewrite order_by_perm in Hx. apply Hin in Hx as [Hxv _].
    unfold Queries.ListHyperliquidOrderIds in Hx'.
    rewrite order_by_perm, list_elem_of_filter in Hx'. destruct Hx' as [Hxv' _]. congruence.
  - apply Forall_app. split; [|done]. rewrite order_by_perm. apply Forall_forall.
    intros x Hx. by apply Hin.
Qed.

Lemma mjoin_single {A} (x : A) l : mjoin ([x] :: l) = x :: mjoin l.
Proof. done. Qed.

Lemma mapM_Ok_cons {E A B} (f : A → result E B) x l k :
  mapM f (x :: l) = Ok k → ∃ y k', f x = Ok y ∧ mapM f l = Ok k' ∧ k = y :: k'.
Proof.
  cbn. destruct (f x) as [y|]; [|done]. destruct (mapM f l) as [k'|]; [|done]. cbn.
  intros [= <-]. by exists y, k'.
Qed.

Lemma decoded_keys ks : Forall order_ok ks →
  ∀ l, mapM decode_order_key ks = Ok l → (λ i, key i) <$> mjoin l = ks.
Proof.
  induction 1 as [|[[v w] h] ks (Hv & Hw & oid & Hoid & E) _ IH]; intros l Hl;
    [by injection Hl as <-|].
  cbn in Hv, Hw, E. subst h.
  assert (D : decode_order_key (v, w, OrderId.Hex oid) = Ok [NewOrderIdentifier v w oid]).
  { unfold decode_order_key. by rewrite (proj2 (String.eqb_neq (OrderId.Hex oid) "")),
      OrderId.FromHexString_Hex by done. }
  destruct (mapM_Ok_cons _ _ _ _ Hl) as (y & l' & Hy & El & ->). rewrite D in Hy.
  injection Hy as <-. specialize (IH _ El).
  rewrite mjoin_single, fmap_cons.
  rewrite IH. f_equal. unfold key_of, ensureIdentifier, Venue, Hex. cbn.
  apply String.eqb_neq in Hv, Hw. by rewrite Hv, Hw.
Qed.

(** The identifiers that are listed have keys of their own. *)
Lemma listed_keys s idents s' :
  integrity bot_id (sg_db s) → Storage.ListHyperliquidOrderIds s = (Ok idents, s') →
  NoDup ((λ i, key i) <$> idents).
Proof.
  intros Hs. unfold Storage.ListHyperliquidOrderIds.
  assert (Hq : ∀ ids, NoDup ids →
    query (λ d, mjoin <$> mapM decode_order_key
      (ids ≫= (λ v, Queries.ListHyperliquidOrderIds v d))) s = (Ok idents, s') →
    NoDup ((λ i, key i) <$> idents)).
  { intros ids Hids Hk. destruct (listed_order_keys s ids Hs Hids) as [Hnd Hok].
    unfold query in Hk. injection Hk as Hk _.
    destruct (mapM decode_order_key _) as [l|] eqn:El in Hk; [|done].
    injection Hk as <-. by rewrite (decoded_keys _ Hok l El). }
  sto_run. destruct (Queries.ListVenues (sg_db s)) as [|v l] eqn:El.
  - destruct (default_assignment bot_id s Hs) as (a & -> & _).
    apply (Hq [va_VenueID a]), NoDup_singleton.
  - apply (Hq (v :: l).*1). rewrite <- El. unfold Queries.ListVenues. rewrite order_by_perm.
    apply NoDup_fst_map_to_list.
Qed.

(** ** What each task comes to *)

Section Group.
Context (r : StatusRefresher).
Abbreviation group := (@group Storage T).

(** The status that is left for an order, and how its task ends. *)
Definition writes (i : OrderIdentifier) : option WsOrder :=
  match refresh_query r i with
  | Ok (Some w) => if alias i then None else (λ _, w) <$> Marshal w
  | _ => None
  end.
Definition outcome (i : OrderIdentifier) : result refresh_error bool :=
  match refresh_query r i with
  | Err e => Err e
  | Ok None => Ok false
  | Ok (Some w) =>
    if alias i then Ok true
    else match Marshal w with
         | Some _ => Ok true
         | None => Err (ErrRecord i (ErrStore "marshal"))
         end
  end.
Definition told (t : T) (i : OrderIdentifier) : T :=
  match refresh_query r i with
  | Ok (Some w) => if sr_tracked r then UpdateStatus i w t else t
  | _ => t
  end.

Definition left_by (s0 s : Storage) (i : OrderIdentifier) : Prop :=
  match writes i with
  | Some w => latest_is (key i) (rows s) (Some w)
  | None => same_rows (key i) s0 s
  end.
Definition task_ok (s0 s : Storage) (x : OrderIdentifier * position) : Prop :=
  let i := x.1 in
  match x.2 with
  | Todo | Running AtQuery => same_rows (key i) s0 s
  | Running (AtRecord w) => refresh_query r i = Ok (Some w) ∧ same_rows (key i) s0 s
  | Running (AtTrack w) => refresh_query r i = Ok (Some w) ∧ outcome i = Ok true ∧ left_by s0 s i
  | Done res => res = outcome i ∧ left_by s0 s i
  end.
Definition tells (x : OrderIdentifier * position) : option OrderIdentifier :=
  match x.2 with Done (Ok true) => Some x.1 | _ => None end.

Record group_ok (now : Z) (s0 : Storage) (t0 : T) (idents : list OrderIdentifier) (g : group) : Prop := {
  go_clock : unix_milli now ≤ unix_milli (gr_clock g);
  go_idents : (tasks g).*1 ≡ₚ idents;
  go_tasks : Forall (task_ok s0 (gr_store g)) (tasks g);
  go_rest : ∀ k, k ∉ (λ i, key i) <$> idents → same_rows k s0 (gr_store g);
  go_tracker : ∃ l, l ≡ₚ omap tells (tasks g) ∧ gr_tracker g = foldl told t0 l;
}.

(** A task is not concerned by what happens to the rows of others. *)
Lemma task_frame s0 s s' x : same_rows (key x.1) s s' → task_ok s0 s x → task_ok s0 s' x.
Proof.
  intros Hsame. assert (Hrows : same_rows (key x.1) s0 s → same_rows (key x.1) s0 s').
  { intros H e. by rewrite Hsame. }
  assert (Hleft : left_by s0 s x.1 → left_by s0 s' x.1).
  { unfold left_by. destruct (writes x.1); [|done]. intros (m & row & H1 & H2 & H3).
    exists m, row. rewrite Hsame. split_and!; [done..|]. intros e row'. rewrite Hsame. apply H3. }
  unfold task_ok. repeat case_match; naive_solver.
Qed.

Lemma same_rows_refl k s : same_rows k s s.
Proof. done. Qed.

(** One step of a task. *)
Lemma refreshOne_ok now s0 i st s t p s' t' :
  (∀ e, is_Some (rows s0 !! (key i, e)) → e ≤ unix_milli now) →
  task_ok s0 s (i, Running st) → refreshOne_step r now i st s t = (p, s', t') →
  let p' := match p with Goes st' => Running st' | Ends res => Done res end in
  (∀ k, k ≠ key i → same_rows k s s') ∧ task_ok s0 s' (i, p') ∧
  t' = foldl told t (from_option (λ x, [x]) [] (tells (i, p'))).
Proof.
  intros Hle Hok. unfold refreshOne_step.
  destruct st as [|w|w]; cbn in Hok.
  - unfold task_ok, outcome, left_by, writes. cbn.
    destruct (refresh_query r i) as [[w|]|e] eqn:Eq; intros [= <- <- <-]; cbn;
      (split; [by intros|]; split; [|done]); rewrite ?Eq; done.
  - destruct Hok as [Eq Hsame].
    assert (Hle' : ∀ e, is_Some (rows s !! (key i, e)) → e ≤ unix_milli now).
    { intros e He. apply Hle. by rewrite <- Hsame. }
    pose proof (record_spec now i w s Hle') as Hr. change Refresh.RecordHyperliquidStatus with
      Storage.RecordHyperliquidStatus.
    destruct (Storage.RecordHyperliquidStatus now i w s) as [res s1]. destruct Hr as [Hrest Hr].
    assert (Hend : match res with
                   | Err e => outcome i = Err (ErrRecord i e)
                   | Ok _ => outcome i = Ok true
                   end ∧ left_by s0 s1 i).
    { unfold outcome, left_by, writes. rewrite Eq. destruct (alias i); [by destruct Hr as [-> ->]|].
      destruct (Marshal w); destruct Hr as [-> Hr]; [done|]. by subst s1. }
    destruct Hend as [Hend Hleft]. destruct res as [[]|e]; intros [= <- <- <-]; cbn.
    + done.
    + by rewrite Hend.
  - destruct Hok as (Eq & Hout & Hleft). intros [= <- <- <-]. cbn. unfold told. by rewrite Eq.
Qed.

Lemma group_step_ok now s0 t0 idents g g' :
  NoDup ((λ i, key i) <$> idents) →
  (∀ k e, is_Some (rows s0 !! (k, e)) → e ≤ unix_milli now) →
  group_ok now s0 t0 idents g → group_step r g g' → group_ok now s0 t0 idents g'.
Proof.
  intros Hnd Hle [Hclock Hids Htasks Hrest (l & Hl & Ht)] (i & p & p' & rest & H1 & H2 & Hm)%step_moves.
  assert (Hids' : (tasks g').*1 ≡ₚ idents) by (rewrite <- Hids, H1, H2; done).
  rewrite H1 in Hids, Htasks. apply Forall_cons in Htasks as [Hok Htasks].
  assert (Hin : i ∈ idents) by (rewrite <- Hids; by left).
  assert (Hother : ∀ x, x ∈ rest → key x.1 ≠ key i).
  { intros x Hx E. rewrite <- Hids in Hnd. cbn in Hnd. apply NoDup_cons in Hnd as [Hnin _].
    apply Hnin. rewrite <- E. apply (list_elem_of_fmap_2 (λ i, key i)), list_elem_of_fmap_2, Hx. }
  assert (Hstep : unix_milli (gr_clock g) ≤ unix_milli (gr_clock g') ∧ (∀ k, k ≠ key i → same_rows k (gr_store g) (gr_store g')) ∧
    task_ok s0 (gr_store g') (i, p') ∧
    gr_tracker g' = foldl told (gr_tracker g) (from_option (λ x, [x]) [] (tells (i, p')))).
  { destruct Hm as [Es Et Ec|st p Ec Er]; [by rewrite Es, Et, Ec|]. split; [done|].
    apply (refreshOne_ok (gr_clock g') s0 i st _ _ _ _ _) in Er; [done| |done].
    intros e He. etrans; [by eapply Hle|]. lia. }
  assert (Hnot : tells (i, p) = None) by (destruct Hm; done).
  destruct Hstep as (Hc & Hframe & Hok' & Ht').
  constructor.
  - lia.
  - done.
  - rewrite H2. constructor; [done|]. rewrite Forall_forall in *. intros x Hx.
    eapply task_frame; [by apply Hframe, Hother|by apply Htasks].
  - intros k Hk e. rewrite Hframe; [by apply Hrest|]. intros ->. apply Hk.
    by apply (list_elem_of_fmap_2 (λ i, key i)).
  - rewrite H1 in Hl. cbn in Hl. rewrite Hnot in Hl.
    exists (l ++ from_option (λ x, [x]) [] (tells (i, p'))). rewrite H2, Ht', Ht, foldl_app.
    split; [|done]. cbn. rewrite Hl. destruct (tells (i, p')); cbn; [|by rewrite app_nil_r].
    by rewrite <- Permutation_cons_append.
Qed.

Lemma start_ok now idents s t : group_ok now s t idents (start_group now idents s t).
Proof.
  assert (Et : tasks (start_group now idents s t) = (λ i, (i, Todo)) <$> idents).
  { unfold tasks. cbn. by rewrite app_nil_r. }
  constructor; rewrite ?Et; cbn; [lia| | |done|].
  - by rewrite <- list_fmap_compose, list_fmap_id.
  - apply Forall_fmap, Forall_forall. by cbn.
  - exists []. split; [|done]. clear Et. by induction idents.
Qed.

(** The failures and the updates of a list of orders. *)
Definition failure (i : OrderIdentifier) : option refresh_error :=
  match outcome i with Err e => Some e | Ok _ => None end.
Definition update (i : OrderIdentifier) : option OrderIdentifier :=
  match outcome i with Ok true => Some i | _ => None end.

Lemma finished_done now s0 t0 idents g :
  group_ok now s0 t0 idents g → finished g →
  idents ≡ₚ (gr_done g).*1 ∧
  Forall (λ x, x.2 = outcome x.1 ∧ left_by s0 (gr_store g) x.1) (gr_done g) ∧
  ∃ l, l ≡ₚ omap update (gr_done g).*1 ∧ gr_tracker g = foldl told t0 l.
Proof.
  intros [_ Hids Htasks _ (l & Hl & Ht)] [Htodo Hrun].
  assert (Et : tasks g = (λ x, (x.1, Done x.2)) <$> gr_done g).
  { unfold tasks. by rewrite Htodo, Hrun. }
  rewrite Et in Hids, Htasks, Hl. 
  assert (Hd : Forall (λ x, x.2 = outcome x.1 ∧ left_by s0 (gr_store g) x.1) (gr_done g)).
  { clear -Htasks. induction (gr_done g) as [|[i res] dn IH]; [done|].
    apply Forall_cons in Htasks as [Hx Htasks]. constructor; [exact Hx|by apply IH]. }
  clear Htasks. rename Hd into Htasks. rewrite <- list_fmap_compose in Hids.
  split; [by symmetry|]. split; [done|].
  exists l. split; [|done]. rewrite Hl. clear -Htasks.
  induction Htasks as [|[i res] l [Hx _] _ IH]; [done|]. cbn in *. unfold update at 1.
  rewrite <- Hx. destruct res as [[]|]; by rewrite IH.
Qed.

End Group.

(** C21.  However the steps of the tasks interleave, a refresh leaves the same storage
    and reports the same failures: each listed order has the status that its client
    answered, unless the query failed, there is no client for its venue, the status
    is not available or cannot be marshalled, or the venue is the default alias -
    then it has the status it had.  Other orders are not touched, and the tracker is
    told of each updated order once. *)
Theorem refresh_mirrors (r : StatusRefresher) now s t errs s' t' idents
    (Hs : integrity bot_id (sg_db s)) (Hclients : sr_clients r ≠ ∅)
    (Hids : Storage.ListHyperliquidOrderIds s = (Ok idents, s))
    (Hclock : ∀ k e, is_Some (db_statuses (sg_db s) !! (k, e)) → e ≤ unix_milli now) :
  refreshed r now s t errs s' t' →
  (∀ i, i ∈ idents → (LoadHyperliquidStatus i s').1 =
     match writes r i with Some w => Ok (Some w) | None => (LoadHyperliquidStatus i s).1 end) ∧
  (∀ i, key i ∉ (λ i, key i) <$> idents →
     (LoadHyperliquidStatus i s').1 = (LoadHyperliquidStatus i s).1) ∧
  errs ≡ₚ omap (failure r) idents ∧
  ∃ told_of, told_of ≡ₚ omap (update r) idents ∧ t' = foldl (told r) t told_of.
Proof.
  pose proof (listed_keys _ _ _ Hs Hids) as Hnd.
  intros H. destruct H as [|e _ He|idents' g _ Hl Hrun Hfin]; [done|cbn in He; by rewrite Hids in He|].
  cbn in Hl. rewrite Hids in Hl. injection Hl as <-.
  assert (Hok : group_ok r now s t idents g).
  { remember (start_group now idents s t) as g0 eqn:E.
    assert (H0 : group_ok r now s t idents g0) by (subst; apply start_ok). clear E.
    induction Hrun as [|g0 g1 g2 H _ IH]; [done|]. apply IH; [done|].
    by eapply group_step_ok. }
  destruct (finished_done _ _ _ _ _ _ Hok Hfin) as (Hp & Hdone & l & Hl & Ht).
  split_and!.
  - intros i Hi. rewrite Hp in Hi. apply list_elem_of_fmap in Hi as (x & -> & Hx).
    rewrite Forall_forall in Hdone. destruct (Hdone x Hx) as [_ Hleft]. unfold left_by in Hleft.
    destruct (writes r x.1); [by rewrite (load_latest _ _ _ Hleft)|by apply load_same].
  - intros i Hi. by apply load_same, (go_rest _ _ _ _ _ _ Hok).
  - rewrite Hp. unfold errors_of. rewrite reverse_Permutation. clear -Hdone.
    induction Hdone as [|[i res] dn [Hx _] _ IH]; [done|]. cbn in *. unfold failure at 1.
    rewrite <- Hx. destruct res; by rewrite IH.
  - exists l. split; [|done]. by rewrite Hl, Hp.
Qed.

End Mirror.

(** ** A concrete refresh *)

Section Demo.
#[local] Existing Instance Adapter.demo_sdk.
#[local] Existing Instance StorageFacts.demo_json.
#[local] Existing Instance list_range.
#[local] Existing Instance Reads.demo_events.
#[local] Existing Instance Reads.demo_bots.
#[local] Existing Instance Reads.demo_flags.
#[local] Existing Instance Reads.silent | 100.
#[local] Existing Instance StorageFacts.demo_creates.
#[local] Existing Instance StorageFacts.demo_modifies.
#[local] Existing Instance StorageFacts.demo_cancels.
#[local] Existing Instance Reads.silent_laws | 100.
#[local] Existing Instance Reads.demo_events_laws.
#[local] Existing Instance Reads.demo_bots_laws.
#[local] Existing Instance Reads.demo_flags_laws.
#[local] Existing Instance StorageFacts.demo_creates_laws.
#[local] Existing Instance StorageFacts.demo_modifies_laws.
#[local] Existing Instance StorageFacts.demo_cancels_laws.

Definition demo_answer (text : string) : WsOrder :=
  mkWsOrder (mkWsBasicOrder "DOGE" "B" "1" "1" 7 0 "1" (Some "x"%string)) text 0.
Definition demo_answers : Codec WsOrder := table_codec [("f"%string, demo_answer "filled")].
#[local] Existing Instance demo_answers.
#[local] Instance demo_answers_laws : CodecLaws WsOrder.
Proof. apply table_codec_laws. vm_compute. reflexivity. Qed.

(** Two orders at one venue; the second of them is sent to a venue without a client. *)
Definition demo_oid (i : Z) : OrderId.OrderId := OrderId.mkOrderId 1 2 i.
Definition demo_ident (venue : string) (i : Z) : OrderIdentifier :=
  NewOrderIdentifier venue "0xabc" (demo_oid i).
Definition demo_ops : list (operation (Bot := Z)) :=
  [OpUpsertVenue "a" (StorageApi.mkVenueRequest "hyperliquid" "A" "0xabc" None);
   OpUpsertVenue "b" (StorageApi.mkVenueRequest "hyperliquid" "B" "0xdef" None);
   OpCreate 1 (demo_ident "a" 3) (StorageFacts.demo_create 1) 1;
   OpCreate 1 (demo_ident "a" 4) (StorageFacts.demo_create 1) 1;
   OpCreate 1 (demo_ident "b" 5) (StorageFacts.demo_create 1) 1].
Definition demo_storage : Storage :=
  fold_left (λ s op, run id op s) demo_ops (Reads.started empty_database).
(** The client of the first venue answers for one order and fails for the other. *)
Definition demo_client : orderStatusClient := λ hex,
  if String.eqb hex (Hex (demo_ident "a" 3))
  then Ok (Some (mkQueryResult OrderQueryStatusSuccess (demo_answer "filled")))
  else Err "down"%string.
Definition demo_refresher : StatusRefresher := NewStatusRefresher {["a"%string := demo_client]} true None.
#[local] Instance demo_tracker : StatusTracker (list OrderIdentifier) := λ i _ l, i :: l.

Lemma refresh_demo_reached : reached (id : Z → Z) demo_storage.
Proof.
  assert (H0 : reached (id : Z → Z) (Reads.started empty_database)).
  { apply (reached_created _ 0 false). vm_compute. reflexivity. }
  assert (Ht : Forall (typed (Bot := Z)) demo_ops) by (repeat constructor).
  unfold demo_storage. revert H0. generalize (Reads.started empty_database).
  induction Ht as [|op ops Hop _ IH]; [done|]. intros s H0. cbn. apply IH. by constructor.
Qed.

Definition demo_listed : list OrderIdentifier := [demo_ident "a" 3; demo_ident "a" 4; demo_ident "b" 5].
Lemma demo_lists : Storage.ListHyperliquidOrderIds demo_storage = (Ok demo_listed, demo_storage).
Proof. vm_compute. reflexivity. Qed.
Lemma demo_no_statuses k e : is_Some (db_statuses (sg_db demo_storage) !! (k, e)) → e ≤ unix_milli 7.
Proof.
  assert (db_statuses (sg_db demo_storage) = ∅) as -> by (vm_compute; reflexivity).
  rewrite lookup_empty. by intros [].
Qed.

Lemma refresh_ends_witness :
  ∃ g', rtc (group_step (S := Storage) (store := storage_statuses) demo_refresher)
          (start_group 7 demo_listed demo_storage []) g' ∧ finished g'.
Proof.
  apply (refresh_ends (store := storage_statuses) demo_refresher 7 demo_listed demo_storage []
    (start_group 7 demo_listed demo_storage []) 0); [vm_compute; discriminate|constructor].
Defined.

Lemma refresh_mirrors_witness :
  ∃ errs s', refreshed (store := storage_statuses) demo_refresher 7 demo_storage [] errs s' [demo_ident "a" 3] ∧
    (LoadHyperliquidStatus (demo_ident "a" 3) s').1 = Ok (Some (demo_answer "filled")) ∧
    errs = [ErrQuery (demo_ident "a" 4) "down"].
Proof.
  assert (Hc : sr_clients demo_refresher ≠ ∅) by (vm_compute; discriminate).
  assert (Hf : is_Some (Unmarshal (A := gmap string flag) "{}")) by (eexists; reflexivity).
  destruct (run_ends (store := storage_statuses) demo_refresher
    (start_group 7 demo_listed demo_storage []) ltac:(vm_compute; discriminate)) as (g & Hg & Hfin).
  assert (H : refreshed (store := storage_statuses) demo_refresher 7 demo_storage []
    (errors_of g) (gr_store g) (gr_tracker g)).
  { apply (refreshed_all _ _ _ _ demo_listed); [done|exact (f_equal fst demo_lists)|done..]. }
  destruct (refresh_mirrors (laws_status := demo_answers_laws) (id : Z → Z) demo_refresher 7 demo_storage []
    (errors_of g) (gr_store g) (gr_tracker g) demo_listed
    (reached_integrity (id : Z → Z) Hf demo_storage refresh_demo_reached) Hc demo_lists demo_no_statuses H)
    as (H1 & _ & H3 & l & H4 & H5).
  exists (errors_of g), (gr_store g).
  assert (El : l = [demo_ident "a" 3]).
  { apply Permutation_singleton_r. rewrite H4. vm_compute. reflexivity. }
  split_and!.
  - assert (E : gr_tracker g = [demo_ident "a" 3]) by (rewrite H5, El; vm_compute; reflexivity).
    rewrite E in H. exact H.
  - rewrite H1 by (by left). vm_compute. reflexivity.
  - apply Permutation_singleton_r. rewrite H3. vm_compute. reflexivity.
Defined.

End Demo.

End RefreshFacts.
