(* ===== verification/WorkersFacts.v ===== *)
(** * Bounded retries

    However often a work fails, and whatever else is on the queue, it is handled a
    bounded number of times for each time it was put there, and until the queue is
    told to shut down it leaves the queue only by a verdict of its own. *)

From S2P Require Import Prelude GoFloat GoString OrderId Domain Store Hl Adapter Emitter Engine.
From S2P Require Import EmitterFacts Workers.
Import GoString Domain Store Emitter EmitterFacts Workers.

Module WorkersFacts.

(** ** Any queue *)

Section Queue.
Context {Q K E : Type} `{EqDecision K} {queue : WorkQueue Q K} {draining : DrainingQueue Q K}
  {laws : WorkQueueLaws Q K}.
Context (again : E → Z → bool).

(** The shape of both workers. *)
Definition settle (err : option E) (k : K) (q : Q) : Q :=
  Workers.Done k
    (if match err with Some e => again e (NumRequeues k q) | None => false end
     then AddRateLimited k q else Forget k q).

Definition put_back (h : handled K E) : bool :=
  match hd_err h with Some e => again e (hd_requeues h) | None => false end.

(** A run of workers: puts, handlings and the shutdown. *)
Inductive worked : list K → list (handled K E) → Q → Q → Prop :=
| worked_end q : worked [] [] q q
| worked_put k puts log q q' : worked puts log (Add k q) q' → worked (k :: puts) log q q'
| worked_shut puts log q q' : worked puts log (ShutDown q) q' → worked puts log q q'
| worked_take now k err puts log q q1 q' :
    Get now q = Some (k, q1) → worked puts log (settle err k q1) q' →
    worked puts (mkHandled k (NumRequeues k q1) err :: log) q q'.

Definition of_item (k : K) (log : list (handled K E)) : list (handled K E) :=
  filter (λ h, hd_item h = k) log.
Definition times (k : K) (puts : list K) : nat := length (filter (λ k', k' = k) puts).

(** Failures that are put back whatever the count was are not retried here. *)
Definition capped (h : handled K E) : Prop := ∀ e, hd_err h = Some e → again e 5 = false.

Context (again_less : ∀ e n m, n ≤ m → again e m = true → again e n = true).

Lemma settle_other k k' err q :
  k' ≠ k → waiting k (settle err k' q) = waiting k q ∧
  NumRequeues k (settle err k' q) = NumRequeues k q.
Proof.
  intros Hne. unfold settle. rewrite waiting_Done, requeues_Done.
  destruct (match err with Some e => again e _ | None => false end).
  - rewrite waiting_AddRateLimited_ne, requeues_AddRateLimited, decide_False by done. by rewrite Z.add_0_r.
  - by rewrite waiting_Forget, requeues_Forget, decide_False.
Qed.

Lemma settle_shut err k q : ShuttingDown (settle err k q) = ShuttingDown q.
Proof.
  unfold settle. rewrite shut_Done. destruct (match err with Some e => again e _ | None => false end).
  - apply shut_AddRateLimited.
  - apply shut_Forget.
Qed.

Lemma settle_waits_shut err k k' q :
  ShuttingDown q = true → waiting k (settle err k' q) = waiting k q.
Proof.
  intros Hs. unfold settle. rewrite waiting_Done.
  destruct (match err with Some e => again e _ | None => false end).
  - by apply waiting_AddRateLimited_shut.
  - apply waiting_Forget.
Qed.

(** A queue that is shutting down only hands out what it has. *)
Lemma worked_bound_shut k puts log q q' :
  worked puts log q q' → ShuttingDown q = true → (length (of_item k log) ≤ waiting k q)%nat.
Proof.
  induction 1 as [q|k' puts log q q' _ IH|puts log q q' _ IH|now k' err puts log q q1 q' Hget _ IH];
    intros Hs; [cbn; lia|..].
  - rewrite <- (waiting_Add_shut k k' q Hs). apply IH. by rewrite shut_Add.
  - pose proof (waiting_ShutDown k q). specialize (IH (shut_ShutDown q)). lia.
  - pose proof (shut_Get _ _ _ _ Hget) as Hs1. rewrite Hs in Hs1.
    rewrite settle_shut, settle_waits_shut in IH by done. specialize (IH Hs1).
    unfold of_item in *. destruct (decide (k' = k)) as [->|Hne].
    + rewrite filter_cons_True by done. pose proof (waiting_Get k q q1 now Hget). cbn [length]. lia.
    + rewrite filter_cons_False by done. destruct (waiting_Get_ne k k' q q1 now Hget Hne). lia.
Qed.

Lemma worked_bound k puts log q q' :
  worked puts log q q' → Forall capped (of_item k log) → ShuttingDown q = false →
  0 ≤ NumRequeues k q ≤ 5 → NumRequeues k q = 0 ∨ (1 ≤ waiting k q)%nat →
  Z.of_nat (length (of_item k log)) ≤
    6 * Z.of_nat (waiting k q) + 6 * Z.of_nat (times k puts) - NumRequeues k q.
Proof.
  induction 1 as [q|k' puts log q q' _ IH|puts log q q' Hw' _|now k' err puts log q q1 q' Hget _ IH];
    intros Hcap Ho Hr Hw.
  - cbn. destruct Hw; lia.
  - rewrite requeues_Add, shut_Add in IH. unfold times. destruct (decide (k' = k)) as [->|Hne].
    + pose proof (waiting_Add k q Ho). rewrite filter_cons_True by done.
      specialize (IH Hcap Ho Hr ltac:(right; lia)). cbn [length]. unfold times in IH. lia.
    + rewrite waiting_Add_ne in IH by done. rewrite filter_cons_False by done. by apply IH.
  - pose proof (worked_bound_shut k _ _ _ _ Hw' (shut_ShutDown q)). pose proof (waiting_ShutDown k q).
    destruct Hw; lia.
  - pose proof (shut_Get _ _ _ _ Hget) as Hs1. rewrite Ho in Hs1. rewrite settle_shut in IH.
    unfold of_item in *. destruct (decide (k' = k)) as [->|Hne].
    + rewrite filter_cons_True in Hcap |- * by done. apply Forall_cons in Hcap as [Hc Hcap].
      pose proof (waiting_Get k q q1 now Hget) as Hg. pose proof (requeues_Get k k q q1 now Hget) as Hq.
      unfold settle in IH. rewrite waiting_Done, requeues_Done in IH. cbn [length].
      destruct (match err with Some e => again e (NumRequeues k q1) | None => false end) eqn:Ea.
      * destruct err as [e|]; [|done]. pose proof (Hc e eq_refl) as Hc5.
        assert (NumRequeues k q1 < 5).
        { destruct (decide (5 ≤ NumRequeues k q1)) as [Hle|]; [|lia].
          by rewrite (again_less e 5 _ Hle Ea) in Hc5. }
        pose proof (waiting_AddRateLimited k q1 Hs1).
        rewrite requeues_AddRateLimited, decide_True in IH by done.
        specialize (IH Hcap Hs1 ltac:(lia) ltac:(right; lia)). lia.
      * rewrite waiting_Forget, requeues_Forget, decide_True in IH by done.
        specialize (IH Hcap Hs1 ltac:(lia) ltac:(by left)). lia.
    + rewrite filter_cons_False in Hcap |- * by done.
      destruct (waiting_Get_ne k k' q q1 now Hget Hne) as [H1 H2].
      rewrite <- (requeues_Get k k' q q1 now Hget) in *.
      destruct (settle_other k k' err q1 Hne) as [Es Er]. rewrite Es, Er in IH.
      specialize (IH Hcap Hs1 Hr ltac:(destruct Hw; [by left|right; by apply H2])). lia.
Qed.

(** An item that is new to the queue. *)
Lemma worked_bound_new k puts log q q' :
  worked puts log q q' → Forall capped (of_item k log) →
  NumRequeues k q = 0 → waiting k q = 0%nat → (length (of_item k log) ≤ 6 * times k puts)%nat.
Proof.
  intros Hw Hcap Hn Hnone. destruct (ShuttingDown q) eqn:Hs.
  - pose proof (worked_bound_shut k _ _ _ _ Hw Hs). lia.
  - pose proof (worked_bound k _ _ _ _ Hw Hcap Hs ltac:(lia) ltac:(by left)). lia.
Qed.

Lemma worked_none k puts log q q' :
  worked puts log q q' → waiting k q = 0%nat → k ∉ puts → of_item k log = [].
Proof.
  induction 1 as [q|k' puts log q q' _ IH|puts log q q' _ IH|now k' err puts log q q1 q' Hget _ IH];
    intros Hw Hk; [done|..].
  - apply not_elem_of_cons in Hk as [Hne Hk]. apply IH; [|done]. by rewrite waiting_Add_ne.
  - apply IH; [|done]. pose proof (waiting_ShutDown k q). lia.
  - destruct (decide (k' = k)) as [->|Hne].
    + pose proof (waiting_Get k q q1 now Hget). lia.
    + unfold of_item. rewrite filter_cons_False by done. apply IH; [|done].
      destruct (waiting_Get_ne k k' q q1 now Hget Hne) as [H1 _].
      destruct (settle_other k k' err q1 Hne) as [-> _]. lia.
Qed.

(** A queue that takes items at the end did so all along. *)
Lemma worked_open puts log q q' :
  worked puts log q q' → ShuttingDown q' = false → ShuttingDown q = false.
Proof.
  induction 1 as [q|k' puts log q q' _ IH|puts log q q' _ IH|now k' err puts log q q1 q' Hget _ IH];
    intros Hs; [done|..]; specialize (IH Hs).
  - by rewrite shut_Add in IH.
  - by rewrite shut_ShutDown in IH.
  - rewrite settle_shut in IH. by rewrite (shut_Get _ _ _ _ Hget) in IH.
Qed.

Lemma last_cons_or {A} (x : A) l : last (x :: l) = Some (default x (last l)).
Proof. rewrite last_cons. by destruct (last l). Qed.

(** An item that was put on the queue waits there, or its last handling settled it. *)
Lemma worked_settled k puts log q q' :
  worked puts log q q' → ShuttingDown q' = false → (1 ≤ waiting k q)%nat ∨ k ∈ puts →
  (1 ≤ waiting k q')%nat ∨ ∃ h, last (of_item k log) = Some h ∧ put_back h = false.
Proof.
  intros Hrun Ho. pose proof (worked_open _ _ _ _ Hrun Ho) as Hs. revert Ho Hs.
  induction Hrun as [q|k' puts log q q' Hw IH|puts log q q' Hw IH|now k' err puts log q q1 q' Hget Hw IH];
    intros Ho Hs Hk; try specialize (IH Ho (worked_open _ _ _ _ Hw Ho)).
  - destruct Hk as [|Hk]; [by left|by apply elem_of_nil in Hk].
  - apply IH. destruct (decide (k' = k)) as [->|Hne]; [left; by apply waiting_Add|].
    rewrite waiting_Add_ne by done. destruct Hk as [|Hk]; [by left|right].
    by apply elem_of_cons in Hk as [->|].
  - pose proof (worked_open _ _ _ _ Hw Ho) as Hsd. by rewrite shut_ShutDown in Hsd.
  - pose proof (shut_Get _ _ _ _ Hget) as Hs1. rewrite Hs in Hs1. destruct (decide (k' = k)) as [->|Hne].
    + assert (Hl : ∀ h', of_item k (h' :: log) = (if decide (hd_item h' = k) then [h'] else []) ++ of_item k log).
      { intros h'. unfold of_item. rewrite filter_cons. by destruct (decide _). }
      rewrite Hl, decide_True by done. cbn [app]. rewrite last_cons_or.
      destruct (decide ((1 ≤ waiting k (settle err k q1))%nat ∨ k ∈ puts)) as [Hyes|Hno].
      * destruct (IH Hyes) as [|(h & -> & Hh)]; [by left|right; by eexists].
      * assert (H0 : waiting k (settle err k q1) = 0%nat) by (destruct (waiting k _); [done|destruct Hno; left; lia]).
        assert (Hk' : k ∉ puts) by (intros Hin; apply Hno; by right).
        rewrite (worked_none k _ _ _ _ Hw H0 Hk').
        right. eexists. split; [done|]. unfold put_back. cbn.
        unfold settle in H0. rewrite waiting_Done in H0.
        destruct err as [e|]; [|done]. destruct (again e (NumRequeues k q1)); [|done].
        pose proof (waiting_AddRateLimited k q1 Hs1). lia.
    + unfold of_item. rewrite filter_cons_False by done. apply IH.
      destruct Hk as [Hk|]; [left|by right]. destruct (waiting_Get_ne k k' q q1 now Hget Hne) as [_ H2].
      destruct (settle_other k k' err q1 Hne) as [-> _]. by apply (H2 Hs).
Qed.

End Queue.

(** ** The two workers *)

Definition puts {K X} (steps : list (step K X)) : list K :=
  omap (λ s, match s with Put k => Some k | Work _ _ | Drain => None end) steps.

Section Deals.
Context {Q : Type} {queue : WorkQueue Q Engine.WorkKey} {draining : DrainingQueue Q Engine.WorkKey}
  {laws : WorkQueueLaws Q Engine.WorkKey}.

Definition deal_again (e : deal_failure) (n : Z) : bool :=
  match e with DealCanceled => false | DealNotCached => true | DealFailed => n <? 5 end.

Lemma runWorker_worked steps : ∀ q : Q,
  worked deal_again (puts steps) (runWorker steps q).1 q (runWorker steps q).2 ∧
  Forall (λ h, hd_err h ≠ Some DealNotCached) (runWorker steps q).1.
Proof.
  induction steps as [|[k|now [canceled r]|] steps IH]; intros q; cbn.
  - split; constructor.
  - destruct (IH (Add k q)) as [IH1 IH2]. split; [by constructor|done].
  - destruct (Get now q) as [[wi q1]|] eqn:Eg; [|apply IH].
    assert (Es : processWorkItem (seen canceled r) wi q1 = settle deal_again (seen canceled r) wi q1).
    { unfold processWorkItem, settle. f_equal. by destruct r, canceled. }
    rewrite Es. destruct (IH (settle deal_again (seen canceled r) wi q1)) as [IH1 IH2].
    destruct (runWorker steps _) as [log q']. split; [by eapply worked_take|].
    constructor; [|done]. cbn. by destruct r, canceled.
  - destruct (IH (ShutDown q)) as [IH1 IH2]. split; [by apply worked_shut|done].
Qed.

(** A deal is polled at most six times for each time it is put on the queue,
    however often it fails, and unless the queue is told to shut down it leaves
    the queue only after a poll that succeeded, was cancelled, or was the sixth to
    fail in a row. *)
Theorem deal_retries (wi : Engine.WorkKey) steps (q : Q)
    (Hnew : NumRequeues wi q = 0) (Hnone : waiting wi q = 0%nat) :
  let '(log, q') := runWorker steps q in
  (length (of_item wi log) ≤ 6 * times wi (puts steps))%nat ∧
  (ShuttingDown q' = false → wi ∈ puts steps → (1 ≤ waiting wi q')%nat ∨
   ∃ h, last (of_item wi log) = Some h ∧
     match hd_err h with
     | None | Some DealCanceled => True
     | Some DealFailed => 5 ≤ hd_requeues h
     | Some DealNotCached => False
     end).
Proof.
  destruct (runWorker_worked steps q) as [Hw Hf]. destruct (runWorker steps q) as [log q'].
  cbn in Hw, Hf. split.
  - apply (worked_bound_new deal_again) with q q'; [|done| |done..].
    + intros [] n m Hnm; cbn; [done..|]. rewrite !Z.ltb_lt. lia.
    + apply Forall_forall. intros h [_ Hh]%list_elem_of_filter [] He; [done| |done].
      rewrite Forall_forall in Hf. by destruct (Hf h Hh).
  - intros Ho Hin. destruct (worked_settled deal_again wi _ _ _ _ Hw Ho (or_intror Hin)) as [|(h & Hl & Hh)];
      [by left|right]. exists h. split; [done|]. unfold put_back in Hh.
    destruct (hd_err h) as [[]|]; try done. cbn in Hh. by apply Z.ltb_ge in Hh.
Qed.

End Deals.

Section Orders.
Context {sdk : SDK} {R : GoRange} {store : TrackerStore} {exchange : Exchange}.
Context {Q : Type} {queue : WorkQueue Q OrderWork} {draining : DrainingQueue Q OrderWork}
  {laws : WorkQueueLaws Q OrderWork}.
Context (wraps : string → bool) (e : QueueEmitter HyperLiquidEmitter).

Definition order_again (f : failure) (n : Z) : bool :=
  match f with
  | OrderAlreadySatisfied => false
  | _ => is_context wraps f ||
    match f with
    | MissingOrderIdentifier | UnregisteredVenueEmitter _ | OrderIdentifierMismatch => false
    | _ => n <? 5
    end
  end.

Lemma processOrderItem_settles err w (q : Q) :
  processOrderItem wraps err w q = settle order_again err w q.
Proof.
  unfold processOrderItem, settle. f_equal. destruct err as [[]|]; cbn; try done.
  all: by destruct (wraps _); cbn; [|destruct (_ <? _)].
Qed.

(** One dispatch adds to the trace, and calls the exchange no more often than its
    emitter may. *)
Lemma dispatch_adds w tr n :
  (∀ v em, qe_emitters e !! v = Some em → attempts em ≤ n)%nat →
  ∃ did, (dispatch w e tr).2 = tr ++ did ∧ (length (calls did) ≤ n)%nat.
Proof.
  intros Hn. unfold dispatch, Dispatch, emitterFor.
  destruct (decide _); [exists []; rewrite app_nil_r; cbn; split; [done|lia]|].
  destruct (qe_emitters e !! oi_VenueID (ow_Identifier w)) as [em|] eqn:Ee;
    [|exists []; rewrite app_nil_r; cbn; split; [done|lia]].
  destruct (runs_Emit em w tr) as (did & Hd & _ & _ & _ & Hl). exists did. split; [exact Hd|].
  specialize (Hn _ _ Ee). lia.
Qed.

Lemma runOrderWorker_worked n steps : 
  (∀ v em, qe_emitters e !! v = Some em → attempts em ≤ n)%nat → ∀ (q : Q) tr,
  let '(log, q', tr') := runOrderWorker wraps e steps q tr in
  worked order_again (puts steps) log.*1 q q' ∧ tr' = tr ++ mjoin log.*2 ∧
  Forall (λ h, (length (calls h.2) ≤ n)%nat) log.
Proof.
  intros Hn. induction steps as [|[w|now []|] steps IH]; intros q tr; cbn [runOrderWorker].
  - split_and!; [constructor|by rewrite app_nil_r|done].
  - specialize (IH (Add w q) tr). destruct (runOrderWorker _ _ _ _ _) as [[log q'] tr'].
    destruct IH as (IH1 & IH2 & IH3). split_and!; [by constructor|done|done].
  - destruct (Get now q) as [[w q1]|] eqn:Eg; [|apply IH].
    destruct (dispatch_adds w tr n Hn) as (did & Hd & Hl).
    destruct (dispatch w e tr) as [r tr1]. cbn in Hd. subst tr1. rewrite drop_app_length.
    set (err := match r with Ok _ => None | Err f => Some f end).
    rewrite processOrderItem_settles.
    specialize (IH (settle order_again err w q1) (tr ++ did)).
    destruct (runOrderWorker _ _ _ _ _) as [[log q'] tr']. destruct IH as (IH1 & IH2 & IH3).
    split_and!; [cbn; by eapply worked_take|by rewrite IH2, <- app_assoc|by constructor].
  - specialize (IH (ShutDown q) tr). destruct (runOrderWorker _ _ _ _ _) as [[log q'] tr'].
    destruct IH as (IH1 & IH2 & IH3). split_and!; [by apply worked_shut|done|done].
Qed.

Definition mine (w : OrderWork) (log : list (handled OrderWork failure * trace)) :=
  filter (λ h, hd_item h.1 = w) log.

Lemma mine_fst w log : (mine w log).*1 = of_item w log.*1.
Proof.
  unfold mine, of_item. induction log as [|h log IH]; [done|]. rewrite fmap_cons, !filter_cons.
  destruct (decide _); [by rewrite fmap_cons, IH|done].
Qed.

Lemma calls_mjoin (l : list trace) n :
  Forall (λ d, (length (calls d) ≤ n)%nat) l → (length (calls (mjoin l)) ≤ n * length l)%nat.
Proof.
  induction 1 as [|d l Hd _ IH]; [cbn; lia|]. change (mjoin (d :: l)) with (d ++ mjoin l).
  rewrite calls_app, length_app. cbn [length]. lia.
Qed.

(** C22.  Every time an order is put on the queue it is dispatched at most six times and
    the exchange called at most six times as often as one emission may, unless a
    context ran out or was cancelled: those dispatches are repeated without bound.
    As long as the queue is not told to shut down no order is lost: one that was
    put on the queue waits there, or its last dispatch succeeded, found it
    satisfied, could not tell where it belongs, or failed after five retries.  (A
    queue that is shutting down ignores an order that is put back:
    [retry_lost_draining].) *)
Theorem order_retries (w : OrderWork) steps (q : Q) (tr : trace) (n : nat)
    (Hnew : NumRequeues w q = 0) (Hnone : waiting w q = 0%nat)
    (Hn : ∀ v em, qe_emitters e !! v = Some em → (attempts em ≤ n)%nat) :
  let '(log, q', tr') := runOrderWorker wraps e steps q tr in
  tr' = tr ++ mjoin log.*2 ∧
  (Forall (λ h, ∀ f, hd_err h.1 = Some f → is_context wraps f = false) (mine w log) →
   (length (mine w log) ≤ 6 * times w (puts steps))%nat ∧
   (length (calls (mjoin (mine w log).*2)) ≤ n * (6 * times w (puts steps)))%nat) ∧
  (ShuttingDown q' = false → w ∈ puts steps → (1 ≤ waiting w q')%nat ∨
   ∃ h, last (mine w log).*1 = Some h ∧
     match hd_err h with
     | None | Some OrderAlreadySatisfied | Some MissingOrderIdentifier
     | Some (UnregisteredVenueEmitter _) | Some OrderIdentifierMismatch => True
     | Some f => is_context wraps f = false ∧ 5 ≤ hd_requeues h
     end).
Proof.
  pose proof (runOrderWorker_worked n steps Hn q tr) as Hrun.
  destruct (runOrderWorker wraps e steps q tr) as [[log q'] tr'].
  destruct Hrun as (Hw & Ht & Hl). split_and!; [done| |].
  - intros Hctx.
    assert (Hlen : (length (mine w log) ≤ 6 * times w (puts steps))%nat).
    { rewrite <- (length_fmap fst), mine_fst.
      apply (worked_bound_new order_again) with q q'; [|done| |done..].
      - intros [] m k Hmk; cbn; try done; rewrite !orb_true_iff, !Z.ltb_lt; intros [?|?]; eauto; right; lia.
      - rewrite <- mine_fst. apply Forall_fmap. eapply Forall_impl; [exact Hctx|].
        intros h Hh f Hf. specialize (Hh f Hf). destruct f; cbn in *; rewrite ?Hh; done. }
    split; [done|]. etrans; [apply calls_mjoin with (n := n)|].
    + apply Forall_fmap, Forall_forall. intros h [_ Hh]%list_elem_of_filter.
      rewrite Forall_forall in Hl. by apply Hl.
    + rewrite length_fmap. nia.
  - intros Ho Hin. destruct (worked_settled order_again w _ _ _ _ Hw Ho (or_intror Hin)) as [|(h & Hlast & Hh)];
      [by left|right]. exists h. rewrite mine_fst. split; [done|]. unfold put_back in Hh.
    destruct (hd_err h) as [[]|]; try done; cbn in *; try (split; [done|]);
      apply orb_false_iff in Hh as [H1 H2]; try (split; [done|]); by apply Z.ltb_ge.
Qed.

End Orders.

(** ** A plain queue *)

Section Plain.
Context {K : Type} `{EqDecision K}.

(** The items in order, without delays or merging, their counts, and whether the
    queue is shutting down. *)
Record plain := mkPlain { pl_items : list K; pl_counts : K → Z; pl_shut : bool }.
Definition count (k : K) (n : Z) (q : plain) : K → Z :=
  λ k', if decide (k = k') then n else pl_counts q k'.
Definition join (k : K) (q : plain) : list K :=
  if pl_shut q then pl_items q else pl_items q ++ [k].

#[global] Instance plain_queue : WorkQueue plain K := {|
  Add := λ k q, mkPlain (join k q) (pl_counts q) (pl_shut q);
  AddRateLimited := λ k q, mkPlain (join k q) (count k (pl_counts q k + 1) q) (pl_shut q);
  Forget := λ k q, mkPlain (pl_items q) (count k 0 q) (pl_shut q);
  Workers.Done := λ _ q, q;
  NumRequeues := λ k q, pl_counts q k;
  Get := λ _ q, match pl_items q with [] => None | k :: l => Some (k, mkPlain l (pl_counts q) (pl_shut q)) end |}.

#[global] Instance plain_draining : DrainingQueue plain K := {|
  ShutDown := λ q, mkPlain (pl_items q) (pl_counts q) true;
  ShuttingDown := pl_shut;
  drained := λ q, match pl_items q with [] => true | _ => false end |}.

Lemma times_app k (l l' : list K) : times k (l ++ l') = (times k l + times k l')%nat.
Proof. unfold times. by rewrite filter_app, length_app. Qed.
Lemma times_one (k k' : K) : times k [k'] = if decide (k' = k) then 1%nat else 0%nat.
Proof. unfold times. rewrite filter_cons. by destruct (decide _). Qed.

#[global, refine] Instance plain_laws : WorkQueueLaws plain K := {| waiting := λ k q, times k (pl_items q) |}.
Proof.
  all: try (intros; cbn -[times] in *; unfold count, join; repeat (case_match; try done);
            rewrite ?times_app, ?times_one; by repeat case_decide; simplify_eq/=; lia).
  1-4: done.
  - intros k q q' now. cbn. destruct (pl_items q); [done|]. by intros [= <- <-].
  - intros k q q' now. cbn. destruct (pl_items q) as [|x l]; [done|]. intros [= <- <-]. cbn -[times].
    change (x :: l) with ([x] ++ l). by rewrite times_app, times_one, decide_True.
  - intros k k' q q' now. cbn. destruct (pl_items q) as [|x l]; [done|]. intros [= <- <-] Hne. cbn -[times].
    change (x :: l) with ([x] ++ l). rewrite times_app, times_one, decide_False by done. cbn. lia.
Defined.

End Plain.

#[local] Existing Instance Adapter.demo_sdk.
#[local] Existing Instance list_range.
#[local] Existing Instance empty_store.

(** A deal that fails until it is given up, and is put on the queue again. *)
Definition demo_deal : Engine.WorkKey := Engine.mkWorkKey 7 1.
Definition failed : bool * result Engine.handle_error unit := (false, Err Engine.ErrGetDeal).
Definition demo_steps : list (step Engine.WorkKey (bool * result Engine.handle_error unit)) :=
  [Put demo_deal] ++ repeat (Work 0 failed) 7 ++ [Put demo_deal; Work 0 (false, Ok tt)].

Lemma deal_retries_witness :
  length (runWorker demo_steps (mkPlain [] (λ _, 0) false)).1 = 7%nat ∧
  let '(log, q') := runWorker demo_steps (mkPlain [] (λ _, 0) false) in
  (length (of_item demo_deal log) ≤ 6 * times demo_deal (puts demo_steps))%nat.
Proof.
  split; [vm_compute; reflexivity|].
  pose proof (deal_retries demo_deal demo_steps (mkPlain [] (λ _, 0) false) eq_refl eq_refl) as H.
  destruct (runWorker demo_steps (mkPlain [] (λ _, 0) false)) as [log q']. exact (proj1 H).
Defined.

(** The gate times out on each of its first [n] turns; the exchange is down. *)
Definition down (n : nat) : Exchange := {|
  on_wait := λ tr, if (length tr <? n)%nat then Some "context deadline exceeded"%string else None;
  on_order := λ _ _, Err "down";
  on_modify := λ _ _, Err "down";
  on_cancel := λ _ _ _, Some "down"%string |}.
Definition demo_emitters : QueueEmitter HyperLiquidEmitter :=
  Register "hl" (Some (mkEmitter true (he_cfg demo_emitter) (he_wsClients demo_emitter)
    (he_primaryVenue demo_emitter) (he_constraints demo_emitter) (he_statusClient demo_emitter))) (NewQueueEmitter []).
Definition demo_orders : list (step OrderWork unit) := Put demo_work :: repeat (Work 0 tt) 12.
Definition demo_outcome (n : nat) :=
  runOrderWorker (exchange := down n) (λ _, false) demo_emitters demo_orders (mkPlain [] (λ _, 0) false) [].

Lemma order_retries_witness :
  (length (demo_outcome 0).1.1 = 6%nat ∧ length (calls (demo_outcome 0).2) = 6%nat) ∧
  let '(log, q', tr') := demo_outcome 0 in tr' = [] ++ mjoin log.*2.
Proof.
  split; [split; vm_compute; reflexivity|].
  assert (Hn : ∀ v em, qe_emitters demo_emitters !! v = Some em → (attempts em ≤ 3)%nat).
  { intros v em H. unfold demo_emitters, Register, NewQueueEmitter in H. cbn [qe_emitters] in H.
    apply lookup_insert_Some in H as [[_ <-]|[_ H]]; [vm_compute; lia|done]. }
  pose proof (order_retries (exchange := down 0) (λ _, false) demo_emitters demo_work demo_orders
    (mkPlain [] (λ _, 0) false) [] 3 eq_refl eq_refl Hn) as H.
  unfold demo_outcome. destruct (runOrderWorker _ _ _ _ _) as [[log q'] tr']. exact (proj1 H).
Defined.

(** An order that fails while the queue shuts down is put back and ignored: it is
    gone after one dispatch, with no verdict. *)
Example retry_lost_draining :
  let '(log, q', _) := runOrderWorker (exchange := down 0) (λ _, false) demo_emitters
    [Put demo_work; Drain; Work 0 tt; Work 0 tt] (mkPlain [] (λ _, 0) false) [] in
  hd_requeues ∘ fst <$> log = [0] ∧ Forall (λ h, is_Some (hd_err h.1)) log ∧ pl_items q' = [].
Proof. vm_compute. eauto. Qed.

(** Turns that time out use up the retries: after five of them the first answer of
    the exchange that is an error drops the order. *)
Example timeouts_spend_retries :
  hd_requeues ∘ fst <$> (demo_outcome 5).1.1 = [0; 1; 2; 3; 4; 5] ∧
  pl_items (demo_outcome 5).1.2 = [] ∧ length (calls (demo_outcome 5).2) = 1%nat.
Proof. vm_compute. done. Qed.

End WorkersFacts.
