(* ===== verification/StreamFacts.v ===== *)
(** * What a subscriber of a stream receives

    Seen by one subscriber, a controller is a channel of its own: what the others do
    does not matter.  And a channel hands on what was offered, in order, as long as
    there is room. *)

From S2P Require Import Prelude GoFloat GoString OrderId Domain Store Stream.
Import GoString Domain Stream.

Module StreamFacts.

(** ** One channel *)

Section Channel.
Context {A : Type}.
Implicit Types (c : chan A) (x : A).

Inductive chan_op := Offer (x : A) | Take | Close.

Definition chan_step (op : chan_op) (c : chan A) : option A * chan A :=
  match op with
  | Offer x => (None, try_send x c)
  | Take => try_recv c
  | Close => (None, close_chan c)
  end.

(** The items taken, and the channel in the end. *)
Fixpoint chan_run (ops : list chan_op) (c : chan A) : list A * chan A :=
  match ops with
  | [] => ([], c)
  | op :: ops =>
    let '(o, c) := chan_step op c in
    let '(taken, c) := chan_run ops c in
    (option_list o ++ taken, c)
  end.

Definition offers (ops : list chan_op) : list A :=
  omap (λ op, match op with Offer x => Some x | _ => None end) ops.

(** Fewer than [cap] items wait whenever one is offered; [n] wait at the start. *)
Fixpoint keeps_up (cap n : nat) (ops : list chan_op) : bool :=
  match ops with
  | [] => true
  | Offer _ :: ops => (n <? cap)%nat && keeps_up cap (S n) ops
  | Take :: ops => keeps_up cap (pred n) ops
  | Close :: ops => keeps_up cap n ops
  end.

Lemma chan_delivers ops : ∀ c,
  let '(taken, c') := chan_run ops c in
  sublist (taken ++ ch_buf c') (ch_buf c ++ offers ops) ∧
  (keeps_up (ch_cap c) (length (ch_buf c)) ops = true → taken ++ ch_buf c' = ch_buf c ++ offers ops).
Proof.
  induction ops as [|[x| |] ops IH]; intros [buf cap closed]; cbn [chan_run chan_step].
  - cbn. by rewrite app_nil_r.
  - unfold try_send. cbn [ch_buf ch_cap ch_closed]. cbn [keeps_up offers omap list_omap].
    destruct (length buf <? cap)%nat eqn:E.
    + specialize (IH (mkChan (buf ++ [x]) cap closed)). destruct (chan_run ops _) as [taken c'].
      cbn [ch_buf ch_cap] in IH. rewrite <- app_assoc, length_app in IH. cbn in *.
      by rewrite Nat.add_1_r in IH.
    + specialize (IH (mkChan buf cap closed)). destruct (chan_run ops _) as [taken c'].
      cbn in *. split; [|done]. etrans; [apply IH|]. apply sublist_app; [done|]. by apply sublist_cons.
  - destruct buf as [|x buf]; cbn [try_recv ch_buf ch_cap ch_closed].
    + specialize (IH (mkChan [] cap closed)). destruct (chan_run ops _) as [taken c']. exact IH.
    + specialize (IH (mkChan buf cap closed)). destruct (chan_run ops _) as [taken c']. cbn in *.
      destruct IH as [IH1 IH2]. split; [by apply sublist_skip|]. intros H. by rewrite IH2.
  - specialize (IH (mkChan buf cap true)). destruct (chan_run ops _) as [taken c']. exact IH.
Qed.

End Channel.
Arguments chan_op : clear implicits.

(** ** The controller of orders *)

Inductive stream_op :=
| OpSubscribe (filter : StreamFilter)
| OpLeave (id : Z)
| OpPublish (evt : StreamEvent)
| OpReceive (id : Z)
| OpFlush.

Definition stream_step (op : stream_op) (c : StreamController)
    : option StreamEvent * StreamController :=
  match op with
  | OpSubscribe filter => (None, (Subscribe false filter c).2)
  | OpLeave id => (None, awaitCancellation id c)
  | OpPublish evt => (None, Publish evt c)
  | OpReceive id => receive id c
  | OpFlush => (None, Flush c)
  end.

(** What the subscriber [id] received, and the controller in the end. *)
Fixpoint stream_run (id : Z) (ops : list stream_op) (c : StreamController)
    : list StreamEvent * StreamController :=
  match ops with
  | [] => ([], c)
  | op :: ops =>
    let '(o, c) := stream_step op c in
    let '(received, c) := stream_run id ops c in
    (match op with OpReceive i => if decide (i = id) then option_list o else [] | _ => [] end ++ received, c)
  end.

Definition channel (id : Z) (c : StreamController) : option (chan StreamEvent) :=
  match sc_subscribers c !! id with Some sub => Some (ss_ch sub) | None => sc_gone c !! id end.

(** The part of a run that concerns a subscriber: the events that match its filter
    until it leaves, numbered, and what it takes. *)
Fixpoint view (id : Z) (filter : StreamFilter) (subscribed : bool) (sequence : Z) (ops : list stream_op)
    : list (chan_op StreamEvent) :=
  match ops with
  | [] => []
  | OpPublish evt :: ops =>
    let n := i64 (sequence + 1) in
    (if subscribed && matchesFilter filter evt then [Offer (with_sequence n evt)] else []) ++
      view id filter subscribed n ops
  | OpReceive i :: ops =>
    (if decide (i = id) then [Take] else []) ++ view id filter subscribed sequence ops
  | OpLeave i :: ops =>
    if decide (i = id) then (if subscribed then [Close] else []) ++ view id filter false sequence ops
    else view id filter subscribed sequence ops
  | OpFlush :: ops => (if subscribed then [Close] else []) ++ view id filter false sequence ops
  | OpSubscribe _ :: ops => view id filter subscribed sequence ops
  end.

(** The subscriber [id] has the channel [ch]. *)
Definition has_channel (id : Z) (filter : StreamFilter) (subscribed : bool) (ch : chan StreamEvent)
    (c : StreamController) : Prop :=
  if subscribed then sc_subscribers c !! id = Some (mkSubscriber filter ch)
  else sc_subscribers c !! id = None ∧ sc_gone c !! id = Some ch.

Lemma has_channel_channel id filter b ch c : has_channel id filter b ch c → channel id c = Some ch.
Proof. unfold has_channel, channel. destruct b; [by intros ->|by intros [-> ->]]. Qed.

(** One step, seen by the subscriber. *)
Lemma step_view id filter b ch c op :
  id ≤ sc_nextSubID c < 2 ^ 63 - 1 → - 2 ^ 63 ≤ id → has_channel id filter b ch c →
  let '(o, c') := stream_step op c in
  ∃ b' ch', has_channel id filter b' ch' c' ∧
    id ≤ sc_nextSubID c' ≤ sc_nextSubID c + 1 ∧
    (∀ ops, view id filter b (sc_sequence c) (op :: ops) =
       view id filter b (sc_sequence c) [op] ++ view id filter b' (sc_sequence c') ops) ∧
    chan_run (view id filter b (sc_sequence c) [op]) ch =
      (match op with OpReceive i => if decide (i = id) then option_list o else [] | _ => [] end, ch').
Proof.
  intros Hid Hlow Hch. unfold has_channel in *.
  destruct op as [f|i|evt|i|]; cbn [stream_step].
  - exists b, ch. cbn. split_and!; try done.
    + rewrite i64_id by lia. destruct b; by rewrite lookup_insert_ne by lia.
    + rewrite i64_id by lia. lia.
    + rewrite i64_id by lia. lia.
  - unfold awaitCancellation. destruct (decide (i = id)) as [->|Hne].
    + destruct b; [|destruct Hch as [Hc Hg]].
      * rewrite Hch. exists false, (close_chan ch). cbn. rewrite decide_True by done.
        rewrite lookup_delete_eq, lookup_insert_eq. split_and!; try done; try lia.
        intros ops. by rewrite decide_True.
      * rewrite Hc. exists false, ch. cbn. rewrite decide_True by done.
        split_and!; try done; try lia. intros ops. by rewrite decide_True.
    + exists b, ch. cbn. rewrite decide_False by done.
      destruct (sc_subscribers c !! i); cbn; split_and!; try done; try lia;
        try (intros ops; by rewrite decide_False).
      destruct b; [by rewrite lookup_delete_ne|]. destruct Hch.
      by rewrite lookup_delete_ne, lookup_insert_ne.
  - cbn [Publish sc_subscribers sc_gone sc_nextSubID sc_sequence].
    set (n := i64 (sc_sequence c + 1)).
    exists b, (if b && matchesFilter filter evt then try_send (with_sequence n evt) ch else ch).
    split_and!; try lia.
    + destruct b; rewrite lookup_fmap.
      * rewrite Hch. cbn. unfold offer. cbn. change (matchesFilter filter (with_sequence n evt)) with
          (matchesFilter filter evt). by destruct (matchesFilter filter evt).
      * destruct Hch as [-> ->]. done.
    + intros ops. cbn. by rewrite app_nil_r.
    + cbn. fold n. by destruct (b && matchesFilter filter evt).
  - unfold receive. destruct (decide (i = id)) as [->|Hne].
    + destruct b; [rewrite Hch|destruct Hch as [Hc Hg]; rewrite Hc, Hg]; cbn [ss_ch ss_filter];
        destruct (try_recv ch) as [o ch'] eqn:E.
      * exists true, ch'. cbn. rewrite !decide_True by done. rewrite lookup_insert_eq.
        split_and!; try done; try lia.
        cbn. rewrite E. cbn. by rewrite app_nil_r.
      * exists false, ch'. cbn. rewrite !decide_True by done. rewrite lookup_insert_eq.
        split_and!; try done; try lia.
        cbn. rewrite E. cbn. by rewrite app_nil_r.
    + destruct (sc_subscribers c !! i) as [sub|]; [destruct (try_recv (ss_ch sub)) as [o ch']
        |destruct (sc_gone c !! i) as [g|]; [destruct (try_recv g) as [o ch']|]];
        exists b, ch; cbn; rewrite ?decide_False by done; rewrite ?lookup_insert_ne by done;
        split_and!; try done; lia.
  - cbn [Flush sc_subscribers sc_gone sc_nextSubID sc_sequence].
    exists false, (if b then close_chan ch else ch). rewrite lookup_empty.
    split_and!; try done; try lia.
    + destruct b.
      * rewrite lookup_union, lookup_fmap, Hch. cbn. by rewrite union_Some_l.
      * destruct Hch as [Hc Hg]. rewrite lookup_union, lookup_fmap, Hc, Hg. done.
    + intros ops. cbn. by rewrite app_nil_r.
    + by destruct b.
Qed.

Lemma chan_run_app {A} (ops ops' : list (chan_op A)) c :
  chan_run (ops ++ ops') c =
    let '(t1, c1) := chan_run ops c in let '(t2, c2) := chan_run ops' c1 in (t1 ++ t2, c2).
Proof.
  revert c. induction ops as [|op ops IH]; intros c; cbn [chan_run app].
  - by destruct (chan_run ops' c).
  - destruct (chan_step op c) as [o c1]. rewrite IH. destruct (chan_run ops c1) as [t1 c2].
    destruct (chan_run ops' c2) as [t2 c3]. by rewrite app_assoc.
Qed.

(** Seen by one subscriber, the controller is its channel. *)
Lemma run_view id filter ops : ∀ b ch c,
  - 2 ^ 63 ≤ id ≤ sc_nextSubID c → sc_nextSubID c + Z.of_nat (length ops) < 2 ^ 63 →
  has_channel id filter b ch c →
  let '(received, c') := stream_run id ops c in
  ∃ ch', channel id c' = Some ch' ∧
    chan_run (view id filter b (sc_sequence c) ops) ch = (received, ch').
Proof.
  induction ops as [|op ops IH]; intros b ch c Hid Hn Hch.
  - exists ch. split; [by eapply has_channel_channel|done].
  - cbn [length] in Hn. pose proof (step_view id filter b ch c op ltac:(lia) ltac:(lia) Hch) as Hs.
    cbn [stream_run]. destruct (stream_step op c) as [o c1].
    destruct Hs as (b' & ch1 & Hch1 & Hid1 & Hv & Hr).
    specialize (IH b' ch1 c1 ltac:(lia) ltac:(lia) Hch1).
    destruct (stream_run id ops c1) as [received c']. destruct IH as (ch' & Hc' & Hr').
    exists ch'. split; [done|]. by rewrite Hv, chan_run_app, Hr, Hr'.
Qed.

(** The numbers of the events go up. *)
Lemma view_numbers id filter ops : ∀ b n,
  - 2 ^ 63 ≤ n → n + Z.of_nat (length ops) < 2 ^ 63 →
  StronglySorted (λ a b, default 0 (se_Sequence a) < default 0 (se_Sequence b)) (offers (view id filter b n ops)) ∧
  Forall (λ e, n < default 0 (se_Sequence e)) (offers (view id filter b n ops)).
Proof.
  assert (Happ : ∀ l l' : list (chan_op StreamEvent), offers (l ++ l') = offers l ++ offers l')
    by (intros; apply omap_app).
  induction ops as [|op ops IH]; intros b n Hlow Hn; [by repeat constructor|]. cbn [length] in Hn.
  destruct op as [f|i|evt|i|]; cbn [view].
  - apply IH; lia.
  - destruct (decide _); [|apply IH; lia]. rewrite Happ. destruct b; apply IH; lia.
  - rewrite Happ. rewrite i64_id by lia. destruct (IH b (n + 1) ltac:(lia) ltac:(lia)) as [H1 H2].
    assert (H3 : Forall (λ e, n < default 0 (se_Sequence e)) (offers (view id filter b (n + 1) ops))).
    { eapply Forall_impl; [exact H2|]. cbn. intros; lia. }
    destruct (b && matchesFilter filter evt); cbn; [|done]. split; [by constructor|].
    constructor; [cbn; lia|done].
  - rewrite Happ. destruct (decide _); apply IH; lia.
  - rewrite Happ. destruct b; apply IH; lia.
Qed.

(** C33.  Whatever other subscribers, publications and flushes come in between, a
    subscriber receives events that match its filter, were published while it was
    subscribed and are numbered in ascending order, each once at most and in that
    order; and it misses none of them as long as it leaves room in its buffer.
    What waits for it when it leaves can still be taken, and nothing is added. *)
Theorem stream_delivery (filter : StreamFilter) (c : StreamController) (id : Z)
    (c0 : StreamController) (ops : list stream_op)
    (Hsub : Subscribe false filter c = (Some id, c0))
    (Hids : 0 ≤ sc_nextSubID c ∧ sc_nextSubID c + Z.of_nat (length ops) < 2 ^ 63 - 1)
    (Hseq : 0 ≤ sc_sequence c ∧ sc_sequence c + Z.of_nat (length ops) < 2 ^ 63) :
  let mine := view id filter true (sc_sequence c) ops in
  let '(received, c') := stream_run id ops c0 in
  ∃ ch, channel id c' = Some ch ∧
    sublist (received ++ ch_buf ch) (offers mine) ∧
    StronglySorted (λ a b, default 0 (se_Sequence a) < default 0 (se_Sequence b)) (offers mine) ∧
    (keeps_up (Z.to_nat (sc_bufferSize c)) 0 mine = true → received ++ ch_buf ch = offers mine).
Proof.
  cbn zeta. unfold Subscribe in Hsub. rewrite i64_id in Hsub by lia. injection Hsub as <- <-.
  set (id := sc_nextSubID c + 1). set (c0 := mkController _ _ _ _ _).
  pose proof (run_view id filter ops true (make_chan (sc_bufferSize c)) c0) as Hrun.
  destruct (stream_run id ops c0) as [received c'].
  destruct Hrun as (ch & Hch & Hrun); [subst id c0; cbn; lia|subst id c0; cbn; lia| |].
  { unfold has_channel, c0. cbn. by rewrite lookup_insert_eq. }
  exists ch. change (sc_sequence c0) with (sc_sequence c) in Hrun.
  pose proof (chan_delivers (view id filter true (sc_sequence c) ops) (make_chan (sc_bufferSize c))) as Hd.
  rewrite Hrun in Hd. cbn [make_chan ch_buf ch_cap length app] in Hd. destruct Hd as [Hd1 Hd2].
  split_and!; try done. apply view_numbers; lia.
Qed.

(** A reader of the orders of bot 1; one of the three events is not for it. *)
Definition demo_filter : StreamFilter := mkFilter None (Some 1) None None None.
Definition demo_published (bot : Z) : StreamEvent :=
  mkStreamEvent HyperliquidStatus (OrderId.mkOrderId bot 2 3) None 5 None None None None None None None.
Definition demo_ops : list stream_op :=
  [OpPublish (demo_published 1); OpSubscribe (mkFilter None None None None None);
   OpPublish (demo_published 2); OpReceive 1; OpPublish (demo_published 1); OpLeave 1;
   OpPublish (demo_published 1); OpReceive 1].

Lemma stream_delivery_witness :
  let received := (stream_run 1 demo_ops (Subscribe false demo_filter (NewStreamController [])).2).1 in
  received = [with_sequence 1 (demo_published 1); with_sequence 3 (demo_published 1)] ∧
  sublist (received ++ []) (offers (view 1 demo_filter true 0 demo_ops)).
Proof.
  cbn zeta. split; [vm_compute; reflexivity|].
  pose proof (stream_delivery demo_filter (NewStreamController []) 1
    (Subscribe false demo_filter (NewStreamController [])).2 demo_ops eq_refl
    ltac:(vm_compute; split; [discriminate|reflexivity]) ltac:(vm_compute; split; [discriminate|reflexivity])) as H.
  cbn zeta in H. destruct (stream_run 1 demo_ops _) as [received c'] eqn:E.
  destruct H as (ch & Hch & Hs & _).
  assert (ch_buf ch = []) as Hb.
  { vm_compute in E. injection E as <- <-. vm_compute in Hch. injection Hch as <-. reflexivity. }
  rewrite Hb in Hs. exact Hs.
Defined.

End StreamFacts.
