(* ===== verification/LogFacts.v ===== *)
(** * No log entry is lost

    However calls of [Handle] and [Close] interleave with the goroutine: what was
    accepted is written once and in order, a [Close] that succeeds has everything
    written, and closing comes to an end. *)

From S2P Require Import Prelude GoFloat GoString Tables Log.
Import GoFloat GoString Tables Log.

Module LogFacts.

(** ** Sums over the calls *)

Lemma sum_insert {A} (f : A → nat) (l : list A) i x y :
  l !! i = Some x → (sum_list_with f (<[i := y]> l) + f x = sum_list_with f l + f y)%nat.
Proof.
  revert i. induction l as [|z l IH]; intros [|i] H; simpl in *; simplify_eq; [lia|].
  specialize (IH i H). lia.
Qed.

Lemma sum_lookup {A} (f : A → nat) (l : list A) i x :
  l !! i = Some x → (f x ≤ sum_list_with f l)%nat.
Proof.
  revert i. induction l as [|z l IH]; intros [|i] H; cbn in *; simplify_eq; [lia|].
  specialize (IH i H). lia.
Qed.

Section Queue.
Context {json_map : Codec jmap} {L : Type} (insertFn : InsertLogEntryParams → L → result string unit * L).
Abbreviation system := (@system L).
Abbreviation internal := (internal insertFn).
Abbreviation step := (step insertFn).
Abbreviation runs := (runs insertFn).
Abbreviation reached := (reached insertFn).
Implicit Types (c : handlerCore L) (s : system) (tr : list event).

(** ** The invariant *)

(** Calls between [handleWG.Add] and [Done]; closers that won the swap. *)
Definition counted (th : thread) : nat :=
  match th with HandleCounted _ _ | HandleAdmitted _ _ | HandleLeaving _ => 1 | _ => 0 end.
Definition first_closer (th : thread) : nat :=
  match th with CloseWaiting | CloseCancelled | CloseReturned true _ => 1 | _ => 0 end.

Definition logged (log : L) (entries : list InsertLogEntryParams) : L :=
  foldl (λ l e, (insertFn e l).2) log entries.

(** What the position of a call says about the state. *)
Definition thread_ok (acc : list InsertLogEntryParams) c (th : thread) : Prop :=
  match th with
  | HandleAdmitted _ _ => co_cancelled c = false
  | HandleLeaving (Ok (Some e)) | HandleReturned (Ok (Some e)) => e ∈ acc
  | CloseCancelled => co_cancelled c = true
  | CloseReturned true (Ok _) => co_worker c = Returned
  | _ => True
  end.

Record inv (c0 : handlerCore L) tr s : Prop := {
  in_entries : accepted tr = written tr ++ co_queue (ss_core s);
  in_cap : co_cap (ss_core s) = co_cap c0;
  in_room : (length (co_queue (ss_core s)) ≤ co_cap c0)%nat;
  in_log : co_log (ss_core s) = logged (co_log c0) (written tr);
  in_handling : co_handling (ss_core s) = Z.of_nat (sum_list_with counted (ss_threads s));
  in_closers : sum_list_with first_closer (ss_threads s) = if co_closed (ss_core s) then 1%nat else 0%nat;
  in_cancelled : co_cancelled (ss_core s) = true → co_closed (ss_core s) = true;
  in_worker : co_worker (ss_core s) ≠ Looping → co_cancelled (ss_core s) = true;
  in_returned : co_worker (ss_core s) = Returned → co_queue (ss_core s) = [];
  in_threads : Forall (thread_ok (accepted tr) (ss_core s)) (ss_threads s);
}.

Definition fresh c : Prop :=
  co_queue c = [] ∧ co_handling c = 0 ∧ co_closed c = false ∧ co_cancelled c = false ∧ co_worker c = Looping.

Lemma accepted_app tr tr' : accepted (tr ++ tr') = accepted tr ++ accepted tr'.
Proof. apply omap_app. Qed.
Lemma written_app tr tr' : written (tr ++ tr') = written tr ++ written tr'.
Proof. apply omap_app. Qed.
Lemma accepted_Accepted (o : option InsertLogEntryParams) :
  accepted (Accepted <$> option_list o) = option_list o ∧ written (Accepted <$> option_list o) = [].
Proof. by destruct o. Qed.
Lemma accepted_Written (o : option InsertLogEntryParams) :
  accepted (Written <$> option_list o) = [] ∧ written (Written <$> option_list o) = option_list o.
Proof. by destruct o. Qed.

Lemma process_frame e q c :
  co_queue (process insertFn e q c) = q ∧ co_cap (process insertFn e q c) = co_cap c ∧
  co_log (process insertFn e q c) = (insertFn e (co_log c)).2 ∧
  co_handling (process insertFn e q c) = co_handling c ∧
  co_closed (process insertFn e q c) = co_closed c ∧
  co_cancelled (process insertFn e q c) = co_cancelled c ∧
  co_worker (process insertFn e q c) = co_worker c.
Proof. unfold process. by destruct (insertFn e (co_log c)). Qed.

(** ** The goroutine *)

Lemma worker_keeps c0 tr c ths pick o c' :
  inv c0 tr (mkSystem c ths) → worker_step insertFn pick c = Some (o, c') →
  inv c0 (tr ++ (Written <$> option_list o)) (mkSystem c' ths).
Proof.
  intros [H1 H2 H3 H4 H5 H6 H7 H8 H9 H10] Hs. cbn in *.
  assert (Hwrite : ∀ e q, co_queue c = e :: q → co_worker c ≠ Returned →
    inv c0 (tr ++ [Written e]) (mkSystem (process insertFn e q c) ths)).
  { intros e q Hq Hw. destruct (process_frame e q c) as (E1 & E2 & E3 & E4 & E5 & E6 & E7).
    rewrite Hq in H1, H3. cbn in H3.
    constructor; cbn; rewrite ?accepted_app, ?written_app, ?E1, ?E2, ?E3, ?E4, ?E5, ?E6, ?E7; cbn;
      rewrite ?app_nil_r; try done.
    - by rewrite <- app_assoc.
    - lia.
    - unfold logged. rewrite foldl_app. cbn. by rewrite H4.
    - eapply Forall_impl; [exact H10|]. intros th. unfold thread_ok. by rewrite E6, E7. }
  assert (Hmove : ∀ w, w ≠ Looping → co_cancelled c = true → co_worker c ≠ Returned →
    (w = Returned → co_queue c = []) → inv c0 (tr ++ []) (mkSystem (with_worker w c) ths)).
  { intros w Hw Hc Hr Hq. rewrite app_nil_r. constructor; cbn; try done.
    eapply Forall_impl; [exact H10|]. intros [| | | | |[[]|]| | | |[] [|]]; cbn; done. }
  unfold worker_step in Hs. destruct (co_worker c) eqn:Ew; [| |done];
    destruct (co_queue c) as [|e q] eqn:Eq.
  - destruct (co_cancelled c) eqn:Ec; simplify_eq. by apply Hmove.
  - destruct (negb (co_cancelled c) || pick) eqn:Ep; simplify_eq; [by apply Hwrite|].
    apply Hmove; try done. by destruct (co_cancelled c).
  - simplify_eq. apply Hmove; try done. by apply H8.
  - simplify_eq. by apply Hwrite.
Qed.

(** ** The calls *)

(** A call that is inside keeps the state open until it has left. *)
Lemma thread_keeps c0 tr c ths i th now ctx_done pick o th' c' :
  inv c0 tr (mkSystem c ths) → ths !! i = Some th →
  thread_step now ctx_done pick th c = Some (o, th', c') →
  inv c0 (tr ++ (Accepted <$> option_list o)) (mkSystem c' (<[i := th']> ths)).
Proof.
  intros [H1 H2 H3 H4 H5 H6 H7 H8 H9 H10] Hi Hs. cbn in *.
  pose proof (sum_insert counted ths i th th' Hi) as Hcount.
  pose proof (sum_insert first_closer ths i th th' Hi) as Hfirst.
  pose proof (sum_lookup first_closer ths i th Hi) as Hone.
  pose proof (Forall_lookup_1 _ _ _ _ H10 Hi) as Hth.
  (* a step that leaves the state alone *)
  assert (Hstay : c' = c → o = None → counted th' = counted th → first_closer th' = first_closer th →
    thread_ok (accepted tr) c th' → inv c0 (tr ++ []) (mkSystem c (<[i := th']> ths))).
  { intros _ _ E1 E2 Hok. rewrite app_nil_r. constructor; cbn; try done.
    - rewrite H5. lia.
    - etrans; [|exact H6]. lia.
    - by apply Forall_insert. }
  (* one that counts calls *)
  assert (Hmove : ∀ n, c' = with_handling n c → o = None → n = co_handling c + Z.of_nat (counted th') - Z.of_nat (counted th) →
    first_closer th' = first_closer th → thread_ok (accepted tr) c' th' →
    inv c0 (tr ++ []) (mkSystem c' (<[i := th']> ths))).
  { intros n -> _ -> E2 Hok. rewrite app_nil_r. constructor; cbn; try done.
    - rewrite H5. lia.
    - etrans; [|exact H6]. lia.
    - apply Forall_insert; [|exact Hok]. exact H10. }
  destruct th as [h r|h r|h r|h r|res|res| | | |first res]; cbn in Hs; try done.
  - destruct (negb _); [injection Hs as <- <- <-; by apply Hstay|]. destruct (co_closed c) eqn:Ec; injection Hs as <- <- <-; by apply Hstay.
  - injection Hs as <- <- <-. apply (Hmove (co_handling c + 1)); try done. cbn. lia.
  - destruct (co_closed c) eqn:Ec; injection Hs as <- <- <-; apply Hstay; try done. cbn.
    destruct (co_cancelled c) eqn:E; [|done]. specialize (H7 eq_refl). congruence.
  - unfold enqueue in Hs. destruct ((length (co_queue c) <? co_cap c)%nat && _) eqn:E;
      [|destruct ctx_done; injection Hs as <- <- <-; by apply Hstay].
    injection Hs as <- <- <-. apply andb_true_iff in E as [E _]. apply Nat.ltb_lt in E. cbn.
    set (e := buildParams now h r) in *.
    constructor; cbn; rewrite ?accepted_app, ?written_app; cbn; rewrite ?app_nil_r; try done.
    + by rewrite H1, <- app_assoc.
    + rewrite length_app. cbn. lia.
    + rewrite H5. cbn in Hcount. lia.
    + etrans; [|exact H6]. cbn in Hfirst. lia.
    + cbn in Hth. intros Hw. rewrite H8 in Hth; [done|congruence].
    + apply Forall_insert; [|cbn; rewrite elem_of_app, list_elem_of_singleton; by right].
      eapply Forall_impl; [exact H10|]. intros [| | | |[[]|]|[[]|]| | | |[] []]; cbn; try done;
        rewrite elem_of_app; by left.
  - injection Hs as <- <- <-. apply (Hmove (co_handling c - 1)); try done. cbn. lia.
  - destruct (co_closed c) eqn:Ec; injection Hs as <- <- <-; [by apply Hstay|]. rewrite app_nil_r.
    cbn in Hfirst, Hcount. constructor; cbn; try done.
    + rewrite H5. lia.
    + lia.
    + apply Forall_insert; [|done]. exact H10.
  - destruct (Z.eqb_spec (co_handling c) 0) as [E|]; [|done]. injection Hs as <- <- <-. rewrite app_nil_r.
    cbn in Hfirst, Hcount, Hone. constructor; cbn; try done.
    + rewrite H5. lia.
    + etrans; [|exact H6]. lia.
    + intros _. destruct (co_closed c); [done|lia].
    + apply Forall_insert; [|done]. apply Forall_lookup_2. intros j x Hj.
      pose proof (sum_lookup counted ths j x Hj) as Hx.
      pose proof (Forall_lookup_1 _ _ _ _ H10 Hj) as Hxok.
      destruct x as [| | | |[[]|]|[[]|]| | | |[] []]; cbn in *; try done. lia.
  - destruct (co_worker c) eqn:Ew; [destruct ctx_done; [injection Hs as <- <- <-; by apply Hstay|done]..|].
    destruct (negb ctx_done || pick); injection Hs as <- <- <-; by apply Hstay.
Qed.

Lemma inv_reached c0 tr s : fresh c0 → reached c0 tr s → inv c0 tr s.
Proof.
  intros (F1 & F2 & F3 & F4 & F5). induction 1 as [|tr s tr' s' _ IH Hs].
  - constructor; cbn; rewrite ?F1, ?F2, ?F3, ?F4, ?F5; try done. cbn. lia.
  - destruct Hs as [s tr' s' Hs|th c ths Hth];
      [destruct Hs as [now cd pick i th th' o c c' ths Hi Hs|pick o c c' ths Hs]|].
    + by eapply thread_keeps.
    + by eapply worker_keeps.
    + rewrite app_nil_r. destruct IH as [H1 H2 H3 H4 H5 H6 H7 H8 H9 H10]. constructor; cbn in *; try done.
      * rewrite sum_list_with_app, H5. destruct th; try done; cbn; lia.
      * rewrite sum_list_with_app, H6. destruct th; try done; cbn; lia.
      * apply Forall_app. split; [done|]. by destruct th; repeat constructor.
Qed.

(** Once the goroutine has returned nothing is accepted or written. *)
Lemma nothing_after c0 tr s tr' s' :
  fresh c0 → reached c0 tr s → runs s tr' s' → co_worker (ss_core s) = Returned →
  accepted tr' = [] ∧ co_worker (ss_core s') = Returned.
Proof.
  intros Hf Hr Hrun Hw.
  assert (Hboth : reached c0 (tr ++ tr') s' ∧ accepted tr' = [] ∧ co_worker (ss_core s') = Returned);
    [|by destruct Hboth].
  induction Hrun as [|tr1 s1 tr2 s2 Hrun IH Hs]; [by rewrite app_nil_r|].
  destruct IH as (IH1 & IH2 & IH3). pose proof (inv_reached _ _ _ Hf IH1) as Hi.
  split; [rewrite app_assoc; by eapply runs_step|].
  rewrite accepted_app, IH2. destruct Hs as [s1 tr2 s2 Hs|th c ths Hth]; [|done].
  destruct Hs as [now cd pick i th th' o c c' ths Hth Hs|pick o c c' ths Hs]; cbn in IH3 |- *.
  - destruct (accepted_Accepted o) as [-> _].
    pose proof (in_worker _ _ _ Hi) as Hc. pose proof (Forall_lookup_1 _ _ _ _ (in_threads _ _ _ Hi) Hth) as Hok.
    cbn in Hc, Hok. destruct th as [h r|h r|h r|h r|res|res| | | |first res]; cbn in Hs; try done;
      try (injection Hs as <- <- <-; done).
    + destruct (negb _); [by injection Hs as <- <- <-|]. destruct (co_closed c); by injection Hs as <- <- <-.
    + destruct (co_closed c); by injection Hs as <- <- <-.
    + cbn in Hok. rewrite Hc in Hok by (by rewrite IH3). done.
    + destruct (co_closed c); by injection Hs as <- <- <-.
    + destruct (co_handling c =? 0); [|done]. by injection Hs as <- <- <-.
    + rewrite IH3 in Hs. destruct (negb cd || pick); by injection Hs as <- <- <-.
  - unfold worker_step in Hs. by rewrite IH3 in Hs.
Qed.

(** ** Every schedule ends *)

Definition steps_left (th : thread) : nat :=
  match th with
  | HandleCalled _ _ => 6
  | HandleSeenOpen _ _ => 5
  | HandleCounted _ _ => 4
  | HandleAdmitted _ _ => 3
  | HandleLeaving _ => 1
  | CloseCalled => 3
  | CloseWaiting => 2
  | CloseCancelled => 1
  | HandleReturned _ | CloseReturned _ _ => 0
  end.
Definition work s : nat :=
  sum_list_with steps_left (ss_threads s) + length (co_queue (ss_core s)) +
  match co_worker (ss_core s) with Looping => 2 | Draining => 1 | Returned => 0 end.

Lemma internal_less s tr s' : internal s tr s' → (work s' < work s)%nat.
Proof.
  intros [now cd pick i th th' o c c' ths Hth Hs|pick o c c' ths Hs]; unfold work; cbn.
  - pose proof (sum_insert steps_left ths i th th' Hth) as Hsum.
    destruct th as [h r|h r|h r|h r|res|res| | | |first res]; cbn in Hs; try done.
    4: { unfold enqueue in Hs.
         destruct ((length (co_queue c) <? co_cap c)%nat && _); [|destruct cd];
           injection Hs as <- <- <-; cbn -[buildParams] in Hsum |- *; rewrite ?length_app; cbn; lia. }
    all: repeat (case_match; simplify_eq); try (injection Hs as <- <- <-); cbn in *; first [lia|congruence].
  - assert (Hp : ∀ e q, co_queue c = e :: q → (sum_list_with steps_left ths + length (co_queue (process insertFn e q c)) +
      match co_worker (process insertFn e q c) with Looping => 2 | Draining => 1 | Returned => 0 end <
      sum_list_with steps_left ths + length (co_queue c) +
      match co_worker c with Looping => 2 | Draining => 1 | Returned => 0 end)%nat).
    { intros e q ->. destruct (process_frame e q c) as (-> & _ & _ & _ & _ & _ & ->). cbn. lia. }
    unfold worker_step in Hs.
    destruct (co_worker c) eqn:Ew; [| |done]; destruct (co_queue c) as [|e q] eqn:Eq.
    + destruct (co_cancelled c); [|done]. injection Hs as <- <-. cbn. rewrite Eq. cbn. lia.
    + destruct (negb (co_cancelled c) || pick); injection Hs as <- <-; [specialize (Hp _ _ eq_refl); lia|].
      cbn. rewrite Eq. cbn. lia.
    + injection Hs as <- <-. cbn. rewrite Eq. cbn. lia.
    + injection Hs as <- <-. specialize (Hp _ _ eq_refl). lia.
Qed.

Definition returned (th : thread) : Prop :=
  match th with HandleReturned _ | CloseReturned _ _ => True | _ => False end.

(** Where nothing can move, all calls have returned and the queue is empty. *)
Lemma stuck_done c0 tr s :
  inv c0 tr s → (∀ tr' s', ¬ internal s tr' s') →
  Forall returned (ss_threads s) ∧ co_queue (ss_core s) = [].
Proof.
  destruct s as [c ths]. intros [H1 H2 H3 H4 H5 H6 H7 H8 H9 H10] Hstuck. cbn in *.
  assert (Hthread : ∀ i th, ths !! i = Some th → thread_step 0 false true th c = None).
  { intros i th Hi. destruct (thread_step 0 false true th c) as [[[o th'] c']|] eqn:E; [|done].
    destruct (Hstuck _ _ (step_thread insertFn 0 false true i th th' o c c' ths Hi E)). }
  assert (Hworker : worker_step insertFn true c = None).
  { destruct (worker_step insertFn true c) as [[o c']|] eqn:E; [|done].
    destruct (Hstuck _ _ (step_worker insertFn true o c c' ths E)). }
  assert (Hw : co_queue c = [] ∧ (co_worker c = Looping → co_cancelled c = false) ∧ co_worker c ≠ Draining).
  { unfold worker_step in Hworker. destruct (co_worker c) eqn:Ew, (co_queue c) as [|e q] eqn:Eq;
      repeat (case_match; simplify_eq); try done; by specialize (H9 eq_refl). }
  destruct Hw as (Hq & Hloop & Hdrain). split; [|done].
  (* no call is counted: it could move *)
  assert (Hzero : sum_list_with counted ths = 0%nat).
  { clear -Hthread. induction ths as [|th ths IH] using rev_ind; [done|].
    rewrite sum_list_with_app, IH.
    - cbn. specialize (Hthread (length ths) th ltac:(by apply list_lookup_middle)).
      destruct th; cbn in *; try done; repeat case_match; done.
    - intros i th' Hi. apply (Hthread i). by apply lookup_app_l_Some. }
  apply Forall_lookup_2. intros i th Hi. pose proof (Hthread i th Hi) as Hs.
  pose proof (Forall_lookup_1 _ _ _ _ H10 Hi) as Hok.
  destruct th; cbn in Hs; try done; try (repeat case_match; done).
  - rewrite H5, Hzero in Hs. done.
  - cbn in Hok. destruct (co_worker c); [|done|done]. by rewrite Hloop in Hok.
Qed.

End Queue.

(** ** The properties *)

Section Properties.
Context {json_map : Codec jmap}.

Lemma NewHandler_fresh {L} minLevel queueSize (log : L) c0 :
  NewHandler minLevel queueSize true log = Ok c0 → fresh c0 ∧ co_log c0 = log.
Proof. intros [= <-]. done. Qed.

Lemma sink_rows entries : ∀ t : auto log_row,
  au_rows (logged LogInsertFunc t entries) =
    au_rows t ++ imap (λ i e, log_row_of e (au_seq t + 1 + Z.of_nat i)) entries.
Proof.
  induction entries as [|e entries IH]; intros t; [by rewrite app_nil_r|].
  change (logged LogInsertFunc t (e :: entries)) with
    (logged LogInsertFunc (InsertAppLogEntry (log_row_of e) t) entries). rewrite IH.
  cbn [InsertAppLogEntry au_rows au_seq]. rewrite <- app_assoc. f_equal.
  cbn. rewrite Z.add_0_r. f_equal. apply imap_ext. intros j x _. cbn. f_equal. lia.
Qed.

(** C39.  However calls of [Handle] and [Close] interleave with the goroutine of the
    handler: the rows of [app_logs] are the accepted entries in the order in which
    they were accepted, but for those that still wait in the queue; a call that
    reported success had its entry accepted; and once a [Close] that closed the
    handler succeeds, every accepted entry has its row and none is accepted any
    more. *)
Theorem log_accounted minLevel queueSize (t : auto log_row) c0 tr s
    (Hnew : NewHandler minLevel queueSize true t = Ok c0)
    (Hreached : reached LogInsertFunc c0 tr s) :
  accepted tr = written tr ++ co_queue (ss_core s) ∧
  (length (co_queue (ss_core s)) ≤ co_cap c0)%nat ∧
  au_rows (co_log (ss_core s)) =
    au_rows t ++ imap (λ i e, log_row_of e (au_seq t + 1 + Z.of_nat i)) (written tr) ∧
  (∀ e, HandleReturned (Ok (Some e)) ∈ ss_threads s → e ∈ accepted tr) ∧
  (CloseReturned true (Ok tt) ∈ ss_threads s →
     written tr = accepted tr ∧
     ∀ tr' s', runs LogInsertFunc s tr' s' → accepted tr' = []).
Proof.
  apply NewHandler_fresh in Hnew as [Hf Hlog].
  pose proof (inv_reached _ _ _ _ Hf Hreached) as Hi.
  pose proof (in_threads _ _ _ _ Hi) as Hths. rewrite Forall_forall in Hths. split_and!.
  - apply Hi.
  - apply Hi.
  - rewrite (in_log _ _ _ _ Hi), Hlog. apply sink_rows.
  - intros e He. apply (Hths _ He).
  - intros Hc. specialize (Hths _ Hc). cbn in Hths. split.
    + by rewrite (in_entries _ _ _ _ Hi), (in_returned _ _ _ _ Hi), app_nil_r.
    + intros tr' s' Hrun. by eapply nothing_after.
Qed.

(** No schedule of calls that were made and of the goroutine runs for ever, and
    none gets stuck before its end: where nothing can move, every call of [Handle]
    and [Close] has returned and the queue is empty. *)
Theorem closing_ends {L} (insertFn : InsertLogEntryParams → L → result string unit * L)
    minLevel queueSize (log : L) c0 tr s n s'
    (Hnew : NewHandler minLevel queueSize true log = Ok c0)
    (Hreached : reached insertFn c0 tr s)
    (Hrun : nsteps (λ s s', ∃ tr, internal insertFn s tr s') n s s') :
  (n ≤ work s)%nat ∧
  ((∀ tr' s'', ¬ internal insertFn s' tr' s'') →
   Forall returned (ss_threads s') ∧ co_queue (ss_core s') = []).
Proof.
  apply NewHandler_fresh in Hnew as [Hf _]. split.
  - clear -Hrun. induction Hrun as [|n x y z [tr H] _ IH]; [lia|].
    apply internal_less in H. lia.
  - intros Hstuck.
    assert (∃ tr', reached insertFn c0 tr' s') as [tr' Hr'].
    { clear -Hreached Hrun. revert tr Hreached. induction Hrun as [|n x y z [tr1 H] _ IH]; intros tr Hr; [by exists tr|].
      apply (IH (tr ++ tr1)). eapply runs_step; [exact Hr|by apply step_internal]. }
    eapply stuck_done; [by eapply inv_reached|done].
Qed.

End Properties.

(** ** A concrete handler *)

#[local] Instance demo_json : Codec jmap := {| Marshal := λ _, Some "{..}"%string; Unmarshal := λ _, None |}.

Definition demo_record : Record_ := mkRecord 5000000 LevelWarn "slow" [] None.
Definition demo_entry : InsertLogEntryParams := buildParams 0 (mkHandler [] ["storage"%string]) demo_record.
Definition demo_core : handlerCore (auto log_row) :=
  mkCore LevelInfo 1 [] 0 false false Looping (mkAuto [] 0) [].
Lemma demo_new : NewHandler None (Some 1) true (mkAuto [] 0) = Ok demo_core.
Proof. reflexivity. Qed.

(** One record is logged and the handler closed. *)
Fixpoint play {L} (insertFn : InsertLogEntryParams → L → result string unit * L)
    (schedule : list (option nat)) (s : @system L) : option (list event * @system L) :=
  match schedule with
  | [] => Some ([], s)
  | Some i :: schedule =>
    th ← ss_threads s !! i;
    '(o, th', c) ← thread_step 0 false true th (ss_core s);
    '(tr, s') ← play insertFn schedule (mkSystem c (<[i := th']> (ss_threads s)));
    Some ((Accepted <$> option_list o) ++ tr, s')
  | None :: schedule =>
    '(o, c) ← worker_step insertFn true (ss_core s);
    '(tr, s') ← play insertFn schedule (mkSystem c (ss_threads s));
    Some ((Written <$> option_list o) ++ tr, s')
  end.

Lemma play_runs {L} insertFn schedule : ∀ (s : @system L) tr s',
  play insertFn schedule s = Some (tr, s') → ∀ s0 tr0, runs insertFn s0 tr0 s → runs insertFn s0 (tr0 ++ tr) s'.
Proof.
  induction schedule as [|[i|] schedule IH]; intros [c ths] tr s' Hp s0 tr0 H0; cbn in Hp.
  - injection Hp as <- <-. by rewrite app_nil_r.
  - destruct (ths !! i) as [th|] eqn:Ei; [|done]. cbn in Hp.
    destruct (thread_step 0 false true th c) as [[[o th'] c']|] eqn:E; [|done]. cbn in Hp.
    destruct (play insertFn schedule _) as [[tr1 s1]|] eqn:Ep; [|done]. injection Hp as <- <-.
    rewrite app_assoc. eapply IH; [exact Ep|]. eapply runs_step; [exact H0|].
    apply step_internal. by eapply step_thread.
  - destruct (worker_step insertFn true c) as [[o c']|] eqn:E; [|done]. cbn in Hp.
    destruct (play insertFn schedule _) as [[tr1 s1]|] eqn:Ep; [|done]. injection Hp as <- <-.
    rewrite app_assoc. eapply IH; [exact Ep|]. eapply runs_step; [exact H0|].
    apply step_internal. by eapply step_worker.
Qed.

Definition demo_calls : @system (auto log_row) :=
  mkSystem demo_core [HandleCalled (mkHandler [] ["storage"%string]) demo_record; CloseCalled].

Lemma demo_called : reached LogInsertFunc demo_core [] demo_calls.
Proof.
  apply (runs_step _ _ [] (mkSystem demo_core [HandleCalled (mkHandler [] ["storage"%string]) demo_record]) []).
  - apply (runs_step _ _ [] (mkSystem demo_core []) []); [apply runs_end|]. by apply (step_call _ (HandleCalled (mkHandler [] ["storage"%string]) demo_record) demo_core []).
  - by apply (step_call _ CloseCalled demo_core [HandleCalled (mkHandler [] ["storage"%string]) demo_record]).
Qed.

(** The record is admitted before the handler is closed, written after. *)
Definition demo_order : list (option nat) :=
  [Some 0; Some 0; Some 0; Some 1; Some 0; Some 0; Some 1; None; None; None; Some 1]%nat.

Lemma log_accounted_witness :
  ∃ tr s, play LogInsertFunc demo_order demo_calls = Some (tr, s) ∧
    written tr = [demo_entry] ∧ written tr = accepted tr ∧
    lr_scope <$> au_rows (co_log (ss_core s)) = [Some "storage"%string].
Proof.
  destruct (play LogInsertFunc demo_order demo_calls) as [[tr s]|] eqn:E; [|vm_compute in E; discriminate].
  exists tr, s. split; [reflexivity|].
  pose proof (play_runs _ _ _ _ _ E _ _ demo_called) as Hr.
  destruct (log_accounted None (Some 1) (mkAuto [] 0) demo_core tr s demo_new Hr) as (_ & _ & _ & _ & H).
  vm_compute in E. injection E as <- <-. split; [vm_compute; reflexivity|].
  split; [|vm_compute; reflexivity]. apply H. right. left.
Defined.

Lemma closing_ends_witness : (0 ≤ work demo_calls)%nat ∧ work demo_calls = 11%nat.
Proof.
  split; [|vm_compute; reflexivity].
  exact (proj1 (closing_ends LogInsertFunc None (Some 1) (mkAuto [] 0) demo_core [] demo_calls 0 demo_calls
    demo_new demo_called (nsteps_O _ _))).
Defined.

(** Attributes that were given before a group was opened end up inside it; the
    handlers of [log/slog] leave them outside. *)
Example attributes_move_into_groups :
  let h := WithGroup "storage" (WithAttrs [("venue"%string, KindLeaf (AString "a"))] (mkHandler [] [])) in
  fold_left (λ m a, appendAttr (hn_groups h) a m) (hn_attrs h) [] =
    [("storage"%string, AMap [("venue"%string, AString "a")])].
Proof. reflexivity. Qed.

(** A second [Close] returns before the first has written the queue. *)
Example second_close_early :
  ∃ tr s, play LogInsertFunc [Some 0; Some 0; Some 0; Some 0; Some 1; Some 2]%nat
      (mkSystem demo_core [HandleCalled (mkHandler [] []) demo_record; CloseCalled; CloseCalled]) = Some (tr, s) ∧
    ss_threads s !! 2%nat = Some (CloseReturned false (Ok tt)) ∧ length (co_queue (ss_core s)) = 1%nat.
Proof. eexists _, _. split; [vm_compute; reflexivity|]. done. Qed.


End LogFacts.
