(* ===== verification/SocketFacts.v ===== *)
(** * What the websocket client delivers

    A subscriber of a coin gets what is broadcast for it in order while it keeps up,
    and the price that was current when it came wherever the steps of [SubscribeBBO]
    put it: it may come after a later one; a coin whose subscription failed stays
    silent; and what the storage loads of an order is its last update. *)

From S2P Require Import Prelude GoFloat GoString OrderId Domain Store Hl Stream StreamFacts Refresh Socket.
From S2P Require Import Tables Storage TablesFacts StorageFacts.
Import GoFloat GoString Domain Store Tables Hl Stream StreamFacts Refresh Socket.

Module SocketFacts.

(** ** Prices *)

(** The steps of the client.  [SubscribeBBO] is [OpEnsure], [OpJoin], a look at the
    current price and [OpSendCurrent], and the steps of others come in between. *)
Inductive sock_op :=
| OpEnsure (ok : bool) (coin : string)
| OpStore (coin : string) (bbo : BestBidOffer)
| OpBroadcast (coin : string) (bbo : BestBidOffer)
| OpJoin (coin : string)
| OpSendCurrent (coin : string) (id : Z) (current : option BestBidOffer)
| OpLeaveTopic (coin : string) (id : Z)
| OpTakePrice (coin : string) (id : Z).

Definition topic_take (id : Z) (t : bboTopic) : option BestBidOffer * bboTopic :=
  match bt_subs t !! id with
  | Some ch => let '(x, ch) := try_recv ch in (x, mkTopic (<[id := ch]> (bt_subs t)) (bt_gone t) (bt_nextID t))
  | None =>
    match bt_gone t !! id with
    | Some ch => let '(x, ch) := try_recv ch in (x, mkTopic (bt_subs t) (<[id := ch]> (bt_gone t)) (bt_nextID t))
    | None => (None, t)
    end
  end.

Definition sock_step (op : sock_op) (c : Client) : option BestBidOffer * Client :=
  match op with
  | OpEnsure ok coin => (None, EnsureBBO ok coin c)
  | OpStore coin bbo => (None, store_bbo coin bbo c)
  | OpBroadcast coin bbo => (None, broadcast_bbo coin bbo c)
  | OpJoin coin =>
    let coin := normalizeCoin coin in
    (None, if String.eqb coin "" then c else (join_topic coin c).2)
  | OpSendCurrent coin id current => (None, send_current coin id current c)
  | OpLeaveTopic coin id => (None, leave_topic coin id c)
  | OpTakePrice coin id =>
    match cl_bboTopics c !! coin with
    | None => (None, c)
    | Some t => let '(x, t) := topic_take id t in (x, with_topics (<[coin := t]> (cl_bboTopics c)) c)
    end
  end.

Fixpoint sock_run (coin : string) (id : Z) (ops : list sock_op) (c : Client) : list BestBidOffer * Client :=
  match ops with
  | [] => ([], c)
  | op :: ops =>
    let '(o, c) := sock_step op c in
    let '(taken, c) := sock_run coin id ops c in
    (match op with
     | OpTakePrice k i => if decide (k = coin ∧ i = id) then option_list o else []
     | _ => []
     end ++ taken, c)
  end.

(** Alone, the steps make [SubscribeBBO]. *)
Lemma SubscribeBBO_steps ok k c id c' :
  SubscribeBBO ok k c = (Some id, c') →
  c' = (sock_run "" 0 [OpEnsure ok (normalizeCoin k); OpJoin k;
          OpSendCurrent (normalizeCoin k) id
            (currentBBO (normalizeCoin k)
               (sock_run "" 0 [OpEnsure ok (normalizeCoin k); OpJoin k] c).2)] c).2.
Proof.
  unfold SubscribeBBO. cbn -[join_topic]. destruct (String.eqb (normalizeCoin k) ""); [done|].
  destruct (join_topic _ _) as [i c1]. by intros [= -> <-].
Qed.

(** The steps that concern a subscriber: the prices of its coin that are broadcast,
    and sent to it alone, until it leaves, and what it takes. *)
Fixpoint prices (coin : string) (id : Z) (subscribed : bool) (ops : list sock_op)
    : list (chan_op BestBidOffer) :=
  match ops with
  | [] => []
  | OpBroadcast k bbo :: ops =>
    (if subscribed && String.eqb (normalizeCoin k) coin then [Offer (with_coin coin bbo)] else []) ++
      prices coin id subscribed ops
  | OpSendCurrent k i current :: ops =>
    (if subscribed && bool_decide (k = coin ∧ i = id) then Offer <$> option_list current else []) ++
      prices coin id subscribed ops
  | OpTakePrice k i :: ops =>
    (if decide (k = coin ∧ i = id) then [Take] else []) ++ prices coin id subscribed ops
  | OpLeaveTopic k i :: ops =>
    if decide (k = coin ∧ i = id) then (if subscribed then [Close] else []) ++ prices coin id false ops
    else prices coin id subscribed ops
  | _ :: ops => prices coin id subscribed ops
  end.

Definition member (id : Z) (subscribed : bool) (ch : chan BestBidOffer) (t : bboTopic) : Prop :=
  if subscribed then bt_subs t !! id = Some ch
  else bt_subs t !! id = None ∧ bt_gone t !! id = Some ch.

Lemma member_take id b ch t :
  member id b ch t → ∃ t', topic_take id t = ((try_recv ch).1, t') ∧
    member id b (try_recv ch).2 t' ∧ bt_nextID t' = bt_nextID t.
Proof.
  unfold member, topic_take. destruct b; [intros H|intros [H H']];
    rewrite ?H, ?H'; destruct (try_recv ch) as [x ch']; eexists; (split; [reflexivity|]); cbn;
    by rewrite lookup_insert_eq.
Qed.

Lemma member_take_ne id i b ch t :
  member id b ch t → i ≠ id → member id b ch (topic_take i t).2 ∧ bt_nextID (topic_take i t).2 = bt_nextID t.
Proof.
  unfold member, topic_take. intros Hm Hne.
  destruct (bt_subs t !! i) as [c|]; [|destruct (bt_gone t !! i) as [c|]; [|done]];
    destruct (try_recv c) as [x c']; cbn; by rewrite lookup_insert_ne.
Qed.

Lemma member_remove id b ch t :
  member id b ch t → member id false (if b then close_chan ch else ch) (topic_remove id t) ∧
    bt_nextID (topic_remove id t) = bt_nextID t.
Proof.
  unfold member, topic_remove. destruct b; [intros ->|intros [H1 H2]; by rewrite H1].
  cbn. by rewrite lookup_delete_eq, lookup_insert_eq.
Qed.

Lemma member_remove_ne id i b ch t :
  member id b ch t → i ≠ id → member id b ch (topic_remove i t) ∧
    bt_nextID (topic_remove i t) = bt_nextID t.
Proof.
  unfold member, topic_remove. intros Hm Hne. destruct (bt_subs t !! i) as [c|]; [|done].
  cbn. destruct b; [by rewrite lookup_delete_ne|]. destruct Hm.
  by rewrite lookup_delete_ne, lookup_insert_ne.
Qed.

Lemma member_broadcast id b ch t bbo :
  member id b ch t → member id b (if b then try_send bbo ch else ch) (topic_broadcast bbo t) ∧
    bt_nextID (topic_broadcast bbo t) = bt_nextID t.
Proof.
  unfold member, topic_broadcast. cbn. rewrite lookup_fmap.
  destruct b; [by intros ->|by intros [-> ->]].
Qed.

(** The subscriber [id] of a coin, in a topic that has room for [n] more names. *)
Definition listens (coin : string) (id : Z) (b : bool) (ch : chan BestBidOffer) (n : nat) (c : Client) : Prop :=
  coin ≠ "" ∧ ∃ t, cl_bboTopics c !! coin = Some t ∧ member id b ch t ∧ 0 < id ≤ bt_nextID t ∧
       bt_nextID t + Z.of_nat n < 2 ^ 63 - 1.

Lemma ensure_topics ok coin c : cl_bboTopics (EnsureBBO ok coin c) = cl_bboTopics c.
Proof. unfold EnsureBBO. by destruct (ensure_missing coin c). Qed.

(** Another subscriber comes. *)
Lemma join_listens coin id b ch n c key :
  listens coin id b ch (S n) c → listens coin id b ch n (join_topic key c).2.
Proof.
  intros (Hcoin & t & Ht & Hm & Hid & Hn). split; [done|]. unfold join_topic.
  set (c2 := ensureBBOTopic key c).
  assert (E2 : cl_bboTopics c2 !! coin = Some t).
  { unfold c2, ensureBBOTopic. destruct (cl_bboTopics c !! key) eqn:Ek; [done|].
    cbn. rewrite lookup_insert_ne by congruence. done. }
  destruct (topic_add _ _) as [i t'] eqn:Ea. cbn [snd]. cbn.
  destruct (decide (key = coin)) as [Hk|Hk].
  - rewrite Hk, E2 in Ea. unfold topic_add in Ea. change (default newBBOTopic (Some t)) with t in Ea. rewrite i64_id in Ea by lia. injection Ea as <- <-.
    assert (Hne : bt_nextID t + 1 ≠ id) by lia.
    rewrite Hk, lookup_insert_eq. eexists. split; [reflexivity|]. cbn. split; [|lia].
    unfold member in *. cbn. destruct b; by rewrite lookup_insert_ne.
  - exists t. rewrite lookup_insert_ne by done. split_and!; try done; lia.
Qed.

Lemma member_send id b ch t bbo i :
  member id b ch t →
  member id b (if b && bool_decide (i = id) then try_send bbo ch else ch)
    (mkTopic (alter (try_send bbo) i (bt_subs t)) (bt_gone t) (bt_nextID t)).
Proof.
  unfold member. cbn. destruct (decide (i = id)) as [->|Hi].
  - rewrite bool_decide_true by done. destruct b; cbn; [intros Hm; by rewrite lookup_alter_eq, Hm|].
    intros [Hm ?]. by rewrite lookup_alter_eq, Hm.
  - rewrite bool_decide_false by done. rewrite andb_false_r. by rewrite lookup_alter_ne.
Qed.

(** One step, seen by a subscriber. *)
Lemma sock_step_listens coin id b ch n c op :
  listens coin id b ch (S n) c →
  let '(o, c') := sock_step op c in
  ∃ b' ch', listens coin id b' ch' n c' ∧
    (∀ ops, prices coin id b (op :: ops) = prices coin id b [op] ++ prices coin id b' ops) ∧
    chan_run (prices coin id b [op]) ch =
      (match op with
       | OpTakePrice k i => if decide (k = coin ∧ i = id) then option_list o else []
       | _ => []
       end, ch').
Proof.
  intros Hl. pose proof Hl as (Hcoin & t & Ht & Hm & Hid & Hn).
  assert (Hsame : ∀ c', cl_bboTopics c' = cl_bboTopics c → listens coin id b ch n c').
  { intros c' E. split; [done|]. exists t. rewrite E. split_and!; try done; lia. }
  assert (Hother : ∀ k t', k ≠ coin → listens coin id b ch n (with_topics (<[k := t']> (cl_bboTopics c)) c)).
  { intros k t' Hk. split; [done|]. exists t. cbn. rewrite lookup_insert_ne by done. split_and!; try done; lia. }
  assert (Hput : ∀ b' ch' t', member id b' ch' t' → bt_nextID t' = bt_nextID t →
    listens coin id b' ch' n (with_topics (<[coin := t']> (cl_bboTopics c)) c)).
  { intros b' ch' t' Hm' E. split; [done|]. exists t'. cbn. rewrite lookup_insert_eq, E. split_and!; try done; lia. }
  assert (Halter : ∀ f k, with_topics (alter f k (cl_bboTopics c)) c =
    match cl_bboTopics c !! k with
    | Some t => with_topics (<[k := f t]> (cl_bboTopics c)) c
    | None => with_topics (cl_bboTopics c) c
    end).
  { intros f k. destruct (cl_bboTopics c !! k) as [t'|] eqn:Ek; f_equal.
    - apply map_eq. intros j. destruct (decide (k = j)) as [->|Hj];
        [by rewrite lookup_alter_eq, lookup_insert_eq, Ek|by rewrite lookup_alter_ne, lookup_insert_ne].
    - apply map_eq. intros j. destruct (decide (k = j)) as [->|Hj];
        [by rewrite lookup_alter_eq, Ek|by rewrite lookup_alter_ne]. }
  destruct op as [ok k|k bbo|k bbo|k|k i current|k i|k i]; cbn [sock_step].
  - exists b, ch. split_and!; try done. apply Hsame, ensure_topics.
  - exists b, ch. split_and!; try done. apply Hsame. unfold store_bbo. by destruct (String.eqb _ "").
  - unfold broadcast_bbo. destruct (String.eqb_spec (normalizeCoin k) "") as [E|E].
    + exists b, ch. split; [by apply Hsame|]. cbn. rewrite E.
      assert (Ef : ("" =? coin)%string = false) by (by apply String.eqb_neq). rewrite Ef, andb_false_r. done.
    + rewrite Halter. cbn. destruct (String.eqb_spec (normalizeCoin k) coin) as [Ek|Ek].
      * rewrite Ek, Ht. destruct (member_broadcast id b ch t (with_coin coin bbo) Hm) as [Hm' En].
        exists b, (if b then try_send (with_coin coin bbo) ch else ch). split; [by apply Hput|].
        split; [intros ops; by rewrite app_nil_r|]. by destruct b.
      * rewrite andb_false_r. exists b, ch. split_and!; try done.
        destruct (cl_bboTopics c !! normalizeCoin k); [by apply Hother|by apply Hsame].
  - exists b, ch. split_and!; try done. destruct (String.eqb _ ""); [by apply Hsame|by apply join_listens].
  - destruct current as [bbo|]; cbn [send_current].
    2:{ exists b, ch. split; [by apply Hsame|]. cbn. by destruct (b && _). }
    rewrite Halter. destruct (decide (k = coin)) as [->|Hk].
    + rewrite Ht. pose proof (member_send id b ch t bbo i Hm) as Hm'.
      exists b, (if b && bool_decide (i = id) then try_send bbo ch else ch). split; [by apply Hput|].
      cbn. rewrite (bool_decide_ext (coin = coin ∧ i = id) (i = id)) by tauto.
      split; [intros ops; by rewrite app_nil_r|]. by destruct (b && _).
    + cbn. rewrite bool_decide_false, andb_false_r by tauto. exists b, ch. split_and!; try done.
      destruct (cl_bboTopics c !! k); [by apply Hother|by apply Hsame].
  - unfold leave_topic. rewrite Halter. cbn. destruct (decide (k = coin)) as [->|Hk].
    + rewrite Ht. destruct (decide (i = id)) as [->|Hi].
      * rewrite decide_True by done. destruct (member_remove id b ch t Hm) as [Hm' En].
        exists false, (if b then close_chan ch else ch). split; [by apply Hput|].
        split; [intros ops; by rewrite app_nil_r, decide_True|]. by destruct b.
      * rewrite decide_False by tauto. destruct (member_remove_ne id i b ch t Hm Hi) as [Hm' En].
        exists b, ch. split; [by apply Hput|]. split; [|done]. intros ops. by rewrite decide_False by tauto.
    + rewrite decide_False by tauto. exists b, ch. split.
      * destruct (cl_bboTopics c !! k); [by apply Hother|by apply Hsame].
      * split; [|done]. intros ops. by rewrite decide_False by tauto.
  - destruct (decide (k = coin)) as [->|Hk].
    + rewrite Ht. destruct (decide (i = id)) as [->|Hi].
      * destruct (member_take id b ch t Hm) as (t' & -> & Hm' & En).
        exists b, (try_recv ch).2. split; [by apply Hput|]. cbn. rewrite !decide_True by done.
        split; [done|]. cbn. destruct (try_recv ch) as [x ch']. cbn. by rewrite app_nil_r.
      * destruct (member_take_ne id i b ch t Hm Hi) as [Hm' En].
        destruct (topic_take i t) as [x t']. exists b, ch. split; [by apply Hput|]. cbn.
        by rewrite !decide_False by tauto.
    + destruct (cl_bboTopics c !! k) as [t'|]; [destruct (topic_take i t') as [x t'']|];
        exists b, ch; cbn; rewrite !decide_False by tauto; split_and!; try done;
        [by apply Hother|by apply Hsame].
Qed.

Lemma sock_run_prices coin id ops : ∀ b ch c,
  listens coin id b ch (length ops) c →
  let '(taken, c') := sock_run coin id ops c in
  ∃ b' ch', listens coin id b' ch' 0 c' ∧ chan_run (prices coin id b ops) ch = (taken, ch').
Proof.
  induction ops as [|op ops IH]; intros b ch c Hl; [by exists b, ch|]. cbn [length] in Hl.
  pose proof (sock_step_listens coin id b ch _ c op Hl) as Hs.
  cbn [sock_run]. destruct (sock_step op c) as [o c1]. destruct Hs as (b1 & ch1 & Hl1 & Hv & Hr).
  specialize (IH b1 ch1 c1 Hl1). destruct (sock_run coin id ops c1) as [taken c'].
  destruct IH as (b' & ch' & Hl' & Hr'). exists b', ch'. split; [done|].
  by rewrite Hv, chan_run_app, Hr, Hr'.
Qed.

Definition price_channel (coin : string) (id : Z) (c : Client) : option (chan BestBidOffer) :=
  t ← cl_bboTopics c !! coin;
  match bt_subs t !! id with Some ch => Some ch | None => bt_gone t !! id end.

Lemma joined_listens key c id c0 n :
  key ≠ "" → join_topic key c = (id, c0) →
  (∀ t, cl_bboTopics c !! key = Some t → 0 ≤ bt_nextID t ∧ bt_nextID t + Z.of_nat n < 2 ^ 63 - 2) →
  Z.of_nat n < 2 ^ 63 - 2 →
  listens key id true (make_chan 8) n c0.
Proof.
  intros Hkey Hjoin Hids Hn. unfold join_topic in Hjoin.
  set (t := default newBBOTopic (cl_bboTopics c !! key)).
  assert (Ht : 0 ≤ bt_nextID t ∧ bt_nextID t + Z.of_nat n < 2 ^ 63 - 2).
  { unfold t. destruct (cl_bboTopics c !! key) as [t'|]; [by apply Hids|cbn; lia]. }
  assert (E : cl_bboTopics (ensureBBOTopic key c) !! key = Some t).
  { unfold ensureBBOTopic, t. destruct (cl_bboTopics c !! key) as [t'|] eqn:Et;
      [by rewrite Et|cbn; by rewrite lookup_insert_eq]. }
  set (c2 := ensureBBOTopic key c) in *. clearbody c2.
  rewrite E in Hjoin. change (default newBBOTopic (Some t)) with t in Hjoin.
  unfold topic_add in Hjoin. rewrite i64_id in Hjoin by lia. injection Hjoin as <- <-.
  split; [done|]. cbn. rewrite lookup_insert_eq. eexists. split; [reflexivity|]. cbn.
  split; [|lia]. unfold member. cbn. by rewrite lookup_insert_eq.
Qed.

(** Steps on the subscriber's own channel: sending to it, leaving, taking. *)
Definition concerns (coin : string) (id : Z) (op : sock_op) : bool :=
  match op with
  | OpSendCurrent k i _ | OpLeaveTopic k i | OpTakePrice k i => bool_decide (k = coin ∧ i = id)
  | _ => false
  end.

Definition broadcasts (coin : string) (ops : list sock_op) : list BestBidOffer :=
  omap (λ op, match op with
    | OpBroadcast k bbo => if String.eqb (normalizeCoin k) coin then Some (with_coin coin bbo) else None
    | _ => None
    end) ops.

(** No price of the coin is stored or broadcast. *)
Definition quiet (coin : string) (op : sock_op) : Prop :=
  match op with OpStore k _ | OpBroadcast k _ => normalizeCoin k ≠ coin | _ => True end.

Lemma prices_early coin id ops rest :
  Forall (λ op, concerns coin id op = false) ops →
  prices coin id true (ops ++ rest) = (Offer <$> broadcasts coin ops) ++ prices coin id true rest.
Proof.
  induction 1 as [|op ops Hop _ IH]; [done|]. destruct op as [ok k|k bbo|k bbo|k|k i current|k i|k i];
    cbn in Hop |- *; rewrite ?IH; try done.
  - by destruct (String.eqb _ coin).
  - by rewrite Hop.
  - apply bool_decide_eq_false in Hop. by rewrite decide_False.
  - apply bool_decide_eq_false in Hop. by rewrite decide_False.
Qed.

Lemma quiet_run coin ops : ∀ key id c,
  Forall (quiet coin) ops →
  broadcasts coin ops = [] ∧ cl_coinBbos (sock_run key id ops c).2 !! coin = cl_coinBbos c !! coin.
Proof.
  induction ops as [|op ops IH]; intros key id c Hq; [done|]. apply Forall_cons in Hq as [Hop Hq].
  cbn [sock_run]. destruct (sock_step op c) as [o c1] eqn:Es.
  assert (E : cl_coinBbos c1 !! coin = cl_coinBbos c !! coin).
  { destruct op as [ok k|k bbo|k bbo|k|k i current|k i|k i]; cbn [sock_step] in Es.
    - injection Es as _ <-. unfold EnsureBBO. by destruct (ensure_missing k c).
    - injection Es as _ <-. unfold store_bbo. destruct (String.eqb _ ""); [done|]. cbn in Hop |- *.
      by rewrite lookup_insert_ne.
    - injection Es as _ <-. unfold broadcast_bbo. by destruct (String.eqb _ "").
    - injection Es as _ <-. unfold join_topic, ensureBBOTopic.
      destruct (String.eqb _ ""); [done|]. by destruct (cl_bboTopics c !! _).
    - injection Es as _ <-. by destruct current.
    - by injection Es as _ <-.
    - destruct (cl_bboTopics c !! k) as [t|]; [destruct (topic_take i t)|]; by injection Es as _ <-. }
  destruct (IH key id c1 Hq) as [H1 H2]. destruct (sock_run key id ops c1) as [taken c']. cbn in H2 |- *.
  split; [|by rewrite H2]. destruct op as [ok k|k bbo|k bbo|k|k i current|k i|k i]; cbn in Hop |- *; try done.
  by apply String.eqb_neq in Hop as ->.
Qed.

Lemma offers_Offer (l : list BestBidOffer) rest : offers ((Offer <$> l) ++ rest) = l ++ offers rest.
Proof. induction l as [|x l IH]; [done|]. cbn. by f_equal. Qed.

Lemma sock_run_app key id ops1 ops2 c :
  (sock_run key id (ops1 ++ ops2) c).2 = (sock_run key id ops2 (sock_run key id ops1 c).2).2.
Proof.
  revert c. induction ops1 as [|op ops1 IH]; intros c; [done|]. cbn. destruct (sock_step op c) as [o c1].
  specialize (IH c1). destruct (sock_run key id (ops1 ++ ops2) c1), (sock_run key id ops1 c1). exact IH.
Qed.

(** C36.  [SubscribeBBO] adds a channel to the topic of its coin, looks at the current
    price and sends it, and the other steps of the client may come anywhere in
    between: [before] the look, or when it has [looked]; only the subscriber itself
    cannot take or leave before it has been given the channel.  The subscriber gets what
    was broadcast for its coin up to the sending, then the price that was current
    at the look, if any, and then every price that is broadcast until it leaves, in
    that order; it misses one only when eight of them wait for it.  So if no price
    of the coin comes while it subscribes, it gets the price known at the start
    first.  (If one does, it may be sent the older price after it:
    [stale_price_last].)  Other coins and subscribers do not matter, and what waits
    when it leaves can still be taken. *)
Theorem price_delivery key c id c0 before looked after
    (Hkey : key ≠ "") (Hjoin : join_topic key c = (id, c0))
    (Hown : Forall (λ op, concerns key id op = false) (before ++ looked)) :
  let current := currentBBO key (sock_run key id before c0).2 in
  let ops := before ++ looked ++ OpSendCurrent key id current :: after in
  (∀ t, cl_bboTopics c !! key = Some t →
     0 ≤ bt_nextID t ∧ bt_nextID t + Z.of_nat (length ops) < 2 ^ 63 - 2) →
  Z.of_nat (length ops) < 2 ^ 63 - 2 →
  let '(taken, c') := sock_run key id ops c0 in
  let early := broadcasts key (before ++ looked) in
  let late := prices key id true after in
  ∃ ch, price_channel key id c' = Some ch ∧
    sublist (taken ++ ch_buf ch) (early ++ option_list current ++ offers late) ∧
    (keeps_up 8 0 ((Offer <$> early ++ option_list current) ++ late) = true →
     taken ++ ch_buf ch = early ++ option_list current ++ offers late) ∧
    (Forall (quiet key) (before ++ looked) → normalizeCoin key = key →
     early = [] ∧ current = currentBBO key c).
Proof.
  intros current ops Hids Hops. cbn zeta. pose proof (joined_listens _ _ _ _ _ Hkey Hjoin Hids Hops) as Hl.
  pose proof (sock_run_prices _ _ ops _ _ _ Hl) as Hrun.
  destruct (sock_run key id ops c0) as [taken c'].
  destruct Hrun as (b' & ch' & (_ & t & Ht & Hm & _) & Hr). exists ch'. split.
  { unfold price_channel. rewrite Ht. cbn. unfold member in Hm.
    destruct b'; [by rewrite Hm|]. destruct Hm as [-> ->]. done. }
  assert (Hp : prices key id true ops =
    (Offer <$> broadcasts key (before ++ looked) ++ option_list current) ++ prices key id true after).
  { unfold ops. rewrite (assoc_L (++)), prices_early by done. cbn.
    rewrite bool_decide_true by done. by rewrite fmap_app, (assoc_L (++)). }
  pose proof (chan_delivers (prices key id true ops) (make_chan 8)) as Hd.
  rewrite Hr, Hp, offers_Offer in Hd. cbn [make_chan ch_buf ch_cap length app] in Hd.
  rewrite <- (assoc_L (++)) in Hd. destruct Hd as [Hd1 Hd2]. split_and!; [done..|].
  intros [Hq1 Hq2]%Forall_app Hn.
  destruct (quiet_run key before key id c0 Hq1) as [Hb E]. destruct (quiet_run key looked key id c0 Hq2) as [Hb' _].
  split; [unfold broadcasts in *; by rewrite omap_app, Hb, Hb'|].
  unfold current, currentBBO. rewrite Hn, E. replace (cl_coinBbos c0) with (cl_coinBbos c); [done|].
  unfold join_topic, ensureBBOTopic in Hjoin. destruct (topic_add _ _) as [i t'].
  injection Hjoin as _ <-. by destruct (cl_bboTopics c !! key).
Qed.

(** ** A coin whose subscription failed *)

(** The venue sends prices only for coins with a live subscription. *)
Inductive fed : Client → Client → Prop :=
| fed_ensure ok k c : fed c (EnsureBBO ok k c)
| fed_price k bbo c : cl_subscriptions c !! normalizeCoin k = Some true → fed c (storeCoinBBO k bbo c)
| fed_subscribe ok k c : fed c (SubscribeBBO ok k c).2
| fed_leave k id c : fed c (leave_topic k id c).

Definition silent (coin : string) (c : Client) : Prop :=
  cl_subscriptions c !! coin = Some false ∧ cl_coinBbos c !! coin = None.

Lemma ensure_silent ok k c coin : silent coin c → silent coin (EnsureBBO ok k c).
Proof.
  intros [H1 H2]. unfold EnsureBBO, ensure_missing.
  destruct (negb _ && bool_decide _) eqn:E; [|done]. split; [|done].
  apply andb_true_iff in E as [_ E%bool_decide_eq_true]. cbn.
  rewrite lookup_insert_ne; [done|congruence].
Qed.

Lemma subscribe_rest ok k c :
  normalizeCoin k ≠ "" → cl_subscriptions (SubscribeBBO ok k c).2 = cl_subscriptions (EnsureBBO ok (normalizeCoin k) c) ∧
  cl_coinBbos (SubscribeBBO ok k c).2 = cl_coinBbos (EnsureBBO ok (normalizeCoin k) c).
Proof.
  intros Hk%String.eqb_neq. unfold SubscribeBBO, join_topic. rewrite Hk.
  set (c1 := EnsureBBO _ _ _). clearbody c1. destruct (topic_add _ _) as [id t]. cbn [snd].
  unfold send_current, ensureBBOTopic. by destruct (currentBBO _ _), (cl_bboTopics c1 !! _).
Qed.

(** Once a subscription has failed no call subscribes to the coin again, and nobody
    who waits for its price gets one. *)
Theorem failed_coin_silent coin c c' looks :
  silent (normalizeCoin coin) c → rtc fed c c' →
  Forall (λ c, rtc fed c' c) looks →
  ensure_missing coin c' = false ∧ WaitForBestBidOffer coin looks = None.
Proof.
  assert (Hrun : ∀ k c c', rtc fed c c' → silent k c → silent k c').
  { intros k. induction 1 as [|x y z Hstep _ IH]; [done|]. intros Hs. apply IH. clear IH.
    destruct Hstep as [ok j x|j bbo x Hl|ok j x|j id x].
    - by apply ensure_silent.
    - destruct Hs as [H1 H2]. unfold storeCoinBBO, store_bbo, broadcast_bbo.
      destruct (String.eqb (normalizeCoin j) ""); [done|]. split; [done|]. cbn.
      rewrite lookup_insert_ne; [done|congruence].
    - destruct (decide (normalizeCoin j = "")) as [E|E].
      + unfold SubscribeBBO. rewrite E. done.
      + destruct (subscribe_rest ok j x E) as [E1 E2]. unfold silent. rewrite E1, E2.
        by apply ensure_silent.
    - done. }
  intros Hs Hc Hlooks. pose proof (Hrun _ _ _ Hc Hs) as Hs'. split.
  - unfold ensure_missing. destruct Hs' as [-> _]. by rewrite andb_false_r.
  - induction Hlooks as [|c1 looks Hc1 _ IH]; [done|]. cbn.
    destruct (Hrun _ _ _ Hc1 Hs') as [_ H2]. unfold currentBBO. rewrite H2.
    by destruct (String.eqb (normalizeCoin coin) "").
Qed.

(** ** Order updates *)

Section Updates.
Context {sqlite : SqliteJSON} {R : GoRange}.
Context {json_event : Codec TcBotEvent} {json_deal : Codec TcDeal} {json_status : Codec WsOrder}.
Context {json_create : Codec CreateOrderRequest} {json_modify : Codec ModifyOrderRequest}
  {json_cancel : Codec CancelOrderRequestByCloid} {json_flags : Codec (gmap string Storage.flag)}.
Context {laws_status : CodecLaws WsOrder} {T : Type} {tracker : StatusTracker T}.

#[local] Instance websocket_statuses : StatusStore Storage.Storage := {|
  Refresh.ListHyperliquidOrderIds := λ s, (Storage.ListHyperliquidOrderIds s).1;
  Refresh.RecordHyperliquidStatus := Storage.RecordHyperliquidStatus |}.

(** The recordings that a callback makes. *)
Definition recordings (c : Client) (updates : list (Z * WsOrder)) : list StorageFacts.status_call :=
  omap (λ x, cloid ← wb_Cloid (ws_Order x.2);
    match OrderId.FromHexString cloid with
    | Ok oid => Some (StorageFacts.mkStatusCall x.1 (NewOrderIdentifier (cl_venueID c) (cl_wallet c) oid) x.2)
    | Err _ => None
    end) updates.

Lemma updates_run c tracked ident updates : ∀ acc (s : Storage.Storage) (t : T),
  (order_updates c tracked (Some updates) (s, t)).1 =
    (StorageFacts.run_statuses ident (recordings c updates) acc s).2.
Proof.
  cbn. induction updates as [|[now o] updates IH]; intros acc s t; [done|]. cbn.
  destruct (wb_Cloid (ws_Order o)) as [cloid|]; cbn; [|apply IH].
  destruct (OrderId.FromHexString cloid) as [oid|]; cbn; [|apply IH].
  unfold StorageFacts.run_status. cbn.
  destruct (Storage.RecordHyperliquidStatus now _ o s) as [r s']. apply IH.
Qed.

(** What [Get] shows after the updates of a callback is the last of them that was
    recorded for the order, or what was there. *)
Theorem updates_shown c tracked updates oid (s : Storage.Storage) (t : T) now acc :
  let ident := NewOrderIdentifier (cl_venueID c) (cl_wallet c) oid in
  (∀ k e, is_Some (db_statuses (Storage.sg_db s) !! (k, e)) → e ≤ now) →
  StorageFacts.latest_is (Storage.key_of (Storage.ensureIdentifier ident)) (db_statuses (Storage.sg_db s)) acc →
  Sorted Z.le (now :: (unix_milli ∘ StorageFacts.st_now <$> recordings c updates)) →
  let s' := (order_updates c tracked (Some updates) (s, t)).1 in
  Get (λ i, (Storage.LoadHyperliquidStatus i s').1) c oid =
    (StorageFacts.run_statuses ident (recordings c updates) acc s).1.
Proof.
  cbn zeta. intros Hle Hacc Hclock. rewrite (updates_run _ _ (NewOrderIdentifier (cl_venueID c) (cl_wallet c) oid) _ acc).
  pose proof (StorageFacts.run_statuses_latest (NewOrderIdentifier (cl_venueID c) (cl_wallet c) oid)
    (recordings c updates) acc s now) as H.
  destruct (StorageFacts.run_statuses _ _ _ _) as [o s']. unfold Get.
  rewrite (StorageFacts.load_latest _ o); [done|]. apply H; [|done..].
  intros k e He i Hi. apply Hle in He as He'. by assert (i = e) as -> by lia.
Qed.

End Updates.

(** ** Concrete prices *)

Definition price (n : Z) : BestBidOffer := mkBbo "BTC" n (mkLevel (f_of_Z n) fone) (mkLevel (f_of_Z (n + 1)) fone).
Definition demo_client : Client :=
  storeCoinBBO "btc" (price 1) (EnsureBBO true "BTC" (mkClient ∅ ∅ ∅ "hl" "0xabc")).

(** Price 2 is broadcast while the subscriber comes, and is taken before price 1. *)
Definition demo_after : list sock_op :=
  [OpTakePrice "BTC" 1; OpBroadcast "ETH" (price 3); OpLeaveTopic "BTC" 1;
   OpBroadcast "BTC" (price 4); OpTakePrice "BTC" 1].
Definition demo_looked : list sock_op := [OpStore "btc " (price 2); OpBroadcast "btc " (price 2)].

Lemma price_delivery_witness :
  let '(taken, c') := sock_run "BTC" 1
    (demo_looked ++ OpSendCurrent "BTC" 1 (Some (price 1)) :: demo_after) (join_topic "BTC" demo_client).2 in
  taken = [price 2; price 1] ∧ ∃ ch, price_channel "BTC" 1 c' = Some ch ∧ taken ++ ch_buf ch = [price 2; price 1].
Proof.
  assert (Hcur : currentBBO "BTC" (sock_run "BTC" 1 [] (join_topic "BTC" demo_client).2).2 = Some (price 1))
    by (vm_compute; reflexivity).
  pose proof (price_delivery "BTC" demo_client 1 (join_topic "BTC" demo_client).2 [] demo_looked demo_after) as H.
  cbn zeta in H. rewrite Hcur in H.
  destruct (sock_run "BTC" 1 (demo_looked ++ _) _) as [taken c'] eqn:E.
  assert (Ht : taken = [price 2; price 1]) by (vm_compute in E; injection E as <- _; vm_compute; reflexivity).
  split; [exact Ht|]. change ([] ++ demo_looked) with demo_looked in H.
  cbn [app] in E, H. rewrite E in H.
  destruct H as (ch & Hch & _ & H & _); [done|vm_compute; reflexivity|by repeat constructor| |vm_compute; reflexivity|].
  { intros t Ht'. assert (cl_bboTopics demo_client !! "BTC"%string = None) as En by (vm_compute; reflexivity).
    rewrite En in Ht'. discriminate. }
  exists ch. split; [exact Hch|]. rewrite H by (vm_compute; reflexivity). vm_compute. reflexivity.
Defined.

(** A subscriber looks up the current price; before it is sent to its channel the
    next price comes, and is followed by the old one. *)
Example stale_price_last :
  let current := currentBBO "BTC" demo_client in
  let '(id, c) := join_topic "BTC" demo_client in
  let c := send_current "BTC" id current (storeCoinBBO "BTC" (price 2) c) in
  ch_buf <$> price_channel "BTC" id c = Some [price 2; price 1] ∧
  currentBBO "BTC" c = Some (price 2).
Proof. vm_compute. done. Qed.

End SocketFacts.
