(* ===== verification/Venues.v ===== *)
(** * Wiring the venues: [initializeHyperliquidVenues] of [cmd/recomma/app.go]

    With its helpers in [hyperliquid_helpers.go] and [hyperliquid_bootstrap.go], and
    the clients of [hl/hl.go].  An object that several places share (a gate, a
    websocket) is an index into the list of those that were made.  The venues are
    set up one after the other, while nothing else of the program runs. *)

From S2P Require Import Prelude GoFloat GoString OrderId Domain Store Hl Stream Tables Queries Storage StorageApi.
From S2P Require Import Vault RateGate Emitter Refresh Socket OrderScaler.
Import GoFloat GoString Domain Store Hl Tables.

Module Venues.

(** ** The clients of [hl/hl.go] *)

Record ClientConfig := mkClientConfig { cf_BaseURL : string; cf_Key : string; cf_Wallet : string }.

(** The SDK: keys and addresses, the answers of an endpoint, and of the [n]-th
    websocket whether it connects and whether it takes the subscription. *)
Class VenueSDK := {
  PrivateKey : Type;
  HexToECDSA : string → result string PrivateKey;
  PubkeyToAddress : PrivateKey → string;
  TestnetAPIURL : string;
  query_order : string → string → string → result string (option OrderQueryResult);
  info_of : string → InfoProvider;
  ws_connects : nat → string → bool;
  ws_subscribes : nat → string → bool;
}.

Record Info := mkInfo { in_url : string; in_wallet : string }.

Section Clients.
Context {venue_sdk : VenueSDK}.

(** What the constructor of the SDK is given. *)
Record Exchange := mkExchange { ex_key : PrivateKey; ex_url : string; ex_account : string }.

Definition endpoint (config : ClientConfig) : string :=
  if String.eqb (cf_BaseURL config) "" then TestnetAPIURL else cf_BaseURL config.

Definition NewExchange (config : ClientConfig) : result string Exchange :=
  match HexToECDSA (TrimPrefix (TrimSpace (cf_Key config)) "0x") with
  | Err e => Err ("could not load private key: " +:+ e)
  | Ok key => Ok (mkExchange key (endpoint config) (PubkeyToAddress key))
  end.

Definition NewInfo (config : ClientConfig) : Info := mkInfo (endpoint config) (cf_Wallet config).

Definition QueryOrderByCloid (i : Info) : Refresh.orderStatusClient := query_order (in_url i) (in_wallet i).

End Clients.

(** ** Where prices come from *)

Section Prices.
(** [W] is what a subscription changes, [Ch] a channel of prices. *)
Context {W Ch : Type}.

Definition bboSubscriber : Type := string → W → result string Ch * W.

Record priceSourceMultiplexer := mkMultiplexer {
  ps_primary : VenueID;
  ps_order : list VenueID;
  ps_sources : gmap VenueID (option bboSubscriber);
}.

Inductive price_error :=
| NoSourcesConfigured
| SourcesFailed (errs : list (VenueID * string))
| NoSourceAvailable.

Definition newPriceSourceMultiplexer (primary : VenueID) (order : list VenueID)
    (sources : gmap VenueID (option bboSubscriber)) : priceSourceMultiplexer :=
  mkMultiplexer primary order sources.

(** [try] of a venue, with the errors so far. *)
Definition try_source (m : priceSourceMultiplexer) (coin : string) (id : VenueID)
    (st : list (VenueID * string) * W) : option Ch * (list (VenueID * string) * W) :=
  match mjoin (ps_sources m !! id) with
  | None => (None, st)
  | Some subscribe =>
    match subscribe coin st.2 with
    | (Ok ch, w) => (Some ch, (st.1, w))
    | (Err e, w) => (None, (st.1 ++ [(id, e)], w))
    end
  end.

Fixpoint try_sources (m : priceSourceMultiplexer) (coin : string) (ids : list VenueID)
    (st : list (VenueID * string) * W) : option Ch * (list (VenueID * string) * W) :=
  match ids with
  | [] => (None, st)
  | id :: ids =>
    if String.eqb id (ps_primary m) then try_sources m coin ids st
    else match try_source m coin id st with
         | (Some ch, st) => (Some ch, st)
         | (None, st) => try_sources m coin ids st
         end
  end.

Definition SubscribeBBO (m : priceSourceMultiplexer) (coin : string) (w : W)
    : result price_error Ch * W :=
  if decide (ps_sources m = ∅) then (Err NoSourcesConfigured, w)
  else
    let first := if String.eqb (ps_primary m) "" then (None, ([], w))
                 else try_source m coin (ps_primary m) ([], w) in
    match (match first with
           | (Some ch, st) => (Some ch, st)
           | (None, st) => try_sources m coin (ps_order m) st
           end) with
    | (Some ch, (_, w)) => (Ok ch, w)
    | (None, ([], w)) => (Err NoSourceAvailable, w)
    | (None, (errs, w)) => (Err (SourcesFailed errs), w)
    end.

End Prices.
Arguments priceSourceMultiplexer : clear implicits.

(** ** Helpers *)

(** The copy keeps nil apart from empty. *)
Definition cloneVenueFlags {json} (src : option (gmap string json)) : option (gmap string json) :=
  Vault.copyFlags src.

Definition decorateVenueFlags (src : option (gmap string Storage.flag)) (isPrimary : bool)
    : option (gmap string Storage.flag) :=
  match cloneVenueFlags src with
  | None =>
    if isPrimary then Some {[ "is_primary"%string := Storage.FlagBool isPrimary ]} else None
  | Some flags => Some (<["is_primary"%string := Storage.FlagBool isPrimary]> flags)
  end.

Definition VenueSecret : Type := Vault.VenueSecret (json := Storage.flag).
Definition Data : Type := Vault.Data (json := Storage.flag).

Definition is_hyperliquid (v : VenueSecret) : bool := EqualFold (Vault.vs_Type v) "hyperliquid".

Definition shouldUseSentinelDefaultHyperliquidWallet (venues : list VenueSecret)
    (primaryIdent : VenueID) (primaryWallet : string) (defaultIdent : VenueID) : bool :=
  let trimmedPrimary := TrimSpace primaryWallet in
  if String.eqb trimmedPrimary "" then false
  else existsb (λ venue,
    let venueID := TrimSpace (Vault.vs_ID venue) in
    is_hyperliquid venue && negb (String.eqb venueID defaultIdent) &&
    negb (negb (String.eqb primaryIdent "") && EqualFold venueID primaryIdent) &&
    EqualFold (TrimSpace (Vault.vs_Wallet venue)) trimmedPrimary) venues.

(** *** Registering; the registries and clients are not nil *)

Definition registerHyperliquidEmitter {S} (submitter : S) (venueIdent primaryIdent defaultIdent : VenueID)
    (queue : Emitter.QueueEmitter S) : Emitter.QueueEmitter S :=
  let queue := Emitter.Register venueIdent (Some submitter) queue in
  if negb (String.eqb venueIdent primaryIdent) then queue
  else if String.eqb defaultIdent "" || String.eqb defaultIdent venueIdent then queue
  else Emitter.Register defaultIdent (Some submitter) queue.

Definition registerHyperliquidStatusClient {C} (client : C) (venueIdent primaryIdent defaultIdent : VenueID)
    (reg : gmap VenueID C) : gmap VenueID C :=
  let reg := <[venueIdent := client]> reg in
  if negb (String.eqb venueIdent primaryIdent) then reg
  else if String.eqb defaultIdent "" || String.eqb defaultIdent venueIdent then reg
  else <[defaultIdent := client]> reg.

Definition registerHyperliquidWsClient {C} (client : C) (venueIdent : VenueID) (reg : gmap VenueID C)
    : gmap VenueID C := <[venueIdent := client]> reg.


Section Wiring.
Context {sdk : SDK} {sqlite : SqliteJSON} {R : GoRange} {venue_sdk : VenueSDK}.
Context {json_status : Codec WsOrder} {json_flags : Codec (gmap string Storage.flag)}.
Context {Bot : Type} {json_bot : Codec Bot} (bot_id : Bot → Z).

Inductive venue_error :=
| NoPrimaryVenue
| PrimaryMissing (field : string)
| ResolveAlias (e : store_error)
| Missing (field : string)
| PersistVenue (e : store_error)
| CreateExchange (msg : string)
| CreateWebsocket
| DefaultWallet (e : store_error)
| NoVenues
| PrimaryAbsent
| NoConstraints
| ListBotsFailed (e : store_error)
| CheckFailed (bot : Z) (e : store_error)
| AssignFailed (bot : Z) (e : store_error).

(** A loop whose body may end the function with an error. *)
Definition until_error {A S} (body : A → S → option venue_error * S)
    : list A → S → option venue_error * S :=
  fix go l s :=
    match l with
    | [] => (None, s)
    | x :: l => match body x s with (Some e, s) => (Some e, s) | (None, s) => go l s end
    end.

(** ** Assigning the primary venue *)

(** [clock] is the time at which a bot is assigned. *)
Definition sync_bot (clock : Z → Z) (primaryVenue : VenueID) (bot : Bot * Z) (s : Storage.Storage)
    : option venue_error * Storage.Storage :=
  let botID := bot_id bot.1 in
  if botID <=? 0 then (None, s)
  else
    match Storage.HasPrimaryVenueAssignment (u32 botID) s with
    | (Err e, s) => (Some (CheckFailed botID e), s)
    | (Ok true, s) => (None, s)
    | (Ok false, s) =>
      match StorageApi.UpsertVenueAssignment (clock botID) primaryVenue botID true s with
      | (Err e, s) => (Some (AssignFailed botID e), s)
      | (Ok _, s) => (None, s)
      end
    end.

Definition page_options (token : string) : StorageApi.ListBotsOptions :=
  StorageApi.mkBotsOptions None None None 100 token.

(** The loop over the pages; [None] is a lack of fuel. *)
Fixpoint sync_pages (fuel : nat) (clock : Z → Z) (primaryVenue : VenueID) (token : string)
    (s : Storage.Storage) : option (option venue_error * Storage.Storage) :=
  match fuel with
  | O => None
  | S fuel =>
    match StorageApi.ListBots (page_options token) s with
    | (Err e, s) => Some (Some (ListBotsFailed e), s)
    | (Ok ([], _), s) => Some (None, s)
    | (Ok (bots, next), s) =>
      match until_error (sync_bot clock primaryVenue) bots s with
      | (Some e, s) => Some (Some e, s)
      | (None, s) =>
        match next with
        | None => Some (None, s)
        | Some token =>
          if String.eqb token "" then Some (None, s) else sync_pages fuel clock primaryVenue token s
        end
      end
    end
  end.

Definition syncPrimaryVenueAssignments (fuel : nat) (clock : Z → Z) (primaryVenue : VenueID)
    (s : Storage.Storage) : option (option venue_error * Storage.Storage) :=
  if String.eqb primaryVenue "" then Some (None, s) else sync_pages fuel clock primaryVenue "" s.

(** ** Setting up the venues *)

Record rateGateKey := mkGateKey { gk_venueType : string; gk_wallet : string }.
#[global] Instance rateGateKey_eq_dec : EqDecision rateGateKey.
Proof. solve_decision. Defined.
#[global] Instance rateGateKey_countable : Countable rateGateKey.
Proof.
  refine (inj_countable' (λ k, (gk_venueType k, gk_wallet k)) (λ p, mkGateKey p.1 p.2) _). by intros [].
Defined.

(** What [NewHyperLiquidEmitter] is given; the websocket and the gate by number. *)
Record submitter := mkSubmitter {
  sb_exchange : Exchange;
  sb_venue : VenueID;
  sb_ws : nat;
  sb_constraints : OrderIdCache;
  sb_gate : nat;
  sb_status : Info;
  sb_config : Emitter.HyperLiquidEmitterConfig;
}.

(** The application as far as the venues change it, and the variables of the
    function. *)
Record App := mkApp {
  ap_Store : Storage.Storage;
  ap_OrderEmitter : Emitter.QueueEmitter submitter;
  ap_StatusClients : gmap VenueID Info;
  ap_WsClients : gmap VenueID nat;
  ap_venueClosers : list nat;
  ap_sockets : list Socket.Client;
  ap_gates : list RateGate.rateGate;
  ap_gateRegistry : gmap rateGateKey nat;
  ap_venueOrder : list VenueID;
  ap_constraintsInfo : option Info;
  ap_PrimaryVenue : VenueID;
  ap_OrderScaler : option (OrderIdCache * OrderScaler.Service);
}.

Definition with_store (s : Storage.Storage) (a : App) : App :=
  mkApp s (ap_OrderEmitter a) (ap_StatusClients a) (ap_WsClients a) (ap_venueClosers a)
    (ap_sockets a) (ap_gates a) (ap_gateRegistry a) (ap_venueOrder a) (ap_constraintsInfo a)
    (ap_PrimaryVenue a) (ap_OrderScaler a).
Definition with_status (reg : gmap VenueID Info) (constraints : option Info) (a : App) : App :=
  mkApp (ap_Store a) (ap_OrderEmitter a) reg (ap_WsClients a) (ap_venueClosers a)
    (ap_sockets a) (ap_gates a) (ap_gateRegistry a) (ap_venueOrder a) constraints
    (ap_PrimaryVenue a) (ap_OrderScaler a).
Definition with_primary (primary : VenueID) (a : App) : App :=
  mkApp (ap_Store a) (ap_OrderEmitter a) (ap_StatusClients a) (ap_WsClients a) (ap_venueClosers a)
    (ap_sockets a) (ap_gates a) (ap_gateRegistry a) (ap_venueOrder a) (ap_constraintsInfo a)
    primary (ap_OrderScaler a).
Definition with_scaler (cache : OrderIdCache) (scaler : OrderScaler.Service) (a : App) : App :=
  mkApp (ap_Store a) (ap_OrderEmitter a) (ap_StatusClients a) (ap_WsClients a) (ap_venueClosers a)
    (ap_sockets a) (ap_gates a) (ap_gateRegistry a) (ap_venueOrder a) (ap_constraintsInfo a)
    (ap_PrimaryVenue a) (Some (cache, scaler)).

(** What does not change from venue to venue. *)
Record fixed := mkFixed {
  fx_primaryIdent : VenueID;
  fx_primaryAPIURL : string;
  fx_defaultIdent : VenueID;
  fx_offsetBps : f64;
  fx_now : Z;
}.

Definition nonempty (s t : string) : string := if String.eqb s "" then t else s.

(** What is read from a venue of the secrets. *)
Record plan := mkPlan {
  pl_venueID : VenueID; pl_wallet : string; pl_displayName : string;
  pl_privateKey : string; pl_apiURL : string; pl_wsURL : string;
}.
Definition read_venue (f : fixed) (venue : VenueSecret) : result venue_error plan :=
  let venueID := TrimSpace (Vault.vs_ID venue) in
  let wallet := TrimSpace (Vault.vs_Wallet venue) in
  let privateKey := TrimSpace (Vault.vs_PrivateKey venue) in
  let apiURL := nonempty (TrimSpace (Vault.vs_APIURL venue)) (fx_primaryAPIURL f) in
  if String.eqb venueID "" then Err (Missing "identifier")
  else if String.eqb wallet "" then Err (Missing "wallet")
  else if String.eqb privateKey "" then Err (Missing "private key")
  else Ok (mkPlan venueID wallet (nonempty (TrimSpace (Vault.vs_DisplayName venue)) venueID) privateKey
             apiURL (nonempty (TrimSpace (Vault.vs_WebsocketURL venue)) apiURL)).

Definition venue_payload (p : plan) (venue : VenueSecret) : StorageApi.VenueUpsertRequest :=
  StorageApi.mkVenueRequest "hyperliquid" (pl_displayName p) (pl_wallet p)
    (decorateVenueFlags (Vault.vs_Flags venue) (Vault.vs_Primary venue)).

(** The gate of a wallet, made when it is first met. *)
Definition gate_for (now : Z) (key : rateGateKey) (a : App) : nat * App :=
  match ap_gateRegistry a !! key with
  | Some g => (g, a)
  | None =>
    let g := length (ap_gates a) in
    (g, mkApp (ap_Store a) (ap_OrderEmitter a) (ap_StatusClients a) (ap_WsClients a) (ap_venueClosers a)
          (ap_sockets a) (ap_gates a ++ [RateGate.NewRateGate 0 now])
          (<[key := g]> (ap_gateRegistry a)) (ap_venueOrder a) (ap_constraintsInfo a)
          (ap_PrimaryVenue a) (ap_OrderScaler a))
  end.

(** The websocket of a venue, registered and kept for closing. *)
Definition add_socket (p : plan) (client : Socket.Client) (a : App) : nat * App :=
  let n := length (ap_sockets a) in
  (n, mkApp (ap_Store a) (ap_OrderEmitter a) (ap_StatusClients a)
        (registerHyperliquidWsClient n (pl_venueID p) (ap_WsClients a))
        (ap_venueClosers a ++ [n]) (ap_sockets a ++ [client]) (ap_gates a) (ap_gateRegistry a)
        (ap_venueOrder a ++ [pl_venueID p]) (ap_constraintsInfo a) (ap_PrimaryVenue a) (ap_OrderScaler a)).

Definition add_emitter (sb : submitter) (f : fixed) (p : plan) (a : App) : App :=
  mkApp (ap_Store a)
    (registerHyperliquidEmitter sb (pl_venueID p) (fx_primaryIdent f) (fx_defaultIdent f) (ap_OrderEmitter a))
    (ap_StatusClients a) (ap_WsClients a) (ap_venueClosers a) (ap_sockets a) (ap_gates a)
    (ap_gateRegistry a) (ap_venueOrder a) (ap_constraintsInfo a) (ap_PrimaryVenue a) (ap_OrderScaler a).

(** The cache behind a client, empty. *)
Definition cache_of (info : Info) : OrderIdCache := NewOrderIdCache (info_of (in_url info)).

(** One round of the loop over the venues. *)
Definition setup_venue (f : fixed) (venue : VenueSecret) (a : App) : option venue_error * App :=
  if negb (is_hyperliquid venue) then (None, a)
  else
    match read_venue f venue with
    | Err e => (Some e, a)
    | Ok p =>
      match StorageApi.UpsertVenue (pl_venueID p) (venue_payload p venue) (ap_Store a) with
      | (Err e, s) => (Some (PersistVenue e), with_store s a)
      | (Ok _, s) =>
        let a := with_store s a in
        match NewExchange (mkClientConfig (pl_apiURL p) (pl_privateKey p) (pl_wallet p)) with
        | Err e => (Some (CreateExchange e), a)
        | Ok exchange =>
          let info := NewInfo (mkClientConfig (pl_apiURL p) "" (pl_wallet p)) in
          let constraints :=
            match ap_constraintsInfo a with
            | Some old => if String.eqb (pl_venueID p) (fx_primaryIdent f) then info else old
            | None => info
            end in
          let a := with_status (registerHyperliquidStatusClient info (pl_venueID p) (fx_primaryIdent f)
                                  (fx_defaultIdent f) (ap_StatusClients a)) (Some constraints) a in
          let wsURL := Socket.httpToWsURL (pl_wsURL p) in
          match Socket.New (pl_venueID p) (pl_wallet p) (ws_connects (length (ap_sockets a)) wsURL)
                  (ws_subscribes (length (ap_sockets a)) (pl_wallet p)) with
          | None => (Some CreateWebsocket, a)
          | Some client =>
            let '(ws, a) := add_socket p client a in
            let '(gate, a) := gate_for (fx_now f)
                                (mkGateKey (ToLower (Vault.vs_Type venue)) (ToLower (pl_wallet p))) a in
            let sb := mkSubmitter exchange (pl_venueID p) ws (cache_of constraints) gate info
                        (Emitter.normalizeHyperLiquidEmitterConfig
                           (Emitter.mkEmitterConfig 0 (fx_offsetBps f))) in
            (None, add_emitter sb f p a)
          end
        end
      end
    end.

(** What is read from the primary venue: identifier, wallet and URL. *)
Definition read_primary (d : Data) : result venue_error (string * string * string) :=
  match Vault.PrimaryVenueByType "hyperliquid" d with
  | None => Err NoPrimaryVenue
  | Some v =>
    let id := TrimSpace (Vault.vs_ID v) in
    let wallet := TrimSpace (Vault.vs_Wallet v) in
    let url := TrimSpace (Vault.vs_APIURL v) in
    if String.eqb id "" then Err (PrimaryMissing "identifier")
    else if String.eqb wallet "" then Err (PrimaryMissing "wallet")
    else if String.eqb url "" then Err (PrimaryMissing "api_url")
    else Ok (id, wallet, url)
  end.

(** [initializeHyperliquidVenues] up to the refresh of the statuses; [None] is a
    lack of fuel for the pages of bots. *)
Definition setup_venues (fuel : nat) (clock : Z → Z) (now : Z) (offsetBps maxMultiplier : f64) (d : Data) (a : App)
    : option (option venue_error * App) :=
  match read_primary d with
  | Err e => Some (Some e, a)
  | Ok (primary, wallet, url) =>
    match Storage.ResolveDefaultAlias (ap_Store a) with
    | (Err e, s) => Some (Some (ResolveAlias e), with_store s a)
    | (Ok alias, s) =>
      let a := with_store s a in
      let defaultVenueWallet :=
        if shouldUseSentinelDefaultHyperliquidWallet (Vault.Venues d) primary wallet (va_VenueID alias)
        then ""%string else wallet in
      let f := mkFixed primary url (va_VenueID alias) offsetBps now in
      let a := with_primary primary a in
      match until_error (setup_venue f) (Vault.Venues d) a with
      | (Some e, a) => Some (Some e, a)
      | (None, a) =>
        match Storage.EnsureDefaultVenueWallet defaultVenueWallet (ap_Store a) with
        | (Err e, s) => Some (Some (DefaultWallet e), with_store s a)
        | (Ok _, s) =>
          let a := with_store s a in
          if decide (ap_StatusClients a = ∅) then Some (Some NoVenues, a)
          else match ap_StatusClients a !! primary with
          | None => Some (Some PrimaryAbsent, a)
          | Some _ =>
            match ap_constraintsInfo a with
            | None => Some (Some NoConstraints, a)
            | Some constraints =>
              r ← syncPrimaryVenueAssignments fuel clock primary (ap_Store a);
              let a := with_store r.2 a in
              Some (r.1, match r.1 with
                         | Some _ => a
                         | None => with_scaler (cache_of constraints)
                                     (OrderScaler.WithMaxMultiplier maxMultiplier OrderScaler.New) a
                         end)
            end
          end
        end
      end
    end
  end.

(** ** The rest of the function *)

(** What it asks of the fill tracker. *)
Class VenueTracker (T : Type) := {
  venue_status :: Refresh.StatusTracker T;
  MarkStatusesHydrated : T → T;
  Rebuild : Storage.Storage → T → option store_error * T;
}.

(** A websocket as a price source: a channel is the socket's number and its own. *)
Definition socket_source (subscribes : bool) (n : nat)
    : bboSubscriber (W := list Socket.Client) (Ch := nat * Z) := λ coin sockets,
  match sockets !! n with
  | None => (Err ""%string, sockets)
  | Some c =>
    let '(r, c) := Socket.SubscribeBBO subscribes coin c in
    (match r with Some id => Ok (n, id) | None => Err "coin is required"%string end, <[n := c]> sockets)
  end.

Definition price_source (subscribes : bool) (primary : VenueID) (a : App)
    : priceSourceMultiplexer (list Socket.Client) (nat * Z) :=
  newPriceSourceMultiplexer primary (ap_venueOrder a)
    ((λ n, Some (socket_source subscribes n)) <$> ap_WsClients a).

Definition status_refresher (a : App) : Refresh.StatusRefresher :=
  Refresh.NewStatusRefresher (QueryOrderByCloid <$> ap_StatusClients a) true None.

(** [initializeHyperliquidVenues], with the schedule of the refresh left open: a
    refresh or a rebuild that fails is only logged. *)
Inductive initialized {T} {tracker : VenueTracker T} {store : Refresh.StatusStore Storage.Storage}
    (fuel : nat) (clock : Z → Z) (now : Z) (offsetBps maxMultiplier : f64) (subscribes : bool) (d : Data) (a : App) (t : T)
    : option venue_error → App → T → option (priceSourceMultiplexer (list Socket.Client) (nat * Z)) → Prop :=
| initialize_failed e a' :
    setup_venues fuel clock now offsetBps maxMultiplier d a = Some (Some e, a') →
    initialized fuel clock now offsetBps maxMultiplier subscribes d a t (Some e) a' t None
| initialize_done a' p errs s t' :
    setup_venues fuel clock now offsetBps maxMultiplier d a = Some (None, a') →
    read_primary d = Ok p →
    Refresh.refreshed (status_refresher a') now (ap_Store a') t errs s t' →
    let t' := match errs with [] => MarkStatusesHydrated t' | _ => t' end in
    initialized fuel clock now offsetBps maxMultiplier subscribes d a t None (with_store s a')
      (Rebuild s t').2 (Some (price_source subscribes p.1.1 a')).

End Wiring.

End Venues.
