(* ===== verification/VenuesFacts.v ===== *)
(** * What the wiring of the venues gives

    Which account serves a venue after a successful start, who shares a rate gate,
    which secrets cannot be started with, and which bots get a primary venue. *)

From S2P Require Import Prelude GoFloat GoString OrderId Domain Store Hl Stream Tables Queries Storage StorageApi.
From S2P Require Import Vault RateGate Emitter Refresh Socket OrderScaler Venues.
From S2P Require Import TablesFacts StorageFacts Integrity Paging.
Import GoFloat GoString Domain Store Hl Tables Venues.

Module VenuesFacts.

Lemma until_error_app {A S} (body : A → S → option venue_error * S) l k s :
  until_error body (l ++ k) s =
    match until_error body l s with (Some e, s) => (Some e, s) | (None, s) => until_error body k s end.
Proof.
  revert s. induction l as [|x l IH]; intros s; [done|]. cbn.
  destruct (body x s) as [[e|] s']; [done|]. apply IH.
Qed.

(** An invariant of the elements that are done. *)
Lemma until_error_ind {A S} (body : A → S → option venue_error * S) (I : list A → S → Prop) :
  (∀ l x s s', I l s → body x s = (None, s') → I (l ++ [x]) s') →
  ∀ l s s', I [] s → until_error body l s = (None, s') → I l s'.
Proof.
  intros Hstep l. induction l as [|x l IH] using rev_ind; intros s s' H0 Hrun.
  { by injection Hrun as <-. }
  rewrite until_error_app in Hrun. destruct (until_error body l s) as [[e|] s1] eqn:E1; [done|].
  cbn in Hrun. destruct (body x s1) as [[e|] s2] eqn:E2; [done|]. injection Hrun as <-.
  by apply (Hstep _ _ s1); [apply (IH s)|].
Qed.

Lemma last_filter_snoc {A} (P : A → Prop) `{∀ x, Decision (P x)} l x :
  last (filter P (l ++ [x])) = if decide (P x) then Some x else last (filter P l).
Proof.
  rewrite filter_app. destruct (decide (P x)) as [Hx|Hx].
  - rewrite filter_cons_True, filter_nil by done. apply last_snoc.
  - rewrite filter_cons_False by done. by rewrite filter_nil, app_nil_r.
Qed.

Lemma last_filter_is_Some {A} (P : A → Prop) `{∀ x, Decision (P x)} l x :
  x ∈ l → P x → ∃ y, last (filter P l) = Some y ∧ P y.
Proof.
  intros Hin Hx. assert (Hf : x ∈ filter P l) by (by apply list_elem_of_filter).
  destruct (last (filter P l)) as [y|] eqn:E.
  - exists y. split; [done|]. by apply last_Some_elem_of, list_elem_of_filter in E as [? _].
  - apply last_None in E. rewrite E in Hf. by apply elem_of_nil in Hf.
Qed.

(** ** Trimming twice *)

Definition starts_dense (s : string) : Prop :=
  match s with String c _ => is_space c = false | EmptyString => True end.

Lemma trim_left_dense s : starts_dense s → TrimLeftSpace s = s.
Proof. destruct s as [|c s]; [done|]. cbn. by intros ->. Qed.

Lemma trim_left_suffix s : ∃ x, s = (x +:+ TrimLeftSpace s)%string ∧ starts_dense (TrimLeftSpace s).
Proof.
  induction s as [|c s (x & E & IH)]; [by exists EmptyString|]. cbn. destruct (is_space c) eqn:Ec.
  - exists (String c x). split; [exact (f_equal (String c) E)|exact IH].
  - by exists EmptyString.
Qed.

Lemma TrimSpace_idem s : TrimSpace (TrimSpace s) = TrimSpace s.
Proof.
  unfold TrimSpace at 1. destruct (trim_left_suffix s) as (_ & _ & Ht). unfold TrimSpace.
  set (t := TrimLeftSpace s) in *. clearbody t. clear s.
  destruct (trim_left_suffix (srev t)) as (y & E & Hu). set (u := TrimLeftSpace (srev t)) in *.
  assert (Et : t = (srev u +:+ srev y)%string) by (by rewrite <- srev_append, <- E, srev_involutive).
  assert (starts_dense (srev u)) as Hd by (rewrite Et in Ht; by destruct (srev u)).
  by rewrite (trim_left_dense _ Hd), srev_involutive, (trim_left_dense _ Hu).
Qed.

Section Wiring.
Context {sdk : SDK} {sqlite : SqliteJSON} {R : GoRange} {venue_sdk : VenueSDK}.
Context {json_status : Codec WsOrder} {json_flags : Codec (gmap string Storage.flag)}.

(** ** What the secrets say of a venue *)

Definition id_of (v : VenueSecret) : VenueID := TrimSpace (Vault.vs_ID v).
Definition wallet_of (v : VenueSecret) : string := TrimSpace (Vault.vs_Wallet v).
Definition config_of (f : fixed) (v : VenueSecret) : ClientConfig :=
  mkClientConfig (nonempty (TrimSpace (Vault.vs_APIURL v)) (fx_primaryAPIURL f))
    (TrimSpace (Vault.vs_PrivateKey v)) (wallet_of v).
Definition info_for (f : fixed) (v : VenueSecret) : Info := NewInfo (config_of f v).
Definition gate_key (v : VenueSecret) : rateGateKey := mkGateKey "hyperliquid" (ToLower (wallet_of v)).
Definition socket_of (v : VenueSecret) : option Socket.Client := Socket.New (id_of v) (wallet_of v) true true.

(** The emitter acts for the venue: with its key, its statuses, its websocket and
    the gate of its wallet. *)
Definition acts_for (f : fixed) (a : App) (v : VenueSecret) (sb : submitter) : Prop :=
  NewExchange (config_of f v) = Ok (sb_exchange sb) ∧ sb_venue sb = id_of v ∧
  sb_status sb = info_for f v ∧ ap_sockets a !! sb_ws sb = socket_of v ∧
  ap_gateRegistry a !! gate_key v = Some (sb_gate sb).

(** The venue is registered for an identifier: its own, or the one that stands for
    the primary venue. *)
Definition named (id : VenueID) (v : VenueSecret) : Prop := is_hyperliquid v = true ∧ id_of v = id.
Definition serves (f : fixed) (id : VenueID) (v : VenueSecret) : Prop :=
  is_hyperliquid v = true ∧
  (id_of v = id ∨ id_of v = fx_primaryIdent f ∧ id = fx_defaultIdent f ∧ id ≠ ""%string).
#[local] Instance named_dec id v : Decision (named id v).
Proof. unfold named. apply _. Defined.
#[local] Instance serves_dec f id v : Decision (serves f id v).
Proof. unfold serves. apply _. Defined.

(** ** One venue *)

Definition new_gate (now : Z) (key : rateGateKey) (a a' : App) (g : nat) : Prop :=
  ap_gateRegistry a' !! key = Some g ∧ ap_gateRegistry a ⊆ ap_gateRegistry a' ∧
  (ap_gateRegistry a' = ap_gateRegistry a ∧ ap_gates a' = ap_gates a ∨
   ap_gateRegistry a !! key = None ∧ g = length (ap_gates a) ∧
   ap_gateRegistry a' = <[key := g]> (ap_gateRegistry a) ∧
   ap_gates a' = ap_gates a ++ [RateGate.NewRateGate 0 now]).

Lemma gate_for_spec now key a :
  let '(g, a') := gate_for now key a in
  new_gate now key a a' g ∧ ap_Store a' = ap_Store a ∧ ap_OrderEmitter a' = ap_OrderEmitter a ∧
  ap_StatusClients a' = ap_StatusClients a ∧ ap_WsClients a' = ap_WsClients a ∧
  ap_sockets a' = ap_sockets a ∧ ap_venueOrder a' = ap_venueOrder a ∧
  ap_constraintsInfo a' = ap_constraintsInfo a ∧ ap_venueClosers a' = ap_venueClosers a.
Proof.
  unfold gate_for, new_gate. destruct (ap_gateRegistry a !! key) as [g|] eqn:E; cbn.
  - split_and!; try done. by left.
  - rewrite lookup_insert_eq. split_and!; try done; [by apply insert_subseteq|]. by right.
Qed.

Lemma lower_hyperliquid v : is_hyperliquid v = true → ToLower (Vault.vs_Type v) = "hyperliquid"%string.
Proof. unfold is_hyperliquid, EqualFold. by intros ->%String.eqb_eq. Qed.

Lemma read_venue_ok f v p :
  read_venue f v = Ok p →
  pl_venueID p = id_of v ∧ pl_wallet p = wallet_of v ∧ id_of v ≠ ""%string ∧
  mkClientConfig (pl_apiURL p) (pl_privateKey p) (pl_wallet p) = config_of f v.
Proof.
  unfold read_venue. fold (id_of v). fold (wallet_of v).
  destruct (String.eqb_spec (id_of v) ""); [done|].
  destruct (String.eqb_spec (wallet_of v) ""); [done|].
  destruct (String.eqb_spec (TrimSpace (Vault.vs_PrivateKey v)) ""); [done|].
  by intros [= <-].
Qed.

Lemma setup_venue_ok f v a a' :
  is_hyperliquid v = true → setup_venue f v a = (None, a') →
  ∃ p r sb client,
    read_venue f v = Ok p ∧
    StorageApi.UpsertVenue (id_of v) (venue_payload p v) (ap_Store a) = (Ok r, ap_Store a') ∧
    ap_OrderEmitter a' = registerHyperliquidEmitter sb (id_of v) (fx_primaryIdent f) (fx_defaultIdent f)
                           (ap_OrderEmitter a) ∧
    ap_StatusClients a' = registerHyperliquidStatusClient (info_for f v) (id_of v) (fx_primaryIdent f)
                            (fx_defaultIdent f) (ap_StatusClients a) ∧
    ap_WsClients a' = <[id_of v := length (ap_sockets a)]> (ap_WsClients a) ∧
    ap_sockets a' = ap_sockets a ++ [client] ∧ socket_of v = Some client ∧
    ap_venueOrder a' = ap_venueOrder a ++ [id_of v] ∧
    ap_venueClosers a' = ap_venueClosers a ++ [length (ap_sockets a)] ∧
    ap_constraintsInfo a' = Some (match ap_constraintsInfo a with
      | Some old => if String.eqb (id_of v) (fx_primaryIdent f) then info_for f v else old
      | None => info_for f v
      end) ∧
    new_gate (fx_now f) (gate_key v) a a' (sb_gate sb) ∧ acts_for f a' v sb.
Proof.
  intros Hh. unfold setup_venue. rewrite Hh. cbn [negb].
  destruct (read_venue f v) as [p|e] eqn:Ep; [|done].
  destruct (read_venue_ok _ _ _ Ep) as (Hid & Hw & _ & Hc). rewrite Hid.
  destruct (StorageApi.UpsertVenue _ _ _) as [[r|e] s] eqn:Eu; [|done]. rewrite Hc.
  destruct (NewExchange (config_of f v)) as [ex|e] eqn:Ee; [|done].
  assert (Hi : NewInfo (mkClientConfig (pl_apiURL p) "" (pl_wallet p)) = info_for f v)
    by (unfold info_for; by rewrite <- Hc). rewrite Hi.
  destruct (Socket.New _ _ _ _) as [client|] eqn:En; [|done]. cbn zeta.
  assert (Hs : socket_of v = Some client).
  { unfold socket_of. rewrite <- Hw. unfold Socket.New in *. by destruct (_ && _). }
  unfold add_socket. rewrite Hid, Hw, lower_hyperliquid by done. fold (gate_key v).
  match goal with |- context [gate_for (fx_now f) (gate_key v) ?a1] =>
    pose proof (gate_for_spec (fx_now f) (gate_key v) a1) as Hg;
    destruct (gate_for (fx_now f) (gate_key v) a1) as [g a2] end.
  cbn in Hg. destruct Hg as (Hg & Hg1 & Hg2 & Hg3 & Hg4 & Hg5 & Hg6 & Hg7 & Hg8).
  intros [= <-]. eexists p, r, _, client. unfold add_emitter, acts_for. cbn.
  rewrite Hg1, Hg2, Hg3, Hg4, Hg5, Hg6, Hg8, Hid. split_and!; try done; try (by destruct Hg).
  cbn. by rewrite lookup_app_r, Nat.sub_diag by lia.
Qed.

Lemma register_emitter_lookup {S} (sb : S) f v q id :
  is_hyperliquid v = true →
  Emitter.qe_emitters (registerHyperliquidEmitter sb (id_of v) (fx_primaryIdent f) (fx_defaultIdent f) q) !! id =
    if decide (serves f id v) then Some sb else Emitter.qe_emitters q !! id.
Proof.
  intros Hh. unfold registerHyperliquidEmitter, Emitter.Register.
  assert (∀ m : gmap VenueID S, serves f id v ↔ id_of v = id ∨
    id_of v = fx_primaryIdent f ∧ id = fx_defaultIdent f ∧ id ≠ ""%string) as Hs
    by (unfold serves; tauto). specialize (Hs ∅).
  destruct (String.eqb_spec (id_of v) (fx_primaryIdent f)) as [Ep|Ep]; cbn.
  - destruct (String.eqb_spec (fx_defaultIdent f) "") as [E0|E0]; cbn;
      [|destruct (String.eqb_spec (fx_defaultIdent f) (id_of v)) as [E1|E1]; cbn];
      rewrite !lookup_insert; repeat case_decide; naive_solver.
  - rewrite lookup_insert. repeat case_decide; naive_solver.
Qed.

Lemma register_status_lookup {C} (c : C) f v reg id :
  is_hyperliquid v = true →
  registerHyperliquidStatusClient c (id_of v) (fx_primaryIdent f) (fx_defaultIdent f) reg !! id =
    if decide (serves f id v) then Some c else reg !! id.
Proof.
  intros Hh. change reg with (Emitter.qe_emitters (Emitter.mkQueueEmitter [] reg)) at 2.
  rewrite <- register_emitter_lookup by done.
  unfold registerHyperliquidEmitter, registerHyperliquidStatusClient.
  by repeat case_match.
Qed.

(** ** The loop *)

(** Nothing is registered yet. *)
Definition fresh (a : App) : Prop :=
  Emitter.qe_emitters (ap_OrderEmitter a) = ∅ ∧ ap_StatusClients a = ∅ ∧ ap_WsClients a = ∅ ∧
  ap_sockets a = [] ∧ ap_venueClosers a = [] ∧ ap_gates a = [] ∧ ap_gateRegistry a = ∅ ∧
  ap_venueOrder a = [] ∧ ap_constraintsInfo a = None.

(** One gate per key, each of its own. *)
Definition gates_ok (now : Z) (a : App) : Prop :=
  (∀ k g, ap_gateRegistry a !! k = Some g → ap_gates a !! g = Some (RateGate.NewRateGate 0 now)) ∧
  (∀ k k' g, ap_gateRegistry a !! k = Some g → ap_gateRegistry a !! k' = Some g → k = k').

(** The client whose lot sizes and ticks are used: that of the primary venue once it
    is there, until then that of the first venue. *)
Definition constraints_of (f : fixed) (vs : list VenueSecret) : option Info :=
  match last (filter (named (fx_primaryIdent f)) vs) with
  | Some v => Some (info_for f v)
  | None => info_for f <$> head (filter (λ v, is_hyperliquid v = true) vs)
  end.

(** What is registered when the venues [vs] have been set up: for an identifier,
    the last of the venues that serve it. *)
Definition registered {A} (P : VenueID → VenueSecret → Prop) `{∀ id v, Decision (P id v)}
    (good : VenueSecret → A → Prop) (vs : list VenueSecret) (reg : gmap VenueID A) : Prop :=
  ∀ id, option_Forall2 good (last (filter (P id) vs)) (reg !! id).

Definition wired (f : fixed) (vs : list VenueSecret) (a : App) : Prop :=
  registered (serves f) (acts_for f a) vs (Emitter.qe_emitters (ap_OrderEmitter a)) ∧
  registered (serves f) (λ v info, info = info_for f v) vs (ap_StatusClients a) ∧
  registered named (λ v n, ap_sockets a !! n = socket_of v) vs (ap_WsClients a) ∧
  gates_ok (fx_now f) a ∧
  ap_venueOrder a = id_of <$> filter (λ v, is_hyperliquid v = true) vs ∧
  ap_venueClosers a = seq 0 (length (ap_sockets a)) ∧ ap_constraintsInfo a = constraints_of f vs.

Lemma registered_snoc {A} (P : VenueID → VenueSecret → Prop) `{∀ id v, Decision (P id v)}
    (good good' : VenueSecret → A → Prop) vs v x reg reg' :
  (∀ w y, good w y → good' w y) → good' v x →
  (∀ id, reg' !! id = if decide (P id v) then Some x else reg !! id) →
  registered P good vs reg → registered P good' (vs ++ [v]) reg'.
Proof.
  intros Hmono Hx Hreg Hr id. rewrite last_filter_snoc, Hreg. case_decide; [by constructor|].
  specialize (Hr id). inversion Hr; constructor; auto.
Qed.

Lemma registered_skip {A} (P : VenueID → VenueSecret → Prop) `{∀ id v, Decision (P id v)}
    (good : VenueSecret → A → Prop) vs v reg :
  (∀ id, ¬ P id v) → registered P good vs reg → registered P good (vs ++ [v]) reg.
Proof. intros Hv Hr id. rewrite last_filter_snoc, decide_False by apply Hv. apply Hr. Qed.

Lemma gates_step now key a a' g : new_gate now key a a' g → gates_ok now a → gates_ok now a'.
Proof.
  intros (_ & _ & [[E1 E2]|(Hk & -> & E1 & E2)]) [H1 H2]; unfold gates_ok; rewrite E1, E2; [done|].
  split.
  - intros k g. rewrite lookup_insert. case_decide as Ek; intros Hg.
    + injection Hg as <-. by rewrite lookup_app_r, Nat.sub_diag by lia.
    + rewrite lookup_app_l by (by eapply lookup_lt_Some, H1). by apply (H1 k).
  - assert (∀ k g, ap_gateRegistry a !! k = Some g → g ≠ length (ap_gates a)) as Hne.
    { intros k g Hg ->. apply H1, lookup_lt_Some in Hg. lia. }
    intros k k' g. rewrite !lookup_insert. repeat case_decide; subst; intros E E'; simplify_eq; eauto.
    + by apply Hne in E'.
    + by apply Hne in E.
Qed.

Lemma acts_for_later f a a' v sb :
  ap_gateRegistry a ⊆ ap_gateRegistry a' → ap_sockets a `prefix_of` ap_sockets a' →
  acts_for f a v sb → acts_for f a' v sb.
Proof.
  intros Hg Hs (H1 & H2 & H3 & H4 & H5). unfold acts_for. split_and!; try done.
  - unfold socket_of, Socket.New in *. cbn in *. by eapply prefix_lookup_Some.
  - by eapply lookup_weaken.
Qed.

Lemma wired_step f vs v a a' :
  wired f vs a → setup_venue f v a = (None, a') → wired f (vs ++ [v]) a'.
Proof.
  intros (He & Hst & Hw & Hg & Ho & Hc & Hi) Hstep. destruct (is_hyperliquid v) eqn:Hh.
  - destruct (setup_venue_ok _ _ _ _ Hh Hstep) as (p & r & sb & client & _ & _ & Ee & Es & Ew & Esk & Hcl & Eo & Ec & Ei & Hgate & Hacts).
    assert (Hpre : ap_sockets a `prefix_of` ap_sockets a') by (rewrite Esk; by eexists).
    unfold wired. split_and!.
    + apply (registered_snoc _ (acts_for f a) _ _ _ sb (Emitter.qe_emitters (ap_OrderEmitter a)));
        [|done| |done].
      * intros w y. apply acts_for_later; [apply Hgate|done].
      * intros id. rewrite Ee. by apply register_emitter_lookup.
    + apply (registered_snoc _ (λ v info, info = info_for f v) _ _ _ (info_for f v) (ap_StatusClients a)); [done..| |done].
      intros id. rewrite Es. by apply register_status_lookup.
    + apply (registered_snoc _ (λ v n, ap_sockets a !! n = socket_of v) _ _ _ (length (ap_sockets a)) (ap_WsClients a)); [| | |done].
      * intros w n. unfold socket_of, Socket.New. cbn. intros. by eapply prefix_lookup_Some.
      * by rewrite Hcl, Esk, lookup_app_r, Nat.sub_diag by lia.
      * intros id. rewrite Ew, lookup_insert. unfold named. repeat case_decide; naive_solver.
    + by eapply gates_step.
    + rewrite Eo, Ho, filter_app, filter_cons_True, filter_nil by done. by rewrite fmap_app.
    + by rewrite Ec, Esk, Hc, length_app, seq_app.
    + rewrite Ei, Hi. unfold constraints_of. rewrite last_filter_snoc.
      rewrite filter_app, filter_cons_True, filter_nil by done.
      destruct (String.eqb_spec (id_of v) (fx_primaryIdent f)) as [E|E].
      * rewrite decide_True by done. by repeat case_match.
      * rewrite decide_False by (by intros [_ ?]).
        destruct (last (filter (named (fx_primaryIdent f)) vs)); [done|].
        by destruct (filter (λ v, is_hyperliquid v = true) vs).
  - unfold setup_venue in Hstep. rewrite Hh in Hstep. injection Hstep as <-.
    unfold wired. split_and!; try done.
    1-3: apply registered_skip; [|done]; intros id; unfold serves, named; rewrite Hh; naive_solver.
    + by rewrite filter_app, filter_cons_False, filter_nil, app_nil_r by (by rewrite Hh).
    + rewrite Hi. unfold constraints_of. rewrite last_filter_snoc, decide_False by (unfold named; rewrite Hh; naive_solver).
      by rewrite filter_app, filter_cons_False, filter_nil, app_nil_r by (by rewrite Hh).
Qed.

Lemma wired_fresh f a : fresh a → wired f [] a.
Proof.
  intros (H1 & H2 & H3 & H4 & H5 & H6 & H7 & H8 & H9). unfold wired, registered, gates_ok.
  rewrite H1, H2, H3, H4, H5, H6, H7, H8. split_and!; try done; intros; rewrite ?lookup_empty in *; try done; constructor.
Qed.

(** ** The table of venues *)

Abbreviation venues_of a := (db_venues (Storage.sg_db (ap_Store a))).

Definition venue_stored (v : VenueSecret) (row : venue_row) : Prop :=
  vr_type row = "hyperliquid"%string ∧ vr_wallet row = wallet_of v.

Lemma upsert_venue_rows v p r s s' :
  StorageApi.UpsertVenue (id_of v) (venue_payload p v) s = (Ok r, s') → pl_wallet p = wallet_of v →
  (∃ row, db_venues (Storage.sg_db s') = <[id_of v := row]> (db_venues (Storage.sg_db s)) ∧
          venue_stored v row) ∧
  ∀ id row, db_venues (Storage.sg_db s) !! id = Some row → venue_stored v row → id = id_of v.
Proof.
  intros Hu Hw. unfold StorageApi.UpsertVenue in Hu. cbn [StorageApi.vu_Type StorageApi.vu_DisplayName
    StorageApi.vu_Wallet StorageApi.vu_Flags venue_payload] in Hu.
  rewrite Hw in Hu. unfold id_of, wallet_of in *. rewrite !TrimSpace_idem in Hu.
  change (TrimSpace "hyperliquid") with "hyperliquid"%string in Hu.
  destruct (String.eqb (TrimSpace (Vault.vs_ID v)) ""); [done|].
  destruct (_ || _ || _); [done|].
  destruct (match decorateVenueFlags _ _ with None => _ | Some _ => _ end) as [flags|]; [|done].
  revert Hu. unfold Queries.UpsertVenue, Queries.GetVenue, one_of. Storage.sto_run.
  destruct (json flags) as [j|]; [|done]. destruct (existsb _ _) eqn:Ex; [done|]. cbn.
  rewrite lookup_insert_eq. intros [= _ <-]. cbn. split.
  - eexists. split; [reflexivity|]. done.
  - intros id row Hrow [Ht Hwal]. destruct (String.eqb_spec id (TrimSpace (Vault.vs_ID v))) as [|Hne]; [done|].
    exfalso. apply not_true_iff_false in Ex. apply Ex, existsb_exists. exists (id, row).
    split; [by apply list_elem_of_In, elem_of_map_to_list|].
    rewrite (proj2 (String.eqb_neq _ _)) by done. cbn. rewrite Ht, Hwal. by rewrite !String.eqb_refl.
Qed.

Lemma setup_venue_rows f v a a' :
  is_hyperliquid v = true → setup_venue f v a = (None, a') →
  (∃ row, venues_of a' = <[id_of v := row]> (venues_of a) ∧ venue_stored v row) ∧
  ∀ id row, venues_of a !! id = Some row → venue_stored v row → id = id_of v.
Proof.
  intros Hh Hs. destruct (setup_venue_ok _ _ _ _ Hh Hs) as (p & r & sb & cl & Hp & Hu & _).
  eapply upsert_venue_rows; [exact Hu|]. apply (read_venue_ok _ _ _ Hp).
Qed.

Lemma setup_other f v a : is_hyperliquid v = false → setup_venue f v a = (None, a).
Proof. unfold setup_venue. by intros ->. Qed.

(** A row stays while the venues of its identifier are not set up again. *)
Lemma setup_keeps_row f vs a a' id row :
  until_error (setup_venue f) vs a = (None, a') → (∀ v, v ∈ vs → is_hyperliquid v = true → id_of v ≠ id) →
  venues_of a !! id = Some row → venues_of a' !! id = Some row.
Proof.
  revert a. induction vs as [|v vs IH]; intros a Hrun Hne Hrow; [by injection Hrun as <-|].
  cbn in Hrun. destruct (setup_venue f v a) as [[e|] a1] eqn:E; [done|].
  apply (IH a1); [done|intros w Hw; apply Hne; by right|].
  destruct (is_hyperliquid v) eqn:Hh.
  - destruct (setup_venue_rows _ _ _ _ Hh E) as [(r & -> & _) _].
    rewrite lookup_insert_ne; [done|]. apply Hne; [by left|done].
  - rewrite setup_other in E by done. by injection E as <-.
Qed.

Lemma setup_wallets f vs a a' i v id row :
  until_error (setup_venue f) vs a = (None, a') → vs !! i = Some v → is_hyperliquid v = true →
  (∀ w, w ∈ take i vs → is_hyperliquid w = true → id_of w ≠ id) →
  venues_of a !! id = Some row → venue_stored v row → id = id_of v.
Proof.
  intros Hrun Hi Hh Hne Hrow Hst. rewrite <- (take_drop_middle vs i v Hi), until_error_app in Hrun.
  destruct (until_error (setup_venue f) (take i vs) a) as [[e|] a1] eqn:E1; [done|].
  cbn in Hrun. destruct (setup_venue f v a1) as [[e|] a2] eqn:E2; [done|].
  apply (setup_venue_rows _ _ _ _ Hh E2) with row; [|done]. by eapply setup_keeps_row.
Qed.

(** The part of [setup_venues] before the default venue. *)
Lemma setup_venues_loop {Bot} {json_bot : Codec Bot} (bot_id : Bot → Z) fuel clock now offset max d a a' :
  setup_venues bot_id fuel clock now offset max d a = Some (None, a') →
  ∃ primary wallet url alias a1 s1 s2,
    read_primary d = Ok (primary, wallet, url) ∧
    Storage.ResolveDefaultAlias (ap_Store a) = (Ok alias, s1) ∧
    until_error (setup_venue (mkFixed primary url (va_VenueID alias) offset now)) (Vault.Venues d)
      (with_primary primary (with_store s1 a)) = (None, a1) ∧
    (∃ info, ap_constraintsInfo a1 = Some info ∧
       a' = with_scaler (cache_of info) (OrderScaler.WithMaxMultiplier max OrderScaler.New) (with_store s2 a1)) ∧ is_Some (ap_StatusClients a1 !! primary) ∧
    ∃ s, syncPrimaryVenueAssignments bot_id fuel clock primary s = Some (None, s2).
Proof.
  unfold setup_venues. destruct (read_primary d) as [[[primary wallet] url]|e]; [|done].
  destruct (Storage.ResolveDefaultAlias (ap_Store a)) as [[alias|e] s1]; [|done].
  destruct (until_error _ _ _) as [[e|] a1] eqn:E1; [done|].
  destruct (Storage.EnsureDefaultVenueWallet _ _) as [[?|e] s]; [|done]. cbn zeta.
  case_decide; [done|]. cbn [ap_StatusClients with_store].
  destruct (ap_StatusClients a1 !! primary) as [i|] eqn:E2; [|done].
  destruct (ap_constraintsInfo _) as [info|] eqn:Ec; [|done].
  destruct (syncPrimaryVenueAssignments _ _ _ _ _) as [[[e|] s2]|] eqn:E3; cbn; [done| |done].
  intros [= <-]. exists primary, wallet, url, alias, a1, s1, s2. split_and!; try done; [|by eexists].
  exists info. by split.
Qed.

Lemma resolve_keeps s : (Storage.ResolveDefaultAlias s).2 = s.
Proof.
  unfold Storage.ResolveDefaultAlias, Storage.defaultVenueAssignmentLocked,
    Storage.findPrimaryHyperliquidVenueLocked. Storage.sto_run.
  repeat (case_match; Storage.sto_run; try done); simplify_eq; done.
Qed.

(** ** Routing *)

(** The Hyperliquid venues of the secrets differ in [g]. *)
Definition distinct (g : VenueSecret → string) (vs : list VenueSecret) : Prop :=
  ∀ i j u v, vs !! i = Some u → vs !! j = Some v → is_hyperliquid u = true → is_hyperliquid v = true →
  g u = g v → i = j.

Lemma last_filter_only {A} (P : A → Prop) `{∀ x, Decision (P x)} l i x :
  l !! i = Some x → P x → (∀ j y, l !! j = Some y → P y → j = i) → last (filter P l) = Some x.
Proof.
  intros Hi Hx Honly. rewrite <- (take_drop_middle l i x Hi), filter_app, filter_cons_True by done.
  assert (filter P (drop (S i) l) = []) as ->.
  { destruct (filter P (drop (S i) l)) as [|y k] eqn:E; [done|].
    assert (y ∈ filter P (drop (S i) l)) as Hy by (rewrite E; by left).
    apply list_elem_of_filter in Hy as [Hy [j Hj]%list_elem_of_lookup]. rewrite lookup_drop in Hj.
    apply Honly in Hj; [lia|done]. }
  apply last_snoc.
Qed.

Lemma registered_last {A} (P : VenueID → VenueSecret → Prop) `{∀ id v, Decision (P id v)}
    (good : VenueSecret → A → Prop) vs reg id v :
  registered P good vs reg → last (filter (P id) vs) = Some v → ∃ x, reg !! id = Some x ∧ good v x.
Proof. intros Hr E. specialize (Hr id). rewrite E in Hr. inversion Hr; subst. by eexists. Qed.

Lemma setup_wired {Bot} {json_bot : Codec Bot} (bot_id : Bot → Z) fuel clock now offset max d a a' :
  fresh a → setup_venues bot_id fuel clock now offset max d a = Some (None, a') →
  ∃ primary wallet url alias s1,
    read_primary d = Ok (primary, wallet, url) ∧ Storage.ResolveDefaultAlias (ap_Store a) = (Ok alias, s1) ∧
    let f := mkFixed primary url (va_VenueID alias) offset now in
    wired f (Vault.Venues d) a' ∧
    (∃ v, v ∈ Vault.Venues d ∧ is_hyperliquid v = true ∧ id_of v = primary ∧
          last (filter (serves f primary) (Vault.Venues d)) = Some v) ∧
    ap_OrderScaler a' = (λ info, (cache_of info, OrderScaler.WithMaxMultiplier max OrderScaler.New)) <$>
                          constraints_of f (Vault.Venues d).
Proof.
  intros Hfresh Hok. destruct (setup_venues_loop _ _ _ _ _ _ _ _ _ Hok)
    as (primary & wallet & url & alias & a1 & s1 & s2 & Hp & Ha & Hrun & (cinfo & Hci & ->) & [info Hi] & _).
  exists primary, wallet, url, alias, s1. split; [done|]. split; [done|]. cbn zeta.
  set (f := mkFixed primary url (va_VenueID alias) offset now) in *.
  assert (Hw : wired f (Vault.Venues d) a1).
  { refine (until_error_ind (setup_venue f) (wired f) _ _ (with_primary primary (with_store s1 a)) _ _ Hrun);
      [|by apply wired_fresh].
    intros l x b b'. apply wired_step. }
  split; [exact Hw|]. destruct Hw as (He & Hst & _ & _ & _ & _ & Hco).
  split; [|cbn; by rewrite <- Hco, Hci]. pose proof (Hst primary) as H.
  inversion H as [v x Hg Hv Hx|Hv Hn]; [|by pose proof (eq_trans Hn Hi)].
  symmetry in Hv. exists v. apply last_Some_elem_of in Hv as Hs.
  apply list_elem_of_filter in Hs as [[Hh Hs] Hin]. split_and!; [done|done| |done]. by destruct Hs as [?|[? _]].
Qed.

(** C34.  After a successful start from empty registries the orders for an identifier
    go to the emitter of the last venue of the secrets that serves it (its own
    identifier, or the default alias for the primary venue), which signs with the
    key of that venue, looks at its statuses and websocket, and shares its rate gate
    with the venues of the same wallet and no others; the statuses of an identifier
    are those of the same venue; websockets are registered for the venues' own
    identifiers and not for the alias; the scaler rounds as the primary venue does.
    Only if the identifiers of the venues are distinct and no venue other than the
    primary one has the default alias for its identifier, each venue is served by
    itself and the alias by the primary; without that an account's orders may be
    signed with the key of another ([primary_change_misroutes]). *)
Theorem orders_routed {Bot} {json_bot : Codec Bot} (bot_id : Bot → Z) fuel clock now offset max d a a'
    (Hfresh : fresh a) (Hok : setup_venues bot_id fuel clock now offset max d a = Some (None, a')) :
  ∃ primary wallet url alias,
    read_primary d = Ok (primary, wallet, url) ∧
    (Storage.ResolveDefaultAlias (ap_Store a)).1 = Ok alias ∧
    let f := mkFixed primary url (va_VenueID alias) offset now in
    let vs := Vault.Venues d in
    wired f vs a' ∧
    ap_OrderScaler a' = (λ info, (cache_of info, OrderScaler.WithMaxMultiplier max OrderScaler.New)) <$>
                          constraints_of f vs ∧
    (∃ v sb, v ∈ vs ∧ Emitter.emitterFor primary (ap_OrderEmitter a') = Some sb ∧ acts_for f a' v sb) ∧
    (distinct id_of vs → (∀ v, v ∈ vs → is_hyperliquid v = true → id_of v = va_VenueID alias → id_of v = primary) →
     (∀ v, v ∈ vs → is_hyperliquid v = true →
        ∃ sb, Emitter.emitterFor (id_of v) (ap_OrderEmitter a') = Some sb ∧ acts_for f a' v sb) ∧
     (va_VenueID alias ≠ ""%string →
        ∃ v sb, id_of v = primary ∧ Emitter.emitterFor (va_VenueID alias) (ap_OrderEmitter a') = Some sb ∧
                acts_for f a' v sb)).
Proof.
  destruct (setup_wired _ _ _ _ _ _ _ _ _ Hfresh Hok)
    as (primary & wallet & url & alias & s1 & Hp & Ha & Hw & (v & Hin & _ & Hid & Hlast) & Hsc).
  exists primary, wallet, url, alias. rewrite Ha. split; [done|]. split; [done|]. cbn zeta in *.
  set (f := mkFixed primary url (va_VenueID alias) offset now) in *.
  destruct Hw as (He & Hrest). split; [done|]. split; [done|]. split.
  { destruct (registered_last _ _ _ _ _ _ He Hlast) as (sb & Hsb & Hacts). by exists v, sb. }
  intros Hdist Halias. split.
  - intros w Hw Hh. apply list_elem_of_lookup in Hw as Hi'. destruct Hi' as [i Hi'].
    apply (registered_last _ _ _ _ _ _ He), (last_filter_only _ _ i); [done|by split; [|left]|].
    intros j y Hj [Hy [E|(E & E' & _)]]; [by eapply Hdist|].
    eapply Hdist; [exact Hj|exact Hi'|done..|]. rewrite E. symmetry. by apply Halias.
  - intros Hne. exists v.
    apply list_elem_of_lookup in Hin as [i Hi'].
    apply last_Some_elem_of, list_elem_of_filter in Hlast as [[Hh _] _].
    destruct (registered_last _ _ _ _ (va_VenueID alias) v He) as (sb & Hsb & Hacts); [|by exists sb].
    apply (last_filter_only _ _ i); [done|split; [done|by right]|].
    intros j y Hj [Hy Hys]. eapply Hdist; [exact Hj|exact Hi'|done..|]. rewrite Hid.
    destruct Hys as [E|[E _]]; [|done]. apply Halias; [by eapply list_elem_of_lookup_2|done..].
Qed.

(** ** Wallets *)

(** C35.  A start succeeds only if the Hyperliquid venues of the secrets, when their
    identifiers differ, have wallets that differ, and if no row of the table has
    the wallet of a venue under an identifier that is not set up before it: the
    index of the table allows a wallet once, in whichever spelling it is written. *)
Theorem wallets_apart {Bot} {json_bot : Codec Bot} (bot_id : Bot → Z) fuel clock now offset max d a a'
    (Hok : setup_venues bot_id fuel clock now offset max d a = Some (None, a')) :
  let vs := Vault.Venues d in
  (distinct id_of vs → distinct wallet_of vs) ∧
  (∀ i v id row, vs !! i = Some v → is_hyperliquid v = true → venues_of a !! id = Some row →
     venue_stored v row → ∃ w, w ∈ take (S i) vs ∧ is_hyperliquid w = true ∧ id_of w = id).
Proof.
  cbn zeta. destruct (setup_venues_loop _ _ _ _ _ _ _ _ _ Hok)
    as (primary & wallet & url & alias & a1 & s1 & s2 & _ & Ha & Hrun & _).
  pose proof (resolve_keeps (ap_Store a)) as Hs. rewrite Ha in Hs. cbn in Hs. subst s1.
  set (f := mkFixed _ _ _ _ _) in *. set (vs := Vault.Venues d) in *. split.
  - assert (∀ i j u v, vs !! i = Some u → vs !! j = Some v → is_hyperliquid u = true →
              is_hyperliquid v = true → wallet_of u = wallet_of v → distinct id_of vs → ¬ (i < j)%nat) as Hlt.
    { intros i j u v Hi Hj Hu Hv Hw Hd Hij.
      rewrite <- (take_drop_middle vs i u Hi), until_error_app in Hrun.
      destruct (until_error (setup_venue f) (take i vs) _) as [[e|] b1] eqn:E1; [done|].
      cbn in Hrun. destruct (setup_venue f u b1) as [[e|] b2] eqn:E2; [done|].
      destruct (setup_venue_rows _ _ _ _ Hu E2) as [(row & Hrow & Hst) _].
      assert (Hj' : drop (S i) vs !! (j - S i)%nat = Some v) by (rewrite lookup_drop; rewrite <- Hj; f_equal; lia).
      assert (i = j); [|lia]. apply (Hd i j u v Hi Hj Hu Hv).
      apply (setup_wallets _ _ _ _ _ v (id_of u) row Hrun Hj' Hv).
      - intros w [k Hk]%list_elem_of_lookup Hhw E. apply lookup_take_Some in Hk as [Hk Hlt].
        rewrite lookup_drop in Hk. assert (i = S i + k)%nat; [|lia].
        by apply (Hd _ _ u w Hi Hk Hu Hhw).
      - by rewrite Hrow, lookup_insert_eq.
      - unfold venue_stored. by rewrite <- Hw. }
    intros Hd i j u v Hi Hj Hu Hv Hw.
    destruct (decide (i < j)%nat) as [H|]; [by destruct (Hlt i j u v)|].
    destruct (decide (j < i)%nat) as [H|]; [by destruct (Hlt j i v u)|lia].
  - intros i v id row Hi Hv Hrow Hst.
    destruct (decide (Exists (named id) (take (S i) vs))) as [H|Hno]; [by apply Exists_exists in H|].
    exists v. split_and!; [rewrite (take_S_r _ _ v) by done; apply elem_of_app; right; by left|done|].
    symmetry. apply (setup_wallets _ _ _ _ _ v id row Hrun Hi Hv); [|done..].
    intros w Hw Hhw E. apply Hno, Exists_exists. exists w. split; [|done].
    rewrite (take_S_r _ _ v) by done. apply elem_of_app. by left.
Qed.

(** ** The bots that get a primary venue *)

Section Bots.
Context {HR : FairRange R} {Bot : Type} {json_bot : Codec Bot} (bot_id : Bot → Z).

Abbreviation bots_of s := (db_bots (Storage.sg_db s)).
Abbreviation assignments_of s := (db_assignments (Storage.sg_db s)).

Definition has_primary (s : Storage.Storage) (b : Z) : Prop :=
  ∃ v row, assignments_of s !! (b, v) = Some row ∧ ar_is_primary row = 1.

Lemma list_bots_same opts s s' :
  bots_of s = bots_of s' → StorageApi.ListBots opts s = ((StorageApi.ListBots opts s').1, s).
Proof.
  intros E. unfold StorageApi.ListBots. Storage.sto_run. rewrite E.
  destruct (StorageApi.cursor_of _) as [c|e]; [|done].
  destruct (StorageApi.cut_page _ _ _) as [raw next]. by destruct (mapM _ raw).
Qed.

Lemma list_bots_next token s items next :
  (StorageApi.ListBots (page_options token) s).1 = Ok (items, Some next) → items ≠ [] ∧ next ≠ ""%string.
Proof.
  unfold StorageApi.ListBots. Storage.sto_run. destruct (StorageApi.cursor_of _) as [c|e]; [|done].
  change (StorageApi.page_limit _) with 100. unfold StorageApi.cut_page.
  set (raw := StorageApi.page_rows _ _ _ _ _). destruct (100 <? Z.of_nat (length raw)) eqn:El.
  - apply Z.ltb_lt in El. destruct (mapM _ _) as [l|] eqn:Em; [|done]. cbn. intros [= <- En].
    apply mapM_Some, Forall2_length in Em. rewrite length_take in Em. split.
    + intros ->. cbn in Em. lia.
    + destruct (raw !! _); [|done]. injection En as <-. apply Paging.encodeCursor_nonempty.
  - destruct (mapM _ _); [|done]. by intros [=].
Qed.

Definition fetch (s : Storage.Storage) (token : string) : result store_error (list (Bot * Z) * option string) :=
  (StorageApi.ListBots (page_options token) s).1.

Lemma query_primary b s : ∃ r, Storage.HasPrimaryVenueAssignment b s = (r, s).
Proof.
  unfold Storage.HasPrimaryVenueAssignment. Storage.sto_run.
  destruct (Queries.GetPrimaryVenueForBot _ _) as [?|[|]]; by eexists.
Qed.

Lemma has_primary_true b s : Storage.HasPrimaryVenueAssignment b s = (Ok true, s) → has_primary s b.
Proof.
  unfold Storage.HasPrimaryVenueAssignment, Queries.GetPrimaryVenueForBot. Storage.sto_run.
  destruct (one _) as [v|[|]] eqn:E; [|done..]. intros _.
  destruct (filter _ _) as [|[[b' v'] row] k] eqn:Ef; [done|].
  assert (((b', v'), row) ∈ filter (λ a, a.1.1 = b ∧ ar_is_primary a.2 = 1)
            (go_range 0 (assignments_of s))) as [[Hb Hp] Hin]%list_elem_of_filter by (rewrite Ef; by left).
  cbn in Hb, Hp. subst b'. exists v', row. split; [|done].
  rewrite range_perm in Hin. by apply elem_of_map_to_list in Hin.
Qed.

Lemma assign_spec now v b s :
  let '(r, s') := StorageApi.UpsertVenueAssignment now v b true s in
  bots_of s' = bots_of s ∧ (is_ok r = true → has_primary s' b) ∧
  (∀ k, k.1 ≠ b → assignments_of s' !! k = assignments_of s !! k).
Proof.
  unfold StorageApi.UpsertVenueAssignment, StorageApi.require_venue, Queries.UpsertBotVenueAssignment.
  destruct (_ || _); [done|]. Storage.sto_run.
  destruct (Queries.GetVenue _ _) as [vrow|[|]]; Storage.sto_run; [|done..].
  set (s0 := Queries.clear_primary b (Storage.sg_db s)).
  assert (Hframe : ∀ k, k.1 ≠ b → db_assignments s0 !! k = assignments_of s !! k).
  { intros [b' v'] Hb. cbn in Hb. unfold s0, Queries.clear_primary. cbn. rewrite map_lookup_imap. cbn.
    destruct (assignments_of s !! (b', v')) as [arow|]; [|done]. cbn. by rewrite (proj2 (Z.eqb_neq _ _)). }
  destruct (_ && _); cbn.
  - destruct (Contains _ _); cbn; by split_and!.
  - set (d := with_assignments _ s0).
    assert (has_primary (Storage.mkStorage d (Storage.sg_stream s)) b).
    { exists (TrimSpace v), (mkAssignRow 1 (unix_milli now)). cbn. by rewrite lookup_insert_eq. }
    destruct (find _ _); cbn; (split_and!; [done|done|]); intros k Hk; rewrite lookup_insert_ne; naive_solver.
Qed.

(** What a round does, whatever becomes of it. *)
Lemma sync_bot_spec clock p bot s :
  let '(r, s') := sync_bot bot_id clock p bot s in
  bots_of s' = bots_of s ∧
  (r = None → 0 < bot_id bot.1 < 2 ^ 32 → has_primary s' (bot_id bot.1)) ∧
  (∀ k, k.1 ≠ bot_id bot.1 → assignments_of s' !! k = assignments_of s !! k) ∧
  (∀ b, r = None → has_primary s b → has_primary s' b).
Proof.
  unfold sync_bot. destruct (bot_id bot.1 <=? 0) eqn:E0.
  { apply Z.leb_le in E0. split_and!; [done|lia|done..]. }
  destruct (query_primary (u32 (bot_id bot.1)) s) as [[[|]|e] Hq]; rewrite Hq.
  - split_and!; try done. intros _ Hb. apply has_primary_true in Hq. by rewrite u32_id in Hq by lia.
  - pose proof (assign_spec (clock (bot_id bot.1)) p (bot_id bot.1) s) as H.
    destruct (StorageApi.UpsertVenueAssignment _ _ _ _ _) as [[r|e] s']; destruct H as (H1 & H2 & H3);
      (split_and!; [done|try done| |try done]); [by auto|done| |done].
    intros b _ Hb. destruct (decide (b = bot_id bot.1)) as [->|Hne]; [by auto|].
    destruct Hb as (v & row & Hv & Hrow). exists v, row. by rewrite H3.
  - by split_and!.
Qed.

Lemma sync_bots_keep clock p bots : ∀ s,
  bots_of (until_error (sync_bot bot_id clock p) bots s).2 = bots_of s.
Proof.
  induction bots as [|bot bots IH]; intros s; [done|]. cbn.
  pose proof (sync_bot_spec clock p bot s) as H.
  destruct (sync_bot bot_id clock p bot s) as [[e|] s']; destruct H as [H _]; [done|]. by rewrite IH.
Qed.

(** The pages that are read do not depend on what is assigned meanwhile. *)
Lemma sync_pages_follow s0 clock p fuel : ∀ token s bots,
  bots_of s = bots_of s0 → Paging.follow fuel (fetch s0) token = Some bots →
  sync_pages bot_id fuel clock p token s = Some (until_error (sync_bot bot_id clock p) bots s).
Proof.
  induction fuel as [|fuel IH]; intros token s bots Hs Hf; [done|]. cbn in Hf |- *.
  rewrite (list_bots_same _ _ _ Hs). fold (fetch s0 token).
  destruct (fetch s0 token) as [[items next]|e] eqn:E; [|done]. destruct next as [next|].
  - destruct (list_bots_next token s0 items next E) as [Hne Hn].
    destruct (Paging.follow fuel (fetch s0) next) as [rest|] eqn:Er; [|done].
    injection Hf as <-. rewrite until_error_app. destruct items as [|x items]; [done|].
    pose proof (sync_bots_keep clock p (x :: items) s) as Hk.
    destruct (until_error (sync_bot bot_id clock p) (x :: items) s) as [[e|] s1]; [done|].
    rewrite (proj2 (String.eqb_neq _ _)) by done. apply IH; [by rewrite <- Hs|done].
  - injection Hf as <-. destruct items as [|x items]; [done|].
    by destruct (until_error (sync_bot bot_id clock p) (x :: items) s) as [[e|] s1].
Qed.

Lemma sync_assigned clock p bots : ∀ s s',
  until_error (sync_bot bot_id clock p) bots s = (None, s') →
  (∀ bot, bot ∈ bots → 0 < bot_id bot.1 < 2 ^ 32 → has_primary s' (bot_id bot.1)) ∧
  (∀ b, has_primary s b → has_primary s' b).
Proof.
  induction bots as [|bot bots IH]; intros s s' Hrun.
  { injection Hrun as <-. split; [|done]. by intros ? ?%not_elem_of_nil. }
  cbn in Hrun. pose proof (sync_bot_spec clock p bot s) as H.
  destruct (sync_bot bot_id clock p bot s) as [[e|] s1]; [done|]. destruct H as (_ & Hp & _ & Hm).
  destruct (IH _ _ Hrun) as [IH1 IH2]. split; [|by auto].
  intros bot' [->|Hin]%elem_of_cons Hr; [by auto|by auto].
Qed.

Lemma sync_frame clock p bots k : ∀ s,
  (∀ bot, bot ∈ bots → bot_id bot.1 ≠ k.1) →
  assignments_of (until_error (sync_bot bot_id clock p) bots s).2 !! k = assignments_of s !! k.
Proof.
  induction bots as [|bot bots IH]; intros s Hne; [done|]. cbn.
  pose proof (sync_bot_spec clock p bot s) as H.
  destruct (sync_bot bot_id clock p bot s) as [[e|] s1]; destruct H as (_ & _ & Hf & _);
    rewrite <- (Hf k) by (apply not_eq_sym, Hne; by left); [done|].
  apply IH. intros b Hb. apply Hne. by right.
Qed.

(** The bots as the listing shows them, newest first. *)
Definition all_bots (s : Storage.Storage) : list (Z * bot_row) :=
  Paging.listing StorageApi.bot_key (StorageApi.bot_wanted (page_options "")) (map_to_list (bots_of s)).

(** Assigning the primary venue reads the pages to their end, within a page per
    bot, and gives a primary venue to every bot of positive 32-bit identifier but
    the last of each 101, whatever it had; it takes none away and leaves the
    assignments of other bots as they were.  An error is that of a round. *)
Theorem primaries_assigned clock primary (s : Storage.Storage) (bots : list (Bot * Z))
    (Hprimary : primary ≠ ""%string)
    (Hrange : map_Forall (λ id row, Paging.is_i64 id ∧ Paging.is_i64 (bo_last_synced_utc row)) (bots_of s))
    (Hdec : mapM StorageApi.decode_bot (all_bots s) = Some bots) :
  let done := Paging.but_every 100 bots in
  ∃ r s', syncPrimaryVenueAssignments bot_id (S (length bots)) clock primary s = Some (r, s') ∧
    (r, s') = until_error (sync_bot bot_id clock primary) done s ∧
    (r = None → ∀ b, has_primary s b ∨ (∃ bot, bot ∈ done ∧ bot_id bot.1 = b ∧ 0 < b < 2 ^ 32) → has_primary s' b) ∧
    (∀ k, (∀ bot, bot ∈ done → bot_id bot.1 ≠ k.1) → assignments_of s' !! k = assignments_of s !! k).
Proof.
  cbn zeta. assert (Hf : Paging.follow (S (length bots)) (fetch s) "" = Some (Paging.but_every 100 bots)).
  { rewrite <- (Forall2_length _ _ _ (mapM_Some_1 _ _ _ Hdec)).
    change 100%nat with (Z.to_nat 100). unfold all_bots.
    apply (Paging.follow_all StorageApi.bot_key (StorageApi.bot_wanted (page_options "")) _
             StorageApi.decode_bot 100); [| |done| |done].
    - apply (NoDup_fmap_1 snd). rewrite <- list_fmap_compose. apply NoDup_fst_map_to_list.
    - intros [id row] Hr%elem_of_map_to_list. cbn. split; apply (Hrange id row Hr).
    - intros token c Hc items next Hpage out Hout. unfold fetch, StorageApi.ListBots.
      change (StorageApi.page_limit _) with 100. cbn. rewrite Hc. cbn.
      change (StorageApi.bot_wanted (page_options token)) with (StorageApi.bot_wanted (page_options "")).
      Storage.sto_run. by rewrite Hpage, Hout. }
  pose proof (sync_pages_follow s clock primary _ _ s _ eq_refl Hf) as Hrun.
  destruct (until_error (sync_bot bot_id clock primary) (Paging.but_every 100 bots) s) as [r s'] eqn:E.
  exists r, s'. unfold syncPrimaryVenueAssignments. rewrite (proj2 (String.eqb_neq _ _)) by done.
  split_and!; [done|done| |].
  - intros -> b. destruct (sync_assigned _ _ _ _ _ E) as [H1 H2].
    intros [Hb|(bot & Hin & <- & Hb)]; [by auto|by auto].
  - intros k Hk. pose proof (sync_frame clock primary _ k s Hk) as H. by rewrite E in H.
Qed.

End Bots.

(** ** Prices *)

(** The sources in the order in which they are tried. *)
Definition tried {W Ch} (m : priceSourceMultiplexer W Ch) : list VenueID :=
  (if String.eqb (ps_primary m) "" then [] else [ps_primary m]) ++
  filter (λ id, id ≠ ps_primary m) (ps_order m).

Lemma try_sources_filter {W Ch} (m : priceSourceMultiplexer W Ch) coin ids : ∀ st,
  try_sources m coin ids st =
    (fix go ids st := match ids with
     | [] => (None, st)
     | id :: ids => match try_source m coin id st with
                    | (Some ch, st) => (Some ch, st)
                    | (None, st) => go ids st
                    end
     end) (filter (λ id, id ≠ ps_primary m) ids) st.
Proof.
  induction ids as [|id ids IH]; intros st; [done|]. cbn [try_sources].
  destruct (String.eqb_spec id (ps_primary m)) as [E|E].
  - rewrite filter_cons_False by (by intros []). apply IH.
  - rewrite filter_cons_True by done. destruct (try_source m coin id st) as [[ch|] st']; [done|]. apply IH.
Qed.

(** After a start the prices of a coin come from the websocket of the primary venue. *)
Lemma prices_from_primary {Bot} {json_bot : Codec Bot} (bot_id : Bot → Z) fuel clock now offset max d a a'
    subscribes coin p :
  fresh a → setup_venues bot_id fuel clock now offset max d a = Some (None, a') → read_primary d = Ok p →
  Socket.normalizeCoin coin ≠ ""%string →
  ∃ n id sockets, SubscribeBBO (price_source subscribes p.1.1 a') coin (ap_sockets a') = (Ok (n, id), sockets) ∧
    ap_WsClients a' !! p.1.1 = Some n ∧ (Socket.cl_venueID <$> ap_sockets a' !! n) = Some p.1.1.
Proof.
  intros Hfresh Hok Hp Hcoin. destruct (setup_wired _ _ _ _ _ _ _ _ _ Hfresh Hok)
    as (primary & wallet & url & alias & s1 & Hp' & _ & (_ & _ & Hws & _) & (v & Hin & Hh & Hid & _) & _).
  rewrite Hp in Hp'. injection Hp' as ->. cbn [fst].
  destruct (last_filter_is_Some (named primary) _ v Hin (conj Hh Hid)) as (w & Ew & _ & Hidw).
  destruct (registered_last _ _ _ _ _ _ Hws Ew) as (n & Hn & Hsock).
  assert (Hne : primary ≠ ""%string).
  { revert Hp. unfold read_primary. destruct (Vault.PrimaryVenueByType _ _) as [pv|]; [|done].
    destruct (String.eqb_spec (TrimSpace (Vault.vs_ID pv)) ""); [done|].
    destruct (String.eqb _ ""); [done|]. destruct (String.eqb _ ""); [done|]. by intros [= <- _ _]. }
  unfold SubscribeBBO, price_source, newPriceSourceMultiplexer, try_source. cbn [ps_primary ps_sources ps_order].
  assert (Hsrc : ((λ n, Some (socket_source subscribes n)) <$> ap_WsClients a') !! primary =
            Some (Some (socket_source subscribes n))) by (apply lookup_fmap_Some; by exists n).
  set (sources := (λ n, Some _) <$> ap_WsClients a') in *. clearbody sources.
  rewrite decide_False by (intros ->; by rewrite lookup_empty in Hsrc).
  rewrite (proj2 (String.eqb_neq _ _)) by done.
  match goal with |- context [mjoin ?x] => replace x with (Some (Some (socket_source subscribes n)))
    by (symmetry; exact Hsrc) end. cbn [mjoin option_join snd].
  unfold socket_source. rewrite Hsock, <- Hidw. unfold socket_of, Socket.New, Socket.SubscribeBBO. cbn [andb].
  rewrite (proj2 (String.eqb_neq _ _)) by done.
  destruct (Socket.join_topic _ _) as [id c]. rewrite Hidw. eexists n, id, _.
  split; [reflexivity|]. split; [exact Hn|]. rewrite Hsock. exact (f_equal Some Hidw).
Qed.

End Wiring.

(** ** Concrete secrets *)

#[local] Existing Instance StorageFacts.demo_json.
#[local] Existing Instance list_range.
#[local] Existing Instance list_range_fair.

Definition flags_of (b : bool) : gmap string Storage.flag := {["is_primary"%string := Storage.FlagBool b]}.
#[local] Instance demo_flag_eq : EqDecision Storage.flag.
Proof. solve_decision. Defined.
#[local] Instance demo_flags : Codec (gmap string Storage.flag) :=
  TablesFacts.table_codec [("{}"%string, ∅); ("p"%string, flags_of true); ("n"%string, flags_of false)].
#[local] Instance demo_bots : Codec Z := {| Marshal := λ b, Some (Itoa b); Unmarshal := StorageApi.ParseInt |}.
#[local] Instance demo_venue_sdk : VenueSDK := {|
  PrivateKey := string; HexToECDSA := Ok; PubkeyToAddress := id; TestnetAPIURL := "https://testnet";
  query_order := λ _ _ _, Err "offline"; info_of := λ _, Hl.mkInfo None None;
  ws_connects := λ _ _, true; ws_subscribes := λ _ _, true |}.

Definition demo_venue (id wallet key : string) (primary : bool) : VenueSecret :=
  Vault.mkVenueSecret id "Hyperliquid" "" wallet key "https://api" "" None primary.
Definition demo_secrets (vs : list VenueSecret) : Data := Vault.mkData "k" "p" "expert" vs.
Definition demo_app (s : Storage.Storage) : App :=
  mkApp s (Emitter.NewQueueEmitter []) ∅ ∅ [] [] [] ∅ [] None "" None.
Definition demo_start (d : Data) (s : Storage.Storage) : option (option venue_error * App) :=
  setup_venues (id : Z → Z) 5 id 0 fzero fone d (demo_app s).
Definition empty_storage : Storage.Storage :=
  match Storage.New 0 false empty_database with Ok s => s | Err _ => Storage.mkStorage empty_database None end.
Definition with_bot (id : Z) (s : Storage.Storage) : Storage.Storage :=
  Storage.mkStorage (with_bots (<[id := mkBotRow (Itoa id) 0]> (db_bots (Storage.sg_db s))) (Storage.sg_db s))
    (Storage.sg_stream s).

Definition first_secrets : Data :=
  demo_secrets [demo_venue "main" "0xA1" "k1" true; demo_venue "other" "0xB2" "k2" false;
                demo_venue "third" "0xb2" "k3" false].
(** The second venue becomes the primary. *)
Definition second_secrets : Data :=
  demo_secrets [demo_venue "main" "0xA1" "k1" false; demo_venue "other" "0xB2" "k2" true].

Definition started (r : option (option venue_error * App)) : App :=
  match r with Some (None, a) => a | _ => demo_app empty_storage end.
Definition first_app : App := started (demo_start first_secrets (with_bot 7 empty_storage)).

(** Who signs for a venue. *)
Definition signer (a : App) (id : VenueID) : option string :=
  sb ← Emitter.emitterFor id (ap_OrderEmitter a); Some (ex_key (sb_exchange sb)).

Lemma orders_routed_witness :
  (signer first_app <$> ["main"; "other"; "third"; Storage.defaultHyperliquidVenueID; "fourth"]%string) =
    [Some "k1"; Some "k2"; Some "k3"; Some "k1"; None]%string ∧
  (sb_gate <$> omap (λ id, Emitter.emitterFor id (ap_OrderEmitter first_app)) ["main"; "other"; "third"]%string) =
    [0%nat; 1%nat; 1%nat] ∧
  ∃ f, wired f (Vault.Venues first_secrets) first_app.
Proof.
  split; [vm_compute; reflexivity|]. split; [vm_compute; reflexivity|].
  destruct (orders_routed (id : Z → Z) 5 id 0 fzero fone first_secrets (demo_app (with_bot 7 empty_storage)) first_app)
    as (primary & wallet & url & alias & _ & _ & H & _).
  - split_and!; reflexivity.
  - vm_compute. reflexivity.
  - eexists. exact H.
Defined.

(** After the primary venue has changed, the default alias is still the old one: it
    is handed to the new primary venue after it was registered for itself, and its
    orders are signed with the key of another account. *)
Example primary_change_misroutes :
  let a := started (demo_start second_secrets (ap_Store first_app)) in
  (Storage.ResolveDefaultAlias (ap_Store first_app)).1 = Ok (mkAssignment "main" "0xA1" true) ∧
  (signer a <$> ["main"; "other"]%string) = [Some "k2"; Some "k2"]%string.
Proof. vm_compute. done. Qed.

Definition two_spellings : Data :=
  demo_secrets [demo_venue "main" "0xA1" "k1" true; demo_venue "second" " 0xA1" "k1" false].
Definition renamed : Data := demo_secrets [demo_venue "renamed" "0xA1" "k1" true].

Lemma wallets_apart_witness :
  distinct wallet_of (Vault.Venues first_secrets) ∧
  option_map fst (demo_start two_spellings empty_storage) =
    Some (Some (PersistVenue (unique_message "venues.type, venues.wallet"))).
Proof.
  split; [|vm_compute; reflexivity].
  apply (wallets_apart (id : Z → Z) 5 id 0 fzero fone first_secrets (demo_app (with_bot 7 empty_storage)) first_app).
  - vm_compute. reflexivity.
  - intros [|[|[|i]]] [|[|[|j]]] u v; intros Hu Hv _ _ E;
      try discriminate Hu; try discriminate Hv; injection Hu as <-; injection Hv as <-;
      vm_compute in E; first [reflexivity|discriminate E].
Defined.

(** A venue that was given another identifier cannot be started with. *)
Example renamed_venue_refused :
  option_map fst (demo_start renamed (ap_Store first_app)) =
    Some (Some (PersistVenue (unique_message "venues.type, venues.wallet"))).
Proof. vm_compute. reflexivity. Qed.

(** Of a hundred and two bots the second to last of the listing is left out. *)
Definition many_bots : Storage.Storage := fold_right with_bot (ap_Store first_app) (seqZ 1 102).

Lemma primaries_assigned_witness :
  ∃ s', syncPrimaryVenueAssignments (id : Z → Z) 103 id "main" many_bots = Some (None, s') ∧
    has_primary s' 1 ∧ ¬ has_primary s' 2 ∧ has_primary s' 3.
Proof.
  destruct (primaries_assigned (id : Z → Z) id "main" many_bots ((λ b, (b, 0)) <$> reverse (seqZ 1 102)))
    as (r & s' & Hrun & Heq & Hall & Hframe).
  - discriminate.
  - refine (proj1 (bool_decide_spec _) _). vm_compute. exact I.
  - vm_compute. reflexivity.
  - assert (r = None) as -> by (etransitivity; [exact (f_equal fst Heq)|vm_compute; reflexivity]).
    exists s'. split; [exact Hrun|].
    assert (Hin : ∀ bot, bool_decide (bot ∈ Paging.but_every 100 ((λ b, (b, 0)) <$> reverse (seqZ 1 102))) = true →
              0 < bot.1 < 2 ^ 32 → has_primary s' bot.1).
    { intros bot Hb Hpos. apply (Hall eq_refl). right. exists bot. apply bool_decide_eq_true in Hb.
      split; [exact Hb|split; [reflexivity|exact Hpos]]. }
    split; [apply (Hin (1, 0)); [vm_compute; reflexivity|cbn [fst]; lia]|].
    split; [|apply (Hin (3, 0)); [vm_compute; reflexivity|cbn [fst]; lia]].
    intros (v & row & Hv & _). rewrite Hframe in Hv.
    + assert (H : map_Forall (λ k _, k.1 ≠ 2) (db_assignments (Storage.sg_db many_bots)))
        by (refine (proj1 (bool_decide_spec _) _); vm_compute; exact I).
      exact (H _ _ Hv eq_refl).
    + intros bot Hb. apply (proj1 (Forall_forall (λ bot : Z * Z, bot.1 ≠ 2) _)) with (2 := Hb).
      refine (proj1 (bool_decide_spec _) _). vm_compute. exact I.
Defined.

End VenuesFacts.
