(* ===== verification/SseFacts.v ===== *)
(** * What a client of the streams reads

    The frames are read back by the rules for event streams, and the prices of each
    coin reach the response in order and none is lost while the client is there. *)

From S2P Require Import Prelude GoFloat GoString OrderId Domain Store Tables Hl Stream ApiRecords Sse.
Import GoFloat GoString Domain Tables Hl Stream Sse.

Module SseFacts.

(** ** Reading an event stream

    The rules of the HTML standard: lines end with LF, CR or both; [event] names the
    event, [data] adds a line to it, a blank line dispatches it, and a line that
    begins with a colon is a comment. *)

Definition lf : Ascii.ascii := Ascii.ascii_of_nat 10.
Definition cr : Ascii.ascii := Ascii.ascii_of_nat 13.

Fixpoint lines_of (cur s : string) : list string :=
  match s with
  | EmptyString => []
  | String c s =>
    if Ascii.eqb c lf then cur :: lines_of "" s
    else if Ascii.eqb c cr then
      match s with
      | String d s' => cur :: (if Ascii.eqb d lf then lines_of "" s' else lines_of "" s)
      | EmptyString => [cur]
      end
    else lines_of (cur +:+ String c EmptyString) s
  end.

Record event_source := mkSource { es_event : string; es_data : option string; es_out : list (string * string) }.

Definition field_value (v : string) : string :=
  match v with String c v' => if Ascii.eqb c (Ascii.ascii_of_nat 32) then v' else v | EmptyString => v end.

Definition read_line (s : event_source) (line : string) : event_source :=
  if String.eqb line "" then
    match es_data s with
    | None => mkSource "" None (es_out s)
    | Some d => mkSource "" None (es_out s ++ [(if String.eqb (es_event s) "" then "message" else es_event s, d)])
    end
  else if HasPrefix line "event:" then
    mkSource (field_value (TrimPrefix line "event:")) (es_data s) (es_out s)
  else if HasPrefix line "data:" then
    let v := field_value (TrimPrefix line "data:") in
    mkSource (es_event s) (Some (match es_data s with None => v | Some d => d +:+ LF +:+ v end)) (es_out s)
  else s.

Definition read_events (body : string) : list (string * string) :=
  es_out (fold_left read_line (lines_of "" body) (mkSource "" None [])).

(** Text on one line. *)
Fixpoint one_line (s : string) : bool :=
  match s with
  | EmptyString => true
  | String c s => negb (Ascii.eqb c lf) && negb (Ascii.eqb c cr) && one_line s
  end.

Lemma lines_of_line x : ∀ cur rest, one_line x = true →
  lines_of cur (x +:+ LF +:+ rest) = (cur +:+ x)%string :: lines_of "" rest.
Proof.
  induction x as [|c x IH]; intros cur rest Hx; [by rewrite append_nil|].
  cbn in Hx. rewrite !andb_true_iff, !negb_true_iff in Hx. destruct Hx as [[H1 H2] H3].
  change (lines_of cur (String c (x +:+ LF +:+ rest)) = (cur +:+ String c x)%string :: lines_of "" rest).
  cbn [lines_of]. rewrite H1, H2, IH by done. f_equal. apply append_assoc.
Qed.

Lemma one_line_app a b : one_line (a +:+ b) = one_line a && one_line b.
Proof.
  induction a as [|c a IH]; [done|]. change (one_line (String c (a +:+ b)) = one_line (String c a) && one_line b).
  cbn. by rewrite IH, !andb_assoc.
Qed.

Lemma read_frame event data rest out :
  one_line event = true → one_line data = true → event ≠ ""%string →
  fold_left read_line (lines_of "" (frame event data +:+ rest)) (mkSource "" None out) =
  fold_left read_line (lines_of "" rest) (mkSource "" None (out ++ [(event, data)])).
Proof.
  intros He Hd Hne. unfold frame. rewrite !append_assoc.
  change ("event: " +:+ event +:+ LF +:+ "data: " +:+ data +:+ LF +:+ LF +:+ rest)%string
    with ("event: " +:+ (event +:+ LF +:+ ("data: " +:+ data +:+ LF +:+ LF +:+ rest)))%string.
  rewrite <- (append_assoc "event: " event), lines_of_line by (by rewrite one_line_app, He).
  rewrite <- (append_assoc "data: " data), lines_of_line by (by rewrite one_line_app, Hd).
  change (LF +:+ rest)%string with ("" +:+ LF +:+ rest)%string. rewrite lines_of_line by done.
  assert (He' : ∀ st, read_line st ("event: " +:+ event) = mkSource event (es_data st) (es_out st)) by done.
  assert (Hd' : ∀ st, es_data st = None →
    read_line st ("data: " +:+ data) = mkSource (es_event st) (Some data) (es_out st)) by (by intros [? d ?] [= ->]).
  cbn [fold_left]. f_equal. rewrite He'. cbn [es_data es_out]. rewrite Hd' by done.
  unfold read_line. cbn. destruct (String.eqb_spec event ""); done.
Qed.

(** ** What a client has read *)

Definition reads (body : string) (out : list (string * string)) : Prop := ∀ rest,
  fold_left read_line (lines_of "" (body +:+ rest)) (mkSource "" None []) =
  fold_left read_line (lines_of "" rest) (mkSource "" None out).

Lemma reads_events body out : reads body out → read_events body = out.
Proof. intros H. specialize (H ""%string). rewrite append_nil in H. unfold read_events. by rewrite H. Qed.

Lemma reads_frame body out event data :
  one_line event = true → one_line data = true → event ≠ ""%string →
  reads body out → reads (body +:+ frame event data) (out ++ [(event, data)]).
Proof. intros He Hd Hne H rest. by rewrite append_assoc, H, read_frame. Qed.

(** The events of the rounds. *)
Definition events_of {E} (rounds : list (round E)) : list E :=
  omap (λ r, match r with Event e _ => Some e | _ => None end) rounds.

(** A round that ends the loop. *)
Definition ends {E} (write : E → result string (option string)) (r : round E) : Prop :=
  match r with
  | Event e written => is_ok (write e) = false ∨ written = false
  | ChannelClosed | ContextEnded => True
  end.

Section Loop.
Context {E : Type} (write : E → result string (option string)) (ev : E → option (string * string)) (P : E → Prop).
Hypothesis Hwrite : ∀ e f, P e → write e = Ok f →
  match f with
  | None => ev e = None
  | Some f => ∃ n d, ev e = Some (n, d) ∧ f = frame n d ∧ one_line n = true ∧ one_line d = true ∧ n ≠ ""%string
  end.

Lemma loop_reads rounds : ∀ body out, Forall P (events_of rounds) → reads body out →
  let '(body', runs) := stream_loop write rounds body in
  ∃ seen rest, rounds = seen ++ rest ∧ reads body' (out ++ omap ev (events_of seen)) ∧
    match rest with [] => runs = true | r :: _ => runs = false ∧ ends write r end.
Proof.
  induction rounds as [|r rounds IH]; intros body out HP Hr.
  { exists [], []. cbn. by rewrite app_nil_r. }
  assert (Hstop : ends write r → ∃ seen rest, r :: rounds = seen ++ rest ∧
            reads body (out ++ omap ev (events_of seen)) ∧
            match rest with [] => false = true | r :: _ => false = false ∧ ends write r end).
  { intros He. exists [], (r :: rounds). cbn. by rewrite app_nil_r. }
  destruct r as [e written| |]; cbn [stream_loop]; [|by apply Hstop..].
  destruct (write e) as [f|msg] eqn:Ew; [|apply Hstop; left; by rewrite Ew].
  apply Forall_cons in HP as [He HP]. pose proof (Hwrite e f He Ew) as Hf. destruct f as [f|].
  - destruct Hf as (n & d & Hev & -> & Hn & Hd & Hne).
    destruct written; [|apply Hstop; by right].
    specialize (IH (body +:+ frame n d)%string (out ++ [(n, d)]) HP (reads_frame _ _ _ _ Hn Hd Hne Hr)).
    destruct (stream_loop write rounds _) as [body' runs]. destruct IH as (seen & rest & -> & Hreads & Hrest).
    exists (Event e true :: seen), rest. split; [done|]. split; [|done]. cbn. rewrite Hev.
    by rewrite <- app_assoc in Hreads.
  - specialize (IH body out HP Hr). destruct (stream_loop write rounds body) as [body' runs].
    destruct IH as (seen & rest & -> & Hreads & Hrest). exists (Event e written :: seen), rest.
    split; [done|]. split; [|done]. cbn. by rewrite Hf.
Qed.

End Loop.

(** [json.Marshal] writes control characters as escapes and puts no line breaks
    between values. *)
Class OneLine (A : Type) {c : Codec A} := marshal_one_line : ∀ (a : A) raw, Marshal a = Some raw → one_line raw = true.

Section Streams.
Context {json_entry : Codec ApiRecords.OrderLogEntry} {json_system : Codec SystemEvent}.
Context {line_entry : OneLine ApiRecords.OrderLogEntry} {line_system : OneLine SystemEvent}.

(** The type and the payload of an event. *)
Definition order_event (maxMultiplier : f64) (evt : StreamEvent) : option (string * string) :=
  entry ← ApiRecords.stream_entry maxMultiplier evt; data ← Marshal entry; Some (entry_type (se_Type evt), data).
Definition system_event (evt : SystemEvent) : option (string * string) :=
  data ← Marshal evt; Some (("system_" +:+ sy_Level evt)%string, data).

Lemma order_frames maxMultiplier evt f : True → writeSSEFrame maxMultiplier evt = Ok f →
  match f with
  | None => order_event maxMultiplier evt = None
  | Some f => ∃ n d, order_event maxMultiplier evt = Some (n, d) ∧ f = frame n d ∧
      one_line n = true ∧ one_line d = true ∧ n ≠ ""%string
  end.
Proof.
  intros _. unfold writeSSEFrame, order_event. destruct (ApiRecords.stream_entry maxMultiplier evt) as [entry|]; [|by intros [= <-]].
  destruct (Marshal entry) as [data|] eqn:Em; [|done]. intros [= <-]. cbn. rewrite Em. eexists _, _.
  split_and!; [reflexivity|reflexivity| |exact (marshal_one_line _ _ Em)|]; by destruct (se_Type evt).
Qed.

(** A client of the order stream that follows the rules for event streams has
    read, whenever it looks, the events up to the round that ended the loop, in
    order, each with its type and payload, and nothing else; an event without its
    payload is left out.  The loop ends only when the channel is closed, the context
    is done, or a payload cannot be marshalled or written. *)
Theorem orders_read maxMultiplier (rounds : list (round StreamEvent)) :
  let '(body, runs) := orders_body maxMultiplier rounds in
  ∃ seen rest, rounds = seen ++ rest ∧
    read_events body = omap (order_event maxMultiplier) (events_of seen) ∧
    match rest with [] => runs = true | r :: _ => runs = false ∧ ends (writeSSEFrame maxMultiplier) r end.
Proof.
  pose proof (loop_reads (writeSSEFrame maxMultiplier) (order_event maxMultiplier)
    (λ _, True) (order_frames maxMultiplier) rounds "" []) as H.
  unfold orders_body. destruct (stream_loop _ rounds "") as [body runs].
  destruct H as (seen & rest & E & Hreads & Hrest); [by apply Forall_true|done|].
  exists seen, rest. split; [done|]. split; [by apply reads_events in Hreads|done].
Qed.

(** The same for the system events, whose levels are single words; the comment that
    completes the handshake is skipped. *)
Lemma system_read handshake (rounds : list (round SystemEvent)) :
  Forall (λ evt, one_line (sy_Level evt) = true) (events_of rounds) →
  let '(body, runs) := VisitStreamSystemEventsResponse handshake rounds in
  handshake = true →
  ∃ seen rest, rounds = seen ++ rest ∧ read_events body = omap system_event (events_of seen) ∧
    match rest with [] => runs = true | r :: _ => runs = false ∧ ends writeSystemSSEFrame r end.
Proof.
  intros Hlevel. destruct handshake; [|done].
  assert (Hw : ∀ e f, one_line (sy_Level e) = true → writeSystemSSEFrame e = Ok f → match f with
    | None => system_event e = None
    | Some f => ∃ n d, system_event e = Some (n, d) ∧ f = frame n d ∧ one_line n = true ∧ one_line d = true ∧ n ≠ ""%string
    end).
  { intros e f He. unfold writeSystemSSEFrame, system_event. destruct (Marshal e) as [data|] eqn:Em; [|done].
    intros [= <-]. cbn -[one_line String.append]. eexists _, _.
    split_and!; [reflexivity|reflexivity|by rewrite one_line_app, He|exact (marshal_one_line _ _ Em)|done]. }
  pose proof (loop_reads writeSystemSSEFrame system_event _ Hw rounds (": connected" +:+ LF +:+ LF) []) as H.
  unfold VisitStreamSystemEventsResponse. destruct (stream_loop _ rounds _) as [body runs].
  destruct H as (seen & rest & E & Hreads & Hrest); [done|done|]. intros _. exists seen, rest. split; [done|].
  split; [by apply reads_events in Hreads|done].
Qed.

End Streams.

(** ** The prices of several coins *)

Definition of_coin (k : string) (l : list BestBidOffer) : list BestBidOffer := filter (λ b, bb_Coin b = k) l.
Definition accepted (i : nat) (log : list (nat * BestBidOffer)) : list BestBidOffer :=
  omap (λ x, if decide (x.1 = i) then Some x.2 else None) log.

(** What a forwarder still has to hand on. *)
Definition pending (f : forwarder) (ch : chan BestBidOffer) : list BestBidOffer :=
  match f with Waiting => ch_buf ch | Holding b => b :: ch_buf ch | Finished => [] end.

(** The state of a coin [k], of which its subscription accepted [all]: a prefix has
    been written, and while the writer runs the rest is in [updates] and with the
    forwarder, unless that has returned. *)
Definition coin_ok (k : string) (all : list BestBidOffer) (p : prices) (f : forwarder) (ch : chan BestBidOffer) : Prop :=
  Forall (λ b, bb_Coin b = k) (pending f ch ++ ch_buf ch) ∧
  of_coin k (pr_out p) `prefix_of` all ∧
  (pr_writing p = true →
     ∃ rest, all = of_coin k (pr_out p) ++ of_coin k (ch_buf (pr_updates p)) ++ rest ∧
             (f ≠ Finished → rest = pending f ch)).

Definition prices_ok (coins : list string) (all : nat → list BestBidOffer) (p : prices) : Prop :=
  length (pr_subs p) = length coins ∧ length (pr_fwds p) = length coins ∧
  (pr_writing p = true → pr_cancelled p = false) ∧
  (pr_writing p = true → pr_ctxDone p = false →
     Forall (λ ch, ch_closed ch = false) (pr_subs p) ∧ Forall (λ f, f ≠ Finished) (pr_fwds p) ∧
     ch_closed (pr_updates p) = false) ∧
  ∀ i k f ch, coins !! i = Some k → pr_fwds p !! i = Some f → pr_subs p !! i = Some ch →
    coin_ok k (all i) p f ch.

Section Merge.
Context (coins : list string) (Hcoins : NoDup coins) (Hsome : coins ≠ []).
Implicit Types (p : prices) (all : nat → list BestBidOffer).

Lemma of_coin_app k l l' : of_coin k (l ++ l') = of_coin k l ++ of_coin k l'.
Proof. apply filter_app. Qed.
Lemma of_coin_mine k b : bb_Coin b = k → of_coin k [b] = [b].
Proof. intros <-. unfold of_coin. by rewrite filter_cons_True. Qed.
Lemma of_coin_other k b : bb_Coin b ≠ k → of_coin k [b] = [].
Proof. intros H. unfold of_coin. by rewrite filter_cons_False. Qed.

Lemma try_recv_Some {A} (ch : chan A) x ch' : try_recv ch = (Some x, ch') →
  ch_buf ch = x :: ch_buf ch' ∧ ch_cap ch' = ch_cap ch ∧ ch_closed ch' = ch_closed ch.
Proof. unfold try_recv. destruct (ch_buf ch); [done|]. by intros [= <- <-]. Qed.

(** The places that a step of coin [j]'s forwarder leaves alone. *)
Lemma receives_ok all i p p' : prices_ok coins all p → forwarder_receives i p = Some p' → prices_ok coins all p'.
Proof.
  intros (H1 & H2 & H3 & H4 & H5). unfold forwarder_receives.
  destruct (pr_fwds p !! i) as [[| |]|] eqn:Ef; [|done..]. destruct (pr_subs p !! i) as [ch|] eqn:Es; [|done].
  destruct (try_recv ch) as [[b|] ch'] eqn:Er.
  - apply try_recv_Some in Er as (Eb & _ & Ecl). intros [= <-]. unfold prices_ok. cbn. rewrite !length_insert.
    split_and!; [done..| |].
    + intros Hw Hc. destruct (H4 Hw Hc) as (Ho & Hf & Hu). split_and!; [|by apply Forall_insert|done].
      apply Forall_insert; [done|]. rewrite Ecl. by apply (Forall_lookup_1 _ _ _ _ Ho Es).
    + intros j k f ch1 Hk Hf Hch. destruct (decide (i = j)) as [->|Hne].
      * rewrite list_lookup_insert_eq in Hf by (by eapply lookup_lt_Some).
        rewrite list_lookup_insert_eq in Hch by (by eapply lookup_lt_Some). injection Hf as <-. injection Hch as <-.
        destruct (H5 j k Waiting ch Hk Ef Es) as (Ha & Hp & Hw). unfold coin_ok. cbn in *.
        rewrite Eb in Ha. split_and!; [|done|].
        -- apply Forall_app in Ha as [Ha _]. apply Forall_cons in Ha as [Ha1 Ha2]. by constructor; [|apply Forall_app].
        -- intros Hwr. destruct (Hw Hwr) as (rest & E & Hrest). exists rest. split; [done|]. intros _.
           rewrite <- Eb. by apply Hrest.
      * rewrite list_lookup_insert_ne in Hf by done. rewrite list_lookup_insert_ne in Hch by done. by apply (H5 j k f ch1).
  - destruct (ch_closed ch') eqn:Ecl; [|done]. intros [= <-].
    assert (ch' = ch ∧ ch_buf ch = []) as [-> Eb]
      by (unfold try_recv in Er; destruct (ch_buf ch); [by injection Er as <-|done]).
    unfold prices_ok. cbn. rewrite !length_insert. split_and!; [done..| |].
    + intros Hw Hc. destruct (H4 Hw Hc) as (Ho & _). pose proof (Forall_lookup_1 _ _ _ _ Ho Es). cbn in *. congruence.
    + intros j k f ch1 Hk Hf Hch. destruct (decide (i = j)) as [->|Hne].
      * rewrite list_lookup_insert_eq in Hf by (by eapply lookup_lt_Some). injection Hf as <-.
        rewrite Es in Hch. injection Hch as <-.
        destruct (H5 j k Waiting ch Hk Ef Es) as (Ha & Hp & Hw). unfold coin_ok. cbn in *.
        split_and!; [by apply Forall_app in Ha as [_ ?]|done|].
        intros Hwr. destruct (Hw Hwr) as (rest & E & _). by exists rest.
      * rewrite list_lookup_insert_ne in Hf by done. by apply (H5 j k f ch1).
Qed.

Lemma coins_differ i j k k' : coins !! i = Some k → coins !! j = Some k' → i ≠ j → k ≠ k'.
Proof. intros Hi Hj Hne ->. by apply Hne, (NoDup_lookup coins i j k'). Qed.

Lemma sends_ok all i p p' : prices_ok coins all p → forwarder_sends i p = Some p' → prices_ok coins all p'.
Proof.
  intros (H1 & H2 & H3 & H4 & H5). unfold forwarder_sends.
  destruct (pr_fwds p !! i) as [[|b|]|] eqn:Ef; [done| |done..].
  destruct (_ <? _)%nat eqn:El; [|done]. intros [= <-]. unfold prices_ok. cbn. rewrite length_insert.
  assert (Eb : ch_buf (try_send b (pr_updates p)) = ch_buf (pr_updates p) ++ [b] ∧
               ch_closed (try_send b (pr_updates p)) = ch_closed (pr_updates p))
    by (unfold try_send; by rewrite El). destruct Eb as [Eb Ecl].
  assert (is_Some (pr_subs p !! i)) as [ch Es].
  { apply lookup_lt_is_Some. rewrite H1, <- H2. by eapply lookup_lt_Some. }
  assert (is_Some (coins !! i)) as [ki Eki].
  { apply lookup_lt_is_Some. rewrite <- H2. by eapply lookup_lt_Some. }
  destruct (H5 i ki (Holding b) ch Eki Ef Es) as (Hai & _). cbn in Hai.
  apply Forall_cons in Hai as [Hb Hai].
  split_and!; [done..| |].
  - intros Hw Hc. destruct (H4 Hw Hc) as (Ho & Hf & Hu). split_and!; [done|by apply Forall_insert|by rewrite Ecl].
  - intros j k f ch1 Hk Hf Hch. destruct (decide (i = j)) as [->|Hne].
    + rewrite list_lookup_insert_eq in Hf by (by eapply lookup_lt_Some). injection Hf as <-.
      rewrite Es in Hch. injection Hch as <-. rewrite Eki in Hk. injection Hk as <-.
      destruct (H5 j ki (Holding b) ch Eki Ef Es) as (_ & Hp & Hw). unfold coin_ok. cbn in *.
      split_and!; [done|done|]. intros Hwr. destruct (Hw Hwr) as (rest & E & Hrest). exists (ch_buf ch).
      split; [|done]. rewrite Eb, of_coin_app, of_coin_mine, E, Hrest by done. by rewrite <- !app_assoc.
    + rewrite list_lookup_insert_ne in Hf by done.
      destruct (H5 j k f ch1 Hk Hf Hch) as (Ha & Hp & Hw). unfold coin_ok. cbn. split_and!; [done|done|].
      intros Hwr. destruct (Hw Hwr) as (rest & E & Hrest). exists rest. split; [|done].
      rewrite Eb, of_coin_app, of_coin_other, app_nil_r; [done|].
      rewrite Hb. by apply (coins_differ i j).
Qed.

Lemma returns_ok all i p p' : prices_ok coins all p → forwarder_returns i p = Some p' → prices_ok coins all p'.
Proof.
  intros (H1 & H2 & H3 & H4 & H5) Hs. unfold forwarder_returns in Hs.
  assert (pr_ctxDone p = true ∧ p' = with_fwd i Finished p) as [Hc ->]
    by (destruct (pr_fwds p !! i) as [[]|]; by destruct (pr_ctxDone p); simplify_eq).
  unfold prices_ok. cbn. rewrite length_insert. split_and!; [done..|by rewrite Hc|].
  intros j k f ch Hk Hf Hch. destruct (decide (i = j)) as [->|Hne].
  - assert (is_Some (pr_fwds p !! j)) as [f0 Ef0].
    { apply lookup_lt_is_Some. rewrite H2. by eapply lookup_lt_Some. }
    rewrite list_lookup_insert_eq in Hf by (by eapply lookup_lt_Some). injection Hf as <-.
    destruct (H5 j k f0 ch Hk Ef0 Hch) as (Ha & Hp & Hw). unfold coin_ok. cbn in *.
    split_and!; [by apply Forall_app in Ha as [_ ?]|done|].
    intros Hwr. destruct (Hw Hwr) as (rest & E & _). by exists rest.
  - rewrite list_lookup_insert_ne in Hf by done. by apply (H5 j k f ch).
Qed.

Lemma closer_ok all p p' : prices_ok coins all p → closer p = Some p' → prices_ok coins all p'.
Proof.
  intros (H1 & H2 & H3 & H4 & H5). unfold closer.
  destruct (forallb is_finished (pr_fwds p)) eqn:Ef; [|done].
  destruct (ch_closed (pr_updates p)) eqn:Ecl; [done|]. cbn. intros [= <-]. unfold prices_ok. cbn.
  split_and!; [done..| |done].
  intros Hw Hc. destruct (H4 Hw Hc) as (Ho & Hf & _). exfalso.
  destruct (pr_fwds p) as [|f fs]; [by destruct coins|]. apply Forall_cons in Hf as [Hf _].
  cbn in Ef. by destruct f.
Qed.

Lemma stop_ok all p : prices_ok coins all p → prices_ok coins all (stop_writing p).
Proof.
  intros (H1 & H2 & H3 & H4 & H5). unfold prices_ok. cbn. split_and!; [done..|].
  intros j k f ch Hk Hf Hch. destruct (H5 j k f ch Hk Hf Hch) as (Ha & Hp & Hw). by split_and!.
Qed.

Lemma writes_ok all written p p' : prices_ok coins all p → writer_receives written p = Some p' → prices_ok coins all p'.
Proof.
  intros H. unfold writer_receives. destruct (pr_writing p) eqn:Ew; [|done].
  destruct (try_recv (pr_updates p)) as [[b|] ch] eqn:Er.
  - apply try_recv_Some in Er as (Eb & _ & Ecl). intros [= <-]. destruct written; cycle 1.
    + destruct H as (H1 & H2 & H3 & H4 & H5). unfold prices_ok. cbn. split_and!; [done..|].
      intros j k f ch1 Hk Hf Hch. destruct (H5 j k f ch1 Hk Hf Hch) as (Ha & Hp & Hw). by split_and!.
    + destruct H as (H1 & H2 & H3 & H4 & H5). unfold prices_ok. cbn. rewrite Ecl. split_and!; [done..|].
      intros j k f ch1 Hk Hf Hch. destruct (H5 j k f ch1 Hk Hf Hch) as (Ha & Hp & Hw).
      destruct (Hw Ew) as (rest & E & Hrest). rewrite Eb in E. change (b :: ch_buf ch) with ([b] ++ ch_buf ch) in E.
      rewrite of_coin_app, <- app_assoc, app_assoc, <- of_coin_app in E. unfold coin_ok. cbn.
      split_and!; [done| |]; [by eexists|]. intros _. by exists rest.
  - destruct (ch_closed ch); [|done]. intros [= <-]. by apply stop_ok.
Qed.

Lemma end_ok all p : prices_ok coins all p → prices_ok coins all (end_request p).
Proof. intros (H1 & H2 & H3 & H4 & H5). unfold prices_ok. cbn. by split_and!. Qed.

Lemma close_ok all i p p' : prices_ok coins all p → close_sub i p = Some p' → prices_ok coins all p'.
Proof.
  intros (H1 & H2 & H3 & H4 & H5). unfold close_sub. destruct (pr_subs p !! i) as [ch|] eqn:Es; [|done].
  destruct (pr_ctxDone p || pr_cancelled p) eqn:Ec; [|done]. intros [= <-]. unfold prices_ok. cbn.
  rewrite length_insert. split_and!; [done..| |].
  - intros Hw Hc. rewrite Hc, (H3 Hw) in Ec. done.
  - intros j k f ch1 Hk Hf Hch. destruct (decide (i = j)) as [->|Hne].
    + rewrite list_lookup_insert_eq in Hch by (by eapply lookup_lt_Some). injection Hch as <-.
      by destruct (H5 j k f ch Hk Hf Es).
    + rewrite list_lookup_insert_ne in Hch by done. by apply (H5 j k f ch1).
Qed.

Lemma publish_ok all all' i b p p' k :
  coins !! i = Some k → bb_Coin b = k → all' i = all i ++ [b] → (∀ j, j ≠ i → all' j = all j) →
  prices_ok coins all p → publish_price i b p = Some p' → prices_ok coins all' p'.
Proof.
  intros Hk Hb Hall Hall' (H1 & H2 & H3 & H4 & H5). unfold publish_price.
  destruct (pr_subs p !! i) as [ch|] eqn:Es; [|done].
  destruct (negb (ch_closed ch) && (length (ch_buf ch) <? ch_cap ch)%nat) eqn:E; [|done]. intros [= <-].
  apply andb_true_iff in E as [Eo El]. unfold try_send. rewrite El.
  unfold prices_ok. cbn. rewrite length_insert. split_and!; [done..| |].
  - intros Hw Hc. destruct (H4 Hw Hc) as (Ho & Hf & Hu). split_and!; [|done..].
    apply Forall_insert; [done|]. cbn. by apply negb_true_iff in Eo.
  - intros j k' f ch1 Hk' Hf Hch. destruct (decide (i = j)) as [<-|Hne].
    + rewrite list_lookup_insert_eq in Hch by (by eapply lookup_lt_Some). injection Hch as <-.
      rewrite Hk in Hk'. injection Hk' as <-. rewrite Hall.
      destruct (H5 i k f ch Hk Hf Es) as (Ha & Hp & Hw). apply Forall_app in Ha as [Ha1 Ha2].
      assert (Hpend : f ≠ Finished → pending f (mkChan (ch_buf ch ++ [b]) (ch_cap ch) (ch_closed ch)) =
                                     pending f ch ++ [b]) by (by destruct f).
      unfold coin_ok. cbn [ch_buf]. split_and!.
      * apply Forall_app. split; [|by apply Forall_app; split; [|constructor]].
        destruct (decide (is_finished f = true)) as [Hff|Hff]; [by destruct f; try done; constructor|].
        rewrite Hpend by (by intros ->). by apply Forall_app; split; [|constructor].
      * by apply prefix_app_r.
      * intros Hwr. destruct (Hw Hwr) as (rest & E & Hrest). exists (rest ++ [b]). split.
        -- cbn. rewrite E, <- !app_assoc. done.
        -- intros Hnf. by rewrite Hpend, Hrest.
    + rewrite list_lookup_insert_ne in Hch by done. rewrite Hall' by done. by apply (H5 j k' f ch1).
Qed.

Lemma step_ok all p p' : prices_ok coins all p → prices_step p p' → prices_ok coins all p'.
Proof.
  intros H [i Hs|i Hs|i Hs|Hs|written Hs|Hs].
  - by eapply receives_ok.
  - by eapply sends_ok.
  - by eapply returns_ok.
  - by eapply closer_ok.
  - by eapply writes_ok.
  - unfold writer_returns in Hs. destruct (pr_writing p && pr_ctxDone p); [|done].
    injection Hs as <-. by apply stop_ok.
Qed.

(** The room in [updates] does not change. *)
Definition room p : nat := ch_cap (pr_updates p).

Lemma step_room p p' : prices_step p p' → room p' = room p.
Proof.
  unfold room. intros [i Hs|i Hs|i Hs|Hs|written Hs|Hs]; revert Hs.
  - unfold forwarder_receives. destruct (pr_fwds p !! i) as [[]|], (pr_subs p !! i); try done.
    destruct (try_recv _) as [[b|] ch']; [by intros [= <-]|]. destruct (ch_closed ch'); [by intros [= <-]|done].
  - unfold forwarder_sends. destruct (pr_fwds p !! i) as [[]|]; try done.
    destruct (_ <? _)%nat eqn:E; [|done]. intros [= <-]. cbn. unfold try_send. by rewrite E.
  - unfold forwarder_returns. destruct (pr_fwds p !! i) as [[]|], (pr_ctxDone p); try done; by intros [= <-].
  - unfold closer. destruct (_ && _); [by intros [= <-]|done].
  - unfold writer_receives. destruct (pr_writing p); [|done].
    destruct (try_recv (pr_updates p)) as [[b|] ch] eqn:E.
    + apply try_recv_Some in E as (_ & E & _). intros [= <-]. by destruct written.
    + destruct (ch_closed ch); [by intros [= <-]|done].
  - unfold writer_returns. destruct (_ && _); [by intros [= <-]|done].
Qed.

Definition all_of (subs : list (chan BestBidOffer)) (log : list (nat * BestBidOffer)) (i : nat) : list BestBidOffer :=
  default [] (ch_buf <$> subs !! i) ++ accepted i log.

(** The subscriptions at the start: one per coin, open, with prices of that coin. *)
Definition subscribed (subs : list (chan BestBidOffer)) : Prop :=
  Forall2 (λ k ch, ch_closed ch = false ∧ Forall (λ b, bb_Coin b = k) (ch_buf ch)) coins subs.

Lemma merge_start_ok subs : subscribed subs → prices_ok coins (all_of subs []) (start_prices subs).
Proof.
  intros Hs. pose proof (Forall2_length _ _ _ Hs) as Hl. unfold prices_ok. cbn. rewrite length_fmap.
  split_and!; [done..| |].
  - intros _ _. split_and!; [|by apply Forall_fmap, Forall_true|done].
    apply Forall_lookup. intros i ch Hch.
    destruct (Forall2_lookup_r _ _ _ _ _ Hs Hch) as (k & _ & H & _). done.
  - intros i k f ch Hk Hf Hch. apply list_lookup_fmap_Some in Hf as (? & -> & _).
    destruct (Forall2_lookup_lr _ _ _ _ _ _ Hs Hk Hch) as [_ Ha]. unfold coin_ok, all_of. cbn. rewrite Hch. cbn.
    rewrite app_nil_r. split_and!; [by apply Forall_app|apply prefix_nil|]. intros _. by exists (ch_buf ch).
Qed.

Lemma merge_run_ok subs log p :
  subscribed subs → Forall (λ x, coins !! x.1 = Some (bb_Coin x.2)) log →
  prices_run (start_prices subs) log p →
  prices_ok coins (all_of subs log) p ∧ room p = (length coins * 4)%nat.
Proof.
  intros Hs Hlog Hrun. induction Hrun as [|l q q' _ IH Hstep|l q q' i bbo _ IH Hpub|l q q' i _ IH Hcl|l q _ IH].
  - split; [by apply merge_start_ok|]. unfold room. cbn. rewrite (Forall2_length _ _ _ Hs). lia.
  - destruct IH as [IH1 IH2]; [done|]. split; [by eapply step_ok|]. by rewrite (step_room _ _ Hstep).
  - apply Forall_app in Hlog as [Hlog Hx]. apply Forall_cons in Hx as [Hx _].
    destruct IH as [IH1 IH2]; [done|]. split.
    + apply (publish_ok (all_of subs l) _ i bbo q q' (bb_Coin bbo)); [exact Hx|reflexivity| | |exact IH1|exact Hpub].
      * unfold all_of, accepted. rewrite omap_app, <- app_assoc. cbn. by rewrite decide_True.
      * intros j Hj. unfold all_of, accepted. rewrite omap_app. cbn. rewrite decide_False by congruence.
        by rewrite app_nil_r.
    + unfold publish_price in Hpub. destruct (pr_subs q !! i); [|done].
      destruct (_ && _); [|done]. by injection Hpub as <-.
  - destruct IH as [IH1 IH2]; [done|]. split; [by eapply close_ok|].
    unfold close_sub in Hcl. destruct (pr_subs q !! i); [|done]. destruct (_ || _); [|done]. by injection Hcl as <-.
  - destruct IH as [IH1 IH2]; [done|]. by split; [apply end_ok|].
Qed.

(** At rest nothing waits anywhere. *)
Lemma rest_pending all p : prices_ok coins all p → room p ≠ 0%nat → (∀ p', ¬ prices_step p p') →
  pr_writing p = true → pr_ctxDone p = false →
  ch_buf (pr_updates p) = [] ∧
  ∀ i f ch, pr_fwds p !! i = Some f → pr_subs p !! i = Some ch → f ≠ Finished ∧ pending f ch = [].
Proof.
  intros (_ & _ & _ & H4 & _) Hroom Hrest Hw Hc. destruct (H4 Hw Hc) as (Ho & Hf & Hu).
  assert (Eu : ch_buf (pr_updates p) = []).
  { destruct (ch_buf (pr_updates p)) as [|b l] eqn:E; [done|]. exfalso. eapply Hrest.
    apply (step_writes _ _ true). unfold writer_receives, try_recv. rewrite Hw, E. reflexivity. }
  split; [done|]. intros i f ch Hi Hch. split; [by apply (Forall_lookup_1 _ _ _ _ Hf Hi)|].
  destruct f as [|b|]; [| |done]; cbn.
  - destruct (ch_buf ch) as [|b l] eqn:E; [done|]. exfalso. eapply Hrest. apply (step_receives _ _ i).
    unfold forwarder_receives, try_recv. rewrite Hi, Hch, E. reflexivity.
  - exfalso. eapply Hrest. apply (step_sends _ _ i). unfold forwarder_sends. rewrite Hi, Eu.
    unfold room in Hroom. destruct (ch_cap (pr_updates p)) as [|n]; [done|]. reflexivity.
Qed.

End Merge.

(** C37.  Whatever the order of the goroutines behind a price stream, the frames of a
    coin carry the prices that its subscription accepted, in order and from the
    first one on; and as soon as the goroutines have nothing left to do, all of
    them, unless the request has ended or a frame could not be written.  The coins
    do not hold each other up. *)
Theorem prices_merged (coins : list string) (subs : list (chan BestBidOffer)) (log : list (nat * BestBidOffer)) p
    (Hcoins : NoDup coins) (Hsome : coins ≠ []) (Hsubs : subscribed coins subs)
    (Hlog : Forall (λ x, coins !! x.1 = Some (bb_Coin x.2)) log)
    (Hrun : prices_run (start_prices subs) log p) :
  ∀ i k, coins !! i = Some k →
    of_coin k (pr_out p) `prefix_of` all_of subs log i ∧
    ((∀ p', ¬ prices_step p p') → pr_writing p = true → pr_ctxDone p = false →
     of_coin k (pr_out p) = all_of subs log i).
Proof.
  intros i k Hk. destruct (merge_run_ok coins Hcoins Hsome subs log p Hsubs Hlog Hrun) as [Hok Hroom].
  assert (Hok' := Hok). destruct Hok' as (H1 & H2 & _ & _ & H5).
  assert (is_Some (pr_fwds p !! i)) as [f Hf] by (apply lookup_lt_is_Some; rewrite H2; by eapply lookup_lt_Some).
  assert (is_Some (pr_subs p !! i)) as [ch Hch] by (apply lookup_lt_is_Some; rewrite H1; by eapply lookup_lt_Some).
  destruct (H5 i k f ch Hk Hf Hch) as (_ & Hp & Hw). split; [done|]. intros Hrest Hwr Hc.
  destruct (rest_pending coins _ _ Hok) as [Eu Hpend]; [by destruct coins; [|rewrite Hroom]|done..|].
  destruct (Hpend i f ch Hf Hch) as [Hnf Ep]. destruct (Hw Hwr) as (rest & -> & Hr).
  by rewrite Hr, Ep, Eu, !app_nil_r by done.
Qed.

(** ** The goroutines end *)

Definition weight (f : forwarder) : nat := match f with Waiting => 1 | Holding _ => 3 | Finished => 0 end.
Definition work (p : prices) : nat :=
  3 * sum_list_with (λ ch, length (ch_buf ch)) (pr_subs p) + sum_list_with weight (pr_fwds p) +
  length (ch_buf (pr_updates p)) + (if ch_closed (pr_updates p) then 0 else 1) + (if pr_writing p then 1 else 0).

Lemma weight_insert {A} (g : A → nat) l i x y :
  l !! i = Some x → (sum_list_with g (<[i := y]> l) + g x = sum_list_with g l + g y)%nat.
Proof.
  revert i. induction l as [|z l IH]; intros [|i] H; try done.
  - injection H as ->. cbn. lia.
  - specialize (IH i H).
    change (g z + sum_list_with g (<[i := y]> l) + g x = g z + sum_list_with g l + g y)%nat. lia.
Qed.

Lemma work_decreases p p' : prices_step p p' → (work p' < work p)%nat.
Proof.
  unfold work. intros [i Hs|i Hs|i Hs|Hs|written Hs|Hs]; revert Hs.
  - unfold forwarder_receives. destruct (pr_fwds p !! i) as [[]|] eqn:Ef, (pr_subs p !! i) as [ch|] eqn:Es; try done.
    pose proof (λ y, weight_insert weight _ _ _ y Ef) as Hf.
    pose proof (λ y, weight_insert (λ ch : chan BestBidOffer, length (ch_buf ch)) _ _ _ y Es) as Hc. cbn in Hf, Hc.
    destruct (try_recv ch) as [[b|] ch'] eqn:Er.
    + apply try_recv_Some in Er as (Eb & _). intros [= <-]. cbn -[Nat.mul].
      specialize (Hf (Holding b)). specialize (Hc ch'). rewrite Eb in Hc. cbn in Hf, Hc. lia.
    + destruct (ch_closed ch'); [|done]. intros [= <-]. cbn -[Nat.mul]. specialize (Hf Finished). cbn in Hf. lia.
  - unfold forwarder_sends. destruct (pr_fwds p !! i) as [[]|] eqn:Ef; try done.
    pose proof (weight_insert weight _ _ _ Waiting Ef) as Hf. cbn in Hf.
    destruct (_ <? _)%nat eqn:E; [|done]. intros [= <-]. cbn -[Nat.mul]. unfold try_send. rewrite E. cbn -[Nat.mul].
    rewrite length_app. cbn. lia.
  - unfold forwarder_returns. destruct (pr_fwds p !! i) as [[]|] eqn:Ef, (pr_ctxDone p); try done; intros [= <-];
      pose proof (weight_insert weight _ _ _ Finished Ef) as Hf; cbn -[Nat.mul] in *; lia.
  - unfold closer. destruct (forallb _ _); [|done]. destruct (ch_closed (pr_updates p)); [done|].
    intros [= <-]. cbn -[Nat.mul]. lia.
  - unfold writer_receives. destruct (pr_writing p) eqn:Ew; [|done].
    destruct (try_recv (pr_updates p)) as [[b|] ch] eqn:E.
    + apply try_recv_Some in E as (Eb & _ & Ecl). rewrite Eb. intros [= <-]. destruct written; cbn -[Nat.mul];
        rewrite ?Ecl, ?Ew; lia.
    + destruct (ch_closed ch); [|done]. intros [= <-]. cbn -[Nat.mul]. lia.
  - unfold writer_returns. destruct (pr_writing p); [|done]. destruct (pr_ctxDone p); [|done].
    intros [= <-]. cbn -[Nat.mul]. lia.
Qed.

(** Left to themselves the goroutines behind a price stream come to rest after
    boundedly many steps, in every order; and when they rest after the end of the
    request all of them have returned and the shared channel is closed: none is
    left behind, wherever it was. *)
Theorem prices_settle (p : prices) :
  (∀ p', prices_step p p' → (work p' < work p)%nat) ∧
  (pr_ctxDone p = true → (∀ p', ¬ prices_step p p') →
   Forall (λ f, f = Finished) (pr_fwds p) ∧ ch_closed (pr_updates p) = true ∧ pr_writing p = false).
Proof.
  split; [apply work_decreases|]. intros Hc Hrest.
  assert (Hf : Forall (λ f, f = Finished) (pr_fwds p)).
  { apply Forall_lookup. intros i f Hi. destruct f; [| |done]; exfalso; eapply Hrest, (step_returns _ _ i);
      unfold forwarder_returns; rewrite Hi, Hc; reflexivity. }
  split; [done|]. split.
  - destruct (ch_closed (pr_updates p)) eqn:E; [done|]. exfalso. eapply Hrest, step_closer. unfold closer. rewrite E.
    assert (forallb is_finished (pr_fwds p) = true) as ->; [|reflexivity].
    apply forallb_forall. intros f Hin%list_elem_of_In. by rewrite (proj1 (Forall_forall _ _) Hf f Hin).
  - destruct (pr_writing p) eqn:E; [|done]. exfalso. eapply Hrest, step_writer_returns.
    unfold writer_returns. rewrite E, Hc. reflexivity.
Qed.

(** ** Concrete streams *)

Definition entries_as_braces : Codec ApiRecords.OrderLogEntry :=
  {| Marshal := λ _, Some "{}"%string; Unmarshal := λ _, None |}.
Definition demo_status : StreamEvent :=
  mkStreamEvent HyperliquidStatus (OrderId.mkOrderId 1 2 3) None 0 None None
    (Some (mkWsOrder (mkWsBasicOrder "BTC" "B" "1" "1" 1 0 "1" None) "open" 0)) None None None None.

Lemma orders_read_witness :
  (∀ a raw, Marshal (Codec := entries_as_braces) a = Some raw → one_line raw = true) ∧
  ∃ body, orders_body (json_entry := entries_as_braces) fone
            [Event demo_status true; Event (with_observed 1 demo_status) true; ContextEnded] = (body, false) ∧
    read_events body = [("hyperliquid_status", "{}"); ("hyperliquid_status", "{}")]%string.
Proof.
  assert (Hl : OneLine ApiRecords.OrderLogEntry (c := entries_as_braces)) by (by intros a raw [= <-]).
  split; [exact Hl|].
  pose proof (orders_read (json_entry := entries_as_braces) (line_entry := Hl) fone
    [Event demo_status true; Event (with_observed 1 demo_status) true; ContextEnded]) as H.
  destruct (orders_body fone _) as [body runs] eqn:E. exists body. vm_compute in E. injection E as <- <-.
  split; [reflexivity|]. vm_compute. reflexivity.
Defined.

Definition quote (coin : string) (n : Z) : BestBidOffer := mkBbo coin n (mkLevel fone fone) (mkLevel fone fone).
Definition demo_subs : list (chan BestBidOffer) :=
  [mkChan [quote "BTC" 1] 8 false; mkChan [] 8 false].
Definition demo_log : list (nat * BestBidOffer) := [(1%nat, quote "ETH" 2); (0%nat, quote "BTC" 3)].
Definition demo_prices : prices :=
  mkPrices [mkChan [] 8 false; mkChan [] 8 false] [Waiting; Waiting] (mkChan [] 8 false) false false true
    [quote "ETH" 2; quote "BTC" 1; quote "BTC" 3].

(** A schedule, to be evaluated. *)
Inductive move := Receives (i : nat) | Sends (i : nat) | Writes | Publishes (i : nat) (b : BestBidOffer).
Definition do_move (m : move) (p : prices) : option prices :=
  match m with
  | Receives i => forwarder_receives i p
  | Sends i => forwarder_sends i p
  | Writes => writer_receives true p
  | Publishes i b => publish_price i b p
  end.
Fixpoint do_moves (ms : list move) (p : prices) : option prices :=
  match ms with [] => Some p | m :: ms => p ← do_move m p; do_moves ms p end.

Lemma moves_run ms : ∀ p l q q', prices_run p l q → do_moves ms q = Some q' →
  prices_run p (l ++ omap (λ m, match m with Publishes i b => Some (i, b) | _ => None end) ms) q'.
Proof.
  induction ms as [|m ms IH]; intros p l q q' Hrun Hm.
  { injection Hm as <-. by rewrite app_nil_r. }
  cbn in Hm. apply bind_Some in Hm as (q1 & H1 & Hm). destruct m as [i|i| |i b]; cbn in *.
  - apply (IH p l q1); [|done]. eapply run_step; [exact Hrun|]. by apply (step_receives _ _ i).
  - apply (IH p l q1); [|done]. eapply run_step; [exact Hrun|]. by apply (step_sends _ _ i).
  - apply (IH p l q1); [|done]. eapply run_step; [exact Hrun|]. by apply (step_writes _ _ true).
  - change ((i, b) :: ?k) with ([(i, b)] ++ k). rewrite app_assoc.
    apply (IH p (l ++ [(i, b)]) q1); [|done]. by eapply run_publish.
Qed.

Lemma demo_run : prices_run (start_prices demo_subs) demo_log demo_prices.
Proof.
  apply (moves_run [Receives 0; Publishes 1 (quote "ETH" 2); Receives 1; Publishes 0 (quote "BTC" 3);
    Sends 1; Sends 0; Writes; Writes; Receives 0; Sends 0; Writes] _ [] _ _ (run_start _)).
  vm_compute. reflexivity.
Qed.

Lemma demo_rest p' : ¬ prices_step demo_prices p'.
Proof.
  intros [i H|i H|i H|H|[] H|H]; try discriminate H; by destruct i as [|[|i]].
Qed.

Lemma prices_merged_witness :
  of_coin "BTC" (pr_out demo_prices) = [quote "BTC" 1; quote "BTC" 3] ∧
  of_coin "BTC" (pr_out demo_prices) = all_of demo_subs demo_log 0.
Proof.
  split; [reflexivity|].
  apply (prices_merged ["BTC"; "ETH"]%string demo_subs demo_log demo_prices); try reflexivity.
  - refine (proj1 (bool_decide_spec _) _). vm_compute. exact I.
  - discriminate.
  - repeat constructor.
  - repeat constructor.
  - exact demo_run.
  - exact demo_rest.
Defined.

Lemma prices_settle_witness :
  ∃ p', prices_step (end_request demo_prices) p' ∧ (work p' < work (end_request demo_prices))%nat.
Proof.
  eexists (with_fwd 0 Finished (end_request demo_prices)).
  assert (H : prices_step (end_request demo_prices) (with_fwd 0 Finished (end_request demo_prices)))
    by (apply (step_returns _ _ 0); reflexivity).
  split; [exact H|]. exact (proj1 (prices_settle (end_request demo_prices)) _ H).
Defined.

End SseFacts.
