(* ===== verification/OriginFacts.v ===== *)
(** * Facts of [Origin]: origins are in the form browsers send, and the relying
    party is the host of one of them. *)

From Stdlib Require Import Ascii.
From S2P Require Import Prelude GoString GoNet Origin.
Import GoString GoNet Origin.

Module OriginFacts.

#[local] Arguments eqc : simpl never.
#[local] Arguments shouldEscape : simpl never.
#[local] Arguments byte_of : simpl never.
#[local] Arguments is_alnum : simpl never.
#[local] Arguments one_of : simpl never.

(** ** Bytes *)

Lemma bytes_eq (f g : ascii → bool) c :
  forallb (λ n, Bool.eqb (f (ascii_of_nat n)) (g (ascii_of_nat n))) (seq 0 256) = true → f c = g c.
Proof.
  intros H. apply eqb_prop. apply (all_bytes (λ c, Bool.eqb (f c) (g c))).
  revert H. clear. generalize (seq 0 256). induction l; cbn; [done|].
  intros [-> ?]%andb_prop. by rewrite IHl.
Qed.
Lemma bytes_impl (f g : ascii → bool) c :
  forallb (λ n, implb (f (ascii_of_nat n)) (g (ascii_of_nat n))) (seq 0 256) = true →
  f c = true → g c = true.
Proof.
  intros H. enough (implb (f c) (g c) = true) as Hc by (intros E; by rewrite E in Hc).
  apply (all_bytes (λ c, implb (f c) (g c))).
  revert H. clear. generalize (seq 0 256). induction l; cbn; [done|].
  intros [-> ?]%andb_prop. by rewrite IHl.
Qed.

(** ** Strings whose bytes satisfy a test *)

Lemma smap_app f s t : smap f (s +:+ t) = smap f s +:+ smap f t.
Proof. induction s as [|c s IH]; [done|]. exact (f_equal (String (f c)) IH). Qed.

Lemma all_mono p q s : (∀ c, p c = true → q c = true) → all_chars p s = true → all_chars q s = true.
Proof.
  intros Hpq. induction s as [|c s IH]; [done|]. cbn.
  intros [Hc Hs]%andb_prop. by rewrite (Hpq _ Hc), (IH Hs).
Qed.

Lemma all_smap p f s : all_chars p (smap f s) = all_chars (λ c, p (f c)) s.
Proof. induction s as [|c s IH]; [done|]. cbn. by rewrite IH. Qed.

Lemma all_ext p q s : (∀ c, p c = q c) → all_chars p s = all_chars q s.
Proof. intros H. induction s as [|c s IH]; [done|]. cbn. by rewrite H, IH. Qed.

Lemma all_both p q s : all_chars p s = true → all_chars q s = true → all_chars (λ c, p c && q c) s = true.
Proof.
  induction s as [|c s IH]; [done|]. cbn. intros [-> ?]%andb_prop [-> ?]%andb_prop. by rewrite IH.
Qed.

Lemma all_srev p s : all_chars p (srev s) = all_chars p s.
Proof.
  induction s as [|c s IH]; [done|]. rewrite srev_cons, all_app, IH. cbn.
  by rewrite andb_true_r, andb_comm.
Qed.
Lemma srev_smap f s : srev (smap f s) = smap f (srev s).
Proof.
  induction s as [|c s IH]; [done|]. cbn [smap]. by rewrite !srev_cons, IH, smap_app.
Qed.

Lemma TrimLeft_plain s : all_chars (λ c, negb (is_space c)) s = true → TrimLeftSpace s = s.
Proof. destruct s as [|c s]; [done|]. cbn. by destruct (is_space c). Qed.
Lemma TrimSpace_plain s : all_chars (λ c, negb (is_space c)) s = true → TrimSpace s = s.
Proof.
  intros Hs. unfold TrimSpace. rewrite (TrimLeft_plain s Hs), TrimLeft_plain by by rewrite all_srev.
  apply srev_involutive.
Qed.

Lemma TrimSuffix_plain s t x : t ≠ EmptyString → all_chars (λ c, negb (eqc x c)) t = true →
  TrimSuffix (s +:+ t) (String x EmptyString) = s +:+ t.
Proof.
  intros Ht Hx. unfold TrimSuffix, HasSuffix. rewrite srev_append.
  destruct (srev t) as [|c t'] eqn:E.
  { destruct Ht. by rewrite <- (srev_involutive t), E. }
  rewrite <- all_srev, E in Hx. cbn in Hx. destruct (eqc x c) eqn:Ec; [done|].
  unfold eqc in Ec. rewrite app_cons. cbn. by rewrite Ec.
Qed.

(** ** Breaking strings *)

Lemma break_app p s c t : all_chars (λ c, negb (p c)) s = true → p c = true →
  break p (s +:+ String c t) = (s, String c t).
Proof.
  intros Hs Hc. induction s as [|d s IH]; [rewrite app_nil_l; cbn; by rewrite Hc|].
  rewrite app_cons. cbn in *.
  destruct (p d); [done|]. by rewrite IH.
Qed.
Lemma break_none p s : all_chars (λ c, negb (p c)) s = true → break p s = (s, EmptyString).
Proof.
  intros Hs. induction s as [|d s IH]; cbn; [done|]. cbn in Hs.
  destruct (p d); [done|]. by rewrite IH.
Qed.
Lemma break_eq p s : s = (break p s).1 +:+ (break p s).2.
Proof.
  induction s as [|c s IH]; [done|]. cbn. destruct (p c); [done|].
  destruct (break p s). cbn [fst snd] in *. by rewrite app_cons, <- IH.
Qed.
Lemma break_before p s : all_chars (λ c, negb (p c)) (break p s).1 = true.
Proof.
  induction s as [|c s IH]; [done|]. cbn. destruct (p c) eqn:E; [done|].
  destruct (break p s). cbn in *. by rewrite E, IH.
Qed.
Lemma all_break q p s : all_chars q s = true →
  all_chars q (break p s).1 = true ∧ all_chars q (break p s).2 = true.
Proof. rewrite (break_eq p s) at 1. rewrite all_app. by intros ?%andb_prop. Qed.

Lemma split_last_eq c s a b : split_last c s = Some (a, b) → s = a +:+ String c b.
Proof.
  revert a b. induction s as [|d s IH]; intros a b; [done|]. cbn.
  destruct (split_last c s) as [[a' b']|]; intros H; simplify_eq; [by rewrite app_cons, (IH a' b)|].
  destruct (eqc c d) eqn:E; simplify_eq. apply Ascii.eqb_eq in E. by subst.
Qed.
Lemma split_last_app c s t : all_chars (λ d, negb (eqc c d)) t = true →
  split_last c (s +:+ String c t) = Some (s, t).
Proof.
  intros Ht. assert (split_last c t = None) as Hn.
  { induction t as [|d t IH]; [done|]. cbn in *. destruct (eqc c d); [done|]. by rewrite IH. }
  induction s as [|d s IH]; [|rewrite app_cons; cbn; by rewrite IH].
  change (split_last c (String c t) = Some (EmptyString, t)). cbn. rewrite Hn. unfold eqc. by rewrite Ascii.eqb_refl.
Qed.
Lemma split_last_smap c f s : (∀ d, eqc c (f d) = eqc c d) →
  split_last c (smap f s) = prod_map (smap f) (smap f) <$> split_last c s.
Proof.
  intros Hf. induction s as [|d s IH]; [done|]. cbn. rewrite IH.
  destruct (split_last c s) as [[]|]; [done|]. cbn. rewrite Hf. by destruct (eqc c d).
Qed.

(** ** URLs without escapes *)

Definition no_percent : string → bool := all_chars (λ c, negb (eqc "%" c)).
Definition host_char (c : ascii) : bool := negb (eqc "%" c) && ((128 <=? byte_of c) || negb (shouldEscape c)).
Definition scheme_char (c : ascii) : bool := is_alnum c || one_of "+-." c.

(** The shape a host must have, apart from its bytes. *)
Definition host_shape (host : string) : bool :=
  match host with
  | String "[" _ => match split_last "]" host with Some (_, port) => validOptionalPort port | None => false end
  | _ => match split_last ":" host with Some (_, port) => all_chars is_digit port | None => true end
  end.
Definition good_host (host : string) : bool := host_shape host && all_chars host_char host.

Definition scheme_ok (scheme : string) : bool :=
  match scheme with String c _ => is_letter c && all_chars scheme_char scheme | EmptyString => false end.

Lemma no_percent_has s : has "%" s = negb (no_percent s).
Proof. done. Qed.

Lemma unescape_plain mode s : no_percent s = true →
  unescape mode s =
    if in_host mode && negb (all_chars host_char s) then None else Some s.
Proof.
  unfold no_percent. induction s as [|c s IH]; [by destruct (in_host mode)|]. cbn.
  intros [Hc Hs]%andb_prop. unfold host_char at 1. rewrite Hc. destruct (eqc "%" c); [done|]. cbn.
  rewrite (IH Hs). destruct (in_host mode); cbn; [|done].
  rewrite Z.leb_antisym. destruct (byte_of c <? 128), (shouldEscape c); cbn; try done;
    by destruct (all_chars host_char s).
Qed.

Lemma split_at_percent s : no_percent s = true → split_at "%25" s = None.
Proof.
  unfold no_percent. induction s as [|c s IH]; [done|]. cbn [all_chars split_at].
  intros [Hc Hs]%andb_prop. rewrite (IH Hs).
  change (HasPrefix (String c s) "%25") with (eqc "%" c && HasPrefix s "25").
  by destruct (eqc "%" c).
Qed.

Lemma parseHost_plain s : no_percent s = true →
  parseHost s = if good_host s then Some s else None.
Proof.
  intros Hs. pose proof (unescape_plain encodeHost s Hs) as Hu. unfold good_host, host_shape.
  destruct s as [|c s']; [done|]. unfold parseHost.
  set (s := String c s') in *.
  assert (∀ o : option string,
    (o = match split_last ":" s with
        | Some (_, port) => if all_chars is_digit port then unescape encodeHost s else None
        | None => unescape encodeHost s end) →
    o = if match split_last ":" s with Some (_, port) => all_chars is_digit port | None => true end
           && all_chars host_char s then Some s else None) as Hplain.
  { intros o ->. rewrite Hu. cbn [in_host andb].
    destruct (split_last ":" s) as [[a b]|]; [destruct (all_chars is_digit b)|];
      by destruct (all_chars host_char s). }
  destruct (split_last "]" s) as [[a b]|] eqn:E.
  - assert (no_percent a = true) as Ha.
    { unfold no_percent in *. rewrite (split_last_eq _ _ _ _ E), all_app in Hs. by apply andb_prop in Hs as [? _]. }
    cbn [mbind option_bind]. rewrite (split_at_percent a Ha).
    destruct c as [[] [] [] [] [] [] [] []]; try by apply Hplain.
    destruct (validOptionalPort b); [|done]. cbn [negb]. rewrite Hu. cbn [in_host andb]. by destruct (all_chars host_char s).
  - by destruct c as [[] [] [] [] [] [] [] []]; try by apply Hplain.
Qed.

Lemma eqc_lower x c : is_letter x = false → eqc x (lower c) = eqc x c.
Proof.
  intros Hx. destruct (between "A" "Z" c) eqn:Ec; [|unfold lower; by rewrite Ec].
  assert (is_letter (lower c) = true ∧ is_letter c = true) as [Hl Hc].
  { split; revert Ec; [apply (bytes_impl (between "A" "Z") (λ c, is_letter (lower c)))|
      apply (bytes_impl (between "A" "Z") is_letter)]; vm_compute; done. }
  assert (∀ d, is_letter d = true → eqc x d = false) as Hn.
  { intros d Hd. unfold eqc. destruct (Ascii.eqb_spec x d); congruence. }
  by rewrite !Hn.
Qed.

Lemma digit_lower c : is_digit (lower c) = is_digit c.
Proof. apply (bytes_eq (λ c, is_digit (lower c)) is_digit). vm_compute. done. Qed.
Lemma digits_lower s : all_chars is_digit (ToLower s) = all_chars is_digit s.
Proof. unfold ToLower. rewrite all_smap. apply all_ext, digit_lower. Qed.

Lemma bracket_lower {A} (f g : string → A) s :
  match ToLower s with String "[" r => f r | _ => g s end =
  match s with String "[" r => f (ToLower r) | _ => g s end.
Proof.
  destruct s as [|c s]; [done|]. pose proof (eqc_lower "[" c eq_refl) as H.
  unfold eqc in H. cbn [ToLower smap].
  destruct (Ascii.eqb_spec "[" (lower c)) as [E|E], (Ascii.eqb_spec "[" c) as [E'|E']; try done.
  - by rewrite <- E, <- E'.
  - revert E E'. clear. generalize (lower c). intros d.
    destruct d as [[] [] [] [] [] [] [] []], c as [[] [] [] [] [] [] [] []]; congruence.
Qed.

Lemma split_lower x s : is_letter x = false →
  split_last x (ToLower s) = prod_map ToLower ToLower <$> split_last x s.
Proof. intros Hx. apply split_last_smap. intros d. by apply eqc_lower. Qed.

Lemma host_shape_lower s : host_shape (ToLower s) = host_shape s.
Proof.
  unfold host_shape. rewrite !split_lower by done.
  set (f := λ _ : string, match prod_map ToLower ToLower <$> split_last "]" s with
                          | Some (_, port) => validOptionalPort port | None => false end).
  set (g := λ _ : string, match prod_map ToLower ToLower <$> split_last ":" s with
                          | Some (_, port) => all_chars is_digit port | None => true end).
  change (match ToLower s with String "[" r => f r | _ => g s end = host_shape s).
  rewrite (bracket_lower f g). unfold f, g, host_shape.
  assert (∀ p, validOptionalPort (ToLower p) = validOptionalPort p) as Hp.
  { intros [|c p]; [done|]. cbn. by rewrite eqc_lower, digits_lower. }
  destruct (split_last "]" s) as [[a b]|], (split_last ":" s) as [[a' b']|]; cbn;
    rewrite ?Hp, ?digits_lower; done.
Qed.

Lemma host_char_lower c : host_char c = true → host_char (lower c) = true.
Proof. apply (bytes_impl host_char (λ c, host_char (lower c))). vm_compute. done. Qed.

Lemma good_host_lower s : good_host s = true → good_host (ToLower s) = true.
Proof.
  unfold good_host. rewrite host_shape_lower. intros [-> Hs]%andb_prop. cbn.
  unfold ToLower. rewrite all_smap. revert Hs. apply all_mono, host_char_lower.
Qed.

(** ** Parsing what a normalised origin looks like *)

Lemma split_last_none x s : all_chars (λ c, negb (eqc x c)) s = true → split_last x s = None.
Proof.
  induction s as [|c s IH]; [done|]. cbn. destruct (eqc x c); [done|]. intros Hs. by rewrite IH.
Qed.

Lemma host_plain s p : all_chars host_char s = true →
  forallb (λ n, implb (host_char (ascii_of_nat n)) (p (ascii_of_nat n))) (seq 0 256) = true →
  all_chars p s = true.
Proof. intros Hs Hp. revert Hs. apply all_mono. intros c. by apply bytes_impl. Qed.
Lemma scheme_plain s p : all_chars scheme_char s = true →
  forallb (λ n, implb (scheme_char (ascii_of_nat n)) (p (ascii_of_nat n))) (seq 0 256) = true →
  all_chars p s = true.
Proof. intros Hs Hp. revert Hs. apply all_mono. intros c. by apply bytes_impl. Qed.

Lemma scheme_ok_chars s : scheme_ok s = true →
  all_chars scheme_char s = true ∧ ∃ c s', s = String c s' ∧ is_letter c = true.
Proof. destruct s as [|c s]; [done|]. intros [? ?]%andb_prop. eauto. Qed.

(** What holds of the bytes of schemes and hosts and of [://] holds of an origin. *)
Lemma origin_plain scheme host p : scheme_ok scheme = true → good_host host = true →
  forallb (λ n, implb (scheme_char (ascii_of_nat n)) (p (ascii_of_nat n))) (seq 0 256) = true →
  forallb (λ n, implb (host_char (ascii_of_nat n)) (p (ascii_of_nat n))) (seq 0 256) = true →
  all_chars p "://" = true →
  all_chars p (scheme +:+ "://" +:+ host) = true.
Proof.
  intros [Hs _]%scheme_ok_chars [_ Hh]%andb_prop Hps Hph Hp.
  by rewrite !all_app, (scheme_plain _ _ Hs Hps), (host_plain _ _ Hh Hph), Hp.
Qed.

Lemma no_host s : s ≠ EmptyString → String.eqb s "" = false.
Proof. by destruct s. Qed.

Lemma getScheme_origin scheme rest : scheme_ok scheme = true →
  getScheme (scheme +:+ String ":" rest) = Some (scheme, rest).
Proof.
  intros Hs. destruct (scheme_ok_chars _ Hs) as [Hc (c & s' & -> & Hl)].
  unfold getScheme. rewrite break_app; [|revert Hc; apply all_mono; intros d Hd; by rewrite negb_involutive|done].
  by rewrite Hl.
Qed.

Lemma Parse_origin scheme host : scheme_ok scheme = true → ToLower scheme = scheme →
  good_host host = true → Parse (scheme +:+ "://" +:+ host) = Some (mkURL scheme host).
Proof.
  intros Hs Hlow Hh. unfold Parse.
  rewrite break_none by (apply origin_plain; try done; vm_compute; done).
  cbn [mbind option_bind]. enough (parse false (scheme +:+ "://" +:+ host) = Some (mkURL scheme host)) as -> by done.
  unfold parse. rewrite (origin_plain scheme host _ Hs Hh) by (vm_compute; done). cbn [negb].
  assert (String.eqb (scheme +:+ "://" +:+ host) "*" = false) as ->.
  { destruct (scheme_ok_chars _ Hs) as [_ (c & s' & -> & Hl)]. apply String.eqb_neq. rewrite app_cons.
    by intros [= -> _]. }
  change ("://" +:+ host) with (String ":" ("//" +:+ host)). rewrite getScheme_origin by done.
  cbn [mbind option_bind]. rewrite Hlow.
  pose proof (andb_prop _ _ Hh) as [_ Hc].
  assert (no_percent host = true) as Hp by (apply (host_plain _ _ Hc); vm_compute; done).
  rewrite (break_none (eqc "?") ("//" +:+ host))
    by (rewrite all_app; cbn; apply (host_plain _ _ Hc); vm_compute; done).
  rewrite (no_host scheme) by (by destruct (scheme_ok_chars _ Hs) as [_ (c & s' & -> & _)]).
  change (("//" +:+ host)) with (String "/" (String "/" host)).
  cbn [fst HasPrefix Ascii.eqb Bool.eqb negb andb orb sdrop].
  rewrite break_none by (apply (host_plain _ _ Hc); vm_compute; done).
  unfold parseAuthority. rewrite split_last_none by (apply (host_plain _ _ Hc); vm_compute; done).
  rewrite parseHost_plain by done. rewrite Hh.
  by destruct host.
Qed.

Lemma no_percent_break p s : no_percent s = true →
  no_percent (break p s).1 = true ∧ no_percent (break p s).2 = true.
Proof. apply all_break. Qed.

Lemma all_lower_letters s : all_chars scheme_char s = true → all_chars scheme_char (ToLower s) = true.
Proof.
  unfold ToLower. rewrite all_smap. apply all_mono.
  intros c. apply (bytes_impl scheme_char (λ c, scheme_char (lower c))). vm_compute. done.
Qed.

Lemma getScheme_ok raw scheme rest : getScheme raw = Some (scheme, rest) →
  no_percent raw = true → no_percent rest = true ∧ (scheme = "" ∨ scheme_ok (ToLower scheme) = true).
Proof.
  unfold getScheme. intros H Hp.
  pose proof (break_before (λ c, negb (is_alnum c || one_of "+-." c)) raw) as Hb.
  pose proof (no_percent_break (λ c, negb (is_alnum c || one_of "+-." c)) raw Hp) as [_ Hr].
  destruct (break _ raw) as [[|a b] [|c r]]; cbn [fst snd] in *; simplify_eq; eauto.
  - destruct (eqc ":" c); simplify_eq. eauto.
  - destruct (eqc ":" c && is_letter a) eqn:E; simplify_eq; [|eauto].
    apply andb_prop in E as [_ Hl]. split.
    { unfold no_percent in *. cbn in Hr. by apply andb_prop in Hr as [_ ?]. }
    right. assert (all_chars scheme_char (String a b) = true) as Hs.
    { revert Hb. apply all_mono. intros d. by rewrite negb_involutive. }
    apply all_lower_letters in Hs. cbn [ToLower smap] in *. unfold scheme_ok. rewrite Hs, andb_true_r.
    revert Hl. apply (bytes_impl is_letter (λ c, is_letter (lower c))). vm_compute. done.
Qed.

Lemma parseAuthority_good a host : no_percent a = true → parseAuthority a = Some host → good_host host = true.
Proof.
  unfold parseAuthority. intros Hp. destruct (split_last "@" a) as [[user h]|] eqn:E.
  - assert (no_percent h = true) as Hh.
    { unfold no_percent in *. rewrite (split_last_eq _ _ _ _ E), all_app in Hp.
      apply andb_prop in Hp as [_ Hp]. cbn in Hp. by apply andb_prop in Hp as [_ ?]. }
    rewrite (parseHost_plain h Hh). destruct (good_host h) eqn:Eg; [|done]. cbn [mbind option_bind].
    destruct (negb _); [done|]. destruct (break _ user) as [u w].
    by destruct (unescape _ u), (unescape _ w); cbn; intros; simplify_eq.
  - rewrite (parseHost_plain a Hp). by destruct (good_host a) eqn:Eg; intros; simplify_eq.
Qed.

Lemma parse_good raw u : no_percent raw = true → parse false raw = Some u →
  (u_Scheme u = "" ∨ scheme_ok (u_Scheme u) = true) ∧ ToLower (u_Scheme u) = u_Scheme u ∧
  good_host (u_Host u) = true.
Proof.
  intros Hp. unfold parse. destruct (negb _); [done|]. cbn [andb orb negb].
  destruct (String.eqb raw "*"); [intros; simplify_eq; cbn; eauto|].
  destruct (getScheme raw) as [[scheme rest]|] eqn:E; [|done]. cbn [mbind option_bind].
  destruct (getScheme_ok _ _ _ E Hp) as [Hr Hs].
  destruct (no_percent_break (eqc "?") rest Hr) as [Hr1 _].
  revert Hr1. generalize ((break (eqc "?") rest).1). clear rest Hr E Hp. intros rest Hr.
  assert (∀ host (o : option string), good_host host = true →
    (o ≫= λ _, Some (mkURL (ToLower scheme) host)) = Some u →
    (u_Scheme u = "" ∨ scheme_ok (u_Scheme u) = true) ∧ ToLower (u_Scheme u) = u_Scheme u ∧
    good_host (u_Host u) = true) as Hdone.
  { intros host [|] Hh ?; simplify_eq/=. rewrite ToLower_idemp. destruct Hs as [->|]; eauto. }
  destruct (negb (HasPrefix rest "/")).
  - destruct (negb (String.eqb _ _)); [intros H; by apply (Hdone "" (Some "")%string)|].
    destruct (has _ _); [done|]. by apply Hdone.
  - destruct (_ && _); [|by apply Hdone].
    assert (no_percent (sdrop 2 rest) = true) as Hd.
    { unfold no_percent in *. destruct rest as [|a [|b rest]]; [done..|]. cbn in *.
      by repeat match goal with H : _ && _ = true |- _ => apply andb_prop in H as [? ?] end. }
    destruct (no_percent_break (eqc "/") _ Hd) as [Ha _].
    destruct (break _ (sdrop 2 rest)) as [a path]. cbn [fst] in Ha.
    destruct (parseAuthority a) as [host|] eqn:E; [|done].
    apply Hdone. by apply (parseAuthority_good a).
Qed.

Lemma Parse_good raw u : no_percent raw = true → Parse raw = Some u →
  (u_Scheme u = "" ∨ scheme_ok (u_Scheme u) = true) ∧ ToLower (u_Scheme u) = u_Scheme u ∧
  good_host (u_Host u) = true.
Proof.
  intros Hp. unfold Parse. destruct (no_percent_break (eqc "#") raw Hp) as [Ha _].
  destruct (break (eqc "#") raw) as [a fragment]. cbn [fst] in Ha.
  destruct (parse false a) as [v|] eqn:E; [|done]. cbn [mbind option_bind].
  intros H. enough (v = u) as <- by by apply (parse_good a).
  destruct fragment as [|c f]; [congruence|]. by destruct (unescape _ f); simplify_eq/=.
Qed.

Lemma HasSuffix_smap f s x : (∀ d, eqc x (f d) = eqc x d) →
  HasSuffix (smap f s) (String x "") = HasSuffix s (String x "").
Proof.
  intros Hf. unfold HasSuffix. rewrite srev_smap. destruct (srev s) as [|c t]; [done|].
  change (eqc x (f c) && HasPrefix (smap f t) "" = eqc x c && HasPrefix t "").
  rewrite Hf. by destruct t.
Qed.

Lemma TrimSuffix_smap f s x : (∀ d, eqc x (f d) = eqc x d) →
  TrimSuffix (smap f s) (String x "") = smap f (TrimSuffix s (String x "")).
Proof.
  intros Hf. unfold TrimSuffix. rewrite HasSuffix_smap, srev_smap by done.
  destruct (HasSuffix s _); [|done].
  destruct (srev s) as [|c t]; [done|]. cbn [smap String.length sdrop].
  destruct t; [done|]. cbn [sdrop]. by rewrite <- srev_smap.
Qed.

Lemma Hostname_lower scheme scheme' host :
  Hostname (mkURL scheme (ToLower host)) = ToLower (Hostname (mkURL scheme' host)).
Proof.
  unfold Hostname. cbn [u_Host]. rewrite split_lower by done.
  set (name := match split_last ":" host with
               | Some (name, port) => if all_chars is_digit port then name else host
               | None => host end).
  assert (match prod_map ToLower ToLower <$> split_last ":" host with
          | Some (name, port) => if all_chars is_digit port then name else ToLower host
          | None => ToLower host end = ToLower name) as ->.
  { unfold name. destruct (split_last ":" host) as [[a b]|]; [|done]. cbn.
    rewrite digits_lower. by destruct (all_chars is_digit b). }
  unfold ToLower at 2. rewrite HasSuffix_smap by (intros; by apply eqc_lower). fold ToLower.
  generalize name. clear. intros s.
  assert (HasPrefix (ToLower s) "[" = HasPrefix s "[") as ->.
  { destruct s as [|c s]; [done|].
    change (eqc "[" (lower c) && HasPrefix (smap lower s) "" = eqc "[" c && HasPrefix s "").
    rewrite eqc_lower by done. by destruct s. }
  destruct (HasPrefix s "[" && HasSuffix s "]"); [|done].
  destruct s as [|c [|d s]]; [done..|].
  change (TrimSuffix (smap lower (String d s)) "]" = smap lower (TrimSuffix (String d s) "]")).
  apply TrimSuffix_smap. intros. by apply eqc_lower.
Qed.

(** ** Normalising *)

Lemma ToLower_origin scheme host : ToLower (scheme +:+ "://" +:+ host) = ToLower scheme +:+ "://" +:+ ToLower host.
Proof. unfold ToLower. by rewrite !smap_app. Qed.

Lemma no_percent_TrimSpace s : no_percent s = true → no_percent (TrimSpace s) = true.
Proof.
  assert (∀ t, no_percent t = true → no_percent (TrimLeftSpace t) = true) as Ht.
  { unfold no_percent. induction t as [|c t IH]; [done|]. intros H. cbn [TrimLeftSpace].
    destruct (is_space c); [|done]. by apply andb_prop in H as [_ ?%IH]. }
  intros Hs. unfold TrimSpace, no_percent in *. rewrite all_srev. apply Ht. rewrite all_srev. by apply Ht.
Qed.

(** A URL without escapes that has a scheme and a host. *)
Definition an_origin (o : string) (scheme host : string) : Prop :=
  o = (scheme +:+ "://" +:+ host)%string ∧ scheme_ok scheme = true ∧ ToLower scheme = scheme ∧
  good_host host = true ∧ ToLower host = host ∧ host ≠ ""%string.

Lemma normalizeOrigin_plain origin : no_percent origin = true → normalizeOrigin origin ≠ "" →
  ∃ u, Parse (TrimSpace origin) = Some u ∧
    an_origin (normalizeOrigin origin) (u_Scheme u) (ToLower (u_Host u)).
Proof.
  intros Hp%no_percent_TrimSpace. unfold normalizeOrigin.
  destruct (String.eqb (TrimSpace origin) ""); [done|].
  destruct (Parse (TrimSpace origin)) as [u|] eqn:E; [|done].
  destruct (String.eqb_spec (u_Scheme u) ""); [done|].
  destruct (String.eqb_spec (u_Host u) "") as [|Hh]; [done|]. cbn [orb]. intros _. exists u. split; [done|].
  destruct (Parse_good _ _ Hp E) as (Hs & Hl & Hg). destruct Hs as [|Hs]; [done|]. rewrite Hl.
  assert (ToLower (u_Host u) ≠ ""%string) as Hne by (by destruct (u_Host u)).
  pose proof (good_host_lower _ Hg) as Hg'.
  rewrite <- (append_assoc (u_Scheme u)). rewrite TrimSuffix_plain; [|done|].
  - rewrite append_assoc. unfold an_origin. by rewrite ToLower_idemp.
  - apply andb_prop in Hg' as [_ Hc]. apply (host_plain _ _ Hc). vm_compute. done.
Qed.

Lemma an_origin_Parse o scheme host : an_origin o scheme host → Parse o = Some (mkURL scheme host).
Proof. intros (-> & ? & ? & ? & ? & ?). by apply Parse_origin. Qed.

(** Normalising once more changes nothing. *)
Lemma an_origin_normal o scheme host : an_origin o scheme host → normalizeOrigin o = o ∧ ToLower o = o.
Proof.
  intros Ho. pose proof (an_origin_Parse _ _ _ Ho) as Hp. destruct Ho as (-> & Hs & Hl & Hg & Hl' & Hne).
  split; [|by rewrite ToLower_origin, Hl, Hl'].
  unfold normalizeOrigin. rewrite TrimSpace_plain by (apply origin_plain; try done; vm_compute; done).
  rewrite Hp. cbn [u_Scheme u_Host].
  destruct (scheme_ok_chars _ Hs) as [_ (c & s' & Hc & _)].
  rewrite !no_host by (rewrite ?Hc; done). cbn [orb]. rewrite Hl, Hl', <- (append_assoc scheme).
  apply TrimSuffix_plain; [done|]. apply andb_prop in Hg as [_ Hg]. apply (host_plain _ _ Hg). vm_compute. done.
Qed.

(** ** The list of origins *)

(** The closure keeps a list without repetitions. *)
Definition set_ok (st : origin_set) : Prop := NoDup st.1 ∧ ∀ o, o ∈ st.2 ↔ o ∈ st.1.

Lemma addNormalized_spec o st : set_ok st →
  set_ok (addNormalized o st) ∧ ∀ x, x ∈ (addNormalized o st).1 ↔ x ∈ st.1 ∨ (x = o ∧ o ≠ ""%string).
Proof.
  intros [Hn Hs]. unfold addNormalized. destruct (String.eqb_spec o "") as [->|Ho].
  { split; [done|]. intros x. split; [by left|by intros [|[_ ?]]]. }
  destruct (decide (o ∈ st.2)) as [Hin|Hin].
  { split; [done|]. intros x. split; [by left|]. intros [|[-> _]]; [done|]. by apply Hs. }
  split; [split|]; cbn.
  - apply NoDup_app. split_and!; [done| |apply NoDup_singleton]. set_solver.
  - intros x. rewrite elem_of_union, elem_of_app, Hs. set_solver.
  - intros x. rewrite elem_of_app. set_solver.
Qed.

Lemma add_origins_spec l : ∀ st added, set_ok st →
  let r := add_origins l st added in
  set_ok r.1 ∧
  (∀ x, x ∈ r.1.1 ↔ x ∈ st.1 ∨ ∃ o, o ∈ l ∧ normalizeOrigin o = x ∧ x ≠ ""%string) ∧
  (r.2 = true ↔ added = true ∨ ∃ o, o ∈ l ∧ normalizeOrigin o ≠ ""%string).
Proof.
  induction l as [|o l IH]; intros st added Hst; cbn; [split_and!; set_solver|].
  destruct (String.eqb_spec (normalizeOrigin o) "") as [E|E].
  - destruct (IH st added Hst) as (? & H1 & H2). split_and!; [done| |].
    + intros x. rewrite H1. split; [set_solver|]. intros [|(o' & [->|]%elem_of_cons & ? & ?)]; naive_solver.
    + rewrite H2. split; [set_solver|]. intros [|(o' & [->|]%elem_of_cons & ?)]; naive_solver.
  - destruct (addNormalized_spec (normalizeOrigin o) st Hst) as [Hst' Hin].
    destruct (IH _ true Hst') as (? & H1 & H2). split_and!; [done| |].
    + intros x. rewrite H1, Hin. split; [set_solver|].
      intros [|(o' & [->|]%elem_of_cons & ? & ?)]; naive_solver.
    + split; [|tauto]. intros _. right. exists o. set_solver.
Qed.

(** ** Where origins come from *)

Lemma FieldsFunc_all p sep s w : all_chars p s = true → w ∈ FieldsFunc sep s → all_chars p w = true.
Proof.
  revert w. induction s as [|c s IH]; intros w; [set_solver|]. cbn [FieldsFunc all_chars].
  intros [Hc Hs]%andb_prop. specialize (λ w, IH w Hs). destruct (sep c); [apply IH|].
  destruct s as [|d s]; [intros ->%list_elem_of_singleton; cbn; by rewrite Hc|].
  destruct (sep d); [intros [->|]%elem_of_cons; [cbn; by rewrite Hc|by apply IH]|].
  destruct (FieldsFunc sep (String d s)) as [|w' ws]; [intros ->%list_elem_of_singleton; cbn; by rewrite Hc|].
  intros [->|H]%elem_of_cons; [cbn; rewrite Hc; apply IH; set_solver|apply IH; set_solver].
Qed.

Lemma parseOriginList_plain public part : no_percent public = true → part ∈ parseOriginList public →
  no_percent part = true.
Proof.
  intros Hp%no_percent_TrimSpace. unfold parseOriginList. destruct (String.eqb _ _); [set_solver|].
  intros [_ (w & -> & Hw)%list_elem_of_fmap]%list_elem_of_filter.
  apply no_percent_TrimSpace. by apply (FieldsFunc_all _ is_separator (TrimSpace public)).
Qed.

Lemma SplitHostPort_all q addr h p : all_chars q addr = true → SplitHostPort addr = Some (h, p) →
  all_chars q h = true ∧ all_chars q p = true.
Proof.
  intros Hq. unfold SplitHostPort. destruct (split_last ":" addr) as [[a b]|] eqn:E; [|done].
  cbn [mbind option_bind].
  assert (all_chars q a = true ∧ all_chars q b = true) as [Ha Hb].
  { rewrite (split_last_eq _ _ _ _ E), all_app in Hq. apply andb_prop in Hq as [? [_ ?]%andb_prop]. done. }
  assert (∀ g : bool, (if g then None else Some (a, b)) = Some (h, p) →
    all_chars q h = true ∧ all_chars q p = true) as Hdone by (intros []; intros; by simplify_eq).
  destruct addr as [|c inner]; [done|]. cbn in Hq. apply andb_prop in Hq as [_ Hi].
  destruct (all_break q (eqc "]") inner Hi) as [Hx Hy].
  destruct (break (eqc "]") inner) as [host [|e [|d after]]]; cbn [fst snd] in *;
    destruct c as [[] [] [] [] [] [] [] []]; first [by apply Hdone|by intros|idtac].
  destruct (_ && _); [|done]. intros; simplify_eq. split; [done|].
  cbn in Hy. by apply andb_prop in Hy as [_ [_ ?]%andb_prop].
Qed.

Lemma listen_addr_plain s : no_percent s = true → no_percent (listen_addr s) = true.
Proof.
  unfold listen_addr, no_percent. intros Hs.
  destruct (HasPrefix _ _); [by rewrite all_app, Hs|]. destruct (negb _); [by rewrite all_app, Hs|done].
Qed.

Lemma originsFromListen_plain listen o : no_percent listen = true → o ∈ originsFromListen listen →
  no_percent o = true.
Proof.
  intros Hp%no_percent_TrimSpace. unfold originsFromListen. destruct (String.eqb _ _); [set_solver|].
  destruct (SplitHostPort _) as [[h p]|] eqn:E; [|set_solver].
  destruct (SplitHostPort_all (λ c, negb (eqc "%" c)) _ _ _ (listen_addr_plain _ Hp) E) as [Hh Hport].
  destruct (String.eqb p ""); [set_solver|].
  intros (c & Ho & Hc)%list_elem_of_bind.
  assert (no_percent (TrimSpace c) = true) as Ht.
  { apply no_percent_TrimSpace. apply elem_of_app in Hc as [Hc|Hc].
    - repeat (apply elem_of_cons in Hc as [->|Hc]; [done|]). set_solver.
    - destruct (negb (String.eqb h "") && _ && _); [by apply list_elem_of_singleton in Hc as ->|].
      by apply not_elem_of_nil in Hc. }
  destruct (String.eqb (TrimSpace c) ""); [set_solver|]. apply list_elem_of_singleton in Ho as ->.
  unfold no_percent in *. rewrite !all_app, Hport.
  destruct (has ":" (TrimSpace c) && _); rewrite ?all_app, Ht; done.
Qed.

(** What is allowed: the public origins that are accepted, or else the default one
    and those of the address. *)
Lemma allowed_origins listen public :
  let public_accepted := λ x, ∃ o, o ∈ parseOriginList public ∧ normalizeOrigin o = x ∧ x ≠ ""%string in
  let allowed := BuildAllowedOrigins listen public in
  NoDup allowed ∧
  ((∃ x, public_accepted x) → ∀ x, x ∈ allowed ↔ public_accepted x) ∧
  (¬ (∃ x, public_accepted x) → ∀ x, x ∈ allowed ↔
     x = DefaultOrigin ∨ ∃ o, o ∈ originsFromListen listen ∧ normalizeOrigin o = x ∧ x ≠ ""%string).
Proof.
  cbn zeta. unfold BuildAllowedOrigins.
  assert (set_ok ([], ∅)) as H0 by (split; [apply NoDup_nil_2|set_solver]).
  destruct (add_origins_spec (parseOriginList public) _ false H0) as (Hs & Hin & Hb).
  destruct (add_origins (parseOriginList public) _ _) as [st added]. cbn [fst snd] in *.
  destruct added.
  - split; [apply Hs|]. split.
    + intros _ x. rewrite Hin. split; [intros [Hx|]; [by apply not_elem_of_nil in Hx|done]|by right].
    + intros Hn. destruct Hn. destruct (proj1 Hb eq_refl) as [|(o & ? & ?)]; [done|eauto].
  - assert (¬ ∃ x, ∃ o, o ∈ parseOriginList public ∧ normalizeOrigin o = x ∧ x ≠ ""%string) as Hno.
    { intros (x & o & Ho & <- & Hx). enough (false = true) by done. apply Hb. eauto. }
    destruct (addNormalized_spec DefaultOrigin st Hs) as [Hs1 Hin1].
    destruct (add_origins_spec (originsFromListen listen) _ false Hs1) as (Hs2 & Hin2 & _).
    destruct (add_origins (originsFromListen listen) _ _) as [st2 b]. cbn [fst snd] in *.
    assert (∀ x, x ∈ st2.1 ↔ x = DefaultOrigin ∨
      ∃ o, o ∈ originsFromListen listen ∧ normalizeOrigin o = x ∧ x ≠ ""%string) as Hall.
    { intros x. rewrite Hin2, Hin1, Hin. split; [|naive_solver].
      intros [[[|(o & ? & ? & ?)]|[-> _]]|]; [set_solver|destruct Hno; eauto|tauto|tauto]. }
    destruct (decide (st2.1 = [])) as [E|_].
    { specialize (Hall DefaultOrigin). rewrite E in Hall. set_solver. }
    split; [apply Hs2|]. split; [intros ?; by destruct Hno|done].
Qed.

(** ** The relying party *)

Definition name_char (c : ascii) : bool := is_alnum c || one_of "-._" c.

(** Every public origin that is accepted has a host, and every one with a host is
    accepted. *)
Definition hosts_accepted (public : string) : bool :=
  forallb (λ part, Bool.eqb (String.eqb (normalizeOrigin part) "") (String.eqb (hostFromOrigin part) ""))
    (parseOriginList public).

(** The address has a port, and a name for its host if it is not this machine. *)
Definition names_host (listen : string) : bool :=
  String.eqb (hostFromListen listen) "localhost" ||
  match SplitHostPort (listen_addr (TrimSpace listen)) with
  | Some (h, p) => all_chars name_char h && negb (String.eqb p "") && all_chars is_digit p
  | None => false
  end.

Lemma first_host_Some p l h : first_host p l = Some h →
  ∃ o, o ∈ l ∧ hostFromOrigin o = h ∧ h ≠ ""%string.
Proof.
  induction l as [|o l IH]; [done|]. cbn. destruct (negb _ && p _) eqn:E.
  - intros [= <-]. exists o. apply andb_prop in E as [E%negb_true_iff%String.eqb_neq _]. set_solver.
  - intros (o' & ? & ?)%IH. exists o'. set_solver.
Qed.
Lemma first_host_None l : first_host (λ _, true) l = None → ∀ o, o ∈ l → hostFromOrigin o = ""%string.
Proof.
  induction l as [|o l IH]; [set_solver|]. cbn. rewrite andb_true_r.
  destruct (String.eqb_spec (hostFromOrigin o) ""); [|done]. cbn.
  intros H o' [->|]%elem_of_cons; [done|by apply IH].
Qed.

(** An origin of the list that is accepted is the relying party's. *)
Lemma accepted_host o : no_percent o = true → normalizeOrigin o ≠ "" →
  ∃ h, Hostname <$> Parse (normalizeOrigin o) = Some (ToLower h) ∧ hostFromOrigin o = normalizeRPIDHost h.
Proof.
  intros Hp Hn. destruct (normalizeOrigin_plain o Hp Hn) as (u & Hu & Ho).
  exists (Hostname u). rewrite (an_origin_Parse _ _ _ Ho). split.
  - cbn. destruct u as [sch hst]. f_equal. apply Hostname_lower.
  - unfold hostFromOrigin. destruct (String.eqb_spec (TrimSpace o) "") as [E|]; [|by rewrite Hu].
    unfold normalizeOrigin in Hn. by rewrite E in Hn.
Qed.

Lemma names_plain h p : all_chars name_char h = true →
  forallb (λ n, implb (name_char (ascii_of_nat n)) (p (ascii_of_nat n))) (seq 0 256) = true →
  all_chars p h = true.
Proof. intros Hh Hp. revert Hh. apply all_mono. intros c. by apply bytes_impl. Qed.

Lemma not_bracket {A} (f : string → A) (a : A) h : HasPrefix h "[" = false →
  match h with String "[" r => f r | _ => a end = a.
Proof.
  destruct h as [|c h]; [done|]. destruct c as [[] [] [] [] [] [] [] []]; try done. by destruct h.
Qed.

(** The origin of an address that names its host. *)
Lemma listen_origin h p : h ≠ ""%string → all_chars name_char h = true → p ≠ ""%string →
  all_chars is_digit p = true →
  let o := ("http://" +:+ h +:+ ":" +:+ p)%string in
  normalizeOrigin o ≠ "" ∧ hostFromOrigin o = normalizeRPIDHost h.
Proof.
  intros Hne Hh Hpne Hp. set (host := h +:+ ":" +:+ p).
  assert (split_last ":" host = Some (h, p)) as Hsplit.
  { apply (split_last_app ":" h p). revert Hp. apply all_mono. intros c.
    apply (bytes_impl is_digit (λ c, negb (eqc ":" c))). vm_compute. done. }
  assert (HasPrefix h "[" = false ∧ HasPrefix host "[" = false) as [Hb Hb'].
  { destruct h as [|c h]; [done|]. cbn in Hh. apply andb_prop in Hh as [Hc _].
    assert (eqc "[" c = false) as E.
    { apply negb_true_iff. revert Hc. apply (bytes_impl name_char (λ c, negb (eqc "[" c))). vm_compute. done. }
    split; [change (eqc "[" c && HasPrefix h "" = false)|
            change (eqc "[" c && HasPrefix (h +:+ ":" +:+ p) "" = false)]; by rewrite E. }
  assert (good_host host = true) as Hg.
  { unfold good_host, host_shape. rewrite not_bracket by done. rewrite Hsplit, Hp. cbn.
    unfold host. rewrite !all_app. rewrite (names_plain h) by (done || (vm_compute; done)). cbn.
    revert Hp. apply all_mono. intros c. apply bytes_impl. vm_compute. done. }
  assert (TrimSpace ("http://" +:+ host) = "http://" +:+ host) as Ht.
  { apply TrimSpace_plain. change ("http://" +:+ host) with ("http" +:+ "://" +:+ host).
    apply origin_plain; try done; vm_compute; done. }
  assert (Parse ("http://" +:+ host) = Some (mkURL "http" host)) as Hparse by by apply (Parse_origin "http").
  cbn zeta. unfold normalizeOrigin, hostFromOrigin. fold host. rewrite Ht, Hparse.
  change (String.eqb ("http://" +:+ host) "") with false.
  cbn [u_Scheme u_Host orb]. rewrite (no_host host) by (by destruct h). split.
  - cbn [orb]. change (String.eqb "http" "") with false. cbn [orb].
    assert (ToLower host ≠ ""%string) by (by unfold host; destruct h).
    rewrite <- append_assoc, TrimSuffix_plain; [done|done|].
    apply good_host_lower, andb_prop in Hg as [_ Hg]. apply (host_plain _ _ Hg). vm_compute. done.
  - unfold Hostname. cbn [u_Host]. rewrite Hsplit, Hp, Hb. done.
Qed.

Lemma listen_party (allowed : string → Prop) listen :
  no_percent listen = true → names_host listen = true →
  (∀ x, x = DefaultOrigin ∨
     (∃ o, o ∈ originsFromListen listen ∧ normalizeOrigin o = x ∧ x ≠ ""%string) → allowed x) →
  ∃ o h, allowed o ∧ Hostname <$> Parse o = Some (ToLower h) ∧
    (if String.eqb (hostFromListen listen) "" then "localhost" else hostFromListen listen) =
      normalizeRPIDHost h.
Proof.
  intros Hp Hn Hall.
  assert (∀ host, host = "localhost" ∨ host = ""%string → ∃ o h, allowed o ∧
    Hostname <$> Parse o = Some (ToLower h) ∧
    (if String.eqb host "" then "localhost" else host) = normalizeRPIDHost h) as Hlocal.
  { intros host Hh. exists DefaultOrigin, "localhost". split_and!; [apply Hall; by left|done|].
    by destruct Hh as [-> | ->]. }
  destruct (decide (hostFromListen listen = "localhost" ∨ hostFromListen listen = ""%string)) as [|Hh];
    [by apply Hlocal|].
  unfold names_host in Hn. destruct (String.eqb_spec (hostFromListen listen) "localhost"); [tauto|].
  cbn [orb] in Hn. destruct (SplitHostPort (listen_addr (TrimSpace listen))) as [[h p]|] eqn:E; [|done].
  apply andb_prop in Hn as [[Hname Hport%negb_true_iff]%andb_prop Hdigits].
  assert (hostFromListen listen = normalizeRPIDHost h) as Heq.
  { unfold hostFromListen in *. destruct (String.eqb (TrimSpace listen) ""); [tauto|]. by rewrite E. }
  assert (TrimSpace h = h) as Ht by (apply TrimSpace_plain; apply (names_plain h _ Hname); vm_compute; done).
  assert (h ≠ ""%string) as Hne by (intros ->; rewrite Heq in Hh; cbn in Hh; tauto).
  assert (p ≠ ""%string) as Hpne by (by intros ->).
  destruct (listen_origin h p Hne Hname Hpne Hdigits) as [Hno Hparty].
  set (o := ("http://" +:+ h +:+ ":" +:+ p)%string) in *.
  assert (o ∈ originsFromListen listen) as Hin.
  { unfold originsFromListen. destruct (String.eqb (TrimSpace listen) "") eqn:El.
    { unfold hostFromListen in Hh. rewrite El in Hh. tauto. }
    rewrite E, Hport. apply list_elem_of_bind. exists h. split.
    - rewrite Ht, no_host by done.
      assert (has ":" h = false) as Hc.
      { unfold has. apply negb_false_iff, (names_plain h _ Hname). vm_compute. done. }
      rewrite Hc. by left.
    - apply elem_of_app. right. rewrite Heq in Hh. unfold normalizeRPIDHost in Hh. rewrite Ht, no_host in Hh by done.
      rewrite no_host by done. destruct (String.eqb h "0.0.0.0"); [tauto|]. destruct (String.eqb h "::"); [tauto|].
      by left. }
  assert (no_percent o = true) as Hop by by eapply originsFromListen_plain.
  destruct (accepted_host o Hop Hno) as (h' & H1 & H2).
  exists (normalizeOrigin o), h'. split_and!; [apply Hall; right; by exists o|done|].
  rewrite (no_host (hostFromListen listen)) by tauto. congruence.
Qed.

(** C38.  The origins that the server accepts, when nothing in its configuration is
    escaped: there is at least one, none twice; they are the normal forms of the
    public origins that have a scheme and a host, and if there is none, the default
    origin and those of the listening address; each is a scheme, [://] and a host
    with nothing after it, in small letters, and normalising it again changes
    nothing.  (A default port stays in it, which a browser would leave out:
    [origin_as_written].)  On two conditions the relying party of the passkeys
    belongs to one of them: the public origins that have a host must be those that
    are accepted ([hosts_accepted]; [origin_without_scheme] is not), and the
    listening address must name its host ([names_host]).  Then it is the host of an
    accepted origin as it was written, which the origin has in small letters, with
    [localhost] for the addresses of this machine. *)
Theorem origins_agree (listen public : string)
    (Hlisten : no_percent listen = true) (Hpublic : no_percent public = true) :
  let allowed := BuildAllowedOrigins listen public in
  let written := λ parts o, ∃ part, part ∈ parts ∧ normalizeOrigin part = o ∧ o ≠ ""%string in
  allowed ≠ [] ∧ NoDup allowed ∧
  ((∃ o, written (parseOriginList public) o) →
   ∀ o, o ∈ allowed ↔ written (parseOriginList public) o) ∧
  (¬ (∃ o, written (parseOriginList public) o) →
   ∀ o, o ∈ allowed ↔ o = DefaultOrigin ∨ written (originsFromListen listen) o) ∧
  (∀ o, o ∈ allowed → normalizeOrigin o = o ∧ ∃ scheme host, an_origin o scheme host) ∧
  (hosts_accepted public = true → names_host listen = true →
   ∃ o h, o ∈ allowed ∧ Hostname <$> Parse o = Some (ToLower h) ∧
          DeriveRPID listen public = normalizeRPIDHost h).
Proof.
  intros allowed written. destruct (allowed_origins listen public) as (Hnd & Hpub & Hdef). fold allowed in Hnd, Hpub, Hdef.
  enough (allowed ≠ [] ∧ (∀ o, o ∈ allowed → normalizeOrigin o = o ∧ ∃ scheme host, an_origin o scheme host) ∧
    (hosts_accepted public = true → names_host listen = true →
     ∃ o h, o ∈ allowed ∧ Hostname <$> Parse o = Some (ToLower h) ∧
            DeriveRPID listen public = normalizeRPIDHost h)) as (? & ? & ?) by by split_and!.
  assert (∀ o, no_percent o = true → normalizeOrigin o ≠ "" →
    normalizeOrigin (normalizeOrigin o) = normalizeOrigin o ∧
    ∃ scheme host, an_origin (normalizeOrigin o) scheme host) as Hnormal.
  { intros o Ho Hn. destruct (normalizeOrigin_plain o Ho Hn) as (u & _ & H).
    split; [by eapply an_origin_normal|eauto]. }
  set (P := λ x, ∃ o, o ∈ parseOriginList public ∧ normalizeOrigin o = x ∧ x ≠ ""%string) in *.
  assert (∀ o, o ∈ parseOriginList public → no_percent o = true) as Hparts by (intros; by eapply parseOriginList_plain).
  destruct (decide (Exists (λ o, normalizeOrigin o ≠ ""%string) (parseOriginList public))) as [He|He].
  - apply Exists_exists in He as (o & Ho & Hn). specialize (Hpub (ex_intro _ _ (ex_intro _ o (conj Ho (conj eq_refl Hn))))).
    assert (∀ o, o ∈ parseOriginList public → hostFromOrigin o ≠ "" → hosts_accepted public = true →
      ∃ x h, x ∈ allowed ∧ Hostname <$> Parse x = Some (ToLower h) ∧ hostFromOrigin o = normalizeRPIDHost h) as Hfound.
    { intros o' Ho' Hh Hacc. unfold hosts_accepted in Hacc. rewrite forallb_forall in Hacc.
      specialize (Hacc o' (proj1 (list_elem_of_In _ _) Ho')). apply eqb_prop in Hacc.
      assert (normalizeOrigin o' ≠ ""%string) as Hn'.
      { intros E. by rewrite E, (no_host _ Hh) in Hacc. }
      destruct (accepted_host o') as (h & H1 & H2); [by apply Hparts|done|].
      exists (normalizeOrigin o'), h. split_and!; [|done..]. apply Hpub. by exists o'. }
    split_and!.
    + intros E. enough (normalizeOrigin o ∈ allowed) as H by (rewrite E in H; by apply not_elem_of_nil in H).
      apply Hpub. by exists o.
    + intros x (o' & Ho' & <- & Hn')%Hpub. apply Hnormal; [by apply Hparts|done].
    + intros Hacc _. unfold DeriveRPID.
      destruct (first_host (λ host, negb (String.eqb host "localhost")) _) as [host|] eqn:E1.
      { destruct (first_host_Some _ _ _ E1) as (o' & Ho' & <- & Hh). by apply Hfound. }
      destruct (first_host (λ _, true) _) as [host|] eqn:E2.
      { destruct (first_host_Some _ _ _ E2) as (o' & Ho' & <- & Hh). by apply Hfound. }
      exfalso. unfold hosts_accepted in Hacc. rewrite forallb_forall in Hacc.
      specialize (Hacc o (proj1 (list_elem_of_In _ _) Ho)). apply eqb_prop in Hacc.
      by rewrite (first_host_None _ E2 o Ho), (no_host (normalizeOrigin o) Hn) in Hacc.
  - rewrite <- Forall_Exists_neg, Forall_forall in He.
    assert (¬ ∃ x, P x) as Hno by (intros (x & o & Ho & <- & Hx); by apply (He o Ho)).
    specialize (Hdef Hno). split_and!.
    + intros E. assert (DefaultOrigin ∈ allowed) as H by (apply Hdef; by left). rewrite E in H. by apply not_elem_of_nil in H.
    + intros x [->|(o & Ho & <- & Hn)]%Hdef; [by apply (Hnormal DefaultOrigin)|].
      apply Hnormal; [by apply (originsFromListen_plain listen)|done].
    + intros Hacc Hlis. unfold DeriveRPID.
      assert (∀ p, first_host p (parseOriginList public) = None) as Hnone.
      { intros p. destruct (first_host p _) as [host|] eqn:E; [|done].
        destruct (first_host_Some _ _ _ E) as (o & Ho & <- & Hh). exfalso.
        unfold hosts_accepted in Hacc. rewrite forallb_forall in Hacc.
        specialize (Hacc o (proj1 (list_elem_of_In _ _) Ho)). apply eqb_prop in Hacc.
        rewrite (no_host _ Hh) in Hacc. apply String.eqb_neq in Hacc. by apply (He o Ho). }
      rewrite !Hnone. apply (listen_party (λ o, o ∈ allowed) listen Hlisten Hlis). intros x. apply Hdef.
Qed.

Lemma origins_agree_witness :
  let listen := "app.example.com:8080"%string in
  let public := "https://App.Example.com, http://127.0.0.1:3000"%string in
  let allowed := BuildAllowedOrigins listen public in
  (allowed = ["https://app.example.com"; "http://127.0.0.1:3000"]) ∧
  (∃ o h, o ∈ allowed ∧ Hostname <$> Parse o = Some (ToLower h) ∧
          DeriveRPID listen public = normalizeRPIDHost h).
Proof.
  split; [vm_compute; reflexivity|].
  refine (proj2 (proj2 (proj2 (proj2 (proj2 (origins_agree "app.example.com:8080"
    "https://App.Example.com, http://127.0.0.1:3000" _ _))))) _ _); vm_compute; reflexivity.
Defined.

(** A public origin without a scheme gives the relying party its name, but is not
    accepted itself: no origin that is accepted can use its passkeys. *)
Example origin_without_scheme :
  DeriveRPID ":8080" "//app.example.com" = "app.example.com" ∧
  BuildAllowedOrigins ":8080" "//app.example.com" = [DefaultOrigin; "http://127.0.0.1:8080"].
Proof. vm_compute. done. Qed.

(** The default port of a scheme is kept, which browsers leave out; and the relying
    party keeps the capitals that the origin loses. *)
Example origin_as_written :
  BuildAllowedOrigins "" "https://App.example.com:443" = ["https://app.example.com:443"] ∧
  DeriveRPID "" "https://App.example.com:443" = "App.example.com".
Proof. vm_compute. done. Qed.

End OriginFacts.
