(* ===== verification/Mux.v ===== *)
(** * Which handler a path reaches: the muxes of [NewApp] and [ops.gen.go]

    A request goes through the mux at the root, which hands the paths of the API to
    the mux of the generated server and everything else to the files of the web
    interface.  Paths are as they are escaped, and clean, as [net/http] makes them
    first; a pattern of [http.ServeMux] is as in Go 1.22 and later, of which a method,
    literal segments, wildcards for one segment and subtrees occur. *)

From Stdlib Require Import Ascii.
From S2P Require Import Prelude GoString GoNet OriginFacts VaultApi Routes.
Import GoString GoNet.

Module Mux.

(** ** The operations, as the interface names them *)

Inductive operation :=
| ListBots
| ListBotVenues
| ListDeals
| ListOrders
| ListOrderScalers
| CancelOrderByOrderId
| DeleteBotOrderScalerConfig
| GetBotOrderScalerConfig
| UpsertBotOrderScalerConfig
| GetOrderScalerConfig
| UpdateOrderScalerConfig
| ListVenues
| DeleteVenue
| UpsertVenue
| ListVenueAssignments
| DeleteVenueAssignment
| UpsertVenueAssignment
| StreamHyperliquidPrices
| StreamOrders
| StreamSystemEvents
| GetSystemStatus
| GetVaultPayload
| UpdateVaultPayload
| SealVault
| SetupVault
| GetVaultStatus
| UnsealVault
| BeginWebauthnLogin
| FinishWebauthnLogin
| BeginWebauthnRegistration
| FinishWebauthnRegistration.

#[global] Instance operation_eq_dec : EqDecision operation.
Proof. solve_decision. Defined.

Record route := mkRoute { rt_method : string; rt_pattern : string; rt_operation : operation }.

#[global] Instance route_eq_dec : EqDecision route.
Proof. solve_decision. Defined.

(** [HandlerWithOptions], with an empty base URL. *)
Definition routes : list route := [
  mkRoute "GET" "/api/bots" ListBots;
  mkRoute "GET" "/api/bots/{bot_id}/venues" ListBotVenues;
  mkRoute "GET" "/api/deals" ListDeals;
  mkRoute "GET" "/api/orders" ListOrders;
  mkRoute "GET" "/api/orders/scalers" ListOrderScalers;
  mkRoute "POST" "/api/orders/{order_id}/cancel" CancelOrderByOrderId;
  mkRoute "DELETE" "/api/v1/bots/{botId}/order-scaler" DeleteBotOrderScalerConfig;
  mkRoute "GET" "/api/v1/bots/{botId}/order-scaler" GetBotOrderScalerConfig;
  mkRoute "PUT" "/api/v1/bots/{botId}/order-scaler" UpsertBotOrderScalerConfig;
  mkRoute "GET" "/api/v1/order-scaler" GetOrderScalerConfig;
  mkRoute "PUT" "/api/v1/order-scaler" UpdateOrderScalerConfig;
  mkRoute "GET" "/api/venues" ListVenues;
  mkRoute "DELETE" "/api/venues/{venue_id}" DeleteVenue;
  mkRoute "PUT" "/api/venues/{venue_id}" UpsertVenue;
  mkRoute "GET" "/api/venues/{venue_id}/assignments" ListVenueAssignments;
  mkRoute "DELETE" "/api/venues/{venue_id}/assignments/{bot_id}" DeleteVenueAssignment;
  mkRoute "PUT" "/api/venues/{venue_id}/assignments/{bot_id}" UpsertVenueAssignment;
  mkRoute "GET" "/sse/hyperliquid/prices" StreamHyperliquidPrices;
  mkRoute "GET" "/sse/orders" StreamOrders;
  mkRoute "GET" "/stream/system" StreamSystemEvents;
  mkRoute "GET" "/system/status" GetSystemStatus;
  mkRoute "GET" "/vault/payload" GetVaultPayload;
  mkRoute "PUT" "/vault/payload" UpdateVaultPayload;
  mkRoute "POST" "/vault/seal" SealVault;
  mkRoute "POST" "/vault/setup" SetupVault;
  mkRoute "GET" "/vault/status" GetVaultStatus;
  mkRoute "POST" "/vault/unseal" UnsealVault;
  mkRoute "POST" "/webauthn/login/begin" BeginWebauthnLogin;
  mkRoute "POST" "/webauthn/login/finish" FinishWebauthnLogin;
  mkRoute "POST" "/webauthn/registration/begin" BeginWebauthnRegistration;
  mkRoute "POST" "/webauthn/registration/finish" FinishWebauthnRegistration].

(** ** Matching *)

(** The mux unescapes each segment before it looks at it, and leaves one that it
    cannot unescape. *)
Definition pathUnescape (segment : string) : string := default segment (unescape encodePath segment).
Definition segments (path : string) : list string := pathUnescape <$> Split "/" path.

(** A wildcard takes any segment that is not empty and no escaped slash. *)
Definition segment_matches (pattern segment : string) : bool :=
  if HasPrefix pattern "{" then negb (String.eqb segment "") && negb (String.eqb segment "/")
  else String.eqb pattern segment.

Fixpoint segments_match (patterns segments : list string) : bool :=
  match patterns, segments with
  | [], [] => true
  | p :: patterns, s :: segments => segment_matches p s && segments_match patterns segments
  | _, _ => false
  end.

(** A pattern for [GET] takes [HEAD] as well. *)
Definition method_matches (pattern method : string) : bool :=
  String.eqb pattern method || (String.eqb pattern "GET" && String.eqb method "HEAD").

Definition route_matches (method path : string) (r : route) : bool :=
  method_matches (rt_method r) method && segments_match (Split "/" (rt_pattern r)) (segments path).

(** The operation that the mux of the API finds; no two patterns match one request. *)
Definition api_operation (method path : string) : option operation :=
  rt_operation <$> find (route_matches method path) routes.

(** ** The mux at the root *)

Inductive target := ToAPI | ToWeb | ToRedirect (path : string).

Definition api_patterns : list string :=
  ["/api/"; "/api"; "/sse/"; "/sse"; "/stream/"; "/stream"; "/webauthn/"; "/vault/"; "/vault"].

(** A pattern that ends in a slash takes what is below it. *)
Fixpoint subtree_matches (patterns segments : list string) : bool :=
  match patterns, segments with
  | [_], _ :: _ => true
  | p :: patterns, s :: segments => segment_matches p s && subtree_matches patterns segments
  | _, _ => false
  end.

Definition pattern_takes (path : list string) (pattern : string) : bool :=
  if HasSuffix pattern "/" then subtree_matches (Split "/" pattern) path
  else segments_match (Split "/" pattern) path.

(** Of the patterns that match the most specific one wins, and [/] is the least; the
    root of a subtree without its slash is sent there, unescaped. *)
Definition rootMux (path : string) : target :=
  if existsb (pattern_takes (segments path)) api_patterns then ToAPI
  else match find (λ p, segments_match (Split "/" p) (segments path ++ [""])) api_patterns with
       | Some p => ToRedirect p
       | None => ToWeb
       end.

(** What the program does with a request. *)
Definition reached (method path : string) : option operation :=
  match rootMux path with ToAPI => api_operation method path | _ => None end.

(** ** The calls of [Routes] *)

(** The operation of a call. *)
Definition operation_of {ParsedCreation ParsedAssertion : Type}
    (c : Routes.call (ParsedCreation := ParsedCreation) (ParsedAssertion := ParsedAssertion)) : operation :=
  match c with
  | Routes.CallListBots _ _ => ListBots
  | Routes.CallListBotVenues _ => ListBotVenues
  | Routes.CallListDeals _ _ _ => ListDeals
  | Routes.CallListOrders _ _ _ => ListOrders
  | Routes.CallListOrderScalers _ _ => ListOrderScalers
  | Routes.CallCancelOrder _ _ _ _ => CancelOrderByOrderId
  | Routes.CallDeleteBotOrderScalerConfig _ => DeleteBotOrderScalerConfig
  | Routes.CallGetBotOrderScalerConfig _ => GetBotOrderScalerConfig
  | Routes.CallUpsertBotOrderScalerConfig _ _ => UpsertBotOrderScalerConfig
  | Routes.CallGetOrderScalerConfig => GetOrderScalerConfig
  | Routes.CallUpdateOrderScalerConfig _ => UpdateOrderScalerConfig
  | Routes.CallListVenues => ListVenues
  | Routes.CallDeleteVenue _ => DeleteVenue
  | Routes.CallUpsertVenue _ _ => UpsertVenue
  | Routes.CallListVenueAssignments _ => ListVenueAssignments
  | Routes.CallDeleteVenueAssignment _ _ => DeleteVenueAssignment
  | Routes.CallUpsertVenueAssignment _ _ _ => UpsertVenueAssignment
  | Routes.CallStreamHyperliquidPrices _ _ => StreamHyperliquidPrices
  | Routes.CallStreamOrders _ => StreamOrders
  | Routes.CallStreamSystemEvents _ => StreamSystemEvents
  | Routes.CallGetSystemStatus _ _ => GetSystemStatus
  | Routes.CallGetVaultPayload => GetVaultPayload
  | Routes.CallUpdateVaultPayload _ => UpdateVaultPayload
  | Routes.CallSealVault => SealVault
  | Routes.CallSetupVault _ => SetupVault
  | Routes.CallGetVaultStatus => GetVaultStatus
  | Routes.CallUnsealVault _ => UnsealVault
  | Routes.CallBeginWebauthnLogin _ => BeginWebauthnLogin
  | Routes.CallFinishWebauthnLogin _ => FinishWebauthnLogin
  | Routes.CallBeginWebauthnRegistration _ => BeginWebauthnRegistration
  | Routes.CallFinishWebauthnRegistration _ => FinishWebauthnRegistration
  end.

(** ** Facts *)

(** Two patterns that a path could match both. *)
Fixpoint overlap (p q : list string) : bool :=
  match p, q with
  | [], [] => true
  | a :: p, b :: q => (HasPrefix a "{" || HasPrefix b "{" || String.eqb a b) && overlap p q
  | _, _ => false
  end.

Lemma overlap_matches p q : ∀ l, segments_match p l = true → segments_match q l = true → overlap p q = true.
Proof.
  revert q. induction p as [|a p IH]; intros [|b q] [|s l]; try done. cbn.
  intros [H1 Hp]%andb_prop [H2 Hq]%andb_prop. rewrite (IH q l Hp Hq), andb_true_r.
  unfold segment_matches in *. destruct (HasPrefix a "{"), (HasPrefix b "{"); try done.
  apply String.eqb_eq in H1 as ->. apply String.eqb_eq in H2 as ->. apply String.eqb_refl.
Qed.

(** Two routes with one method and overlapping patterns. *)
Definition clash (r r' : route) : bool :=
  String.eqb (rt_method r) (rt_method r') && overlap (Split "/" (rt_pattern r)) (Split "/" (rt_pattern r')).

(** What can be checked of two routes. *)
Definition apart (r r' : route) : bool :=
  (negb (clash r r') || bool_decide (r = r')) &&
  (negb (bool_decide (rt_operation r = rt_operation r')) || bool_decide (r = r')).

Lemma routes_apart r r' : r ∈ routes → r' ∈ routes → apart r r' = true.
Proof.
  intros H H'. assert (forallb (λ r, forallb (apart r) routes) routes = true) as Hall by (vm_compute; reflexivity).
  rewrite forallb_forall in Hall. apply list_elem_of_In in H, H'. specialize (Hall _ H).
  rewrite forallb_forall in Hall. by apply Hall.
Qed.

Lemma find_unique {A} (p : A → bool) l x : x ∈ l → p x = true →
  (∀ y, y ∈ l → p y = true → y = x) → find p l = Some x.
Proof.
  intros Hx Hp Hu. destruct (find p l) as [y|] eqn:E.
  - apply find_some in E as [Hy Hpy]. f_equal. apply Hu; [by apply list_elem_of_In|done].
  - pose proof (find_none _ _ E x (proj1 (list_elem_of_In _ _) Hx)). congruence.
Qed.

(** Where the root sends what the mux of the API knows. *)
Definition known_root (r : route) : bool :=
  negb (String.eqb (rt_method r) "HEAD") &&
  match Split "/" (rt_pattern r) with
  | EmptyString :: b :: _ :: _ =>
    negb (HasPrefix b "{") &&
    (if decide (rt_operation r = GetSystemStatus) then String.eqb (rt_pattern r) "/system/status"
     else existsb (λ p, HasSuffix p "/" && bool_decide (Split "/" p = [""; b; ""])) api_patterns)
  | _ => false
  end.

Lemma routes_known r : r ∈ routes → known_root r = true.
Proof.
  intros H. assert (forallb known_root routes = true) as Hall by (vm_compute; reflexivity).
  rewrite forallb_forall in Hall. by apply Hall, list_elem_of_In.
Qed.

Lemma one_match method path r r' : r ∈ routes → r' ∈ routes →
  route_matches method path r = true → route_matches method path r' = true → r = r'.
Proof.
  intros Hr Hr' [Hm Hp]%andb_prop [Hm' Hp']%andb_prop.
  pose proof (routes_apart r r' Hr Hr') as [Ha _]%andb_prop.
  pose proof (routes_known r Hr) as [Hh _]%andb_prop. pose proof (routes_known r' Hr') as [Hh' _]%andb_prop.
  enough (clash r r' = true) as E by (rewrite E in Ha; by apply bool_decide_eq_true_1 in Ha).
  unfold clash. rewrite (overlap_matches _ _ _ Hp Hp'), andb_true_r. unfold method_matches in *.
  apply negb_true_iff, String.eqb_neq in Hh, Hh'.
  apply orb_prop in Hm as [E%String.eqb_eq|[E%String.eqb_eq F%String.eqb_eq]%andb_prop];
    apply orb_prop in Hm' as [E'%String.eqb_eq|[E'%String.eqb_eq F'%String.eqb_eq]%andb_prop];
    apply String.eqb_eq; congruence.
Qed.

Lemma literal_match p s : HasPrefix p "{" = false → segment_matches p s = true → p = s.
Proof. unfold segment_matches. intros ->. apply String.eqb_eq. Qed.

Lemma rooted method path r : r ∈ routes → route_matches method path r = true →
  match rootMux path with ToAPI => Some (rt_operation r) | _ => None end =
    if decide (rt_operation r = GetSystemStatus) then None else Some (rt_operation r).
Proof.
  intros Hr [_ Hp]%andb_prop. pose proof (routes_known r Hr) as [_ Hk]%andb_prop.
  destruct (Split "/" (rt_pattern r)) as [|[|] [|b [|x pats]]] eqn:E; try done.
  unfold rootMux. destruct (segments path) as [|s [|s' [|s'' l]]]; cbn in Hp; try done;
    repeat (apply andb_prop in Hp as [? Hp]); try done.
  apply andb_prop in Hk as [Hb%negb_true_iff Hk].
  rewrite <- (literal_match "" s), <- (literal_match b s') by done.
  destruct (decide (rt_operation r = GetSystemStatus)) as [Heq|Hne].
  - apply String.eqb_eq in Hk. rewrite Hk in E. vm_compute in E. injection E as <- <- <-.
    destruct l; [|done]. cbn in Hp. by rewrite <- (literal_match "status" s'').
  - apply existsb_exists in Hk as (p & Hin & [Hs HS%bool_decide_eq_true_1]%andb_prop).
    assert (existsb (pattern_takes ("" :: b :: s'' :: l)) api_patterns = true) as ->; [|done].
    apply existsb_exists. exists p. split; [done|]. unfold pattern_takes. rewrite Hs, HS. cbn.
    unfold segment_matches. by rewrite Hb, String.eqb_refl.
Qed.

(** Every call of the API has one route, and no request is taken by the routes of
    two.  A request that the mux of the API would serve gets there from the mux at
    the root, with one exception: [/system/status] is under none of the prefixes that
    are handed on, so that no request at all reaches its handler. *)
Theorem calls_routed :
  (∀ op, ∃ r, r ∈ routes ∧ rt_operation r = op ∧ ∀ r', r' ∈ routes → rt_operation r' = op → r' = r) ∧
  (∀ method path r, r ∈ routes → route_matches method path r = true →
     api_operation method path = Some (rt_operation r) ∧
     reached method path =
       if decide (rt_operation r = GetSystemStatus) then None else Some (rt_operation r)) ∧
  (∀ method path, reached method path ≠ Some GetSystemStatus).
Proof.
  assert (∀ r r', r ∈ routes → r' ∈ routes → rt_operation r = rt_operation r' → r = r') as Hop.
  { intros r r' H H' E. pose proof (routes_apart r r' H H') as [_ Ha]%andb_prop.
    rewrite bool_decide_eq_true_2 in Ha by done. by apply bool_decide_eq_true_1 in Ha. }
  assert (∀ method path r, r ∈ routes → route_matches method path r = true →
    api_operation method path = Some (rt_operation r) ∧
    reached method path = if decide (rt_operation r = GetSystemStatus) then None else Some (rt_operation r)) as Hmain.
  { intros method path r Hr Hm.
    assert (api_operation method path = Some (rt_operation r)) as Hapi.
    { unfold api_operation. rewrite (find_unique _ _ r Hr Hm); [done|]. intros r' Hr' Hm'. symmetry.
      by apply (one_match method path). }
    split; [done|]. unfold reached. rewrite Hapi. by apply (rooted method path). }
  split_and!; [|done|].
  - intros op. assert (existsb (λ r, bool_decide (rt_operation r = op)) routes = true) as H
      by (destruct op; vm_compute; reflexivity).
    apply existsb_exists in H as (r & Hr%list_elem_of_In & H%bool_decide_eq_true_1).
    exists r. split_and!; [done|done|]. intros r' Hr' H'. apply Hop; congruence.
  - intros method path H. unfold reached in H. destruct (rootMux path) eqn:Eroot; [|done|done].
    unfold api_operation in H. destruct (find _ routes) as [r|] eqn:E; [|done].
    apply find_some in E as [Hr%list_elem_of_In Hm]. injection H as H.
    destruct (Hmain _ _ _ Hr Hm) as [Hapi Hreach]. unfold reached in Hreach.
    rewrite Eroot, Hapi, decide_True in Hreach by done. done.
Qed.

(** An escaped name reaches the same handler, an escaped slash none; and the root of
    a subtree is found escaped as well. *)
Example escaped_paths :
  reached "GET" "/api/%62ots" = Some ListBots ∧
  reached "PUT" "/%61pi/venues/hyper%2Fliquid" = Some UpsertVenue ∧
  reached "PUT" "/api/venues/%2F" = None ∧
  rootMux "/%77ebauthn" = ToRedirect "/webauthn/".
Proof. vm_compute. done. Qed.

End Mux.
