(* ===== verification/ConfigFacts.v ===== *)
(** * Facts of [Config]: where a setting comes from, and levels in and out of text. *)

From Stdlib Require Import Ascii.
From S2P Require Import Prelude GoFloat GoString GoNet Log OrderScaler Config.
Import GoFloat GoString GoNet Config.

Module ConfigFacts.

(** ** Numbers in text *)

Lemma dec_value_app a s t : dec_value a (s +:+ t) = dec_value (dec_value a s) t.
Proof. revert a. induction s as [|c s IH]; intros a; [done|]. rewrite app_cons. cbn. apply IH. Qed.

Lemma digit_byte d : 0 ≤ d < 10 →
  is_digit (of_byte (byte_of "0" + d)) = true ∧ byte_of (of_byte (byte_of "0" + d)) - byte_of "0" = d.
Proof.
  intros Hd. assert (byte_of "0" = 48) as E by done.
  unfold is_digit, between. rewrite byte_of_of_byte by lia. rewrite E.
  assert (byte_of "9" = 57) as -> by done. split; [|lia]. apply andb_true_intro. split; apply Z.leb_le; lia.
Qed.

Lemma digits_loop_spec fuel : ∀ n acc, 0 ≤ n < 2 ^ Z.of_nat fuel → (0 < fuel)%nat →
  ∃ s, digits_loop fuel n acc = s +:+ acc ∧ s ≠ ""%string ∧ all_chars is_digit s = true ∧ dec_value 0 s = n.
Proof.
  induction fuel as [|fuel IH]; intros n acc Hn Hf; [lia|]. cbn [digits_loop].
  destruct (digit_byte (n mod 10)) as [Hd Hv]; [by apply Z.mod_pos_bound|].
  set (d := of_byte (byte_of "0" + n mod 10)) in *.
  destruct (Z.ltb_spec n 10).
  - exists (String d ""). split_and!; [done..|cbn; by rewrite Hd|]. cbn [dec_value].
    rewrite Z.mod_small in Hv by lia. lia.
  - assert (n / 10 < 2 ^ Z.of_nat fuel) as Hlt.
    { apply Z.div_lt_upper_bound; [lia|]. rewrite Nat2Z.inj_succ, Z.pow_succ_r in Hn by lia. lia. }
    destruct (IH (n / 10) (String d acc)) as (s & -> & Hs & Hall & Hval).
    { split; [by apply Z.div_pos; lia|done]. }
    { destruct fuel; [|lia]. cbn in Hlt. assert (1 ≤ n / 10) by (apply Z.div_le_lower_bound; lia). lia. }
    exists (s +:+ String d ""). split_and!.
    + by rewrite append_assoc.
    + by destruct s.
    + rewrite all_app, Hall. cbn. by rewrite Hd.
    + rewrite dec_value_app, Hval. cbn [dec_value]. rewrite Hv. pose proof (Z.div_mod n 10). lia.
Qed.

Lemma digits_spec n : 0 ≤ n → digits n ≠ ""%string ∧ all_chars is_digit (digits n) = true ∧ dec_value 0 (digits n) = n.
Proof.
  intros Hn. unfold digits.
  destruct (digits_loop_spec (S (Z.to_nat (Z.log2 n))) n "") as (s & -> & Hs); [|lia|by rewrite append_nil].
  split; [done|]. rewrite Nat2Z.inj_succ, Z2Nat.id by apply Z.log2_nonneg.
  destruct (Z.eq_dec n 0) as [->|]; [done|]. apply Z.log2_spec. lia.
Qed.

Lemma strip_digits s : s ≠ ""%string → all_chars is_digit s = true → strip_sign s = (false, s).
Proof.
  destruct s as [|c s]; [done|]. cbn. intros _ [Hc _]%andb_prop.
  destruct (Ascii.eqb_spec c "+") as [->|]; [done|]. by destruct (Ascii.eqb_spec c "-") as [->|].
Qed.

Lemma Atoi_digits n : 0 ≤ n < 2 ^ 63 → Atoi (digits n) = Some n ∧ Atoi ("+" +:+ digits n) = Some n.
Proof.
  intros Hn. destruct (digits_spec n) as (Hne & Hall & Hv); [lia|].
  assert (∀ t, strip_sign t = (false, digits n) → Atoi t = Some n) as H.
  { intros t Ht. unfold Atoi. rewrite Ht, Hall, Hv. destruct (String.eqb_spec (digits n) ""); [done|]. cbn [orb negb].
    rewrite Z.mul_1_l. destruct (Z.leb_spec (- 2 ^ 63) n), (Z.ltb_spec n (2 ^ 63)); try lia. done. }
  split; [by apply H, strip_digits|by apply H].
Qed.

Lemma Atoi_negative n : 0 < n ≤ 2 ^ 63 → Atoi ("-" +:+ digits n) = Some (- n).
Proof.
  intros Hn. destruct (digits_spec n) as (Hne & Hall & Hv); [lia|].
  unfold Atoi. change (strip_sign ("-" +:+ digits n)) with (true, digits n). cbn iota beta.
  rewrite Hall, Hv. destruct (String.eqb_spec (digits n) ""); [done|]. cbn [orb negb].
  destruct (Z.leb_spec (- 2 ^ 63) (-1 * n)), (Z.ltb_spec (-1 * n) (2 ^ 63)); try lia; f_equal; lia.
Qed.

(** ** Levels *)

(** The offset of a level as its text shows it. *)
Lemma parse_offset base name val : - 2 ^ 63 ≤ val < 2 ^ 63 → name ∈ ["DEBUG"; "INFO"; "WARN"; "ERROR"] →
  parse_level name = Some base → - 2 ^ 63 ≤ base + val < 2 ^ 63 →
  parse_level (if val =? 0 then name else name +:+ (if 0 <? val then "+" else "") +:+ Itoa val) = Some (base + val).
Proof.
  intros Hval Hname Hbase Hr. destruct (Z.eqb_spec val 0) as [->|Hne]; [by rewrite Z.add_0_r|].
  assert (∀ c off n, Ascii.eqb c "+" || Ascii.eqb c "-" = true → Atoi (String c off) = Some n →
    parse_level (name +:+ String c off) = Some (i64 (base + n))) as H.
  { intros c off n Hc Hn.
    assert (one_of "+-" c = true) as Hc'
      by (by apply orb_prop in Hc as [->%Ascii.eqb_eq | ->%Ascii.eqb_eq]).
    assert (break (one_of "+-") (name +:+ String c off) = (name, String c off)) as Hb.
    { repeat (apply elem_of_cons in Hname as [->|Hname]; [repeat rewrite app_cons; cbn [break];
        change (EmptyString +:+ String c off) with (String c off); cbn [break]; by rewrite Hc'|]).
      by apply not_elem_of_nil in Hname. }
    unfold parse_level in *. rewrite Hb. cbn [String.eqb]. rewrite Hn. cbn [mbind option_bind].
    repeat (apply elem_of_cons in Hname as [->|Hname]; [by injection Hbase as <-|]).
    by apply not_elem_of_nil in Hname. }
  destruct (Z.ltb_spec 0 val) as [Hpos|Hpos].
  - unfold Itoa. destruct (Z.ltb_spec val 0); [lia|].
    change ("+" +:+ digits val) with (String "+" (digits val)).
    rewrite (H "+"%char (digits val) val); [by rewrite i64_id|done|].
    apply (Atoi_digits val). lia.
  - unfold Itoa. destruct (Z.ltb_spec val 0); [|lia].
    change ("" +:+ ("-" +:+ digits (- val))) with (String "-" (digits (- val))).
    rewrite (H "-"%char (digits (- val)) val); [by rewrite i64_id|done|].
    change (String "-" (digits (- val))) with ("-" +:+ digits (- val)).
    rewrite Atoi_negative by lia. f_equal. lia.
Qed.

(** The text of a level, as the log table stores it, is parsed back as the same
    level, whatever the level. *)
Theorem level_roundtrip (l : Z) (Hl : - 2 ^ 63 ≤ l < 2 ^ 63) (def : Z) :
  parse_level (Log.level_text l) = Some l ∧ ParseLevelOrDefault (Log.level_text l) def = l.
Proof.
  assert (parse_level (Log.level_text l) = Some l) as H.
  { unfold Log.level_text, Log.LevelDebug, Log.LevelInfo, Log.LevelWarn, Log.LevelError.
    destruct (Z.ltb_spec l 0); [|destruct (Z.ltb_spec l 4); [|destruct (Z.ltb_spec l 8)]].
    - rewrite (parse_offset (-4)); [f_equal; lia|lia|set_solver|done|lia].
    - rewrite (parse_offset 0); [f_equal; lia|lia|set_solver|done|lia].
    - rewrite (parse_offset 4); [f_equal; lia|lia|set_solver|done|lia].
    - rewrite (parse_offset 8); [f_equal; lia|lia|set_solver|done|lia]. }
  split; [done|]. unfold ParseLevelOrDefault. destruct (String.eqb_spec (Log.level_text l) "") as [E|]; [|by rewrite H].
  by rewrite E in H.
Qed.

(** ** The largest multiplier *)

(** An accepted configuration bounds the multipliers, unless the bound is no number. *)
Lemma multiplier_bounded debugmode flagSet env parsed cfg : configure debugmode flagSet env parsed = Ok cfg →
  let scaler := OrderScaler.WithMaxMultiplier (OrderScalerMaxMultiplier cfg) OrderScaler.New in
  if is_nan (OrderScalerMaxMultiplier cfg) then scaler = OrderScaler.New
  else OrderScaler.maxMultiplier scaler = OrderScalerMaxMultiplier cfg ∧
       fgt (OrderScalerMaxMultiplier cfg) fzero = true.
Proof.
  unfold configure. destruct (ApplyEnvDefaults debugmode flagSet env parsed) as [c|]; [|done]. cbn.
  unfold ValidateConfig. destruct (fle _ _) eqn:E; [done|]. intros [= <-].
  set (x := OrderScalerMaxMultiplier c) in *. clearbody x. unfold OrderScaler.WithMaxMultiplier.
  destruct (is_nan x) eqn:Hn.
  - by destruct x.
  - enough (fgt x fzero = true) as -> by done. by destruct x as [[]|[]| |[]].
Qed.

(** [NaN] is accepted, and then no multiplier is clamped. *)
Example nan_multiplier_accepted :
  let env := λ key, if String.eqb key "RECOMMA_ORDER_SCALER_MAX_MULTIPLIER" then Some "NaN"%string else None in
  match configure false ∅ env DefaultConfig with
  | Ok cfg => OrderScalerMaxMultiplier cfg = fnan ∧
              OrderScaler.WithMaxMultiplier (OrderScalerMaxMultiplier cfg) OrderScaler.New = OrderScaler.New
  | Err _ => False
  end.
Proof. vm_compute. done. Qed.

Lemma level_roundtrip_witness :
  parse_level (Log.level_text (-11)) = Some (-11) ∧ ParseLevelOrDefault (Log.level_text (-11)) 0 = -11.
Proof. apply (level_roundtrip (-11)). lia. Defined.

End ConfigFacts.
