(* ===== verification/ProducerFacts.v ===== *)
(** * Facts of [Producer]: whatever the order of its goroutines, a round ends, and it
    queues exactly the deals it was told; and round after round no deal is missed. *)

From S2P Require Import Prelude GoFloat GoString OrderId Domain Store Tables Queries Stream Storage Engine Producer TablesFacts StorageFacts.
Import GoFloat GoString Domain Store Tables TablesFacts Storage Producer.

Module ProducerFacts.

Lemma list_change {A} (l : list A) i x : l !! i = Some x →
  ∃ l1 l2, l = l1 ++ x :: l2 ∧ (∀ y, <[i := y]> l = l1 ++ y :: l2) ∧ delete i l = l1 ++ l2.
Proof.
  revert i. induction l as [|a l IH]; intros [|i] H; simplify_eq/=; [by exists [], l|].
  destruct (IH i H) as (l1 & l2 & -> & H1 & H2). exists (a :: l1), l2. cbn.
  split_and!; [done| |by rewrite H2]. intros y. by rewrite H1.
Qed.

Section Facts.
Context {sqlite : SqliteJSON} {json_deal : Codec TcDeal}.
Context {Bot : Type} {json_bot : Codec Bot} {bot_laws : CodecLaws Bot}.
Context (bot_id bot_updated : Bot → Z) (created : TcDeal → Z).

(** ** One step *)

Definition bot_row_of (s : Storage) (id : Z) : option bot_row := db_bots (sg_db s) !! id.

(** What [LoadBot] finds. *)
Definition found_of (s : Storage) (id : Z) : option Z :=
  row ← bot_row_of s id; _ ← Unmarshal (A := Bot) (bo_payload row);
  Some (UnixMilli (bo_last_synced_utc row)).

Lemma LoadBot_found id s :
  (LoadBot (Bot := Bot) id s).2 = s ∧
  match (LoadBot (Bot := Bot) id s).1 with Ok (Some (_, t)) => Some t | _ => None end = found_of s id.
Proof.
  unfold LoadBot, found_of, bot_row_of, Queries.FetchBot, one_of. sto_run.
  destruct (db_bots (sg_db s) !! id) as [row|]; [|done]. cbn.
  by destruct (Unmarshal (bo_payload row)).
Qed.

Lemma RecordDeal_rows d s id : bot_row_of (RecordThreeCommasDeal created d s).2 id = bot_row_of s id.
Proof. unfold RecordThreeCommasDeal. sto_run. by destruct (Marshal d). Qed.

Definition recorded (bot : Bot) (row : option bot_row) : option bot_row :=
  match Marshal bot with Some raw => Some (mkBotRow raw (unix_milli (bot_updated bot))) | None => row end.
Definition touched (latest : Z) (row : option bot_row) : option bot_row :=
  (λ r, mkBotRow (bo_payload r) (unix_milli latest)) <$> row.

Lemma RecordBot_rows bot s id :
  bot_row_of (RecordBot bot_id bot (bot_updated bot) s).2 id =
    if decide (id = bot_id bot) then recorded bot (bot_row_of s id) else bot_row_of s id.
Proof.
  unfold RecordBot, recorded, bot_row_of. sto_run. destruct (Marshal bot) as [raw|]; cbn; [|by destruct (decide _)].
  destruct (decide _) as [->|Hne]; [by rewrite lookup_insert_eq|by rewrite lookup_insert_ne].
Qed.
Lemma TouchBot_rows b latest s id :
  bot_row_of (TouchBot b latest s).2 id =
    if decide (id = b) then touched latest (bot_row_of s id) else bot_row_of s id.
Proof.
  unfold TouchBot, touched, bot_row_of. sto_run. cbn.
  destruct (decide _) as [->|Hne]; [by rewrite lookup_alter_eq|by rewrite lookup_alter_ne].
Qed.

Section Round.
Variable list_deals : Z → Z → option (list TcDeal).
Abbreviation bot_step := (bot_step bot_id bot_updated created list_deals).
Abbreviation advance := (advance bot_id bot_updated created list_deals).
Abbreviation group_step := (group_step bot_id bot_updated created list_deals).

(** ** A round ends *)

Definition rank (st : stage) : nat := match st with AtLoad => 2 | AtList _ _ => 1 | _ => 0 end.
Definition size (st : stage) : nat := match st with AtDeals l _ => 2 + length l | AtTouch _ => 1 | _ => 0 end.
Definition before (g : group (Bot := Bot)) : nat :=
  3 * length (gr_todo g) + sum_list_with (λ x, rank x.2) (gr_running g).
Definition after (g : group (Bot := Bot)) : nat := sum_list_with (λ x, size x.2) (gr_running g).

Lemma bot_step_less now bot st s st' added s' : bot_step now bot st s = (st', added, s') →
  let r := from_option rank 0%nat st' in
  (r < rank st ∨ r = rank st ∧ from_option size 0%nat st' < size st)%nat.
Proof.
  destruct st as [|lastReq found|[|d rest] latest|latest]; cbn.
  - destruct (LoadBot _ _) as [r s1]. intros; simplify_eq/=. lia.
  - destruct (list_deals _ _); intros; simplify_eq/=; lia.
  - intros; simplify_eq/=. lia.
  - intros; simplify_eq/=. lia.
  - intros; simplify_eq/=. lia.
Qed.

Lemma group_step_less n g g' : group_step n g g' →
  (before g' < before g ∨ before g' = before g ∧ after g' < after g)%nat.
Proof.
  destruct 1 as [g g' H|now i g g' _ H].
  - unfold launch in H. destruct (gr_todo g) as [|bot todo] eqn:E; [done|].
    destruct (_ || _); [|done]. simplify_eq. unfold before. rewrite E. cbn [gr_todo gr_running].
    rewrite sum_list_with_app. cbn. lia.
  - unfold Producer.advance in H. destruct (gr_running g !! i) as [[bot st]|] eqn:E; [|done].
    destruct (Producer.bot_step _ _ _ _ _ _ _ _) as [[st' added] s] eqn:Es. simplify_eq.
    apply bot_step_less in Es. cbn zeta in Es.
    destruct (list_change _ _ _ E) as (l1 & l2 & H1 & H2 & H3).
    unfold before, after. cbn [gr_todo gr_running]. rewrite H1 in *.
    destruct st' as [st'|]; cbn in Es; rewrite ?H2, ?H3, !sum_list_with_app; cbn; lia.
Qed.

Lemma group_ends n g : sn (group_step n) g.
Proof.
  remember (before g) as k eqn:Hk. remember (after g) as m eqn:Hm.
  revert g m Hk Hm. induction (lt_wf k) as [k _ IHk]. intros g m. revert g.
  induction (lt_wf m) as [m _ IHm]. intros g -> ->. constructor. intros g' H.
  destruct (group_step_less _ _ _ H) as [Hb|[Hb Ha]]; [by eapply IHk|].
  apply (IHm (after g')); [done|congruence|done].
Qed.

(** It does not get stuck, unless no goroutine may run. *)
Lemma group_moves n g : n ≠ 0 → ¬ finished g → ∃ g', group_step n g g'.
Proof.
  intros Hn Hf. destruct (gr_running g) as [|[bot st] running] eqn:E.
  - destruct (gr_todo g) as [|bot todo] eqn:Et; [by destruct Hf|].
    assert ((n <? 0) || (Z.of_nat (length (gr_running g)) <? n) = true) as Hfree.
    { rewrite E. apply orb_true_intro. rewrite !Z.ltb_lt. cbn. lia. }
    eexists. apply step_launch. unfold launch. by rewrite Et, Hfree.
  - destruct (bot_step (gr_clock g) bot st (gr_store g)) as [[st' added] s] eqn:Es.
    eexists. eapply (step_advance _ _ _ _ _ (gr_clock g) 0%nat); [done|].
    unfold Producer.advance. rewrite E. cbn. by rewrite Es.
Qed.

(** ** What a round does *)

Section Outcome.
Context (now0 : Z) (s0 : Storage) (q0 : list Engine.WorkKey) (bots : list Bot).
Hypothesis distinct : NoDup (bot_id <$> bots).

(** The time asked for, read at most at [now]. *)
Definition asked (now : Z) (bot : Bot) (lastReq : Z) : Prop :=
  match found_of s0 (bot_id bot) with
  | Some t => lastReq = t
  | None => ∃ n, now0 ≤ n ≤ now ∧ lastReq = n - day
  end.

(** The new time. *)
Definition new_time (now : Z) (bot : Bot) (lastReq : Z) (deals : list TcDeal) (latest : Z) : Prop :=
  ∃ n, now0 ≤ n ≤ now ∧ latest = latest_of n lastReq (found_of s0 (bot_id bot)) deals.

Definition answered (now : Z) (bot : Bot) (deals : list TcDeal) (latest : Z) : Prop :=
  ∃ lastReq, asked now bot lastReq ∧ list_deals (bot_id bot) lastReq = Some deals ∧
    new_time now bot lastReq deals latest.

Abbreviation row0 bot := (bot_row_of s0 (bot_id bot)).

(** What holds of a bot before its goroutine, at each stage of it, and after. *)
Definition stage_ok (g : group (Bot := Bot)) (bot : Bot) (st : stage) : Prop :=
  let row := bot_row_of (gr_store g) (bot_id bot) in
  match st with
  | AtLoad => row = row0 bot
  | AtList lastReq found => row = row0 bot ∧ asked (gr_clock g) bot lastReq ∧ found = found_of s0 (bot_id bot)
  | AtDeals rest latest => row = row0 bot ∧
      ∃ sent, answered (gr_clock g) bot (sent ++ rest) latest ∧ (deal_key <$> sent) ⊆ gr_queue g
  | AtTouch latest => row = recorded bot (row0 bot) ∧
      ∃ deals, answered (gr_clock g) bot deals latest ∧ (deal_key <$> deals) ⊆ gr_queue g
  end.
Definition done_ok (g : group (Bot := Bot)) (bot : Bot) : Prop :=
  let row := bot_row_of (gr_store g) (bot_id bot) in
  (∃ lastReq, asked (gr_clock g) bot lastReq ∧ list_deals (bot_id bot) lastReq = None ∧ row = row0 bot) ∨
  (∃ deals latest, answered (gr_clock g) bot deals latest ∧ (deal_key <$> deals) ⊆ gr_queue g ∧
     row = touched latest (recorded bot (row0 bot))).

Definition round_inv (g : group (Bot := Bot)) : Prop :=
  now0 ≤ gr_clock g ∧
  (∃ over, bots ≡ₚ over ++ (gr_running g).*1 ++ gr_todo g ∧ Forall (done_ok g) over) ∧
  Forall (λ bot, bot_row_of (gr_store g) (bot_id bot) = row0 bot) (gr_todo g) ∧
  Forall (λ x, stage_ok g x.1 x.2) (gr_running g) ∧
  (∀ id, id ∉ bot_id <$> bots → bot_row_of (gr_store g) id = bot_row_of s0 id) ∧
  q0 ⊆ gr_queue g ∧
  (∀ k, k ∈ gr_queue g → k ∈ q0 ∨
     ∃ bot deals latest d, bot ∈ bots ∧ answered (gr_clock g) bot deals latest ∧ d ∈ deals ∧ k = deal_key d).

Lemma asked_later now now' bot lastReq : now ≤ now' → asked now bot lastReq → asked now' bot lastReq.
Proof.
  unfold asked. intros H. destruct (found_of _ _); [done|]. intros (n & ? & ?). exists n. split; [lia|done].
Qed.
Lemma answered_later now now' bot deals latest : now ≤ now' →
  answered now bot deals latest → answered now' bot deals latest.
Proof.
  intros H (lastReq & H1 & H2 & n & ? & ?). exists lastReq. split_and!; [by eapply asked_later|done|].
  exists n. split; [lia|done].
Qed.

(** What others do does not matter. *)
Section Frame.
Context (g g' : group (Bot := Bot)) (bot : Bot).
Hypothesis same_row : bot_row_of (gr_store g') (bot_id bot) = bot_row_of (gr_store g) (bot_id bot).
Hypothesis queue_grows : gr_queue g ⊆ gr_queue g'.
Hypothesis clock_goes : gr_clock g ≤ gr_clock g'.

Lemma stage_frame st : stage_ok g bot st → stage_ok g' bot st.
Proof.
  unfold stage_ok. rewrite same_row. pose proof (λ r, asked_later _ _ bot r clock_goes) as Ha.
  pose proof (λ ds t, answered_later _ _ bot ds t clock_goes) as Hn.
  destruct st as [|lastReq found|rest latest|latest]; [done|naive_solver| |].
  - intros (? & sent & ? & ?). split; [done|]. exists sent. split; [by apply Hn|set_solver].
  - intros (? & deals & ? & ?). split; [done|]. exists deals. split; [by apply Hn|set_solver].
Qed.
Lemma done_frame : done_ok g bot → done_ok g' bot.
Proof.
  unfold done_ok. rewrite same_row. intros [(lastReq & ? & ? & ?)|(deals & latest & ? & ? & ?)].
  - left. exists lastReq. split_and!; [by apply (asked_later (gr_clock g))|done..].
  - right. exists deals, latest. split_and!; [by apply (answered_later (gr_clock g))|set_solver|done].
Qed.
End Frame.

(** A step of a bot leaves the rows of the others. *)
Lemma bot_step_row now bot st s st' added s' id : bot_step now bot st s = (st', added, s') →
  id ≠ bot_id bot → bot_row_of s' id = bot_row_of s id.
Proof.
  intros H Hid. destruct st as [|lastReq found|[|d rest] latest|latest]; cbn [Producer.bot_step] in H.
  - pose proof (LoadBot_found (bot_id bot) s) as [Hs _].
    destruct (LoadBot _ s) as [r s1]. cbn in Hs. by simplify_eq.
  - destruct (list_deals _ _); by simplify_eq.
  - simplify_eq. by rewrite RecordBot_rows, decide_False.
  - simplify_eq. apply RecordDeal_rows.
  - simplify_eq. by rewrite TouchBot_rows, decide_False.
Qed.

(** A step of a bot takes it from one stage to the next. *)
Lemma bot_step_ok now g bot st st' added s' todo running :
  bot_step now bot st (gr_store g) = (st', added, s') →
  now0 ≤ gr_clock g ≤ now → stage_ok g bot st →
  let g' := mkGroup s' (gr_queue g ++ added) todo running now in
  match st' with Some st' => stage_ok g' bot st' | None => done_ok g' bot end ∧
  (∀ k, k ∈ added → ∃ deals latest d, answered now bot deals latest ∧ d ∈ deals ∧ k = deal_key d).
Proof.
  intros H Hnow Hok. destruct st as [|lastReq found|[|d rest] latest|latest]; cbn [Producer.bot_step stage_ok] in H, Hok;
    cbn [stage_ok gr_store gr_queue gr_clock].
  - pose proof (LoadBot_found (bot_id bot) (gr_store g)) as [Hs Hf].
    destruct (LoadBot _ (gr_store g)) as [r s1]. cbn in Hs, Hf. simplify_eq. cbn [stage_ok gr_store gr_queue gr_clock].
    split; [|by intros ? ?%not_elem_of_nil]. split; [done|].
    assert (match r with Ok (Some (_, t)) => Some t | _ => None end = found_of s0 (bot_id bot)) as E.
    { rewrite Hf. unfold found_of. by rewrite Hok. }
    rewrite E. split; [|done]. unfold asked. destruct (found_of s0 _) as [t|]; cbn; [done|].
    exists now. split; [lia|done].
  - destruct Hok as (Hrow & Ha & ->).
    destruct (list_deals _ _) as [deals|] eqn:E; simplify_eq; cbn [stage_ok done_ok gr_store gr_queue gr_clock]; rewrite app_nil_r;
      (split; [|by intros ? ?%not_elem_of_nil]).
    + split; [done|]. exists []. cbn. split; [|set_solver]. exists lastReq.
      split_and!; [by apply (asked_later (gr_clock g)); [lia|]|done|]. exists now. split; [lia|done].
    + left. exists lastReq. cbn [gr_clock gr_store]. split_and!; [by apply (asked_later (gr_clock g)); [lia|]|done|done].
  - simplify_eq. destruct Hok as (Hrow & sent & Ha & Hq). rewrite app_nil_r in Ha. cbn [stage_ok gr_store gr_queue gr_clock].
    rewrite app_nil_r, RecordBot_rows, decide_True, Hrow by done.
    split; [|by intros ? ?%not_elem_of_nil]. split; [done|]. exists sent.
    split; [by apply (answered_later (gr_clock g)); [lia|]|done].
  - simplify_eq. destruct Hok as (Hrow & sent & Ha & Hq). cbn [stage_ok gr_store gr_queue gr_clock]. rewrite RecordDeal_rows.
    apply (answered_later _ now) in Ha; [|lia]. split.
    + split; [done|]. exists (sent ++ [d]). rewrite <- app_assoc. split; [done|].
      rewrite fmap_app. cbn. set_solver.
    + intros k ->%list_elem_of_singleton. exists (sent ++ d :: rest), latest, d. split_and!; [done|set_solver|done].
  - simplify_eq. destruct Hok as (Hrow & deals & Ha & Hq). cbn [done_ok gr_store gr_queue gr_clock]. rewrite app_nil_r.
    split; [|by intros ? ?%not_elem_of_nil].
    right. exists deals, latest. cbn [gr_clock gr_store gr_queue]. split_and!; [by apply (answered_later (gr_clock g)); [lia|]|done|].
    cbn [gr_store]. by rewrite TouchBot_rows, decide_True, Hrow.
Qed.

Lemma round_start : round_inv (start_group now0 bots s0 q0).
Proof.
  split_and!; cbn; [lia| | |by apply Forall_nil|done|done|by left].
  - exists []. cbn. split; [done|by apply Forall_nil].
  - by apply Forall_forall.
Qed.

Lemma round_launch n g g' : launch n g = Some g' → round_inv g → round_inv g'.
Proof.
  unfold launch. intros H (Hc & (over & Hp & Ho) & Ht & Hr & Hid & Hq & Hk).
  destruct (gr_todo g) as [|bot todo] eqn:E; [done|]. destruct (_ || _); [|done]. simplify_eq.
  apply Forall_cons in Ht as [Hb Ht]. split_and!; cbn; try done.
  - exists over. split; [|done]. rewrite Hp, fmap_app. cbn. by rewrite <- app_assoc.
  - apply Forall_app. split; [done|]. by apply Forall_singleton.
Qed.

(** The bot that takes a step, and the rest. *)
Lemma split_bots g over i bot st : bots ≡ₚ over ++ (gr_running g).*1 ++ gr_todo g →
  gr_running g !! i = Some (bot, st) →
  ∃ l1 l2, gr_running g = l1 ++ (bot, st) :: l2 ∧
    (∀ y, <[i := y]> (gr_running g) = l1 ++ y :: l2) ∧ delete i (gr_running g) = l1 ++ l2 ∧
    bot ∈ bots ∧ ∀ x, x ∈ over ++ l1.*1 ++ l2.*1 ++ gr_todo g → bot_id x ≠ bot_id bot.
Proof.
  intros Hp Hi. destruct (list_change _ _ _ Hi) as (l1 & l2 & H1 & H2 & H3).
  exists l1, l2. split_and!; [done..| |].
  - rewrite Hp, H1, fmap_app. cbn. rewrite !elem_of_app, elem_of_cons. tauto.
  - assert (bots ≡ₚ bot :: over ++ l1.*1 ++ l2.*1 ++ gr_todo g) as Hp'.
    { rewrite Hp, H1, fmap_app. cbn. rewrite <- !app_assoc. cbn. solve_Permutation. }
    pose proof distinct as Hd. rewrite Hp' in Hd. cbn in Hd. apply NoDup_cons in Hd as [Hd _].
    intros x Hx E. apply Hd. rewrite <- E. by apply list_elem_of_fmap_2.
Qed.

Lemma round_advance now i g g' : gr_clock g ≤ now → advance now i g = Some g' → round_inv g → round_inv g'.
Proof.
  unfold Producer.advance. intros Hnow H (Hc & (over & Hp & Ho) & Ht & Hr & Hid & Hq & Hk).
  destruct (gr_running g !! i) as [[bot st]|] eqn:E; [|done].
  destruct (Producer.bot_step _ _ _ _ _ _ _ _) as [[st' added] s] eqn:Es. simplify_eq.
  destruct (split_bots g over i bot st Hp E) as (l1 & l2 & H1 & H2 & H3 & Hin & Hne).
  set (running := match st' with Some st => <[i := (bot, st)]> (gr_running g) | None => delete i (gr_running g) end).
  set (g' := mkGroup s (gr_queue g ++ added) (gr_todo g) running now).
  assert (∀ id, id ≠ bot_id bot → bot_row_of s id = bot_row_of (gr_store g) id) as Hrow.
  { intros id. by apply (bot_step_row _ _ _ _ _ _ _ _ Es). }
  rewrite H1 in Hr. apply Forall_app in Hr as [Hr1 [Hst Hr2]%Forall_cons].
  destruct (bot_step_ok now g bot st st' added s (gr_todo g) running Es (conj Hc Hnow) Hst) as [Hnew Hadded].
  fold g' in Hnew.
  assert (∀ x, x ∈ over ++ l1.*1 ++ l2.*1 ++ gr_todo g → bot_row_of (gr_store g') (bot_id x) = bot_row_of (gr_store g) (bot_id x)) as Hsame.
  { intros x Hx. by apply Hrow, Hne. }
  assert (gr_queue g ⊆ gr_queue g') as Hgrow by (cbn; set_solver).
  assert (Forall (done_ok g') over) as Ho'.
  { rewrite Forall_forall in Ho |- *. intros x Hx. apply (done_frame g); [apply Hsame; rewrite !elem_of_app; tauto|done|done|by apply Ho]. }
  assert (∀ l, (∀ y, y ∈ l.*1 → y ∈ over ++ l1.*1 ++ l2.*1 ++ gr_todo g) →
    Forall (λ x, stage_ok g x.1 x.2) l → Forall (λ x, stage_ok g' x.1 x.2) l) as Hstages.
  { intros l Hl. rewrite !Forall_forall. intros Hall x Hx. apply (stage_frame g); [|done|done|by apply Hall].
    by apply Hsame, Hl, list_elem_of_fmap_2. }
  split_and!; cbn.
  - lia.
  - destruct st' as [st'|]; cbn.
    + exists over. unfold running. rewrite H2, Hp, H1, !fmap_app. cbn. done.
    + exists (bot :: over). unfold running. rewrite H3, Hp, H1, !fmap_app. cbn. split; [solve_Permutation|].
      by apply Forall_cons.
  - rewrite Forall_forall in Ht |- *. intros x Hx. rewrite Hrow; [by apply Ht|]. apply Hne. rewrite !elem_of_app. tauto.
  - unfold running. destruct st' as [st'|]; [rewrite H2|rewrite H3]; repeat first [apply Forall_app; split|apply Forall_cons; split].
    all: first [done|apply Hstages; [intros y; rewrite !elem_of_app; tauto|done]].
  - intros id Hn. rewrite Hrow; [by apply Hid|]. intros ->. apply Hn. by apply list_elem_of_fmap_2.
  - set_solver.
  - intros k [Hkq|Hka]%elem_of_app.
    + destruct (Hk k Hkq) as [|(b & ds & t & d & ? & ? & ? & ?)]; [by left|]. right.
      exists b, ds, t, d. split_and!; [done|by apply (answered_later (gr_clock g))|done..].
    + destruct (Hadded k Hka) as (ds & t & d & ? & ? & ?). right. by exists bot, ds, t, d.
Qed.

Lemma round_reached n g : rtc (group_step n) (start_group now0 bots s0 q0) g → round_inv g.
Proof.
  intros H. assert (round_inv (start_group now0 bots s0 q0)) as H0 by apply round_start.
  revert H H0. generalize (start_group now0 bots s0 q0). intros g0 H.
  induction H as [|g1 g2 g3 [? ? Hl|now i ? ? Hn Ha] _ IH]; [done| |]; intros Hi; apply IH.
  - by eapply round_launch.
  - by eapply round_advance.
Qed.

End Outcome.

(** C5.  A round of [ProduceActiveDeals], whatever the order of its goroutines: it
    cannot go on for ever, nor get stuck before it is finished if a goroutine may
    run at all.  When it is finished, each bot was asked for its deals once, from the
    time it was last synced, or for a day if it is new.  Every deal of every answer
    was queued and nothing else was; a bot with an answer has its new time, and a
    bot without one, or that is not in the round, is as it was. *)
Theorem deals_queued (n now0 : Z) (bots : list Bot) (s0 : Storage) (q0 : list Engine.WorkKey) g
    (Hdistinct : NoDup (bot_id <$> bots))
    (Hrun : rtc (group_step n) (start_group now0 bots s0 q0) g) :
  sn (group_step n) g ∧
  (n ≠ 0 → ¬ finished g → ∃ g', group_step n g g') ∧
  (finished g →
   (∀ bot, bot ∈ bots → ∃ lastReq,
      asked now0 s0 (gr_clock g) bot lastReq ∧
      match list_deals (bot_id bot) lastReq with
      | None => bot_row_of (gr_store g) (bot_id bot) = bot_row_of s0 (bot_id bot)
      | Some deals =>
        (deal_key <$> deals) ⊆ gr_queue g ∧
        ∃ latest, new_time now0 s0 (gr_clock g) bot lastReq deals latest ∧
          bot_row_of (gr_store g) (bot_id bot) = touched latest (recorded bot (bot_row_of s0 (bot_id bot)))
      end) ∧
   (∀ id, id ∉ bot_id <$> bots → bot_row_of (gr_store g) id = bot_row_of s0 id) ∧
   q0 ⊆ gr_queue g ∧
   (∀ k, k ∈ gr_queue g → k ∈ q0 ∨ ∃ bot lastReq deals d,
      bot ∈ bots ∧ asked now0 s0 (gr_clock g) bot lastReq ∧
      list_deals (bot_id bot) lastReq = Some deals ∧ d ∈ deals ∧ k = deal_key d)).
Proof.
  split_and!; [apply group_ends|by apply group_moves|].
  intros [Ht Hr]. apply round_reached in Hrun as (_ & (over & Hp & Ho) & _ & _ & Hid & Hq & Hk); [|done].
  rewrite Hr, Ht in Hp. cbn in Hp. rewrite app_nil_r in Hp. rewrite Forall_forall in Ho.
  assert (∀ bot, bot ∈ bots → ∃ lastReq, asked now0 s0 (gr_clock g) bot lastReq ∧
    match list_deals (bot_id bot) lastReq with
    | None => bot_row_of (gr_store g) (bot_id bot) = bot_row_of s0 (bot_id bot)
    | Some deals => (deal_key <$> deals) ⊆ gr_queue g ∧
        ∃ latest, new_time now0 s0 (gr_clock g) bot lastReq deals latest ∧
          bot_row_of (gr_store g) (bot_id bot) = touched latest (recorded bot (bot_row_of s0 (bot_id bot)))
    end) as Hbots.
  { intros bot Hb. rewrite Hp in Hb. destruct (Ho bot Hb) as [(lastReq & ? & Hl & ?)|(deals & t & (lastReq & ? & Hl & ?) & ? & ?)].
    - exists lastReq. by rewrite Hl.
    - exists lastReq. rewrite Hl. split; [done|]. split; [done|]. by exists t. }
  split_and!; [done..|]. intros k [|(bot & deals & t & d & ? & (lastReq & ? & ? & _) & ? & ?)]%Hk; [by left|right].
  by exists bot, lastReq, deals, d.
Qed.

End Round.

(** ** Round after round *)

Record round := mkRound {
  rd_answers : Z → Z → option (list TcDeal);
  rd_bots : list Bot;
  rd_concurrency : Z;
  rd_now : Z;
}.

(** Rounds with what each queued.  In between the program does other things, which
    leave the table of bots alone. *)
Inductive rounds : list (round * list Engine.WorkKey) → Storage → Storage → Prop :=
| rounds_nil s s' : db_bots (sg_db s') = db_bots (sg_db s) → rounds [] s s'
| rounds_cons r keys l limited reserved s s1 s2 s' :
    db_bots (sg_db s1) = db_bots (sg_db s) →
    ProduceActiveDeals bot_id bot_updated created (rd_answers r) (rd_concurrency r)
      limited reserved (Some (rd_bots r)) (rd_now r) s1 [] None s2 keys →
    rounds l s2 s' → rounds ((r, keys) :: l) s s'.

(** The bot is known, and was synced at a time of [ms] milliseconds. *)
Definition synced (s : Storage) (id ms : Z) : Prop :=
  - 2 ^ 63 ≤ ms < 2 ^ 63 ∧ ∃ payload, bot_row_of s id = Some (mkBotRow payload ms) ∧
    is_Some (Unmarshal (A := Bot) payload).

Lemma synced_found s id ms : synced s id ms → found_of s id = Some (UnixMilli ms).
Proof. intros (_ & payload & Hrow & [bot Hb]). unfold found_of. rewrite Hrow. cbn. by rewrite Hb. Qed.

Lemma unix_milli_UnixMilli ms : - 2 ^ 63 ≤ ms < 2 ^ 63 → unix_milli (UnixMilli ms) = ms.
Proof. intros H. unfold unix_milli, UnixMilli. rewrite Z.div_mul by done. by apply i64_id. Qed.

(** The new time is not later than the one before. *)
Lemma latest_earlier n ms deals : - 2 ^ 63 ≤ ms < 2 ^ 63 →
  ∃ ms', unix_milli (latest_of n (UnixMilli ms) (Some (UnixMilli ms)) deals) = ms' ∧
    - 2 ^ 63 ≤ ms' < 2 ^ 63 ∧ ms' ≤ ms.
Proof.
  intros H. destruct deals as [|d deals]; cbn [latest_of].
  - exists ms. rewrite unix_milli_UnixMilli by done. lia.
  - rewrite (unix_milli_UnixMilli ms) by done.
    pose proof (i64_range (min_updated (d :: deals) / millisecond)) as Hm. fold (unix_milli (min_updated (d :: deals))) in Hm.
    rewrite unix_milli_UnixMilli by lia. eexists. split; [done|]. lia.
Qed.

(** C4.  No deal is missed, and none is ever left alone.  A bot that is enabled was
    last synced before its deal was last updated; 3Commas shows a deal to those who
    ask from before that.  Then every round in which 3Commas answers for the bot
    queues the deal; and the time of the bot never goes forward, so that rounds ask
    for everything since the first of them. *)
Theorem deals_polled (bot id ms : Z) (l : list (round * list Engine.WorkKey)) (s s' : Storage)
    (Hsynced : synced s bot ms)
    (Hrounds : rounds l s s')
    (Henabled : ∀ r keys, (r, keys) ∈ l → NoDup (bot_id <$> rd_bots r) ∧
       ∃ b, b ∈ rd_bots r ∧ bot_id b = bot ∧ is_Some (Marshal b))
    (Hshown : ∀ r keys from deals, (r, keys) ∈ l → from ≤ UnixMilli ms →
       rd_answers r bot from = Some deals → ∃ d, d ∈ deals ∧ dl_Id d = id ∧ dl_BotId d = bot) :
  (∀ r keys, (r, keys) ∈ l → (∀ from, is_Some (rd_answers r bot from)) →
     Engine.mkWorkKey (u32 id) (u32 bot) ∈ keys) ∧
  ∃ ms', ms' ≤ ms ∧ synced s' bot ms'.
Proof.
  set (u := UnixMilli ms) in *. assert (UnixMilli ms ≤ u) as Hu by done. clearbody u.
  revert ms Hsynced Hu. induction Hrounds as [s s' Hs|r keys l limited reserved s s1 s2 s' Hs Hround Hrest IH];
    intros ms Hsynced Hu.
  - split; [by intros ? ? ?%not_elem_of_nil|]. exists ms. split; [done|].
    destruct Hsynced as (? & payload & Hrow & ?). split; [done|]. exists payload. unfold bot_row_of. by rewrite Hs.
  - assert (synced s1 bot ms) as Hs1.
    { destruct Hsynced as (? & payload & Hrow & ?). split; [done|]. exists payload. unfold bot_row_of. by rewrite Hs. }
    destruct (Henabled r keys) as [Hd (b & Hb & Hid & [raw Hraw])]; [by left|].
    inversion Hround as [| |bots g _ Hbots Hrun Hfin]; simplify_eq.
    destruct (round_reached (rd_answers r) (rd_now r) s1 [] (rd_bots r) Hd _ _ Hrun) as (_ & (over & Hp & Ho) & _).
    destruct Hfin as [Ht Hr]. rewrite Hr, Ht in Hp. cbn in Hp. rewrite app_nil_r in Hp.
    rewrite Forall_forall in Ho. specialize (Ho b). rewrite <- Hp in Ho. specialize (Ho Hb).
    assert (∀ lastReq, asked (rd_now r) s1 (gr_clock g) b lastReq → lastReq = UnixMilli ms) as Hasked.
    { unfold asked. rewrite (synced_found _ _ _ Hs1). done. }
    assert (((∀ from, is_Some (rd_answers r (bot_id b) from)) →
             Engine.mkWorkKey (u32 id) (u32 (bot_id b)) ∈ gr_queue g) ∧
            ∃ ms1, ms1 ≤ ms ∧ synced (gr_store g) (bot_id b) ms1) as [Hkey (ms1 & Hms & Hs2)].
    { destruct Ho as [(lastReq & Ha & Hl & Hrow)|(deals & latest & (lastReq & Ha & Hl & n & _ & ->) & Hsub & Hrow)].
      - split; [intros Hall; destruct (Hall lastReq); congruence|]. exists ms. split; [done|].
        destruct Hs1 as (? & payload & Hrow1 & ?). split; [done|]. exists payload. by rewrite Hrow.
      - apply Hasked in Ha as ->. split.
        + intros _. destruct (Hshown r (gr_queue g) (UnixMilli ms) deals) as (d & Hd' & <- & Hdb); [by left|done..|].
          apply Hsub. rewrite <- Hdb. by apply (list_elem_of_fmap_2 deal_key).
        + rewrite (synced_found _ _ _ Hs1) in Hrow.
          destruct (latest_earlier n ms deals) as (ms1 & Hlat & Hrange & Hle); [by destruct Hs1|].
          exists ms1. split; [done|]. split; [done|]. exists raw. rewrite Hrow. unfold recorded. rewrite Hraw. cbn.
          rewrite Hlat. split; [done|]. by rewrite (unmarshal_marshal _ _ Hraw). }
    destruct (IH) with (ms := ms1) as [Hkeys (ms' & ? & ?)].
    + intros r' keys' Hin. apply Henabled with keys'. by right.
    + intros r' keys' from deals Hin. apply Hshown with keys'. by right.
    + done.
    + unfold UnixMilli in *. enough (ms1 * millisecond ≤ ms * millisecond) by lia.
      by apply Z.mul_le_mono_nonneg_r.
    + split; [|exists ms'; split; [lia|done]].
      intros r' keys' [[= -> ->]|Hin]%elem_of_cons; [done|by apply Hkeys].
Qed.

(** ** Schedules that can be run *)

Inductive move := Launches | Steps (now : Z) (i : nat).

Fixpoint do_moves (answers : Z → Z → option (list TcDeal)) (n : Z) (ms : list move) (g : group) : option group :=
  match ms with
  | [] => Some g
  | Launches :: ms => g ← launch n g; do_moves answers n ms g
  | Steps now i :: ms =>
    if gr_clock g <=? now
    then g ← advance bot_id bot_updated created answers now i g; do_moves answers n ms g
    else None
  end.

Lemma moves_rtc answers n ms : ∀ g g', do_moves answers n ms g = Some g' →
  rtc (group_step bot_id bot_updated created answers n) g g'.
Proof.
  induction ms as [|[|now i] ms IH]; intros g g'; cbn [do_moves].
  - intros [= ->]. apply rtc_refl.
  - intros (g1 & H1 & H)%bind_Some. eapply rtc_l; [by apply step_launch|by apply IH].
  - destruct (Z.leb_spec (gr_clock g) now); [|done]. intros (g1 & H1 & H2)%bind_Some.
    eapply rtc_l; [by eapply step_advance|by apply IH].
Qed.

End Facts.

(** ** Two bots at the same time *)

#[local] Instance demo_json : SqliteJSON := StorageFacts.demo_json.
#[local] Instance demo_bots : Codec Z := table_codec [("b1"%string, 1); ("b2"%string, 2)].
#[local] Instance demo_deals : Codec TcDeal := Build_Codec TcDeal (λ d, Some (Itoa (dl_Id d))) (λ _, None).
#[local] Instance demo_bots_laws : CodecLaws Z.
Proof. apply table_codec_laws. vm_compute. reflexivity. Qed.

Definition a_deal (id bot updated : Z) : TcDeal := mkTcDeal id bot false "bought" "DOGE" (updated * second) [].

(** Bot 1 is known, with two deals; bot 2 is new, and 3Commas fails for it. *)
Definition demo_start : Storage :=
  mkStorage (with_bots {[1 := mkBotRow "b1" 5000]} empty_database) None.
Definition demo_answers (bot from : Z) : option (list TcDeal) :=
  if bot =? 1 then Some (filter (λ d, from ≤ dl_UpdatedAt d) [a_deal 10 1 7; a_deal 11 1 6; a_deal 9 1 2]) else None.

Definition demo_schedule : list move :=
  [Launches; Launches; Steps 101 0; Steps 101 1; Steps 102 0; Steps 103 1; Steps 104 0; Steps 105 0;
   Steps 106 0; Steps 107 0].
Definition demo_group : group (Bot := Z) :=
  default (start_group 100 [1; 2] demo_start [])
    (do_moves id (λ _, 8 * second) (λ _, 0) demo_answers 2 demo_schedule (start_group 100 [1; 2] demo_start [])).

Lemma demo_group_run : rtc (group_step id (λ _, 8 * second) (λ _, 0) demo_answers 2)
  (start_group 100 [1; 2] demo_start []) demo_group.
Proof. apply (moves_rtc _ _ _ _ _ demo_schedule). vm_compute. reflexivity. Qed.

Lemma demo_finished : finished demo_group.
Proof. vm_compute. done. Qed.

Lemma deals_queued_witness :
  gr_queue demo_group = [Engine.mkWorkKey 10 1; Engine.mkWorkKey 11 1] ∧
  bot_row_of (gr_store demo_group) 1 = Some (mkBotRow "b1" 5000) ∧
  sn (group_step id (λ _, 8 * second) (λ _, 0) demo_answers 2) demo_group ∧
  (∀ id', id' ∉ [1; 2] → bot_row_of (gr_store demo_group) id' = bot_row_of demo_start id').
Proof.
  split; [vm_compute; reflexivity|]. split; [vm_compute; reflexivity|].
  assert (NoDup (id <$> [1; 2])) as Hd by (apply (bool_decide_unpack _); vm_compute; exact I).
  destruct (deals_queued id (λ _, 8 * second) (λ _, 0) demo_answers 2 100 [1; 2] demo_start [] demo_group Hd demo_group_run)
    as (H1 & _ & H2).
  split; [exact H1|]. exact (proj1 (proj2 (H2 demo_finished))).
Defined.

Lemma deals_polled_witness :
  Engine.mkWorkKey 11 1 ∈ gr_queue demo_group ∧
  ∃ ms', ms' ≤ 5000 ∧ synced (Bot := Z) (gr_store demo_group) 1 ms'.
Proof.
  set (r := mkRound demo_answers [1; 2] 2 100).
  assert (∀ r' keys, (r', keys) ∈ [(r, gr_queue demo_group)] → r' = r) as Hr.
  { intros r' keys H. by apply list_elem_of_singleton in H as [= -> _]. }
  destruct (deals_polled id (λ _, 8 * second) (λ _, 0) 1 11 5000 [(r, gr_queue demo_group)]
    demo_start (gr_store demo_group)) as [Hkeys Hend].
  - split; [lia|]. exists "b1"%string. split; [reflexivity|]. by exists 1.
  - apply (rounds_cons _ _ _ _ _ _ true true _ demo_start (gr_store demo_group)); [done| |by constructor].
    by apply (produce_all _ _ _ _ _ _ _ _ _ _ _ [1; 2]); [..|exact demo_group_run|exact demo_finished].
  - intros r' keys ->%Hr. split; [apply (bool_decide_unpack _); vm_compute; exact I|].
    exists 1. split; [by left|]. by split; [|exists "b1"%string].
  - intros r' keys from deals ->%Hr Hfrom [= <-]. exists (a_deal 11 1 6). split; [|done].
    apply list_elem_of_filter. split; [unfold a_deal, UnixMilli, second, millisecond in *; cbn; lia|set_solver].
  - split; [|exact Hend].
    assert (∀ from, is_Some (rd_answers r 1 from)) as Hall by (intros from; by eexists).
    apply (Hkeys r); [by left|exact Hall].
Defined.

End ProducerFacts.
