(* ===== verification/Process.v ===== *)
(** * The life of the process: [cmd/recomma/app.go] and [cmd/recomma/main.go]

    The server comes up first, the program waits for its vault to be unsealed and
    then starts everything else; from then on its tickers go.  How the vault begins
    is in [Startup], how the venues are set up in [Venues], how the program stops in
    [Shutdown]. *)

From S2P Require Import Prelude GoFloat GoString OrderId Domain Store Tables Stream Storage RateLimit FillTracker.
From S2P Require Import Store ScalerStorage Polling Engine Producer Workers Config Log Origin Vault Refresh Socket Venues Shutdown Api.
From S2P Require Import VaultStore Server WebAuthn Startup WebUi Debugmode.
Import GoFloat GoString Domain Store Tables.

Module Process.

(** [NewApp]: the least level of the events of the system that are streamed. *)
Definition systemLevel (SystemStreamMinLevel : string) : Stream.SystemEventLevel :=
  let level := ToLower SystemStreamMinLevel in
  if String.eqb level "debug" then Stream.SystemEventDebug
  else if String.eqb level "info" then Stream.SystemEventInfo
  else if String.eqb level "warn" || String.eqb level "warning" then Stream.SystemEventWarn
  else if String.eqb level "error" then Stream.SystemEventError
  else Stream.SystemEventInfo.

(** ** The server *)

(** Its address once it listens; what waits in [serverErrCh], which holds one error. *)
Record http_server := mkServer {
  hs_Addr : string;
  hs_serverAddr : string;
  hs_serverStarted : bool;
  hs_serverErrCh : option string;
}.

(** The outcome of [net.Listen]; [None] blocks on a channel that is full. *)
Definition StartHTTPServer (listen : result string string) (s : http_server) : option http_server :=
  if hs_serverStarted s then Some s
  else match listen with
       | Err err =>
         match hs_serverErrCh s with
         | Some _ => None
         | None => Some (mkServer (hs_Addr s) (hs_serverAddr s) false (Some err))
         end
       | Ok addr => Some (mkServer (hs_Addr s) addr true (hs_serverErrCh s))
       end.

(** Receives an error, if there is one. *)
Definition CheckHTTPServerError (s : http_server) : option string * http_server :=
  (hs_serverErrCh s, mkServer (hs_Addr s) (hs_serverAddr s) (hs_serverStarted s) None).

Definition HTTPAddr (s : http_server) : string :=
  if hs_serverStarted s && negb (String.eqb (hs_serverAddr s) "") then hs_serverAddr s else hs_Addr s.

(** ** [NewApp] *)

(** The log handlers by number: the one of the error stream and the one of the store. *)
Definition stderr : nat := 0.
Definition stored : nat := 1.
Definition log_handler (core : nat) : Log.tree := Log.Leaf core true (Log.mkHandler [] []).

Definition multiHandler (cfg : Config.AppConfig) : Log.tree :=
  Log.NewMultiHandler ([Some (log_handler stderr)] ++ (if Config.LogToStorage cfg then [Some (log_handler stored)] else [])).
Definition finalHandler (cfg : Config.AppConfig) : Log.tree :=
  match Config.ParseLogGroups (Config.LogGroups cfg) with
  | [] => multiHandler cfg
  | logGroups => Log.NewGroupFilterHandler (multiHandler cfg) logGroups
  end.

(** The least level each of them takes. *)
Definition handler_level (cfg : Config.AppConfig) (core : nat) : Z :=
  if (core =? stderr)%nat then (Config.GetLogHandler cfg).1
  else Config.ParseLevelOrDefault (Config.LogStorageLevel cfg) Log.LevelInfo.

(** What the owner is shown of the rounds. *)
Record shown := mkShown { sh_stream : Stream.SystemStreamController; sh_status : Api.SystemStatusTracker }.

Inductive app_error :=
| StorageInitFailed (e : store_error)
| WebAuthInitFailed (err : string)
| VaultNotLoaded (e : store_error).

Section NewApp.
Context {sqlite : SqliteJSON} {driver : VaultStore.BlobDriver} {json_flags : Codec (gmap string Storage.flag)}.
Context {SessionData : Type}.
(** The library's [webauthn.New] for a relying party and its origins: an error, or none. *)
Variable webauthn_New : string → list string → option string.

Record built := mkBuilt {
  bu_allowedOrigins : list string;
  bu_rpID : string;
  bu_logger : Log.tree;
  bu_shown : shown;
  bu_api : Server.Server (SessionData := SessionData);
  bu_web : string → option WebUi.config_script;
  bu_Server : http_server;
}.

Definition NewApp (debugmode : bool) (now : Z) (cfg : Config.AppConfig) (d : Database) (t : VaultStore.VaultTables)
    : result app_error built :=
  let allowedOrigins := Origin.BuildAllowedOrigins (Config.HTTPListen cfg) (Config.PublicOrigin cfg) in
  let rpID := Origin.DeriveRPID (Config.HTTPListen cfg) (Config.PublicOrigin cfg) in
  let debug := WebUi.SetDebug (Debugmode.Available debugmode) (Config.Debug cfg) in
  match Storage.New now true d with
  | Err e => Err (StorageInitFailed e)
  | Ok store =>
    match webauthn_New rpID allowedOrigins with
    | Some err => Err (WebAuthInitFailed err)
    | None =>
      match Startup.initialVault t with
      | Err e => Err (VaultNotLoaded e)
      | Ok vault =>
        Ok (mkBuilt allowedOrigins rpID (finalHandler cfg)
              (mkShown (Stream.NewSystemStreamController (systemLevel (Config.SystemStreamMinLevel cfg)))
                 Api.NewSystemStatusTracker)
              (Server.mkServer store t (Some vault) None (Some (WebAuthn.NewWebAuthnService 0)) debug
                 (Config.OrderScalerMaxMultiplier cfg) None)
              (WebUi.Handler (Config.HTTPListen cfg) (Config.PublicOrigin cfg) false debug)
              (mkServer (Config.HTTPListen cfg) "" false None))
      end
    end
  end.

End NewApp.

(** ** Waiting for the vault *)

Inductive wait_end := Unsealed | ServerError (err : string) | ContextDone.

(** A [select] takes any case that is ready: an error of the server, the end of the
    context, or the vault, whose waiter was let in at once or by the channel
    [ch] it took. *)
Inductive WaitForVaultUnseal {json} (serverErr : option string) (ctx_done : bool)
    (waits : option nat) (vault : Vault.Controller (json := json)) : wait_end → Prop :=
| wait_server err : serverErr = Some err → WaitForVaultUnseal serverErr ctx_done waits vault (ServerError err)
| wait_done : ctx_done = true → WaitForVaultUnseal serverErr ctx_done waits vault ContextDone
| wait_let_in : waits = None → WaitForVaultUnseal serverErr ctx_done waits vault Unsealed
| wait_channel ch : waits = Some ch → ch ∈ Vault.cc_closed vault →
    WaitForVaultUnseal serverErr ctx_done waits vault Unsealed.

(** [main]: the exit code, unless it goes on to [Start]. *)
Definition exit_after_wait (w : wait_end) : option Z :=
  match w with Unsealed => None | ServerError _ => Some 1 | ContextDone => Some 0 end.

(** ** [Start] *)

Inductive start_error :=
| SecretsUnavailable
| PlanTierInvalid (e : plan_error)
| ClientFailed (err : string)
| VenuesFailed (e : Venues.venue_error).

(** What the tier decides. *)
Record pace := mkPace {
  pc_tier : ThreeCommasPlanTier;
  pc_dealWorkers : Z;
  pc_resyncInterval : Z;
  pc_produceConcurrency : Z;
  pc_limiter : RateLimit.Limiter;
}.

Definition start_pace {json} (now : Z) (vault : Vault.Controller (json := json))
    : result start_error (Vault.Data (json := json) * pace) :=
  match Vault.GetSecrets vault with
  | None => Err SecretsUnavailable
  | Some secrets =>
    let d := Vault.se_Secrets secrets in
    match ParseThreeCommasPlanTierOrDefault (Vault.THREECOMMASPLANTIER d) with
    | Err e => Err (PlanTierInvalid e)
    | Ok (planTier, _) =>
      let cfg := RateLimitConfig_of planTier in
      Ok (d, mkPace planTier (DealWorkers cfg) (ResyncInterval cfg) (ProduceConcurrency cfg)
               (RateLimit.NewLimiter (RateLimit.mkConfig (RequestsPerMinute cfg) 0 (PrioritySlots cfg)) now))
    end
  end.

(** The tracker as [Start] makes it: it waits for statuses, and has the emitter. *)
Definition new_tracker : FillTracker.Service :=
  FillTracker.SetEmitter true (FillTracker.RequireStatusHydration FillTracker.New).

Section Process.
Context {sdk : SDK} {sqlite : SqliteJSON} {R : GoRange} {venue_sdk : Venues.VenueSDK}.
Context {json_status : Codec WsOrder} {json_flags : Codec (gmap string Storage.flag)} {json_deal : Codec TcDeal}.
Context {json_event : Codec TcBotEvent} {json_create : Codec CreateOrderRequest} {json_modify : Codec ModifyOrderRequest}
  {json_cancel : Codec CancelOrderRequestByCloid} {json_payload : Codec ScalerStorage.scaledOrderPayload}.
Context {Bot : Type} {json_bot : Codec Bot} (bot_id bot_updated : Bot → Z) (created : TcDeal → Z).
Context {tracker : Venues.VenueTracker FillTracker.Service} {statuses : Refresh.StatusStore Storage.Storage}.

(** What runs when [Start] returns. *)
Record running := mkRunning {
  rn_pace : pace;
  rn_app : Venues.App;
  rn_tracker : FillTracker.Service;
  rn_prices : Venues.priceSourceMultiplexer (list Socket.Client) (nat * Z);
}.

(** [Start] up to the workers, from registries and queues that are empty; [client] is
    the error of making the client of 3Commas, if there is one, and the outcome of the
    refresh of statuses is left open by [initialized]. *)
Inductive Start (cfg : Config.AppConfig) (fuel : nat) (clock : Z → Z) (now : Z) (client : option string) (subscribes : bool)
    (vault : Vault.Controller (json := Storage.flag)) (a : Venues.App) : result start_error running → Prop :=
| start_refused e :
    start_pace now vault = Err e → Start cfg fuel clock now client subscribes vault a (Err e)
| start_no_client d p err :
    start_pace now vault = Ok (d, p) → client = Some err →
    Start cfg fuel clock now client subscribes vault a (Err (ClientFailed err))
| start_no_venues d p e a' t' :
    start_pace now vault = Ok (d, p) → client = None →
    Venues.initialized bot_id fuel clock now (Config.HyperliquidIOCInitialOffsetBps cfg)
      (Config.OrderScalerMaxMultiplier cfg) subscribes d a new_tracker (Some e) a' t' None →
    Start cfg fuel clock now client subscribes vault a (Err (VenuesFailed e))
| start_up d p a' t' prices :
    start_pace now vault = Ok (d, p) → client = None →
    Venues.initialized bot_id fuel clock now (Config.HyperliquidIOCInitialOffsetBps cfg)
      (Config.OrderScalerMaxMultiplier cfg) subscribes d a new_tracker None a' t' (Some prices) →
    Start cfg fuel clock now client subscribes vault a (Ok (mkRunning p a' t' prices)).

(** The workers it starts, on its two queues. *)
Definition start_workers {QD QO : Type} {deal_queue : Workers.WorkQueue QD Engine.WorkKey} {order_queue : Workers.WorkQueue QO OrderWork}
    (cfg : Config.AppConfig) (p : pace) (deals : QD) (orders : QO) : Shutdown.system :=
  Shutdown.start_system (pc_dealWorkers p) (Config.OrderWorkers cfg) deals orders.

(** ** Rounds *)

Definition report (now : Z) (err : option string) (w : shown) : shown :=
  match err with
  | Some msg =>
    mkShown (Stream.SystemPublish now (Stream.mkSystemEvent Stream.SystemEventError now "3commas" msg ∅) (sh_stream w))
      (Api.SetThreeCommasError msg (sh_status w))
  | None => mkShown (sh_stream w) (Api.ClearThreeCommasError now (sh_status w))
  end.

(** The parts of the program that the tickers work on. *)
Record world := mkWorld {
  wo_store : Storage.Storage;
  wo_deals : list Engine.WorkKey;
  wo_tracker : FillTracker.world;
  wo_shown : shown;
}.

(** The answers of a round: the limiter, the bots and their deals; the texts of its errors. *)
Record answers := mkAnswers {
  an_reserved : bool;
  an_bots : option (list Bot);
  an_deals : Z → Z → option (list TcDeal);
  an_text : Producer.produce_error → string;
}.

Inductive ProduceActiveDealsOnce (p : pace) (now : Z) (an : answers) (w : world) : world → Prop :=
| produced err s q :
    Producer.ProduceActiveDeals bot_id bot_updated created (an_deals an) (pc_produceConcurrency p) true
      (an_reserved an) (an_bots an) now (wo_store w) (wo_deals w) err s q →
    ProduceActiveDealsOnce p now an w
      (mkWorld s q (wo_tracker w) (report now (an_text an <$> err) (wo_shown w))).

Definition hour : Z := 3600 * second.

(** How the queue answers the orders of the tracker. *)
Variable emit : nat → OrderWork → option emit_error.

Definition reconcile (now : Z) (w : world) : world :=
  mkWorld (wo_store w) (wo_deals w)
    (FillTracker.ReconcileTakeProfits (store := Polling.tracker_store (wo_store w)) emit true now (wo_tracker w)) (wo_shown w).
Definition cleanup (now : Z) (w : world) : world :=
  mkWorld (wo_store w) (wo_deals w)
    (FillTracker.mkWorld (FillTracker.CleanupStaleDeals hour now (FillTracker.wd_svc (wo_tracker w))).2
       (FillTracker.wd_log (wo_tracker w))) (wo_shown w).

(** A tick of [startPeriodicTasks] before the context ends, and the first round. *)
Inductive tick (p : pace) (now : Z) : world → world → Prop :=
| resync an w w' : ProduceActiveDealsOnce p now an w w' → tick p now w (reconcile now w')
| clean w : tick p now w (cleanup now w).

End Process.

End Process.
