(* ===== verification/ShutdownFacts.v ===== *)
(** * Facts of [Shutdown]: what is queued is worked off before the store is closed,
    and the program comes to its end. *)

From S2P Require Import Prelude GoFloat GoString OrderId Domain Store Hl Emitter Engine Workers Shutdown EmitterFacts.
Import Domain Workers Shutdown.

Module ShutdownFacts.

(** ** Traces with two kinds of marks

    Whether the last mark turned something on. *)

Definition flag {E} (on off : E → bool) (tr : list E) : bool :=
  fold_left (λ b e, if on e then true else if off e then false else b) tr false.

Lemma flag_snoc {E} (on off : E → bool) tr e :
  flag on off (tr ++ [e]) = if on e then true else if off e then false else flag on off tr.
Proof. unfold flag. by rewrite fold_left_app. Qed.

Lemma flag_turned {E} (on off : E → bool) tr1 e tr2 :
  on e = true → flag on off (tr1 ++ e :: tr2) = false → ∃ e', e' ∈ tr2 ∧ off e' = true.
Proof.
  intros He. induction tr2 as [|e' tr2 IH] using rev_ind.
  - by rewrite flag_snoc, He.
  - change (tr1 ++ e :: tr2 ++ [e']) with (tr1 ++ (e :: tr2) ++ [e']). rewrite app_assoc, flag_snoc.
    destruct (on e'); [done|]. destruct (off e') eqn:Eo.
    + intros _. exists e'. split; [apply elem_of_app; right; by left|done].
    + intros (e'' & Hin & Hoff)%IH. exists e''. split; [apply elem_of_app; by left|done].
Qed.

(** ** A queue and its workers *)

Section Pool.
Context {Q K X : Type} `{EqDecision K} {queue : WorkQueue Q K} {draining : DrainingQueue Q K}
  {laws : DrainingQueueLaws Q K}.
Implicit Types (p : pool Q K X) (k : K).

(** What the trace says of one item. *)
Inductive pool_event := PoolQueued (k : K) | PoolTaken (k : K) | PoolSettled (k : K).

Definition no_done (r : request K) : Prop := match r with ToDone _ => False | _ => True end.

(** The moves of a pool, as the program makes them. *)
Inductive pool_step p : list pool_event → pool Q K X → Prop :=
| pool_add k :
    pool_step p (if ShuttingDown (po_queue p) then [] else [PoolQueued k]) (with_queue (Add k (po_queue p)) p)
| pool_take now x i k p' :
    po_workers p !! i = Some Idle → take now x i p = Some (Some k, p') → pool_step p [PoolTaken k] p'
| pool_return now x i p' :
    po_workers p !! i = Some Idle → take now x i p = Some (None, p') → pool_step p [] p'
| pool_rest i k x x' :
    po_workers p !! i = Some (Busy k x) → pool_step p [] (with_worker i (Busy k x') p)
| pool_settle i k x r :
    po_workers p !! i = Some (Busy k x) → no_done r →
    pool_step p [PoolSettled k] (with_worker i Idle (with_queue (ask (ToDone k) (ask r (po_queue p))) p))
| pool_shut : pool_step p [] (with_queue (ShutDown (po_queue p)) p).

Record pool_ok p : Prop := {
  ok_working k : working k (po_queue p) = true ↔ ∃ i x, po_workers p !! i = Some (Busy k x);
  ok_alone i j k x y : po_workers p !! i = Some (Busy k x) → po_workers p !! j = Some (Busy k y) → i = j;
  ok_gone i : po_workers p !! i = Some Gone → ShuttingDown (po_queue p) = true;
  ok_left k : po_workers p ≠ [] → all_gone p = true → owed k (po_queue p) = false;
}.

Lemma all_gone_spec p : all_gone p = true ↔ ∀ i w, po_workers p !! i = Some w → w = Gone.
Proof.
  unfold all_gone. rewrite forallb_forall. split.
  - intros H i w Hi. apply list_elem_of_lookup_2, list_elem_of_In, H in Hi. by destruct w.
  - intros H w Hw%list_elem_of_In. apply list_elem_of_lookup_1 in Hw as [i Hi]. by rewrite (H i w Hi).
Qed.

Lemma some_left p : all_gone p = false → ∃ i w, po_workers p !! i = Some w ∧ w ≠ Gone.
Proof.
  unfold all_gone. intros H. induction (po_workers p) as [|w ws IH]; [done|]. cbn in H.
  destruct w; try (exists 0%nat; by eexists). destruct (IH H) as (i & w & Hi & Hw). by exists (S i), w.
Qed.

Lemma take_Some now x i p r p' : take now x i p = Some (r, p') →
  match r with
  | Some k => ∃ q, Get now (po_queue p) = Some (k, q) ∧ p' = with_worker i (Busy k x) (with_queue q p)
  | None => Get now (po_queue p) = None ∧ ShuttingDown (po_queue p) = true ∧ p' = with_worker i Gone p
  end.
Proof.
  unfold take. destruct (Get now (po_queue p)) as [[k q]|]; [intros [= <- <-]; eauto|].
  destruct (ShuttingDown _); [|done]. by intros [= <- <-].
Qed.

Lemma workers_change p i w (j : nat) v : po_workers p !! i = Some v →
  <[i := w]> (po_workers p) !! j = if decide (j = i) then Some w else po_workers p !! j.
Proof.
  intros Hi%lookup_lt_Some. destruct (decide _) as [->|Hne]; [by apply list_lookup_insert_eq|].
  by apply list_lookup_insert_ne.
Qed.

Lemma working_settle k k' r q : no_done r →
  working k' (ask (ToDone k) (ask r q)) = working k' q && bool_decide (k ≠ k').
Proof. intros Hr. rewrite working_ask. f_equal. rewrite working_ask. by destruct r. Qed.

Lemma busy_left p i k x : po_workers p !! i = Some (Busy k x) → all_gone p = false.
Proof. intros Hi. apply not_true_iff_false. intros H. by apply (proj1 (all_gone_spec p) H) in Hi. Qed.
Lemma idle_left p i : po_workers p !! i = Some Idle → all_gone p = false.
Proof. intros Hi. apply not_true_iff_false. intros H. by apply (proj1 (all_gone_spec p) H) in Hi. Qed.

Lemma gone_shut p : pool_ok p → po_workers p ≠ [] → all_gone p = true → ShuttingDown (po_queue p) = true.
Proof.
  intros Hp Hne Hg. destruct (po_workers p) as [|w ws] eqn:E; [done|].
  assert (po_workers p !! 0%nat = Some w) as H0 by by rewrite E.
  apply (ok_gone p Hp 0%nat). by rewrite H0, (proj1 (all_gone_spec p) Hg _ _ H0).
Qed.

(** The workers stay, and the queue is asked for something. *)
Lemma pool_ok_queue p q : pool_ok p →
  (∀ k, working k q = working k (po_queue p)) →
  (ShuttingDown (po_queue p) = true → ShuttingDown q = true) →
  (∀ k, po_workers p ≠ [] → all_gone p = true → owed k (po_queue p) = false → owed k q = false) →
  pool_ok (with_queue q p).
Proof.
  intros Hp Hw Hs Ho. split; cbn.
  - intros k. rewrite Hw. apply (ok_working p Hp).
  - apply (ok_alone p Hp).
  - intros i Hi. by apply Hs, (ok_gone p Hp i).
  - intros k Hne Hg. apply Ho; [done|done|]. by apply (ok_left p Hp).
Qed.

(** The [i]-th worker changes; an item it holds then it did not share before. *)
Lemma pool_ok_worker p q i v w : pool_ok p → po_workers p !! i = Some v → w ≠ Gone →
  (ShuttingDown (po_queue p) = true → ShuttingDown q = true) →
  (∀ k, working k q = true ↔ (∃ x, w = Busy k x) ∨ working k (po_queue p) = true ∧ ∀ x, v ≠ Busy k x) →
  (∀ k x, w = Busy k x → (∃ y, v = Busy k y) ∨ working k (po_queue p) = false) →
  pool_ok (with_worker i w (with_queue q p)).
Proof.
  intros Hp Hi Hw Hs Hwork Hnew. split; cbn [with_worker with_queue po_workers po_queue].
  - intros k. rewrite Hwork. split.
    + intros [[x ->]|[Hk Hv]]; [exists i, x; by rewrite (workers_change p i _ i v Hi), decide_True|].
      apply (ok_working p Hp) in Hk as (j & x & Hj). exists j, x.
      rewrite (workers_change p i _ j v Hi), decide_False; [done|]. intros ->. by apply (Hv x); simplify_eq.
    + intros (j & x & Hj). rewrite (workers_change p i _ j v Hi) in Hj. case_decide as Hij.
      * left. exists x. by simplify_eq.
      * right. split; [apply (ok_working p Hp); eauto|]. intros y ->. by apply Hij, (ok_alone p Hp j i k x y).
  - intros j1 j2 k x y. rewrite !(workers_change p i _ _ v Hi).
    assert (∀ j z z', w = Busy k z → po_workers p !! j = Some (Busy k z') → j = i) as Hone.
    { intros j z z' Hk Hj. destruct (Hnew k z Hk) as [[y' ->]|Hf]; [by apply (ok_alone p Hp j i k z' y')|].
      apply not_true_iff_false in Hf. destruct Hf. apply (ok_working p Hp). eauto. }
    do 2 case_decide; intros H1 H2; simplify_eq; try done.
    + symmetry. by eapply Hone.
    + by eapply Hone.
    + by apply (ok_alone p Hp j1 j2 k x y).
  - intros j. rewrite (workers_change p i _ j v Hi). case_decide; [congruence|]. intros Hj. by apply Hs, (ok_gone p Hp j).
  - intros k _ Hg. exfalso. apply Hw. apply (proj1 (all_gone_spec _) Hg i).
    cbn. by rewrite (workers_change p i _ i v Hi), decide_True.
Qed.

Lemma pool_step_ok p es p' : pool_step p es p' → pool_ok p → pool_ok p'.
Proof.
  destruct 1 as [k|now x i k p' Hi Ht|now x i p' Hi Ht|i k x x' Hi|i k x r Hi Hr|]; intros Hp.
  - apply pool_ok_queue; [done|intros k'; apply (working_ask k' (ToAdd k))|by rewrite <- (shutting_ask (ToAdd k))|].
    intros k' Hne Hg <-. apply (owed_ask_shut k' (ToAdd k)). by apply gone_shut.
  - destruct (take_Some _ _ _ _ _ _ Ht) as (q & Hget & ->). pose proof (λ k', working_Get k' k _ _ _ Hget) as Hw.
    eapply pool_ok_worker; [done|exact Hi|done|by rewrite (shutting_Get _ _ _ _ Hget)| |].
    + intros k'. rewrite (proj2 (Hw k')), orb_true_iff, bool_decide_eq_true. split.
      * intros [->|Hk]; [left; by eexists|by right].
      * intros [[y [= -> ->]]|[Hk _]]; [by left|by right].
    + intros k' y [= -> ->]. right. by apply (Hw k').
  - destruct (take_Some _ _ _ _ _ _ Ht) as (Hget & Hs & ->).
    assert (∀ j w, <[i := Gone]> (po_workers p) !! j = Some w → w = Gone ∨ j ≠ i ∧ po_workers p !! j = Some w) as Hch.
    { intros j w. rewrite (workers_change p i _ j _ Hi). case_decide; [intros [= <-]; by left|by right]. }
    split; cbn [with_worker po_workers po_queue].
    + intros k. rewrite (ok_working p Hp). split; intros (j & y & Hj).
      * exists j, y. rewrite (workers_change p i _ j _ Hi), decide_False; [done|]. intros ->. simplify_eq.
      * exists j, y. by destruct (Hch _ _ Hj) as [|[_ ?]].
    + intros j1 j2 k y z [|[_ H1]]%Hch [|[_ H2]]%Hch; try done. by eapply (ok_alone p Hp).
    + done.
    + intros k _ Hg. apply not_true_iff_false. intros Ho.
      apply (owed_Get_None _ _ _ Hget), (ok_working p Hp) in Ho as (j & y & Hj).
      enough (Busy k y = Gone) by done. apply (proj1 (all_gone_spec _) Hg j). cbn. rewrite (workers_change p i _ j _ Hi), decide_False; [done|]. intros ->. simplify_eq.
  - change (with_worker i (Busy k x') p) with (with_worker i (Busy k x') (with_queue (po_queue p) p)).
    assert (working k (po_queue p) = true) as Hk by (apply (ok_working p Hp); eauto).
    eapply pool_ok_worker; [done|exact Hi|done|done| |].
    + intros k'. split; [|intros [[y [= -> ->]]|[? _]]; done].
      intros Hk'. destruct (decide (k' = k)) as [->|Hne]; [left; by eexists|right]. split; [done|]. congruence.
    + intros k' y [= -> ->]. left. by eexists.
  - eapply pool_ok_worker; [done|exact Hi|done|by rewrite !shutting_ask| |done].
    intros k'. rewrite working_settle, andb_true_iff, bool_decide_eq_true by done. split.
    + intros [Hk Hne]. right. split; [done|]. congruence.
    + intros [[y [=]]|[Hk Hne]]. split; [done|]. intros ->. by eapply Hne.
  - apply pool_ok_queue; [done|intros k; apply working_ShutDown|by rewrite shutting_ShutDown|]. intros k _ _. by rewrite owed_ShutDown.
Qed.

(** *** What the trace says *)

Definition queued_of k (e : pool_event) : bool := match e with PoolQueued k' => bool_decide (k' = k) | _ => false end.
Definition taken_of k (e : pool_event) : bool := match e with PoolTaken k' => bool_decide (k' = k) | _ => false end.
Definition settled_of k (e : pool_event) : bool := match e with PoolSettled k' => bool_decide (k' = k) | _ => false end.

(** Items that were queued and not taken since; those that were taken and not settled. *)
Definition waits k (tr : list pool_event) : bool := flag (queued_of k) (taken_of k) tr.
Definition in_hand k (tr : list pool_event) : bool := flag (taken_of k) (settled_of k) tr.

Definition tells p (tr : list pool_event) : Prop :=
  ∀ k, (waits k tr = true → owed k (po_queue p) = true) ∧ in_hand k tr = working k (po_queue p).

Lemma tells_same p q tr : tells p tr →
  (∀ k, owed k (po_queue p) = true → owed k q = true) → (∀ k, working k q = working k (po_queue p)) →
  tells (with_queue q p) (tr ++ []).
Proof. intros Ht Ho Hw k. rewrite app_nil_r. destruct (Ht k) as [H1 H2]. cbn. rewrite Hw. auto. Qed.

Lemma pool_step_tells p es p' tr : pool_step p es p' → tells p tr → tells p' (tr ++ es).
Proof.
  destruct 1 as [k|now x i k p' Hi Ht|now x i p' Hi Ht|i k x x' Hi|i k x r Hi Hr|]; intros Hp.
  - assert (∀ k', working k' (Add k (po_queue p)) = working k' (po_queue p)) as Hw
      by (intros k'; apply (working_ask k' (ToAdd k))).
    destruct (ShuttingDown (po_queue p)) eqn:Es.
    + apply tells_same; [done| |done]. intros k'. apply (owed_ask k' (ToAdd k)).
    + intros k'. destruct (Hp k') as [Ho Hh]. unfold waits, in_hand. rewrite !flag_snoc. cbn [with_queue po_queue].
      rewrite Hw. cbn. split; [|done]. case_bool_decide as Hk; [subst; intros _; by apply owed_Add|].
      intros ?%Ho. by apply (owed_ask k' (ToAdd k)).
  - destruct (take_Some _ _ _ _ _ _ Ht) as (q & Hget & ->). intros k'. destruct (Hp k') as [Ho Hh].
    destruct (working_Get k' k _ _ _ Hget) as [_ Hw]. unfold waits, in_hand. rewrite !flag_snoc. cbn. rewrite Hw.
    case_bool_decide as Hk; [done|]. split; [|done]. intros ?%Ho. by apply (owed_Get _ _ _ _ _ Hget).
  - destruct (take_Some _ _ _ _ _ _ Ht) as (_ & _ & ->). rewrite app_nil_r. exact Hp.
  - rewrite app_nil_r. exact Hp.
  - intros k'. destruct (Hp k') as [Ho Hh]. unfold waits, in_hand. rewrite !flag_snoc.
    cbn [queued_of taken_of settled_of with_worker with_queue po_queue]. rewrite working_settle by done. split.
    + intros ?%Ho. by do 2 apply owed_ask.
    + fold (in_hand k' tr). rewrite Hh. do 2 case_bool_decide; try done; by rewrite ?andb_true_r, ?andb_false_r.
  - apply tells_same; [done| |].
    + intros k. by rewrite owed_ShutDown.
    + intros k. apply working_ShutDown.
Qed.

(** *** A pool that shuts down comes to rest *)

Definition weight (size : X → nat) (w : worker K X) : nat :=
  match w with Busy _ x => 2 + size x | Idle => 1 | Gone => 0 end.
Definition effort (size : X → nat) p : nat := sum_list_with (weight size) (po_workers p).

Lemma effort_change size p i v w : po_workers p !! i = Some v →
  (effort size (with_worker i w p) + weight size v = effort size p + weight size w)%nat.
Proof.
  intros Hi. unfold effort. cbn. rewrite <- (take_drop_middle _ _ _ Hi) at 2.
  rewrite insert_take_drop by by eapply lookup_lt_Some.
  rewrite !sum_list_with_app. cbn. lia.
Qed.

Definition less_work size p' p : Prop :=
  (debts (po_queue p') < debts (po_queue p) ∨
   debts (po_queue p') ≤ debts (po_queue p) ∧ effort size p' < effort size p)%nat.

(** *** The moves that a pool itself makes take work away *)

Lemma less_take size now x i p r p' : ShuttingDown (po_queue p) = true →
  po_workers p !! i = Some Idle → take now x i p = Some (r, p') → less_work size p' p.
Proof.
  intros Hs Hi Ht%take_Some. destruct r as [k|].
  - destruct Ht as (q & Hget & ->). left. cbn. by eapply debts_Get.
  - destruct Ht as (_ & _ & ->). right. split; [done|].
    pose proof (effort_change size p i Idle Gone Hi) as H. cbn [weight] in H. lia.
Qed.

Lemma less_rest size i k x x' p : po_workers p !! i = Some (Busy k x) → (size x' < size x)%nat →
  less_work size (with_worker i (Busy k x') p) p.
Proof.
  intros Hi Hx. right. split; [done|]. pose proof (effort_change size p i _ (Busy k x') Hi) as H. cbn [weight] in H. lia.
Qed.

Lemma less_settle size i k x rs p : ShuttingDown (po_queue p) = true →
  po_workers p !! i = Some (Busy k x) →
  less_work size (with_worker i Idle (with_queue (foldr ask (po_queue p) rs) p)) p.
Proof.
  intros Hs Hi. right. split.
  - cbn. enough (debts (foldr ask (po_queue p) rs) ≤ debts (po_queue p) ∧ ShuttingDown (foldr ask (po_queue p) rs) = true)%nat
      by tauto.
    induction rs as [|r rs [IH1 IH2]]; [done|]. cbn. rewrite shutting_ask. split; [|done].
    pose proof (debts_ask r _ IH2). lia.
  - pose proof (effort_change size (with_queue (foldr ask (po_queue p) rs) p) i _ Idle Hi) as H.
    cbn [weight] in H. change (effort size (with_queue _ p)) with (effort size p) in H. lia.
Qed.

Lemma drained_gone p : pool_ok p → po_workers p ≠ [] → all_gone p = true → drained (po_queue p) = true.
Proof.
  intros Hp Hne Hg. apply drained_spec. intros k. split; [by apply (ok_left p Hp)|].
  apply not_true_iff_false. intros (i & x & Hi)%(ok_working p Hp).
  by rewrite (busy_left _ _ _ _ Hi) in Hg.
Qed.

End Pool.

(** ** The program *)

Section System.
Context {QD QO : Type} {deal_queue : WorkQueue QD Engine.WorkKey} {order_queue : WorkQueue QO OrderWork}.
Context {deal_draining : DrainingQueue QD Engine.WorkKey} {order_draining : DrainingQueue QO OrderWork}.
Context {deal_laws : DrainingQueueLaws QD Engine.WorkKey} {order_laws : DrainingQueueLaws QO OrderWork}.
Context (wraps : string → bool) (venues : nat) (logs : bool).
Abbreviation sys := (system (QD := QD) (QO := QO)).
Abbreviation do_move := (do_move wraps venues logs).
Abbreviation step := (step wraps venues logs).
Implicit Types (s : sys).

Definition deal_event (e : event) : option (pool_event (K := Engine.WorkKey)) :=
  match e with
  | Queued (inl k) => Some (PoolQueued k)
  | Taken (inl k) => Some (PoolTaken k)
  | Settled (inl k) => Some (PoolSettled k)
  | _ => None
  end.
Definition order_event (e : event) : option (pool_event (K := OrderWork)) :=
  match e with
  | Queued (inr w) => Some (PoolQueued w)
  | Taken (inr w) => Some (PoolTaken w)
  | Settled (inr w) => Some (PoolSettled w)
  | _ => None
  end.

Lemma deal_settles err k (q : QD) :
  ∃ r, no_done r ∧ processWorkItem err k q = ask (ToDone k) (ask r q).
Proof.
  unfold processWorkItem.
  destruct err as [[]|]; [exists (ToForget k)|exists (ToAddRateLimited k)| |exists (ToForget k)]; try done.
  destruct (_ <? _); [exists (ToAddRateLimited k)|exists (ToForget k)]; done.
Qed.
Lemma order_settles err w (q : QO) :
  ∃ r, no_done r ∧ processOrderItem wraps err w q = ask (ToDone w) (ask r q).
Proof.
  unfold processOrderItem. pose (a := ToAddRateLimited w). pose (b := ToForget w).
  destruct err as [f|]; [|by exists b].
  destruct f; cbn [is_context]; try (destruct (wraps _)); try (destruct (_ <? _));
    solve [exists a; done | exists b; done].
Qed.

(** A move leaves a pool alone, or is a move of the pool. *)
Definition moved {Q K X} `{WorkQueue Q K} {draining : DrainingQueue Q K} (p : pool Q K X) es (p' : pool Q K X) : Prop :=
  es = [] ∧ p' = p ∨ pool_step p es p'.

Lemma same_pool {Q K X} `{WorkQueue Q K} {draining : DrainingQueue Q K} (p : pool Q K X) : moved p [] p.
Proof. by left. Qed.

(** *** The moves of [Shutdown], one by one *)

Inductive main_step : sys → list event → sys → Prop :=
| main_requested s : sy_stage s = Running → main_step s [] (at_stage StoppingServer (sy_err s) [] s)
| main_stops s : sy_stage s = StoppingServer →
    main_step s [] (at_stage AwaitingRequests (sy_err s) [] (with_server false (sy_requests s) s))
| main_idle s : sy_stage s = AwaitingRequests → sy_requests s = 0%nat →
    main_step s [] (shut_deals (at_stage DrainingDeals (sy_err s) [] s))
| main_server_error s e : sy_stage s = StoppingServer ∨ sy_stage s = AwaitingRequests →
    main_step s [] (shut_deals (at_stage DrainingDeals (Some e) [] s))
| main_deals s : sy_stage s = DrainingDeals → drained (po_queue (sy_deals s)) = true →
    main_step s [] (shut_orders (at_stage DrainingOrders (sy_err s) [] s))
| main_orders s : sy_stage s = DrainingOrders → drained (po_queue (sy_orders s)) = true →
    main_step s [] (at_stage (AwaitingWorkers false) (sy_err s) [] s)
| main_cancels s : sy_stage s = AwaitingWorkers false →
    main_step s [WorkersCanceled] (at_stage (AwaitingWorkers true) (sy_err s) [WorkersCanceled] s)
| main_workers s b : sy_stage s = AwaitingWorkers b → workers_gone s = true →
    main_step s [] (at_stage (Closing (closings venues logs)) (sy_err s) [] s)
| main_closes s c rest err : sy_stage s = Closing (c :: rest) → (sy_err s ≠ None → err ≠ None) →
    main_step s [Closed c] (at_stage (Closing rest) err [Closed c] s).

Lemma close_error_kept c o err : err ≠ None → close_error c o err ≠ None.
Proof. by destruct c, o, err. Qed.

Lemma Shutdown_main o s s' : Shutdown venues logs o s = Some s' → ∃ es, main_step s es s'.
Proof.
  unfold Shutdown. destruct (sy_stage s) as [| | | | |b|[|c rest]] eqn:Hst.
  - intros [= <-]. eexists. by apply main_requested.
  - unfold drainHTTPServer. rewrite Hst. destruct o; try done; intros [= <-]; eexists.
    + by apply main_stops.
    + apply main_server_error. by left.
  - unfold drainHTTPServer. rewrite Hst. destruct o.
    + destruct (_ =? _)%nat eqn:Er; [|done]. apply Nat.eqb_eq in Er. intros [= <-]. eexists. by apply main_idle.
    + intros [= <-]. eexists. apply main_server_error. by right.
    + intros [= <-]. eexists. apply main_server_error. by right.
  - destruct (drained _) eqn:Ed; [|done]. intros [= <-]. eexists. by apply main_deals.
  - destruct (drained _) eqn:Ed; [|done]. intros [= <-]. eexists. by apply main_orders.
  - assert ((if workers_gone s then Some (at_stage (Closing (closings venues logs)) (sy_err s) [] s) else None) = Some s' →
        ∃ es, main_step s es s') as Hgone.
    { destruct (workers_gone s) eqn:Eg; [|done]. intros [= <-]. eexists. by eapply main_workers. }
    destruct o, b; try apply Hgone. intros [= <-]. eexists. by apply main_cancels.
  - done.
  - intros [= <-]. eexists. apply main_closes; [done|apply close_error_kept].
Qed.

Lemma Shutdown_pools o s s' : Shutdown venues logs o s = Some s' →
  ∃ es, sy_trace s' = sy_trace s ++ es ∧ omap deal_event es = [] ∧ omap order_event es = [] ∧
    moved (sy_deals s) [] (sy_deals s') ∧ moved (sy_orders s) [] (sy_orders s').
Proof.
  intros [es H]%Shutdown_main. exists es.
  destruct H; cbn; rewrite ?app_nil_r; (split_and!; [done|done|done|..]);
    solve [apply same_pool | right; apply (pool_shut (sy_deals s)) | right; apply (pool_shut (sy_orders s))].
Qed.

Lemma add_deal_pools k s :
  ∃ es, sy_trace (add_deal k s) = sy_trace s ++ es ∧
    moved (sy_deals s) (omap deal_event es) (sy_deals (add_deal k s)) ∧
    moved (sy_orders s) (omap order_event es) (sy_orders (add_deal k s)).
Proof.
  eexists. split; [done|]. cbn. pose proof (pool_add (sy_deals s) k) as Hp.
  destruct (ShuttingDown _); (split; [right; exact Hp|apply same_pool]).
Qed.

Lemma add_order_pools b w s :
  ∃ es, sy_trace (add_order b w s) = sy_trace s ++ es ∧ omap deal_event es = [] ∧
    moved (sy_orders s) (omap order_event es) (sy_orders (add_order b w s)).
Proof.
  eexists. split; [done|]. cbn. pose proof (pool_add (sy_orders s) w) as Hp.
  destruct (ShuttingDown _); (split; [done|right; exact Hp]).
Qed.

Lemma do_move_pools m s s' : do_move m s = Some s' →
  ∃ es, sy_trace s' = sy_trace s ++ es ∧
    moved (sy_deals s) (omap deal_event es) (sy_deals s') ∧
    moved (sy_orders s) (omap order_event es) (sy_orders s').
Proof.
  destruct m as [now does i|now does i|o|o]; cbn.
  - unfold deal_step. destruct (po_workers (sy_deals s) !! i) as [[|k [[|w ws] err]|]|] eqn:Hi; [| | |done..].
    + intros ([r p] & Ht & [= <-])%bind_Some. eexists. split; [done|]. cbn. split; [right|destruct r; apply same_pool].
      destruct r; [by eapply pool_take|by eapply pool_return].
    + intros [= <-]. eexists. split; [done|]. cbn. split; [right|apply same_pool].
      destruct (deal_settles err k (po_queue (sy_deals s))) as (r & Hr & ->). by eapply pool_settle.
    + intros [= <-]. destruct (add_order_pools true w s) as (es & H1 & H2 & H3).
      exists es. cbn [with_deals sy_trace sy_deals sy_orders]. rewrite app_nil_r, H2.
      split; [exact H1|]. split; [right; by eapply pool_rest|exact H3].
  - unfold order_step. destruct (po_workers (sy_orders s) !! i) as [[|w err|]|] eqn:Hi; [| |done..].
    + intros ([r p] & Ht & [= <-])%bind_Some. eexists. split; [done|]. cbn. split; [destruct r; apply same_pool|right].
      destruct r; [by eapply pool_take|by eapply pool_return].
    + intros [= <-]. eexists. split; [done|]. cbn. split; [apply same_pool|right].
      destruct (order_settles err w (po_queue (sy_orders s))) as (r & Hr & ->). by eapply pool_settle.
  - intros H. apply Shutdown_pools in H as (es & H1 & H2 & H3 & H4 & H5). exists es. by rewrite H2, H3.
  - destruct o; cbn.
    + destruct (sy_accepting s); [|done]. intros [= <-]. exists []. rewrite app_nil_r. by split_and!; [|apply same_pool..].
    + destruct (sy_requests s); [done|]. intros [= <-]. exists []. rewrite app_nil_r. by split_and!; [|apply same_pool..].
    + intros [= <-]. apply add_deal_pools.
    + intros [= <-]. destruct (add_order_pools false w s) as (es & H1 & H2 & H3). exists es. rewrite H2.
      split; [exact H1|]. split; [apply same_pool|exact H3].
Qed.

(** *** What holds at each stage *)

Definition past_server (st : stage) : bool :=
  match st with Running | StoppingServer | AwaitingRequests => false | _ => true end.
Definition past_deals (st : stage) : bool :=
  match st with Running | StoppingServer | AwaitingRequests | DrainingDeals => false | _ => true end.
Definition past_orders (st : stage) : bool :=
  match st with AwaitingWorkers _ | Closing _ => true | _ => false end.

(** What must not happen any more once the workers are canceled, or the store closed. *)
Definition marker (e : event) : bool := match e with WorkersCanceled | Closed _ => true | _ => false end.
Definition loud (e : event) : bool :=
  match e with Queued _ | Taken _ | Settled _ | Refused true _ => true | _ => false end.

Fixpoint quiet_after (tr : list event) : bool :=
  match tr with
  | [] => true
  | e :: tr => (negb (marker e) || forallb (λ e, negb (loud e)) tr) && quiet_after tr
  end.

Lemma quiet_snoc tr e : quiet_after tr = true → (existsb marker tr = true → loud e = false) →
  quiet_after (tr ++ [e]) = true.
Proof.
  induction tr as [|e' tr IH]; cbn; [by destruct (marker e)|]. intros [H1 H2]%andb_prop He.
  rewrite IH, andb_true_r; [|done|]; last first.
  { intros H. apply He. by rewrite H, orb_true_r. }
  destruct (marker e') eqn:Em; [|done]. cbn in *. rewrite forallb_app, H1. cbn. by rewrite He.
Qed.

Lemma quiet_split tr1 e tr2 e' : quiet_after (tr1 ++ e :: tr2) = true → marker e = true → e' ∈ tr2 → loud e' = false.
Proof.
  intros H Hm Hin. induction tr1 as [|e1 tr1 IH]; cbn in H; apply andb_prop in H as [H1 H2]; [|by apply IH].
  rewrite Hm in H1. cbn in H1. rewrite forallb_forall in H1.
  apply negb_true_iff, H1. by apply list_elem_of_In.
Qed.

(** What was closed, in order; what is closed and left to be closed. *)
Definition closed_by (e : event) : option closing := match e with Closed c => Some c | _ => None end.
Definition to_close (st : stage) : list closing :=
  match st with Closing rest => rest | _ => closings venues logs end.

Record sys_ok s : Prop := {
  so_deals : pool_ok (sy_deals s);
  so_orders : pool_ok (sy_orders s);
  so_deal_trace : tells (sy_deals s) (omap deal_event (sy_trace s));
  so_order_trace : tells (sy_orders s) (omap order_event (sy_trace s));
  so_shut_deals : ShuttingDown (po_queue (sy_deals s)) = past_server (sy_stage s);
  so_shut_orders : ShuttingDown (po_queue (sy_orders s)) = past_deals (sy_stage s);
  so_no_deals : past_deals (sy_stage s) = true → drained (po_queue (sy_deals s)) = true;
  so_no_orders : past_orders (sy_stage s) = true → drained (po_queue (sy_orders s)) = true;
  so_gone l : sy_stage s = Closing l → workers_gone s = true;
  so_refused j : Refused true j ∉ sy_trace s;
  so_quiet : quiet_after (sy_trace s) = true;
  so_marked : existsb marker (sy_trace s) = true → past_orders (sy_stage s) = true;
  so_stopped : sy_stage s = AwaitingRequests → sy_accepting s = false;
  so_closed : omap closed_by (sy_trace s) ++ to_close (sy_stage s) = closings venues logs;
  so_idle : past_server (sy_stage s) = true → sy_err s = None → sy_accepting s = false ∧ sy_requests s = 0%nat;
}.

Lemma moved_ok {Q K X} `{EqDecision K} {queue : WorkQueue Q K} {draining : DrainingQueue Q K}
    {laws : DrainingQueueLaws Q K} (p p' : pool Q K X) es tr :
  moved p es p' → pool_ok p ∧ tells p tr → pool_ok p' ∧ tells p' (tr ++ es).
Proof.
  intros [[-> ->]|Hs] [Hp Ht]; [by rewrite app_nil_r|]. split; [by eapply pool_step_ok|by eapply pool_step_tells].
Qed.

(** The pools and the trace of a move, whatever else it does. *)
Lemma pools_kept m s s' : do_move m s = Some s' → sys_ok s →
  (pool_ok (sy_deals s') ∧ tells (sy_deals s') (omap deal_event (sy_trace s'))) ∧
  (pool_ok (sy_orders s') ∧ tells (sy_orders s') (omap order_event (sy_trace s'))).
Proof.
  intros (es & -> & Hd & Ho)%do_move_pools Hs. rewrite !omap_app.
  split; [apply (moved_ok _ _ _ _ Hd)|apply (moved_ok _ _ _ _ Ho)]; by destruct Hs.
Qed.

Lemma drained_ask {Q K} `{EqDecision K} {queue : WorkQueue Q K} {draining : DrainingQueue Q K}
    {laws : DrainingQueueLaws Q K} (r : request K) (q : Q) :
  no_done r → ShuttingDown q = true → drained q = true → drained (ask r q) = true.
Proof.
  intros Hr Hs Hd. rewrite drained_spec in *. intros k. destruct (Hd k) as [Ho Hw].
  rewrite owed_ask_shut, working_ask by done. by destruct r.
Qed.

(** A pool whose queue is drained only returns from [Get]. *)
Lemma drained_idle {Q K X} `{EqDecision K} {queue : WorkQueue Q K} {draining : DrainingQueue Q K}
    {laws : DrainingQueueLaws Q K} (p : pool Q K X) now x i r p' :
  ShuttingDown (po_queue p) = true → drained (po_queue p) = true → take now x i p = Some (r, p') →
  r = None ∧ p' = with_worker i Gone p.
Proof.
  intros Hs Hd Ht%take_Some. rewrite drained_spec in Hd. destruct r as [k|]; [|by destruct Ht as (_ & _ & ->)].
  destruct Ht as (q & Hget & _). pose proof (owed_Get_own _ _ _ _ Hget Hs) as Ho. by rewrite (proj1 (Hd k)) in Ho.
Qed.
Lemma drained_busy {Q K X} `{EqDecision K} {queue : WorkQueue Q K} {draining : DrainingQueue Q K}
    {laws : DrainingQueueLaws Q K} (p : pool Q K X) i k x :
  pool_ok p → drained (po_queue p) = true → po_workers p !! i ≠ Some (Busy k x).
Proof.
  intros Hp Hd Hi. rewrite drained_spec in Hd. destruct (Hd k) as [_ Hw]. apply not_true_iff_false in Hw.
  apply Hw, (ok_working p Hp). eauto.
Qed.

(** Moves that leave the stage as it is, event by event. *)
Definition allowed s (e : event) : Prop :=
  marker e = false ∧ (∀ j, e ≠ Refused true j) ∧ (past_orders (sy_stage s) = true → loud e = false).

Lemma sys_ok_side m s s' es : do_move m s = Some s' → sys_ok s →
  sy_stage s' = sy_stage s → sy_err s' = sy_err s →
  sy_trace s' = sy_trace s ++ es → (es = [] ∨ ∃ e, es = [e] ∧ allowed s e) →
  ShuttingDown (po_queue (sy_deals s')) = ShuttingDown (po_queue (sy_deals s)) →
  ShuttingDown (po_queue (sy_orders s')) = ShuttingDown (po_queue (sy_orders s)) →
  (past_deals (sy_stage s) = true → drained (po_queue (sy_deals s')) = true) →
  (past_orders (sy_stage s) = true → drained (po_queue (sy_orders s')) = true) →
  (workers_gone s = true → workers_gone s' = true) →
  (sy_accepting s = false → sy_accepting s' = false ∧ (sy_requests s = 0%nat → sy_requests s' = 0%nat)) →
  sys_ok s'.
Proof.
  intros Hm Hs Hst Herr Htr Hes Hsd Hso Hdd Hdo Hg Hsrv.
  destruct (pools_kept _ _ _ Hm Hs) as [[? ?] [? ?]].
  destruct Hs as [_ _ _ _ S1 S2 _ _ S5 S6 S7 S8 S9 S11 S10].
  split; rewrite ?Hst, ?Herr, ?Hsd, ?Hso; try done.
  - intros l Hl. by apply Hg, (S5 l).
  - intros j. rewrite Htr. intros [?|Hj]%elem_of_app; [by eapply S6|].
    destruct Hes as [->|(e & -> & _ & He & _)]; [by apply elem_of_nil in Hj|].
    apply list_elem_of_singleton in Hj. by destruct (He j).
  - rewrite Htr. destruct Hes as [->|(e & -> & _ & _ & He)]; [by rewrite app_nil_r|].
    apply quiet_snoc; [done|]. auto.
  - rewrite Htr. destruct Hes as [->|(e & -> & He & _ & _)]; [by rewrite app_nil_r|].
    rewrite existsb_app. cbn. by rewrite He, !orb_false_r.
  - intros H9%S9. by apply Hsrv.
  - rewrite Htr. destruct Hes as [->|(e & -> & He & _ & _)]; [by rewrite app_nil_r|].
    rewrite omap_app. replace (omap closed_by [e]) with (@nil closing) by by destruct e. by rewrite app_nil_r.
  - intros Hpast Hnone. destruct (S10 Hpast Hnone) as [Ha Hr]. by destruct (Hsrv Ha) as [? ?%(λ f, f Hr)].
Qed.

Lemma gone_kept {Q K X} (p : pool Q K X) i : all_gone p = true → all_gone (with_worker i Gone p) = true.
Proof.
  unfold all_gone. cbn. rewrite !forallb_forall. intros H w Hw%list_elem_of_In.
  apply list_elem_of_lookup_1 in Hw as [j Hj]. destruct (decide (i = j)) as [->|Hne].
  - apply list_lookup_insert_Some in Hj as [(_ & <- & _)|(? & _)]; done.
  - rewrite list_lookup_insert_ne in Hj by done. by apply list_elem_of_lookup_2, list_elem_of_In, H in Hj.
Qed.
Lemma gone_only {Q K X} (p : pool Q K X) i w : all_gone p = true → po_workers p !! i = Some w → w = Gone.
Proof.
  unfold all_gone. rewrite forallb_forall. intros H Hi. apply list_elem_of_lookup_2, list_elem_of_In, H in Hi.
  by destruct w.
Qed.

Lemma sys_ok_deal now does i s s' : deal_step now does i s = Some s' → sys_ok s → sys_ok s'.
Proof.
  intros Hm Hs. pose proof Hm as Hm'. unfold deal_step in Hm'.
  destruct (po_workers (sy_deals s) !! i) as [[|k [[|w ws] err]|]|] eqn:Hi; [| | |done..].
  - apply bind_Some in Hm' as ([r p] & Ht & [= Es']). subst s'.
    assert (past_deals (sy_stage s) = true → r = None ∧ p = with_worker i Gone (sy_deals s)) as Hdrained.
    { intros Hpast. eapply drained_idle; [|by apply Hs|exact Ht]. rewrite (so_shut_deals s Hs). by destruct (sy_stage s). }
    assert (ShuttingDown (po_queue p) = ShuttingDown (po_queue (sy_deals s))) as Hsh.
    { pose proof (take_Some _ _ _ _ _ _ Ht) as H. destruct r as [k|]; [|by destruct H as (_ & _ & ->)].
      destruct H as (q & Hget & ->). by apply shutting_Get in Hget. }
    eapply (sys_ok_side (DealMove now does i)); [exact Hm|done..|reflexivity| |done|done| | |cbn|done].
    + destruct r as [k|]; [right|by left]. eexists. split; [done|]. split_and!; [done|done|]. intros Hp.
      destruct Hdrained; [|done]. by destruct (sy_stage s).
    + intros Hp. destruct (Hdrained Hp) as [_ ->]. by apply Hs.
    + apply Hs.
    + unfold workers_gone. cbn. intros [Hg ?]%andb_prop. by pose proof (gone_only _ _ _ Hg Hi).
  - injection Hm' as <-. destruct (deal_settles err k (po_queue (sy_deals s))) as (r & Hr & Eq).
    assert (past_deals (sy_stage s) = true → False) as Hpast.
    { intros Hp. exact (drained_busy _ _ _ _ (so_deals s Hs) (so_no_deals s Hs Hp) Hi). }
    eapply (sys_ok_side (DealMove now does i)); [exact Hm|done..|reflexivity| |cbn; by rewrite Eq, !shutting_ask|done| | |cbn|done].
    + right. eexists. split; [done|]. split_and!; [done|done|]. intros Hp. destruct Hpast. by destruct (sy_stage s).
    + by intros ?%Hpast.
    + apply Hs.
    + unfold workers_gone. cbn. intros [Hg ?]%andb_prop. by pose proof (gone_only _ _ _ Hg Hi).
  - injection Hm' as <-.
    assert (past_deals (sy_stage s) = true → False) as Hpast.
    { intros Hp. exact (drained_busy _ _ _ _ (so_deals s Hs) (so_no_deals s Hs Hp) Hi). }
    assert (ShuttingDown (po_queue (sy_orders s)) = false) as Hopen.
    { rewrite (so_shut_orders s Hs). apply not_true_iff_false. exact Hpast. }
    eapply (sys_ok_side (DealMove now does i)); [exact Hm|done|done|done|cbn; by rewrite app_nil_r| |done| | | |cbn|done].
    + right. eexists. split; [done|]. rewrite Hopen. split_and!; [done|done|]. intros Hp. destruct Hpast. by destruct (sy_stage s).
    + apply (shutting_ask (ToAdd w)).
    + by intros ?%Hpast.
    + intros Hp. destruct Hpast. by destruct (sy_stage s).
    + unfold workers_gone. cbn. intros [Hg ?]%andb_prop. by pose proof (gone_only _ _ _ Hg Hi).
Qed.

Lemma sys_ok_order now does i s s' : order_step wraps now does i s = Some s' → sys_ok s → sys_ok s'.
Proof.
  intros Hm Hs. pose proof Hm as Hm'. unfold order_step in Hm'.
  destruct (po_workers (sy_orders s) !! i) as [[|w err|]|] eqn:Hi; [| |done..].
  - apply bind_Some in Hm' as ([r p] & Ht & [= Es']). subst s'.
    assert (past_orders (sy_stage s) = true → r = None ∧ p = with_worker i Gone (sy_orders s)) as Hdrained.
    { intros Hpast. eapply drained_idle; [|by apply Hs|exact Ht]. rewrite (so_shut_orders s Hs). by destruct (sy_stage s). }
    assert (ShuttingDown (po_queue p) = ShuttingDown (po_queue (sy_orders s))) as Hsh.
    { pose proof (take_Some _ _ _ _ _ _ Ht) as H. destruct r as [k|]; [|by destruct H as (_ & _ & ->)].
      destruct H as (q & Hget & ->). by apply shutting_Get in Hget. }
    eapply (sys_ok_side (OrderMove now does i)); [exact Hm|done..|reflexivity| |done|done| | |cbn|done].
    + destruct r as [k|]; [right|by left]. eexists. split; [done|]. split_and!; [done|done|]. intros Hp.
      by destruct (Hdrained Hp).
    + apply Hs.
    + intros Hp. destruct (Hdrained Hp) as [_ ->]. by apply (so_no_orders s Hs).
    + unfold workers_gone. cbn. intros [? Hg]%andb_prop. by pose proof (gone_only _ _ _ Hg Hi).
  - injection Hm' as <-. destruct (order_settles err w (po_queue (sy_orders s))) as (r & Hr & Eq).
    assert (past_orders (sy_stage s) = true → False) as Hpast.
    { intros Hp. exact (drained_busy _ _ _ _ (so_orders s Hs) (so_no_orders s Hs Hp) Hi). }
    eapply (sys_ok_side (OrderMove now does i)); [exact Hm|done..|reflexivity| |done|cbn; by rewrite Eq, !shutting_ask| | |cbn|done].
    + right. eexists. split; [done|]. by split_and!.
    + apply Hs.
    + by intros ?%Hpast.
    + unfold workers_gone. cbn. intros [? Hg]%andb_prop. by pose proof (gone_only _ _ _ Hg Hi).
Qed.

Lemma sys_ok_outside o s s' : outside_step o s = Some s' → sys_ok s → sys_ok s'.
Proof.
  intros Hm Hs. pose proof Hm as Hm'. destruct o as [| |k|w]; cbn in Hm'.
  - destruct (sy_accepting s) eqn:Ea; [|done]. injection Hm' as <-.
    eapply (sys_ok_side (OutsideMove _)); [exact Hm|exact Hs|done|done|symmetry; apply app_nil_r|by left|done|done|apply Hs|apply Hs|done|by rewrite Ea].
  - destruct (sy_requests s) as [|n] eqn:Er; [done|]. injection Hm' as <-.
    eapply (sys_ok_side (OutsideMove _)); [exact Hm|exact Hs|done|done|symmetry; apply app_nil_r|by left|done|done|apply Hs|apply Hs|done|by rewrite Er].
  - injection Hm' as <-.
    eapply (sys_ok_side (OutsideMove _)); [exact Hm|done..|reflexivity| |apply (shutting_ask (ToAdd k))|done| |apply Hs|done|done].
    + right. eexists. split; [done|]. destruct (ShuttingDown _) eqn:E; (split_and!; [done|done|]); [done|].
      rewrite (so_shut_deals s Hs) in E. by destruct (sy_stage s).
    + intros Hp. apply (drained_ask (ToAdd k)); [done| |by apply (so_no_deals s Hs)].
      rewrite (so_shut_deals s Hs). by destruct (sy_stage s).
  - injection Hm' as <-.
    eapply (sys_ok_side (OutsideMove _)); [exact Hm|done..|reflexivity| |done|apply (shutting_ask (ToAdd w))|apply Hs| |done|done].
    + right. eexists. split; [done|]. destruct (ShuttingDown _) eqn:E; (split_and!; [done|done|]); [done|].
      rewrite (so_shut_orders s Hs) in E. by destruct (sy_stage s).
    + intros Hp. apply (drained_ask (ToAdd w)); [done| |by apply (so_no_orders s Hs)].
      rewrite (so_shut_orders s Hs). by destruct (sy_stage s).
Qed.

(** A queue that begins to shut down keeps what it has. *)
Lemma drained_ShutDown {Q K} `{EqDecision K} {queue : WorkQueue Q K} {draining : DrainingQueue Q K}
    {laws : DrainingQueueLaws Q K} (q : Q) : drained q = true → drained (ShutDown q) = true.
Proof. rewrite !drained_spec. intros H k. by rewrite owed_ShutDown, working_ShutDown. Qed.

Lemma sys_ok_main o s s' : Shutdown venues logs o s = Some s' → sys_ok s → sys_ok s'.
Proof.
  intros Hm Hs. destruct (pools_kept (MainMove o) _ _ Hm Hs) as [[? ?] [? ?]].
  apply Shutdown_main in Hm as [es Hm].
  destruct Hs as [_ _ _ _ S1 S2 S3 S4 S5 S6 S7 S8 S9 S11 S10].
  destruct Hm as [s Hst|s Hst|s Hst Hr|s e Hst|s Hst Hd|s Hst Hd|s Hst|s b Hst Hg|s c rest err Hst He];
    (split; [done|done|done|done|..]); cbn [sy_stage sy_deals sy_orders sy_accepting sy_requests sy_err sy_trace
      at_stage with_server shut_deals shut_orders with_deals with_orders with_queue po_queue] in *;
    try destruct Hst as [Hst|Hst]; try rewrite Hst in *; rewrite ?shutting_ShutDown, ?app_nil_r in *;
    cbn [past_server past_deals past_orders] in *; try done; try (by intros H'; apply S8 in H').
  - intros _ Hn. split; [by apply S9|done].
  - intros j [?|Hj]%elem_of_app; [by eapply S6|]. by apply list_elem_of_singleton in Hj.
  - by apply quiet_snoc.
  - by rewrite omap_app, app_nil_r.
  - intros l [= <-]. by eapply S5.
  - intros j [?|Hj]%elem_of_app; [by eapply S6|]. by apply list_elem_of_singleton in Hj.
  - by apply quiet_snoc.
  - rewrite omap_app, <- app_assoc. exact S11.
  - intros _ ->. apply S10; [done|]. destruct (sy_err s); [|done]. by destruct He.
Qed.

Lemma sys_ok_move m s s' : do_move m s = Some s' → sys_ok s → sys_ok s'.
Proof.
  destruct m; cbn; [apply sys_ok_deal|apply sys_ok_order|apply sys_ok_main|apply sys_ok_outside].
Qed.

Lemma pool_ok_start {Q K X} `{EqDecision K} {queue : WorkQueue Q K} {draining : DrainingQueue Q K}
    {laws : DrainingQueueLaws Q K} n (q : Q) :
  (∀ k, working k q = false) →
  let p : pool Q K X := mkPool q (replicate n Idle) in pool_ok p ∧ tells p [].
Proof.
  intros Hw. cbn zeta. split; [|intros k; by rewrite Hw].
  assert (∀ i w, replicate n (@Idle K X) !! i = Some w → w = Idle) as Hi by (intros i w [? _]%lookup_replicate; done).
  split; cbn.
  - intros k. rewrite Hw. split; [done|]. by intros (i & x & [=]%Hi).
  - by intros i j k x y [=]%Hi.
  - by intros i [=]%Hi.
  - intros k Hne. by destruct n.
Qed.

(** A start: queues that work, and on which nothing is being worked. *)
Definition fresh_queue {Q K} `{EqDecision K} {queue : WorkQueue Q K} {draining : DrainingQueue Q K}
    {laws : DrainingQueueLaws Q K} (q : Q) : Prop := ShuttingDown q = false ∧ ∀ k, working k q = false.

Lemma sys_ok_start n m qd qo : fresh_queue qd → fresh_queue qo → sys_ok (start_system n m qd qo).
Proof.
  intros [Sd Wd] [So Wo].
  destruct (pool_ok_start (X := deal_rest) (Z.to_nat n) qd Wd), (pool_ok_start (X := order_rest) (Z.to_nat m) qo Wo).
  split; try done. intros j. apply not_elem_of_nil.
Qed.

Lemma sys_ok_run s s' : rtc step s s' → sys_ok s → sys_ok s'.
Proof. induction 1 as [|s s1 s' [m Hm] _ IH]; [done|]. intros Hs. by eapply IH, sys_ok_move. Qed.

(** *** At the end *)

Lemma omap_split {A B} (f : A → option B) l1 x l2 y : f x = Some y →
  omap f (l1 ++ x :: l2) = omap f l1 ++ y :: omap f l2.
Proof. intros Hx. rewrite omap_app. cbn. by rewrite Hx. Qed.

Lemma turned {K} `{EqDecision K} (f : event → option (pool_event (K := K))) on off tr1 e x tr2 :
  f e = Some x → on x = true → flag on off (omap f (tr1 ++ e :: tr2)) = false →
  ∃ e' x', e' ∈ tr2 ∧ f e' = Some x' ∧ off x' = true.
Proof.
  intros He Hx. rewrite (omap_split f _ _ _ _ He). intros (x' & Hin & Hoff)%flag_turned; [|done].
  apply list_elem_of_omap in Hin as (e' & Hin & Hf). by exists e', x'.
Qed.

Lemma rested {Q K X} `{EqDecision K} {queue : WorkQueue Q K} {draining : DrainingQueue Q K}
    {laws : DrainingQueueLaws Q K} (p : pool Q K X) tr k :
  tells p tr → drained (po_queue p) = true → waits k tr = false ∧ in_hand k tr = false.
Proof.
  intros Ht Hd. rewrite drained_spec in Hd. destruct (Ht k) as [Ho Hw], (Hd k) as [Ho' Hw'].
  split; [|congruence]. apply not_true_iff_false. intros ?%Ho. congruence.
Qed.

Ltac serves f e x H :=
  destruct (turned f _ _ _ e x _ eq_refl (bool_decide_eq_true_2 _ eq_refl) H)
    as ([[]|? []|[]|[]| |] & ? & ? & [= <-] & ?); cbn in *;
  match goal with Hb : bool_decide _ = true |- _ => apply bool_decide_eq_true in Hb; by subst | _ => done end.

Lemma served s tr1 e tr2 : sys_ok s → past_orders (sy_stage s) = true → sy_trace s = tr1 ++ e :: tr2 →
  match e with Queued j => Taken j ∈ tr2 | Taken j => Settled j ∈ tr2 | _ => True end.
Proof.
  intros Hs Hst Htr.
  assert (past_deals (sy_stage s) = true) as Hst' by by destruct (sy_stage s).
  pose proof (λ k, rested _ _ k (so_deal_trace s Hs) (so_no_deals s Hs Hst')) as Hd.
  pose proof (λ w, rested _ _ w (so_order_trace s Hs) (so_no_orders s Hs Hst)) as Ho.
  rewrite Htr in Hd, Ho. destruct e as [[k|w]| |[k|w]|[k|w]| |]; try done.
  - serves deal_event (Queued (inl k)) (PoolQueued k) (proj1 (Hd k)).
  - serves order_event (Queued (inr w)) (PoolQueued w) (proj1 (Ho w)).
  - serves deal_event (Taken (inl k)) (PoolTaken k) (proj2 (Hd k)).
  - serves order_event (Taken (inr w)) (PoolTaken w) (proj2 (Ho w)).
Qed.

(** C6.  However the workers, the tickers and the requests interleave with
    [Shutdown]: the queue of orders never refuses an order of a deal; when the
    program has stopped, every deal and order that a queue accepted was handed to a
    worker, which finished it before the store was closed; everything is closed
    once, the logs before the store; without an error no request is left.  And
    whenever the workers are canceled for being late, none of them was still at
    work: the timeout comes after both queues were drained. *)
Theorem shutdown_drains dealWorkers orderWorkers (qd : QD) (qo : QO) s
    (Hd : fresh_queue qd) (Ho : fresh_queue qo)
    (Hrun : rtc step (start_system dealWorkers orderWorkers qd qo) s) :
  (∀ j, Refused true j ∉ sy_trace s) ∧
  (∀ tr1 e tr2, sy_trace s = tr1 ++ e :: tr2 → e = WorkersCanceled ∨ (∃ c, e = Closed c) →
     ∀ e', e' ∈ tr2 → loud e' = false) ∧
  (sy_stage s = Closing [] →
     (∀ tr1 j tr2, sy_trace s = tr1 ++ Queued j :: tr2 → Taken j ∈ tr2) ∧
     (∀ tr1 j tr2, sy_trace s = tr1 ++ Taken j :: tr2 → Settled j ∈ tr2) ∧
     omap closed_by (sy_trace s) = closings venues logs ∧
     (sy_err s = None → sy_accepting s = false ∧ sy_requests s = 0%nat)).
Proof.
  pose proof (sys_ok_run _ _ Hrun (sys_ok_start _ _ _ _ Hd Ho)) as Hs. split; [apply Hs|]. split.
  - intros tr1 e tr2 Htr He e' Hin. pose proof (so_quiet s Hs) as Hq. rewrite Htr in Hq.
    by eapply quiet_split; [exact Hq|destruct He as [->|[c ->]]|].
  - intros Hst. assert (past_orders (sy_stage s) = true) as Hp by by rewrite Hst. split_and!.
    + intros tr1 j tr2 Htr. exact (served s _ _ _ Hs Hp Htr).
    + intros tr1 j tr2 Htr. exact (served s _ _ _ Hs Hp Htr).
    + pose proof (so_closed s Hs) as Hc. rewrite Hst in Hc. cbn in Hc. by rewrite app_nil_r in Hc.
    + apply (so_idle s Hs). by rewrite Hst.
Qed.

(** ** The program stops

    Every move of [Shutdown], and those of the workers of a queue that shuts down,
    bring it nearer to its end; no move takes it further away. *)

Definition phase (st : stage) : nat :=
  match st with
  | Running => 7 | StoppingServer => 6 | AwaitingRequests => 5 | DrainingDeals => 4 | DrainingOrders => 3
  | AwaitingWorkers false => 2 | AwaitingWorkers true => 1 | Closing _ => 0
  end.
Definition rest_length (st : stage) : nat := match st with Closing rest => length rest | _ => 0 end.
Definition deal_size (x : deal_rest) : nat := length x.1.
Definition order_size (x : order_rest) : nat := 0.

Definition rank : Type := nat * (nat * (nat * (nat * (nat * nat)))).
Definition rank_of s : rank :=
  (phase (sy_stage s), (rest_length (sy_stage s),
    (if past_server (sy_stage s) then debts (po_queue (sy_deals s)) else 0%nat,
     (if past_server (sy_stage s) then effort deal_size (sy_deals s) else 0%nat,
      (if past_deals (sy_stage s) then debts (po_queue (sy_orders s)) else 0%nat,
       if past_deals (sy_stage s) then effort order_size (sy_orders s) else 0%nat))))).

Definition lex {A} (R : relation A) (x y : nat * A) : Prop := (x.1 < y.1)%nat ∨ x.1 = y.1 ∧ R x.2 y.2.
Definition nearer : relation rank := lex (lex (lex (lex (lex lt)))).

Lemma lex_wf {A} (R : relation A) : well_founded R → well_founded (lex R).
Proof.
  intros HR [n a]. revert a. induction (lt_wf n) as [n _ IHn]. intros a.
  induction (HR a) as [a _ IHa]. constructor. intros [n' a'] [H|[H1 H2]]; cbn in *; [by apply IHn|].
  subst. by apply IHa.
Qed.
Lemma lex_trans {A} (R : relation A) : Transitive R → Transitive (lex R).
Proof.
  intros HR [n a] [m b] [k c] [H1|[H1 H1']] [H2|[H2 H2']]; cbn in *; unfold lex; cbn; [left; lia..|].
  right. split; [lia|]. by transitivity b.
Qed.
Lemma nearer_wf : well_founded nearer.
Proof. do 5 apply lex_wf. exact lt_wf. Qed.
#[local] Instance nearer_trans : Transitive nearer.
Proof. do 5 apply lex_trans. intros ???. apply Nat.lt_trans. Qed.

Definition no_farther (x y : rank) : Prop := nearer x y ∨ x = y.
#[local] Instance no_farther_trans : Transitive no_farther.
Proof. intros x y z [H1| ->] [H2| ->]; unfold no_farther; [left; by transitivity y|by left..|by right]. Qed.

Lemma nearer_main s s' es : main_step s es s' → nearer (rank_of s') (rank_of s).
Proof.
  destruct 1 as [s Hst|s Hst|s Hst Hr|s e [Hst|Hst]|s Hst Hd|s Hst Hd|s Hst|s [] Hst Hg|s c rest err Hst He];
    unfold nearer, lex, rank_of; cbn; rewrite Hst; cbn; lia.
Qed.

(** A move of the workers or from outside, by what it does to the pools. *)
Lemma rank_side s s' : sy_stage s' = sy_stage s →
  (past_server (sy_stage s) = true →
   less_work deal_size (sy_deals s') (sy_deals s) ∨
   (debts (po_queue (sy_deals s')) ≤ debts (po_queue (sy_deals s)))%nat ∧
   effort deal_size (sy_deals s') = effort deal_size (sy_deals s) ∧
   (past_deals (sy_stage s) = true →
    less_work order_size (sy_orders s') (sy_orders s) ∨
    (debts (po_queue (sy_orders s')) ≤ debts (po_queue (sy_orders s)))%nat ∧
    effort order_size (sy_orders s') = effort order_size (sy_orders s))) →
  no_farther (rank_of s') (rank_of s).
Proof.
  intros Hst H. unfold no_farther, nearer, lex, rank_of, rank, less_work in *. rewrite Hst. cbn.
  destruct (past_server (sy_stage s)) eqn:Es; [specialize (H eq_refl)|].
  - destruct (past_deals (sy_stage s)) eqn:Ed; [|rewrite !pair_equal_spec; lia].
    destruct H as [H|(H1 & H2 & H3)]; [lia|]. specialize (H3 eq_refl). rewrite !pair_equal_spec. lia.
  - assert (past_deals (sy_stage s) = false) as -> by by destruct (sy_stage s). by right.
Qed.

Lemma deal_less now does i s s' : deal_step now does i s = Some s' → sys_ok s →
  sy_stage s' = sy_stage s ∧
  (past_server (sy_stage s) = true → less_work deal_size (sy_deals s') (sy_deals s)).
Proof.
  intros Hm Hs. pose proof (so_shut_deals s Hs) as Hsh. unfold deal_step in Hm.
  destruct (po_workers (sy_deals s) !! i) as [[|k [[|w ws] err]|]|] eqn:Hi; [| | |done..].
  - apply bind_Some in Hm as ([r p] & Ht & [= Es']). subst s'. split; [done|]. intros Hp. cbn. rewrite Hp in Hsh.
    by eapply less_take.
  - injection Hm as <-. split; [done|]. intros Hp. rewrite Hp in Hsh.
    destruct (deal_settles err k (po_queue (sy_deals s))) as (r & Hr & Eq).
    cbn. rewrite Eq. exact (less_settle deal_size i k _ [ToDone k; r] _ Hsh Hi).
  - injection Hm as <-. split; [done|]. intros _. cbn. apply (less_rest deal_size i k _ _ _ Hi). cbn. lia.
Qed.

Lemma order_less now does i s s' : order_step wraps now does i s = Some s' → sys_ok s →
  sy_stage s' = sy_stage s ∧ sy_deals s' = sy_deals s ∧
  (past_deals (sy_stage s) = true → less_work order_size (sy_orders s') (sy_orders s)).
Proof.
  intros Hm Hs. pose proof (so_shut_orders s Hs) as Hsh. unfold order_step in Hm.
  destruct (po_workers (sy_orders s) !! i) as [[|w err|]|] eqn:Hi; [| |done..].
  - apply bind_Some in Hm as ([r p] & Ht & [= Es']). subst s'. split_and!; [done|done|]. intros Hp. cbn. rewrite Hp in Hsh.
    by eapply less_take.
  - injection Hm as <-. split_and!; [done|done|]. intros Hp. rewrite Hp in Hsh.
    destruct (order_settles err w (po_queue (sy_orders s))) as (r & Hr & Eq).
    cbn. rewrite Eq. exact (less_settle order_size i w _ [ToDone w; r] _ Hsh Hi).
Qed.

Lemma rank_deal now does i s s' : deal_step now does i s = Some s' → sys_ok s →
  past_server (sy_stage s) = true → nearer (rank_of s') (rank_of s).
Proof.
  intros Hm Hs Hp. destruct (deal_less _ _ _ _ _ Hm Hs) as [Hst Hl]. specialize (Hl Hp). revert Hl.
  unfold nearer, lex, rank_of, less_work. rewrite Hst, Hp. cbn. lia.
Qed.
Lemma rank_order now does i s s' : order_step wraps now does i s = Some s' → sys_ok s →
  past_deals (sy_stage s) = true → nearer (rank_of s') (rank_of s).
Proof.
  intros Hm Hs Hp. destruct (order_less _ _ _ _ _ Hm Hs) as (Hst & Hd & Hl). specialize (Hl Hp). revert Hl.
  unfold nearer, lex, rank_of, less_work. rewrite Hst, Hp, Hd. cbn. lia.
Qed.

Lemma rank_move m s s' : do_move m s = Some s' → sys_ok s → no_farther (rank_of s') (rank_of s).
Proof.
  intros Hm Hs. destruct m as [now does i|now does i|o|o]; cbn in Hm.
  - destruct (deal_less _ _ _ _ _ Hm Hs) as [Hst Hl]. apply rank_side; [done|]. intros Hp. left. by apply Hl.
  - destruct (order_less _ _ _ _ _ Hm Hs) as (Hst & Hd & Hl). apply rank_side; [done|]. intros _. right. rewrite Hd.
    split; [done|]. split; [done|]. intros Hp. left. by apply Hl.
  - apply Shutdown_main in Hm as [es Hm]. left. by eapply nearer_main.
  - pose proof (so_shut_deals s Hs) as Hsd. pose proof (so_shut_orders s Hs) as Hso.
    apply rank_side; [by destruct o; cbn in Hm; try destruct (sy_accepting s); try destruct (sy_requests s); simplify_eq|].
    intros Hp. right. rewrite Hp in Hsd.
    assert (∀ q, ShuttingDown q = true → ∀ k, (debts (Add k q : QD) ≤ debts q)%nat) as Ha by (intros q Hq k; apply (debts_ask (ToAdd k) _ Hq)).
    assert (∀ q, ShuttingDown q = true → ∀ w, (debts (Add w q : QO) ≤ debts q)%nat) as Hb by (intros q Hq w; apply (debts_ask (ToAdd w) _ Hq)).
    destruct o; cbn in Hm; try destruct (sy_accepting s); try destruct (sy_requests s); simplify_eq; cbn;
      (split_and!; [auto|done|intros Hp'; rewrite Hp' in Hso; right; auto]).
Qed.

(** *** Fair schedules *)

Inductive role := DealWorkers | OrderWorkers | Main.
Definition role_of (m : move) : option role :=
  match m with
  | DealMove _ _ _ => Some DealWorkers
  | OrderMove _ _ _ => Some OrderWorkers
  | MainMove _ => Some Main
  | OutsideMove _ => None
  end.
Definition can (r : role) s : Prop := ∃ m s', role_of m = Some r ∧ do_move m s = Some s'.

(** An infinite run, in which nothing may happen for a while. *)
Definition valid (run : nat → sys) (moves : nat → option move) : Prop :=
  ∀ n, match moves n with Some m => do_move m (run n) = Some (run (S n)) | None => run (S n) = run n end.

(** Those who can move again and again do so: for [Main], until the program has to
    stop, that is not asked. *)
Definition fair (run : nat → sys) (moves : nat → option move) : Prop :=
  ∀ r n, ∃ k, (n ≤ k)%nat ∧ ((∃ m, moves k = Some m ∧ role_of m = Some r) ∨ ¬ can r (run k)).

(** *** Who has returned stays away *)

Lemma gone_step {Q K X} `{EqDecision K} {queue : WorkQueue Q K} {draining : DrainingQueue Q K}
    (p p' : pool Q K X) es :
  moved p es p' → length (po_workers p') = length (po_workers p) ∧ (all_gone p = true → all_gone p' = true).
Proof.
  intros [[-> ->]|Hs]; [done|].
  destruct Hs as [k|now x i k p' Hi Ht|now x i p' Hi Ht|i k x x' Hi|i k x r Hi Hr|]; try done.
  - destruct (take_Some _ _ _ _ _ _ Ht) as (q & _ & ->). cbn. rewrite length_insert. split; [done|].
    intros Hg. by pose proof (gone_only _ _ _ Hg Hi).
  - destruct (take_Some _ _ _ _ _ _ Ht) as (_ & _ & ->). cbn. rewrite length_insert. split; [done|]. apply gone_kept.
  - cbn. rewrite length_insert. split; [done|]. intros Hg. by pose proof (gone_only _ _ _ Hg Hi).
  - cbn. rewrite length_insert. split; [done|]. intros Hg. by pose proof (gone_only _ _ _ Hg Hi).
Qed.

Record live s : Prop := {
  li_ok : sys_ok s;
  li_deals : po_workers (sy_deals s) ≠ [];
  li_orders : po_workers (sy_orders s) ≠ [];
}.

Lemma live_move m s s' : do_move m s = Some s' → live s → live s'.
Proof.
  intros Hm [Hs Hd Ho]. destruct (do_move_pools _ _ _ Hm) as (es & _ & [Ld _]%gone_step & [Lo _]%gone_step).
  split; [by eapply sys_ok_move|..]; by rewrite <- length_zero_iff_nil, ?Ld, ?Lo, length_zero_iff_nil.
Qed.

(** Workers that cannot move have returned. *)
Lemma deals_gone s : sys_ok s → past_server (sy_stage s) = true → ¬ can DealWorkers s → all_gone (sy_deals s) = true.
Proof.
  intros Hs Hp Hc. apply not_false_is_true. intros (i & w & Hi & Hw)%some_left.
  assert (is_Some (deal_step 0 ([], None) i s)) as [s' H'].
  { unfold deal_step. destruct (po_workers (sy_deals s) !! i) as [[|k [[|? ?] ?]|]|]; simplify_eq; [|done..]. unfold take.
    rewrite (so_shut_deals s Hs), Hp. by destruct (Get _ _) as [[? ?]|]. }
  apply Hc. by exists (DealMove 0 ([], None) i), s'.
Qed.
Lemma orders_gone s : sys_ok s → past_deals (sy_stage s) = true → ¬ can OrderWorkers s → all_gone (sy_orders s) = true.
Proof.
  intros Hs Hp Hc. apply not_false_is_true. intros (i & w & Hi & Hw)%some_left.
  assert (is_Some (order_step wraps 0 None i s)) as [s' H'].
  { unfold order_step. destruct (po_workers (sy_orders s) !! i) as [[|k x|]|]; simplify_eq; [|done..]. unfold take.
    rewrite (so_shut_orders s Hs), Hp. by destruct (Get _ _) as [[? ?]|]. }
  apply Hc. by exists (OrderMove 0 None i), s'.
Qed.

(** What [Shutdown] waits for. *)
Definition waited_for s : Prop :=
  match sy_stage s with
  | DrainingDeals => all_gone (sy_deals s) = true
  | DrainingOrders => all_gone (sy_orders s) = true
  | AwaitingWorkers _ => workers_gone s = true
  | _ => True
  end.

Lemma main_can s : live s → sy_stage s ≠ Closing [] → waited_for s → can Main s.
Proof.
  intros [Hs Hd Ho] Hne Hw. unfold waited_for in Hw.
  assert (∃ o s', Shutdown venues logs o s = Some s') as (o & s' & H); [|by exists (MainMove o), s'].
  unfold Shutdown, drainHTTPServer. destruct (sy_stage s) as [| | | | |b|[|c rest]] eqn:Hst; try done; try (exists AsWanted; by eexists).
  - exists Failed. by eexists.
  - exists AsWanted. rewrite (drained_gone _ (so_deals s Hs) Hd Hw). by eexists.
  - exists AsWanted. rewrite (drained_gone _ (so_orders s Hs) Ho Hw). by eexists.
  - exists AsWanted. rewrite Hw. by eexists.
Qed.

Section Run.
Variables (run : nat → sys) (moves : nat → option move).
Hypotheses (Hvalid : valid run moves) (Hfair : fair run moves) (Hlive : live (run 0%nat)).

Lemma run_live n : live (run n).
Proof.
  induction n as [|n IH]; [exact Hlive|]. pose proof (Hvalid n) as H. destruct (moves n) as [m|].
  - by eapply live_move.
  - by rewrite H.
Qed.

Lemma run_step n : no_farther (rank_of (run (S n))) (rank_of (run n)) ∧
  (all_gone (sy_deals (run n)) = true → all_gone (sy_deals (run (S n))) = true) ∧
  (all_gone (sy_orders (run n)) = true → all_gone (sy_orders (run (S n))) = true).
Proof.
  pose proof (Hvalid n) as H. destruct (moves n) as [m|]; [|rewrite H; split_and!; [by right|done|done]].
  split; [by eapply rank_move; [|apply run_live]|].
  destruct (do_move_pools _ _ _ H) as (es & _ & [_ ?]%gone_step & [_ ?]%gone_step). done.
Qed.

Lemma run_later n k : (n ≤ k)%nat → no_farther (rank_of (run k)) (rank_of (run n)) ∧
  (all_gone (sy_deals (run n)) = true → all_gone (sy_deals (run k)) = true) ∧
  (all_gone (sy_orders (run n)) = true → all_gone (sy_orders (run k)) = true).
Proof.
  induction 1 as [|k _ (H1 & H2 & H3)]; [split_and!; [by right|done|done]|].
  destruct (run_step k) as (S1 & S2 & S3). split_and!; [by etrans|auto|auto].
Qed.

Definition closer (n : nat) : Prop := ∃ k, (n ≤ k)%nat ∧ nearer (rank_of (run k)) (rank_of (run n)).

(** Either a role brings the program nearer to its end, or it has nothing to do at
    some time, with the same rank. *)
Lemma role_turn r n :
  (∀ k m, (n ≤ k)%nat → rank_of (run k) = rank_of (run n) → moves k = Some m → role_of m = Some r →
     nearer (rank_of (run (S k))) (rank_of (run k))) →
  closer n ∨ ∃ k, (n ≤ k)%nat ∧ rank_of (run k) = rank_of (run n) ∧ ¬ can r (run k).
Proof.
  intros Hown. destruct (Hfair r n) as (k & Hk & H).
  destruct (proj1 (run_later n k Hk)) as [Hless|Heq]; [left; by exists k|].
  destruct H as [(m & Hm & Hr)|Hno]; [left|right; by exists k].
  exists (S k). split; [lia|]. rewrite <- Heq. by eapply Hown.
Qed.

Lemma stage_kept n k : rank_of (run k) = rank_of (run n) → phase (sy_stage (run k)) = phase (sy_stage (run n)) ∧
  rest_length (sy_stage (run k)) = rest_length (sy_stage (run n)).
Proof. by intros [= -> -> _ _ _ _]. Qed.

Lemma past_kept n k : rank_of (run k) = rank_of (run n) →
  past_server (sy_stage (run k)) = past_server (sy_stage (run n)) ∧
  past_deals (sy_stage (run k)) = past_deals (sy_stage (run n)).
Proof.
  intros [Hp _]%stage_kept. revert Hp. destruct (sy_stage (run k)) as [| | | | |[]|], (sy_stage (run n)) as [| | | | |[]|]; done.
Qed.

Lemma deals_turn n : past_server (sy_stage (run n)) = true →
  closer n ∨ ∃ k, (n ≤ k)%nat ∧ rank_of (run k) = rank_of (run n) ∧ all_gone (sy_deals (run k)) = true.
Proof.
  intros Hp. destruct (role_turn DealWorkers n) as [?|(k & Hk & Heq & Hno)]; [|by left|].
  - intros k m _ Heq Hm Hr. pose proof (Hvalid k) as H. rewrite Hm in H. destruct m; try done.
    eapply rank_deal; [exact H|apply run_live|by rewrite (proj1 (past_kept n k Heq))].
  - right. exists k. split_and!; [done..|]. apply deals_gone; [apply run_live|by rewrite (proj1 (past_kept n k Heq))|done].
Qed.

Lemma orders_turn n : past_deals (sy_stage (run n)) = true →
  closer n ∨ ∃ k, (n ≤ k)%nat ∧ rank_of (run k) = rank_of (run n) ∧ all_gone (sy_orders (run k)) = true.
Proof.
  intros Hp. destruct (role_turn OrderWorkers n) as [?|(k & Hk & Heq & Hno)]; [|by left|].
  - intros k m _ Heq Hm Hr. pose proof (Hvalid k) as H. rewrite Hm in H. destruct m; try done.
    eapply rank_order; [exact H|apply run_live|by rewrite (proj2 (past_kept n k Heq))].
  - right. exists k. split_and!; [done..|]. apply orders_gone; [apply run_live|by rewrite (proj2 (past_kept n k Heq))|done].
Qed.

Lemma main_turn n : sy_stage (run n) ≠ Closing [] →
  (∀ k, (n ≤ k)%nat → rank_of (run k) = rank_of (run n) → waited_for (run k)) → closer n.
Proof.
  intros Hne Hw. destruct (role_turn Main n) as [?|(k & Hk & Heq & Hno)]; [|done|].
  - intros k m _ _ Hm Hr. pose proof (Hvalid k) as H. rewrite Hm in H. destruct m; try done.
    apply Shutdown_main in H as [es H]. by eapply nearer_main.
  - destruct Hno. apply main_can; [apply run_live| |by apply Hw].
    destruct (stage_kept n k Heq) as [Hp Hr]. intros Hc. rewrite Hc in Hp, Hr. apply Hne.
    destruct (sy_stage (run n)) as [| | | | |[]|[]]; done.
Qed.

Lemma closer_later n k : (n ≤ k)%nat → rank_of (run k) = rank_of (run n) → closer k → closer n.
Proof. intros Hk Heq (j & Hj & H). exists j. split; [lia|]. by rewrite <- Heq. Qed.

Lemma comes_closer n : sy_stage (run n) ≠ Running → sy_stage (run n) ≠ Closing [] → closer n.
Proof.
  intros Hrun Hne.
  assert (∀ k, (n ≤ k)%nat → rank_of (run k) = rank_of (run n) →
    (all_gone (sy_deals (run k)) = true ∨ past_server (sy_stage (run n)) = false ∨ sy_stage (run n) = DrainingOrders ∨ ∃ l, sy_stage (run n) = Closing l) →
    (all_gone (sy_orders (run k)) = true ∨ past_deals (sy_stage (run n)) = false ∨ ∃ l, sy_stage (run n) = Closing l) →
    closer n) as Hmain.
  { intros k Hk Heq Hd Ho. apply (closer_later n k Hk Heq). destruct (stage_kept n k Heq) as [Hp Hr]. apply main_turn.
    - intros Hc. rewrite Hc in Hp, Hr. apply Hne. destruct (sy_stage (run n)) as [| | | | |[]|[]]; done.
    - intros j Hj Hej. destruct (run_later k j Hj) as (_ & Gd & Go). destruct (stage_kept k j Hej) as [Hp' _].
      rewrite Hp in Hp'. unfold waited_for, workers_gone.
      destruct (sy_stage (run j)) as [| | | | |b|], (sy_stage (run n)) as [| | | | |b'|]; try done; try (destruct b; done);
        try (destruct b'; done); cbn in *.
      + apply Gd. by destruct Hd as [?|[?|[?|[? ?]]]].
      + apply Go. by destruct Ho as [?|[?|[? ?]]].
      + rewrite Gd, Go; [done|by destruct Ho as [?|[?|[? ?]]]|by destruct Hd as [?|[?|[?|[? ?]]]]]. }
  destruct (past_server (sy_stage (run n))) eqn:Es; [|apply (Hmain n); [done|done|auto|]; right; left; by destruct (sy_stage (run n))].
  destruct (deals_turn n Es) as [?|(k & Hk & Heq & Gd)]; [done|].
  destruct (past_deals (sy_stage (run n))) eqn:Ed; [|apply (Hmain k); auto].
  destruct (orders_turn k) as [?|(j & Hj & Hej & Go)]; [by rewrite (proj2 (past_kept n k Heq))|by apply (closer_later n k)|].
  apply (Hmain j); [lia|congruence|left; by apply (run_later k j)|by left].
Qed.

End Run.

Lemma live_start n m qd qo : fresh_queue qd → fresh_queue qo → 0 < n → 0 < m → live (start_system n m qd qo).
Proof.
  intros Hd Ho Hn Hm. split; [by apply sys_ok_start|..]; cbn; (destruct (Z.to_nat _) eqn:E; [lia|done]).
Qed.

(** C25.  Once it is asked to, the program stops: in every run that is fair to its
    deal workers, its order workers and [Shutdown] and that has workers of both
    kinds, whatever requests and tickers do, and however many items wait or fail and
    are put back, [Shutdown] reaches its end. *)
Theorem shutdown_ends dealWorkers orderWorkers (qd : QD) (qo : QO) (run : nat → sys) moves n
    (Hd : fresh_queue qd) (Ho : fresh_queue qo) (Hdw : 0 < dealWorkers) (How : 0 < orderWorkers)
    (Hstart : run 0%nat = start_system dealWorkers orderWorkers qd qo)
    (Hvalid : valid run moves) (Hfair : fair run moves) (Hasked : sy_stage (run n) ≠ Running) :
  ∃ k, (n ≤ k)%nat ∧ sy_stage (run k) = Closing [].
Proof.
  assert (live (run 0%nat)) as Hlive by (rewrite Hstart; by apply live_start).
  remember (rank_of (run n)) as r eqn:Hr. revert n Hr Hasked.
  induction (nearer_wf r) as [r _ IH]. intros n -> Hasked.
  destruct (decide (phase (sy_stage (run n)) = 0%nat ∧ rest_length (sy_stage (run n)) = 0%nat)) as [[H1 H2]|Hne].
  - exists n. split; [done|]. by destruct (sy_stage (run n)) as [| | | | |[]|[]].
  - destruct (comes_closer run moves Hvalid Hfair Hlive n) as (k & Hk & Hless); [done| |].
    { intros Hc. apply Hne. by rewrite Hc. }
    destruct (IH _ Hless k eq_refl) as (j & Hj & Hend); [|exists j; split; [lia|done]].
    intros Hc. unfold nearer, lex, rank_of in Hless. rewrite Hc in Hless. cbn in Hless.
    destruct (sy_stage (run n)) as [| | | | |[]|]; try done; cbn in Hless; lia.
Qed.

End System.

(** ** A concrete queue: what is owed in order, what is being worked on *)

Record simple (K : Type) := mkSimple { si_owed : list K; si_working : list K; si_requeues : K → Z; si_shut : bool }.
Arguments mkSimple {K}. Arguments si_owed {K}. Arguments si_working {K}. Arguments si_requeues {K}. Arguments si_shut {K}.

Section Simple.
Context {K : Type} `{EqDecision K}.
Implicit Types (q : simple K) (k : K).

Definition simple_add k q : simple K :=
  if si_shut q || bool_decide (k ∈ si_owed q) then q
  else mkSimple (si_owed q ++ [k]) (si_working q) (si_requeues q) false.
Definition with_requeues (f : K → Z) q : simple K := mkSimple (si_owed q) (si_working q) f (si_shut q).
Definition free q : list K := filter (λ k, k ∉ si_working q) (si_owed q).

#[export] Instance simple_queue : WorkQueue (simple K) K := {
  Add := simple_add;
  AddRateLimited k q := simple_add k (with_requeues (λ k', if decide (k' = k) then si_requeues q k + 1 else si_requeues q k') q);
  Forget k q := with_requeues (λ k', if decide (k' = k) then 0 else si_requeues q k') q;
  Done k q := mkSimple (si_owed q) (filter (λ k', k' ≠ k) (si_working q)) (si_requeues q) (si_shut q);
  NumRequeues k q := si_requeues q k;
  Get _ q := match free q with
             | [] => None
             | k :: _ => Some (k, mkSimple (filter (λ k', k' ≠ k) (si_owed q)) (k :: si_working q) (si_requeues q) (si_shut q))
             end;
}.
#[export] Instance simple_draining : DrainingQueue (simple K) K := {
  ShutDown q := mkSimple (si_owed q) (si_working q) (si_requeues q) true;
  ShuttingDown := si_shut;
  drained q := match si_owed q, si_working q with [], [] => true | _, _ => false end;
}.

Lemma simple_Get now k q q' : Get now q = Some (k, q') →
  (k ∈ si_owed q) ∧ (k ∉ si_working q) ∧
  q' = mkSimple (filter (λ k', k' ≠ k) (si_owed q)) (k :: si_working q) (si_requeues q) (si_shut q).
Proof.
  cbn. destruct (free q) as [|k' l] eqn:E; [done|]. intros [= -> <-].
  assert (k ∈ free q) as H by (rewrite E; by left). apply list_elem_of_filter in H as [? ?]. done.
Qed.

Lemma simple_owed_ask k r q : k ∈ si_owed q → k ∈ si_owed (ask r q).
Proof.
  destruct r; cbn; try done; unfold simple_add; destruct (_ || _); try done; cbn; intros ?; apply elem_of_app; by left.
Qed.
Lemma simple_shut_ask r q : si_shut (ask r q) = si_shut q.
Proof.
  destruct r; cbn; try done; unfold simple_add, with_requeues; cbn; destruct (si_shut q) eqn:E; cbn; try done;
    case_bool_decide; cbn; by rewrite ?E.
Qed.
Lemma simple_owed_shut r q : si_shut q = true → si_owed (ask r q) = si_owed q.
Proof. intros Hs. destruct r; cbn; try done; unfold simple_add; cbn; by rewrite Hs. Qed.

#[export, refine] Instance simple_laws : DrainingQueueLaws (simple K) K := {|
  owed k q := bool_decide (k ∈ si_owed q);
  working k q := bool_decide (k ∈ si_working q);
  debts q := length (si_owed q);
|}.
Proof.
  - exact simple_shut_ask.
  - done.
  - by intros k q q' now (_ & _ & ->)%simple_Get.
  - intros k q Hs. apply bool_decide_eq_true. cbn in *. unfold simple_add. rewrite Hs. cbn.
    case_bool_decide; [done|]. apply elem_of_app. right. by left.
  - intros k r q. rewrite !bool_decide_eq_true. apply simple_owed_ask.
  - intros k r q Hs. by rewrite simple_owed_shut.
  - done.
  - intros k k' q q' now (_ & _ & ->)%simple_Get Hne. rewrite !bool_decide_eq_true. cbn.
    intros ?. apply list_elem_of_filter. split; [congruence|done].
  - intros k k' q q' now (_ & _ & ->)%simple_Get _. rewrite !bool_decide_eq_true. cbn. by intros [_ ?]%list_elem_of_filter.
  - intros k q q' now (Hk & _ & _)%simple_Get _. by apply bool_decide_eq_true.
  - intros k q now Hget Ho. rewrite bool_decide_eq_true in *. cbn in Hget. destruct (free q) eqn:E; [|done].
    destruct (decide (k ∈ si_working q)) as [|Hn]; [done|]. exfalso.
    assert (k ∈ free q) as H by (by apply list_elem_of_filter). rewrite E in H. by apply elem_of_nil in H.
  - intros r q Hs. by rewrite simple_owed_shut.
  - intros k q q' now (Hk & _ & ->)%simple_Get _. cbn. apply (length_filter_lt _ _ k); [done|]. intros H. by apply H.
  - intros k r q. destruct r as [k'|k'|k'|k']; cbn; try done; try (unfold simple_add; by destruct (_ || _)).
    rewrite <- bool_decide_and. apply bool_decide_ext. rewrite list_elem_of_filter. naive_solver.
  - done.
  - intros k k' q q' now (Hk & Hw & ->)%simple_Get. split; [by apply bool_decide_eq_false|]. cbn.
    rewrite <- bool_decide_or. apply bool_decide_ext. rewrite elem_of_cons. naive_solver.
  - intros q. cbn. split.
    + destruct (si_owed q) eqn:Eo, (si_working q) eqn:Ew; done.
    + intros H. destruct (si_owed q) as [|k l], (si_working q) as [|k' l']; try done.
      * destruct (H k') as [_ H']. by rewrite bool_decide_eq_false, elem_of_cons in H'; destruct H'; left.
      * destruct (H k) as [H' _]. by rewrite bool_decide_eq_false, elem_of_cons in H'; destruct H'; left.
      * destruct (H k) as [H' _]. by rewrite bool_decide_eq_false, elem_of_cons in H'; destruct H'; left.
Defined.

End Simple.

(** A deal is being handled when the program is stopped; the order it brings is sent,
    one that comes from outside later is refused. *)
Definition nothing {K} : simple K := mkSimple [] [] (λ _, 0) false.
Abbreviation demo_system := (system (QD := simple Engine.WorkKey) (QO := simple OrderWork)).
Definition demo_deal : Engine.WorkKey := Engine.mkWorkKey 7 1.
Definition demo_moves : list move :=
  [OutsideMove (BringsDeal demo_deal); DealMove 0 ([EmitterFacts.demo_work], None) 0; MainMove AsWanted;
   MainMove AsWanted; MainMove AsWanted; DealMove 0 ([], None) 0; DealMove 0 ([], None) 0; MainMove AsWanted;
   OrderMove 0 None 0; OutsideMove (BringsOrder EmitterFacts.demo_work); OrderMove 0 None 0; MainMove AsWanted;
   DealMove 0 ([], None) 0; OrderMove 0 None 0; MainMove TimedOut; MainMove AsWanted] ++
  repeat (MainMove AsWanted) 5.
Definition after (ms : list move) : demo_system :=
  foldl (λ s m, default s (do_move (λ _, false) 1 true m s)) (start_system 1 1 nothing nothing) ms.
Definition demo_stop (n : nat) : demo_system := after (firstn n demo_moves).

Lemma stop_valid : valid (λ _, false) 1 true demo_stop (λ n, demo_moves !! n).
Proof.
  intros n. do 21 (destruct n as [|n]; [vm_compute; reflexivity|]).
  cbn [lookup list_lookup demo_moves app repeat]. unfold demo_stop. by rewrite !firstn_all2 by (cbn; lia).
Qed.

Lemma stop_reached n : rtc (step (λ _, false) 1 true) (start_system 1 1 nothing nothing) (demo_stop n).
Proof.
  induction n as [|n IH]; [done|]. pose proof (stop_valid n) as H. cbn beta in H. destruct (demo_moves !! n) as [m|].
  - eapply rtc_r; [exact IH|]. by exists m.
  - by rewrite H.
Qed.

Lemma nothing_fresh {K} `{EqDecision K} : fresh_queue (nothing : simple K).
Proof. done. Qed.

Lemma shutdown_drains_witness :
  sy_stage (demo_stop 21) = Closing [] ∧
  Queued (inr EmitterFacts.demo_work) ∈ sy_trace (demo_stop 21) ∧
  omap closed_by (sy_trace (demo_stop 21)) = [CloseVenue 0; CloseLogs; CloseStore; StopLimiter; CancelContext].
Proof.
  split; [vm_compute; reflexivity|]. split; [vm_compute; by repeat constructor|].
  destruct (shutdown_drains (λ _, false) 1 true 1 1 nothing nothing (demo_stop 21) nothing_fresh nothing_fresh (stop_reached 21))
    as (_ & _ & H). apply H. vm_compute. reflexivity.
Defined.

Lemma stop_fair : fair (λ _, false) 1 true demo_stop (λ n, demo_moves !! n).
Proof.
  intros r n. exists (n + 21)%nat. split; [lia|]. right. intros (m & s' & Hr & Hm).
  assert (demo_stop (n + 21) = demo_stop 21) as E by (unfold demo_stop; by rewrite !firstn_all2 by (cbn; lia)).
  rewrite E in Hm. clear E.
  assert (po_workers (sy_deals (demo_stop 21)) = [Gone] ∧ po_workers (sy_orders (demo_stop 21)) = [Gone] ∧
          sy_stage (demo_stop 21) = Closing []) as (Ed & Eo & Es) by (vm_compute; done).
  revert Hm Ed Eo Es. generalize (demo_stop 21). intros s Hm Ed Eo Es.
  destruct m as [now does [|i]|now does [|i]|o|o]; [..|done]; cbn in Hm;
    unfold deal_step, order_step, Shutdown in Hm; by rewrite ?Ed, ?Eo, ?Es in Hm.
Qed.

Lemma shutdown_ends_witness : ∃ k, (3 ≤ k)%nat ∧ sy_stage (demo_stop k) = Closing [].
Proof.
  exact (shutdown_ends (λ _, false) 1 true 1 1 nothing nothing demo_stop (λ n, demo_moves !! n) 3
    nothing_fresh nothing_fresh eq_refl eq_refl eq_refl stop_valid stop_fair ltac:(vm_compute; discriminate)).
Defined.

(** Without order workers, which the configuration allows, an order on the queue
    keeps the program from stopping. *)
Definition no_workers : demo_system :=
  foldl (λ s m, default s (do_move (λ _, false) 1 true m s)) (start_system 1 0 nothing nothing)
    [OutsideMove (BringsOrder EmitterFacts.demo_work); MainMove AsWanted; MainMove AsWanted; MainMove AsWanted;
     MainMove AsWanted].
Example never_stops : sy_stage no_workers = DrainingOrders ∧
  ∀ o, Shutdown 1 true o no_workers = None.
Proof. split; [vm_compute; reflexivity|]. intros []; vm_compute; reflexivity. Qed.

End ShutdownFacts.
