(* ===== verification/WebUiFacts.v ===== *)
(** * Facts of [WebUi]: where the interface looks for the API, the server accepts it
    from. *)

From Stdlib Require Import Ascii.
From S2P Require Import Prelude GoString GoNet Origin VenuesFacts OriginFacts WebUi.
Import GoString GoNet Origin OriginFacts WebUi.

Module WebUiFacts.

#[local] Arguments eqc : simpl never.
#[local] Arguments one_of : simpl never.

(** ** The public origin *)

(** A URL and what the interface makes of it are the same origin. *)
Lemma public_origin public u : no_percent public = true → normalizeOrigin public ≠ "" →
  Parse (TrimSpace public) = Some u →
  normalizeOrigin (u_Scheme u +:+ "://" +:+ u_Host u) = normalizeOrigin public.
Proof.
  intros Hp Hn Hu. destruct (normalizeOrigin_plain public Hp Hn) as (u' & Hu' & Ho).
  rewrite Hu in Hu'. injection Hu' as <-. destruct Ho as (Eo & Hs & Hl & _ & _ & Hne).
  destruct (Parse_good _ _ (no_percent_TrimSpace _ Hp) Hu) as (_ & _ & Hg).
  assert (normalizeOrigin (u_Scheme u +:+ "://" +:+ u_Host u) =
          TrimSuffix (ToLower (u_Scheme u) +:+ "://" +:+ ToLower (u_Host u)) "/") as ->.
  { unfold normalizeOrigin. rewrite TrimSpace_plain by (apply origin_plain; try done; vm_compute; done).
    rewrite (Parse_origin _ _ Hs Hl Hg). cbn [u_Scheme u_Host].
    destruct (scheme_ok_chars _ Hs) as [_ (c & s' & Hc & _)].
    rewrite !no_host by (first [by rewrite Hc|by destruct (u_Host u)]). done. }
  rewrite Eo, Hl, <- (append_assoc (u_Scheme u)). rewrite TrimSuffix_plain; [by rewrite append_assoc|done|].
  apply good_host_lower in Hg. apply andb_prop in Hg as [_ Hg]. apply (host_plain _ _ Hg). vm_compute. done.
Qed.

(** ** The address *)

Definition plain_name (s : string) : bool :=
  negb (String.eqb s "") && all_chars (λ c, negb (one_of ":[]" c)) s.

Lemma has_app c s t : has c (s +:+ t) = has c s || has c t.
Proof. unfold has. by rewrite all_app, negb_andb. Qed.

Lemma plain_has c s : plain_name s = true → one_of ":[]" c = true → has c s = false.
Proof.
  intros [_ Hs]%andb_prop Hc. unfold has. apply negb_false_iff. revert Hs. apply all_mono.
  intros d Hd. destruct (eqc c d) eqn:E; [|done]. apply Ascii.eqb_eq in E as <-. by rewrite Hc in Hd.
Qed.

(** An address without a host, completed by one or the other. *)
Lemma SplitHostPort_prefix a rest h p : plain_name a = true →
  SplitHostPort (a +:+ String ":" rest) = Some (h, p) →
  h = a ∧ p = rest ∧ ∀ b, plain_name b = true → SplitHostPort (b +:+ String ":" rest) = Some (b, rest).
Proof.
  intros Ha H.
  assert (∀ b q, plain_name b = true → SplitHostPort (b +:+ String ":" q) =
    '(before, port) ← split_last ":" (b +:+ String ":" q);
    if has ":" before || has "[" (b +:+ String ":" q) || has "]" (b +:+ String ":" q) then None else Some (before, port)) as Hform.
  { intros b q Hb. unfold SplitHostPort. destruct (split_last ":" _) as [[before port]|]; [|done]. cbn [mbind option_bind].
    assert (HasPrefix (b +:+ String ":" q) "[" = false) as Hnb.
    { pose proof (plain_has "[" b Hb eq_refl) as Hn. destruct b as [|c b]; [done|].
      unfold has in Hn. cbn in Hn. apply negb_false_iff, andb_prop in Hn as [Hn%negb_true_iff _].
      change (eqc "[" c && HasPrefix (b +:+ String ":" q) "" = false). by rewrite Hn. }
    by rewrite not_bracket. }
  rewrite Hform in H by done.
  assert (has ":" rest = false) as Hr.
  { apply not_true_iff_false. intros Hr. destruct (split_last ":" (a +:+ String ":" rest)) as [[x y]|] eqn:E; [|done].
    cbn [mbind option_bind] in H. enough (has ":" x = true) as Hx by by rewrite Hx in H.
    clear H. revert x y E. clear Ha. induction a as [|c a IH]; intros x y.
    - rewrite app_nil_l. cbn. destruct (split_last ":" rest) as [[x' y']|] eqn:E'; [by intros [= <- <-]|].
      exfalso. revert Hr E'. clear. unfold has. induction rest as [|d rest IH]; [done|]. cbn.
      destruct (split_last ":" rest) as [[]|]; [done|]. destruct (eqc ":" d); [done|]. cbn. auto.
    - rewrite app_cons. cbn. destruct (split_last ":" (a +:+ String ":" rest)) as [[x' y']|] eqn:E'.
      + intros [= <- <-]. unfold has. cbn. apply negb_true_iff. apply andb_false_iff. right.
        apply negb_true_iff. by apply (IH x' y').
      + destruct (eqc ":" c) eqn:Ec; [|done]. intros [= <- <-]. exfalso. revert E'. clear.
        induction a as [|d a IH]; [rewrite app_nil_l; cbn; by destruct (split_last ":" rest) as [[]|]|].
        rewrite app_cons. cbn. by destruct (split_last ":" (a +:+ String ":" rest)) as [[]|]. }
  assert (∀ b, split_last ":" (b +:+ String ":" rest) = Some (b, rest)) as Hs.
  { intros b. apply split_last_app. unfold has in Hr. by apply negb_false_iff in Hr. }
  rewrite Hs in H. cbn [mbind option_bind] in H. rewrite !has_app in H.
  rewrite !(plain_has _ a Ha) in H by done. cbn [orb] in H.
  destruct (has "[" (String ":" rest) || has "]" (String ":" rest)) eqn:Eb; [done|].
  injection H as <- <-. apply orb_false_iff in Eb as [E1 E2].
  split; [done|]. split; [done|]. intros b Hb. rewrite Hform by done. rewrite Hs. cbn [mbind option_bind].
  rewrite !has_app, !(plain_has _ b Hb) by done. cbn [orb]. by rewrite E1, E2.
Qed.

(** The address as both parts of the program take it apart. *)
Lemma same_address host h p : SplitHostPort (listen_addr host) = Some (h, p) → p ≠ ""%string →
  ∃ h', SplitHostPort (ui_addr host "80") = Some (h', p) ∧ (h' = "localhost" ∨ h' = h)%string.
Proof.
  unfold listen_addr, ui_addr. intros H Hp. destruct (HasPrefix host ":") eqn:Eh.
  - destruct host as [|c rest]; [done|]. change (eqc ":" c && HasPrefix rest "" = true) in Eh.
    apply andb_prop in Eh as [Eh _]. apply Ascii.eqb_eq in Eh as <-.
    apply (SplitHostPort_prefix "127.0.0.1") in H as (_ & -> & H); [|done].
    exists "localhost"%string. split; [|by left].
    assert (has ":" ("localhost" +:+ String ":" rest) = true) as -> by (by rewrite has_app).
    by apply H.
  - destruct (has ":" host) eqn:Ec; cbn [negb] in H; [exists h; by split; [|right]|].
    exfalso. apply Hp. assert (∀ s, has ":" s = false → split_last ":" (s +:+ ":") = Some (s, ""%string)) as Hs
      by (intros s _; by apply split_last_app).
    revert H. unfold SplitHostPort. rewrite (Hs _ Ec). cbn [mbind option_bind].
    assert (HasPrefix (host +:+ ":") "[" = true ∨ HasPrefix (host +:+ ":") "[" = false) as [Hb|Hb] by (by destruct (HasPrefix _ "["); auto).
    + destruct host as [|c inner]; [done|]. rewrite app_cons in *. change (eqc "[" c && HasPrefix (inner +:+ ":") "" = true) in Hb.
      apply andb_prop in Hb as [Hb _]. apply Ascii.eqb_eq in Hb as <-.
      destruct (break (eqc "]") (inner +:+ ":")) as [x [|d [|e y]]] eqn:E; [done|done|].
      destruct (eqc ":" e) eqn:Ee; [|done]. cbn [andb].
      destruct (negb (has ":" y) && negb (has "[" (inner +:+ ":")) && negb (has "]" (String e y))) eqn:Eg; [|done].
      intros [= _ <-]. pose proof (break_eq (eqc "]") (inner +:+ ":")) as Hi. rewrite E in Hi. cbn in Hi.
      apply Ascii.eqb_eq in Ee as <-. (* the last colon is the one that was added *)
      assert (∃ z, x +:+ String d (String ":" z) = inner +:+ ":" ∧ z = y) as (z & Hz & ->) by by exists y.
      assert (has ":" inner = false) as Hn.
      { unfold has in Ec |- *. cbn in Ec. apply negb_false_iff in Ec. apply negb_false_iff. by apply andb_prop in Ec as [_ ?]. }
      assert (split_last ":" (inner +:+ ":") = Some (inner, ""%string)) as H1 by (by apply split_last_app).
      rewrite Hi in H1. change (String d (String ":" y)) with (String d "" +:+ String ":" y) in H1.
      rewrite <- append_assoc in H1.
      assert (has ":" y = false) as Hy by (destruct (has ":" y); done).
      rewrite split_last_app in H1; [by injection H1|]. unfold has in Hy. by apply negb_false_iff in Hy.
    + rewrite not_bracket by done. destruct (_ || _ || _); [done|]. by intros [= _ <-].
Qed.

(** The interface looks for the API where the server lets it: a single public
    origin that the server accepts is the one the interface uses; without public
    origins an address that both can take apart gives an origin that the server
    accepts, unless its port is the default one. *)
Theorem ui_origin_accepted listen public (Hplain : no_percent public = true) :
  let allowed := BuildAllowedOrigins listen public in
  let ui := normalizeOrigin (resolveOpsAPIOrigin listen public false) in
  (parseOriginList public = [TrimSpace public] → normalizeOrigin public ≠ "" →
     ui = normalizeOrigin public ∧ allowed = [ui]) ∧
  (∀ h p, TrimSpace public = "" → TrimSpace listen ≠ "" →
     SplitHostPort (listen_addr (TrimSpace listen)) = Some (h, p) → TrimSpace h = h → p ≠ "" → p ≠ "80" →
     ui ≠ "" → ui ∈ allowed)%string.
Proof.
  cbn zeta. split.
  - intros Hone Hn. destruct (normalizeOrigin_plain public Hplain Hn) as (u & Hu & Ho).
    assert (TrimSpace public ≠ ""%string) as Hne by (unfold normalizeOrigin in Hn; intros E; by rewrite E in Hn).
    assert (resolveOpsAPIOrigin listen public false = u_Scheme u +:+ "://" +:+ u_Host u) as ->.
    { unfold resolveOpsAPIOrigin. rewrite (no_host _ Hne), Hu. cbn [negb].
      destruct Ho as (_ & Hs & _ & _ & _ & Hh). destruct (scheme_ok_chars _ Hs) as [_ (c & s' & Hc & _)].
      rewrite !no_host by (first [by rewrite Hc|by intros E; rewrite E in Hh]). done. }
    rewrite (public_origin public u Hplain Hn Hu). split; [done|].
    assert (normalizeOrigin (TrimSpace public) = normalizeOrigin public) as Et
      by (unfold normalizeOrigin; by rewrite VenuesFacts.TrimSpace_idem).
    unfold BuildAllowedOrigins. rewrite Hone. cbn [add_origins]. rewrite Et, (no_host _ Hn).
    unfold addNormalized. rewrite (no_host _ Hn). cbn. by rewrite decide_False by set_solver.
  - intros h p Hblank Hl Hsplit Ht Hp H80 Hui.
    assert (parseOriginList public = []) as Hnone by (unfold parseOriginList; by rewrite Hblank).
    destruct (allowed_origins listen public) as (_ & _ & H). rewrite H.
    2:{ intros (x & o & Ho & _). rewrite Hnone in Ho. by apply not_elem_of_nil in Ho. }
    clear H. right. exists (resolveOpsAPIOrigin listen public false). split; [|done].
    destruct (same_address _ _ _ Hsplit Hp) as (h' & Hs' & Hh').
    unfold resolveOpsAPIOrigin, originsFromListen in *. rewrite Hblank in *. cbn [String.eqb negb] in *.
    rewrite (no_host _ Hl), Hs', Hsplit in *. rewrite (no_host _ Hp). apply String.eqb_neq in H80. rewrite H80 in *.
    set (g := String.eqb h' "" || String.eqb h' "0.0.0.0" || String.eqb h' "::" || ParseIP h') in *.
    apply list_elem_of_bind.
    destruct (decide (g = true ∨ h' = "localhost"%string)) as [Hg|Hg].
    + exists "localhost"%string. split; [|by left]. apply list_elem_of_singleton.
      by destruct Hg as [-> | ->]; [|destruct g].
    + assert (g = false) as Eg by (destruct g; tauto). destruct Hh' as [-> | ->]; [tauto|]. rewrite Eg in *.
      exists h. unfold g in Eg. apply orb_false_iff in Eg as [Eg _]. apply orb_false_iff in Eg as [Eg E3].
      apply orb_false_iff in Eg as [E1 E2]. rewrite Ht, E1, E2, E3. cbn [negb andb]. split; [by left|].
      by do 2 right; left.
Qed.

Lemma ui_origin_accepted_witness :
  resolveOpsAPIOrigin "0.0.0.0:9090" "" false = "http://localhost:9090" ∧
  normalizeOrigin (resolveOpsAPIOrigin "0.0.0.0:9090" "" false) ∈ BuildAllowedOrigins "0.0.0.0:9090" "" ∧
  BuildAllowedOrigins ":8080" "https://App.example.com/" = ["https://app.example.com"].
Proof.
  split; [vm_compute; reflexivity|]. split.
  - apply (proj2 (ui_origin_accepted "0.0.0.0:9090" "" eq_refl) "0.0.0.0" "9090")%string; vm_compute; done.
  - destruct (proj1 (ui_origin_accepted ":8080" "https://App.example.com/" eq_refl)) as [H1 H2]; [vm_compute; done..|].
    rewrite H2, H1. vm_compute. reflexivity.
Defined.

(** With a list of public origins, which the server takes apart, the interface is
    told the whole list. *)
Example ui_list_of_origins :
  let public := "https://a.example, https://b.example"%string in
  resolveOpsAPIOrigin ":8080" public false = public ∧
  BuildAllowedOrigins ":8080" public = ["https://a.example"; "https://b.example"].
Proof. vm_compute. done. Qed.

(** The default port is left out by the interface, and by browsers, but not by the server. *)
Example ui_default_port :
  resolveOpsAPIOrigin "app.example.com:80" "" false = "http://app.example.com" ∧
  BuildAllowedOrigins "app.example.com:80" "" =
    ["http://localhost:8080"; "http://localhost:80"; "http://127.0.0.1:80"; "http://app.example.com:80"].
Proof. vm_compute. done. Qed.

End WebUiFacts.
