(* ===== verification/ProcessFacts.v ===== *)
(** * Facts of [Process]: what a start needs, that the rounds keep the program sound,
    and what is built before. *)

From Stdlib Require Import Ascii.
From S2P Require Import Prelude GoFloat GoString GoNet OrderId Domain Store Tables Stream Storage ScalerStorage FillTracker.
From S2P Require Import FillTrackerFacts FillTrackerProps TablesFacts Integrity Polling Engine Producer RateLimit Config Vault.
From S2P Require Import VaultFacts Refresh Socket Venues VenuesFacts OriginFacts ProducerFacts Adapter StorageFacts Reads Debugmode Process Api.
From S2P Require Import VaultStore Server WebAuthn Startup Log.
Import GoFloat GoString GoNet Domain Tables FillTracker FillTrackerFacts VaultFacts Process.

Module ProcessFacts.

(** ** The tier of a plan *)

Lemma TrimLeft_lower s : TrimLeftSpace (ToLower s) = ToLower (TrimLeftSpace s).
Proof.
  assert (∀ c, is_space (lower c) = is_space c) as Hs.
  { intros c. apply (OriginFacts.bytes_eq (λ c, is_space (lower c)) is_space). vm_compute. done. }
  induction s as [|c s IH]; [done|]. cbn. rewrite Hs. by destruct (is_space c).
Qed.
Lemma srev_lower s : srev (ToLower s) = ToLower (srev s).
Proof. apply OriginFacts.srev_smap. Qed.
Lemma TrimSpace_lower s : TrimSpace (ToLower s) = ToLower (TrimSpace s).
Proof. unfold TrimSpace. by rewrite TrimLeft_lower, srev_lower, TrimLeft_lower, srev_lower. Qed.

Lemma normalize_twice raw : normalizeThreeCommasPlanTier (normalizeThreeCommasPlanTier raw) = normalizeThreeCommasPlanTier raw.
Proof.
  unfold normalizeThreeCommasPlanTier. by rewrite TrimSpace_lower, ToLower_idemp, VenuesFacts.TrimSpace_idem.
Qed.

(** A tier that was parsed once parses as itself. *)
Definition is_tier (t : ThreeCommasPlanTier) : Prop := t ∈ ["starter"; "pro"; "expert"]%string.

Lemma parsed_tier raw t : ParseThreeCommasPlanTier raw = Ok t → is_tier t ∧ t = normalizeThreeCommasPlanTier raw.
Proof.
  unfold ParseThreeCommasPlanTier, is_tier. set (n := normalizeThreeCommasPlanTier raw).
  destruct (String.eqb n ""); [done|].
  destruct (String.eqb_spec n ThreeCommasPlanTierStarter) as [->|]; [intros [= <-]; split; [set_solver|done]|].
  destruct (String.eqb_spec n ThreeCommasPlanTierPro) as [->|]; [intros [= <-]; split; [set_solver|done]|].
  destruct (String.eqb_spec n ThreeCommasPlanTierExpert) as [->|]; [intros [= <-]; split; [set_solver|done]|done].
Qed.

Lemma ParseOrDefault_parsed raw t b : ParseThreeCommasPlanTierOrDefault raw = Ok (t, b) → is_tier t.
Proof.
  unfold ParseThreeCommasPlanTierOrDefault. destruct (String.eqb _ _).
  - intros [= <- _]. unfold is_tier, DefaultThreeCommasPlanTier, ThreeCommasPlanTierExpert. set_solver.
  - destruct (ParseThreeCommasPlanTier _) eqn:E; [|done]. intros [= <- _]. by apply parsed_tier in E as [? _].
Qed.

Lemma tier_reparsed t : is_tier t → ParseThreeCommasPlanTierOrDefault t = Ok (t, false).
Proof.
  intros H. repeat (apply elem_of_cons in H as [->|H]; [vm_compute; reflexivity|]). by apply elem_of_nil in H.
Qed.

Lemma parsed_or_default raw t : ParseThreeCommasPlanTier raw = Ok t → ParseThreeCommasPlanTierOrDefault raw = Ok (t, false).
Proof.
  intros H. unfold ParseThreeCommasPlanTierOrDefault. assert (ParseThreeCommasPlanTier (normalizeThreeCommasPlanTier raw) = Ok t) as ->.
  { revert H. unfold ParseThreeCommasPlanTier. rewrite normalize_twice.
    repeat (destruct (String.eqb _ _); [done|]). done. }
  revert H. unfold ParseThreeCommasPlanTier. by destruct (String.eqb _ "").
Qed.

(** The plans: requests per window, slots kept free, deal workers, deals produced at
    a time, and seconds between two rounds. *)
Definition plans : list (ThreeCommasPlanTier * (Z * Z * Z * Z * Z)) :=
  [("starter", (5, 1, 1, 1, 60)); ("pro", (50, 5, 5, 10, 30)); ("expert", (120, 10, 25, 32, 15))]%string.

(** A pace is that of a tier: every number of its plan, and a limiter for windows of
    a minute that starts now with nothing called, held or waiting. *)
Definition paced (now : Z) (tier : ThreeCommasPlanTier) (p : pace) : Prop :=
  ∃ requests slots workers deals interval,
    (tier, (requests, slots, workers, deals, interval)) ∈ plans ∧
    pc_tier p = tier ∧ pc_dealWorkers p = workers ∧ pc_produceConcurrency p = deals ∧
    pc_resyncInterval p = interval * second ∧
    pc_limiter p = RateLimit.mkLimiter requests (60 * second) slots (6 * second)
                     now 0 ∅ ∅ 0 [] ∅ 0 false.

(** What a start gets from secrets: all of them, and the pace of their tier. *)
Definition starts_with {json} (now : Z) (vault : Vault.Controller (json := json)) (d : Vault.Data (json := json))
    (tier : ThreeCommasPlanTier) : Prop :=
  ∃ p, start_pace now vault = Ok (d, p) ∧ paced now tier p.

Lemma tier_paced now t (cfg := RateLimitConfig_of t) : is_tier t →
  paced now t (mkPace t (DealWorkers cfg) (ResyncInterval cfg) (ProduceConcurrency cfg)
    (RateLimit.NewLimiter (RateLimit.mkConfig (RequestsPerMinute cfg) 0 (PrioritySlots cfg)) now)).
Proof.
  intros H. unfold paced.
  apply elem_of_cons in H as [->|H]; [exists 5, 1, 1, 1, 60|
  apply elem_of_cons in H as [->|H]; [exists 50, 5, 5, 10, 30|
  apply elem_of_cons in H as [->|H]; [exists 120, 10, 25, 32, 15|by apply elem_of_nil in H]]].
  all: split_and!; [by apply (bool_decide_unpack _)|reflexivity..].
Qed.

(** ** Secrets that start the program *)

Section Secrets.
Context {json : Type}.

Lemma CloneVenue_id (v : Vault.VenueSecret (json := json)) : Vault.CloneVenue v = v.
Proof.
  destruct v as [? ? ? ? ? ? ? [m|] ?]; unfold Vault.CloneVenue; cbn; [|done]. do 2 f_equal.
  induction m as [|k x m Hk IH] using map_ind; [done|].
  rewrite map_fold_insert_L; [by rewrite IH| |done]. intros. by apply insert_insert_ne.
Qed.
Lemma CloneData_id (d : Vault.Data (json := json)) : Vault.CloneData d = d.
Proof.
  destruct d as [? ? ? vs]. unfold Vault.CloneData. cbn. f_equal. induction vs as [|v vs IH]; [done|].
  rewrite fmap_cons. by rewrite CloneVenue_id, IH.
Qed.
Lemma Clone_id (s : Vault.Secrets (json := json)) : Vault.Clone s = s.
Proof. destruct s. unfold Vault.Clone. cbn. by rewrite CloneData_id. Qed.

Lemma signal_secrets (c : Vault.Controller (json := json)) :
  Vault.cc_secrets (Vault.signalReadyLocked c) = Vault.cc_secrets c.
Proof. unfold Vault.signalReadyLocked. by destruct (Vault.cc_readyClosed c). Qed.

(** Whoever unseals the vault with secrets that have a primary venue and a tier gives
    the program exactly these secrets to start with, and the pace of the tier. *)
Lemma unsealed_starts (s : Vault.Secrets (json := json)) t b e now now' c :
  Vault.cc_state c ∈ [Vault.StateSetupRequired; Vault.StateSealed; Vault.StateUnsealed] →
  Vault.ensurePrimaryVenuePresent (Vault.se_Secrets s) = None →
  ParseThreeCommasPlanTierOrDefault (Vault.THREECOMMASPLANTIER (Vault.se_Secrets s)) = Ok (t, b) →
  (Vault.Unseal s e now c).1 = None ∧ starts_with now' (Vault.Unseal s e now c).2 (Vault.se_Secrets s) t.
Proof.
  intros Hc Hp Ht. unfold Vault.Unseal. rewrite Hp.
  assert (String.eqb (Vault.cc_state c) Vault.StateSealed || String.eqb (Vault.cc_state c) Vault.StateSetupRequired ||
          String.eqb (Vault.cc_state c) Vault.StateUnsealed = true) as ->.
  { repeat (apply elem_of_cons in Hc as [->|Hc]; [reflexivity|]). by apply elem_of_nil in Hc. }
  split; [done|]. unfold starts_with, start_pace, Vault.GetSecrets. cbn [snd]. rewrite signal_secrets. cbn [Vault.cc_secrets fmap option_fmap option_map]. rewrite !Clone_id, Ht.
  eexists. split; [reflexivity|]. apply tier_paced. by eapply ParseOrDefault_parsed.
Qed.

End Secrets.

(** ** Secrets from the environment *)

Section Environment.
Context {json : Type} (env : string → option string).

(** A variable as the debug mode reads it. *)
Definition given (key value : string) : Prop :=
  ∃ raw, env key = Some raw ∧ value = TrimSpace raw ∧ value ≠ ""%string.

Lemma lookup_given key value : Debugmode.lookup_env env key = Ok value → given key value.
Proof.
  unfold Debugmode.lookup_env. destruct (env key) as [raw|] eqn:E; [|done].
  destruct (String.eqb_spec (TrimSpace raw) ""); [done|]. intros [= <-]. by exists raw.
Qed.

Lemma loaded now (s : Vault.Secrets (json := json)) : Debugmode.LoadSecretsFromEnv env true now = Ok s →
  ∃ key pem tier wallet secret url b,
    given Debugmode.envDebugThreeCommasAPIKey key ∧ given Debugmode.envDebugThreeCommasSecret pem ∧
    given Debugmode.envDebugHyperliquidWallet wallet ∧ given Debugmode.envDebugHyperliquidKey secret ∧
    given Debugmode.envDebugHyperliquidBaseURL url ∧
    ParseThreeCommasPlanTierOrDefault (TrimSpace (default ""%string (env Debugmode.envDebugThreeCommasPlanTier))) = Ok (tier, b) ∧
    Vault.se_Secrets s = Vault.mkData key pem tier
      [Vault.mkVenueSecret "hyperliquid:default" "hyperliquid" "Default Hyperliquid Venue" wallet secret url "" None true].
Proof.
  unfold Debugmode.LoadSecretsFromEnv. cbn [negb].
  destruct (Debugmode.lookup_env env Debugmode.envDebugThreeCommasAPIKey) as [key|] eqn:E1; [|done]. cbn [mbind result_bind].
  destruct (Debugmode.lookup_env env Debugmode.envDebugThreeCommasSecret) as [pem|] eqn:E2; [|done]. cbn [mbind result_bind].
  destruct (ParseThreeCommasPlanTierOrDefault _) as [[tier b]|] eqn:Et; [|done].
  destruct (Debugmode.lookup_env env Debugmode.envDebugHyperliquidWallet) as [wallet|] eqn:E3; [|done]. cbn [mbind result_bind].
  destruct (Debugmode.lookup_env env Debugmode.envDebugHyperliquidKey) as [secret|] eqn:E4; [|done]. cbn [mbind result_bind].
  destruct (Debugmode.lookup_env env Debugmode.envDebugHyperliquidBaseURL) as [url|] eqn:E5; [|done]. cbn [mbind result_bind].
  destruct (ParseRequestURI url); [|done]. intros [= <-].
  exists key, pem, tier, wallet, secret, url, b. split_and!; try done; by apply lookup_given.
Qed.

End Environment.

Lemma valid_data {json} (d : Vault.Data (json := json)) : Vault.Validate d = None →
  is_ok (ParseThreeCommasPlanTier (Vault.THREECOMMASPLANTIER d)) = true ∧
  (Vault.Venues d = [] ∨ existsb Vault.vs_Primary (Vault.Venues d) = true).
Proof.
  unfold Vault.Validate. repeat (destruct (Vault.blank _); [done|]).
  destruct (ParseThreeCommasPlanTier _); [|done]. destruct (Vault.Venues d) as [|v l]; [auto|].
  intros (_ & _ & _ & Hp)%validate_venues_spec; [|done]. split; [done|]. right. apply primaries_exists. lia.
Qed.

(** C27.  Whatever happened to the vault before, secrets that pass validation and name
    a venue unseal it, and [Start] then takes exactly these secrets and every number
    of the plan they name: the quota and the priority slots of a new limiter with
    windows of a minute, the deal workers, the deals produced at a time and the time
    between two rounds.  In debug mode every environment that is accepted does the
    same by itself, with the plan it names or else the default one, and its venue is
    the primary one. *)
Theorem secrets_start initial cfg ops now now'
    (Hlocked : starts_locked initial cfg) :
  let vault := vault_run ops (Vault.NewController (json := Storage.flag) initial cfg) in
  (∀ d raw at_ e, Vault.Validate d = None → Vault.Venues d ≠ [] →
     let '(err, c) := Vault.Unseal (Vault.mkSecrets d raw at_) e now vault in
     err = None ∧ starts_with now' c d (normalizeThreeCommasPlanTier (Vault.THREECOMMASPLANTIER d))) ∧
  (∀ env s, Debugmode.LoadSecretsFromEnv env true now = Ok s →
     ∃ c tier b, Debugmode.unseal_from_env env now vault = Ok c ∧ starts_with now' c (Vault.se_Secrets s) tier ∧
       ParseThreeCommasPlanTierOrDefault
         (TrimSpace (default ""%string (env Debugmode.envDebugThreeCommasPlanTier))) = Ok (tier, b) ∧
       ∃ wallet url, given env Debugmode.envDebugHyperliquidWallet wallet ∧
         given env Debugmode.envDebugHyperliquidBaseURL url ∧
         Venues.read_primary (Vault.se_Secrets s) = Ok ("hyperliquid:default"%string, wallet, url)).
Proof.
  cbn zeta. set (c := vault_run _ _).
  assert (Vault.cc_state c ∈ [Vault.StateSetupRequired; Vault.StateSealed; Vault.StateUnsealed]) as Hc.
  { pose proof (v_state _ (vault_inv_run ops _ (vault_inv_init _ _ Hlocked))) as H. fold c in H. set_solver. }
  split.
  - intros d raw at_ e Hv Hne. apply valid_data in Hv as [Ht Hvs].
    destruct (ParseThreeCommasPlanTier _) as [t|] eqn:Et; [|done].
    destruct (unsealed_starts (Vault.mkSecrets d raw at_) t false e now now' c Hc) as (H1 & Hp); [|by apply parsed_or_default|].
    + destruct Hvs as [|Hv]; [done|]. unfold Vault.ensurePrimaryVenuePresent. cbn. by rewrite Hv.
    + destruct (Vault.Unseal _ _ _ _) as [err c']. split; [exact H1|]. by apply parsed_tier in Et as [_ ->].
  - intros env s Hs. pose proof Hs as (key & pem & tier & wallet & secret & url & b & _ & _ & Hw & _ & Hu & Ht & Hd)%loaded.
    pose proof (tier_reparsed tier (ParseOrDefault_parsed _ _ _ Ht)) as Ht'.
    destruct (unsealed_starts s tier false None now now' c Hc) as (H1 & Hp); [by rewrite Hd|by rewrite Hd|].
    unfold Debugmode.unseal_from_env. rewrite Hs.
    destruct (Vault.Unseal _ _ _ _) as [err c']. cbn in H1. subst err. exists c', tier, b. split; [done|]. split; [done|]. split; [done|].
    exists wallet, url. split; [done|]. split; [done|]. rewrite Hd. unfold Venues.read_primary, Vault.PrimaryVenueByType.
    destruct Hw as (wr & _ & -> & Hw), Hu as (ur & _ & -> & Hu). cbn [Vault.Venues].
    match goal with |- context [find ?f [?v]] => change (find f [v]) with (Some v) end.
    cbn [fmap option_fmap option_map]. rewrite CloneVenue_id. cbn [Vault.vs_ID Vault.vs_Wallet Vault.vs_APIURL].
    rewrite !VenuesFacts.TrimSpace_idem.
    by apply String.eqb_neq in Hw as ->, Hu as ->.
Qed.

Definition demo_env (key : string) : option string :=
  if String.eqb key Debugmode.envDebugThreeCommasAPIKey then Some " key "%string
  else if String.eqb key Debugmode.envDebugThreeCommasSecret then Some "pem"%string
  else if String.eqb key Debugmode.envDebugHyperliquidWallet then Some "0xab"%string
  else if String.eqb key Debugmode.envDebugHyperliquidKey then Some "cd"%string
  else if String.eqb key Debugmode.envDebugHyperliquidBaseURL then Some "https://api.example.com"%string
  else None.
Definition no_config : Vault.controllerConfig (json := Storage.flag) := Vault.mkConfig None None None None None.

Lemma secrets_start_witness :
  ∃ s c tier, Debugmode.LoadSecretsFromEnv demo_env true 5 = Ok s ∧
    Debugmode.unseal_from_env demo_env 5 (Vault.NewController Vault.StateSetupRequired no_config) = Ok c ∧
    starts_with 6 c (Vault.se_Secrets s) tier.
Proof.
  destruct (secrets_start Vault.StateSetupRequired no_config [] 5 6) as [_ H]; [split; [by left|done]|].
  destruct (H demo_env _ eq_refl) as (c & tier & b & H1 & H2 & _). eexists _, c, tier.
  split; [reflexivity|]. split; [exact H1|exact H2].
Defined.

(** A vault that is sealed again between its unsealing and the start ends the
    program: the wait has succeeded, but there are no secrets any more. *)
Example sealed_in_between :
  let before := Vault.NewController Vault.StateSetupRequired no_config in
  let waits := Vault.WaitUntilUnsealed before in
  match Debugmode.unseal_from_env demo_env 5 before with
  | Ok unsealed =>
    let sealed := (Vault.Seal 6 unsealed).2 in
    WaitForVaultUnseal None false waits sealed Unsealed ∧ start_pace 7 sealed = Err SecretsUnavailable
  | Err _ => False
  end.
Proof.
  vm_compute. split; [|reflexivity]. apply (wait_channel _ _ _ _ 0%nat); [reflexivity|].
  apply (bool_decide_unpack _). vm_compute. exact I.
Qed.

(** ** Rounds *)

Section Rounds.
Context {sdk : SDK} {sqlite : SqliteJSON} {R : GoRange} {HR : FairRange R}.
Context {json_event : Codec TcBotEvent} {json_deal : Codec TcDeal} {json_status : Codec WsOrder}.
Context {json_create : Codec CreateOrderRequest} {json_modify : Codec ModifyOrderRequest}
  {json_cancel : Codec CancelOrderRequestByCloid} {json_flags : Codec (gmap string Storage.flag)}
  {json_payload : Codec ScalerStorage.scaledOrderPayload} {json_volumes : Codec ScalerStorage.DealVolumes}.
Context {Bot : Type} {json_bot : Codec Bot} (bot_id bot_updated : Bot → Z) (created : TcDeal → Z).
Context {laws_event : CodecLaws TcBotEvent} {laws_deal : CodecLaws TcDeal}
  {laws_status : CodecLaws WsOrder} {laws_create : CodecLaws CreateOrderRequest}
  {laws_modify : CodecLaws ModifyOrderRequest} {laws_cancel : CodecLaws CancelOrderRequestByCloid}
  {laws_flags : CodecLaws (gmap string Storage.flag)}
  {laws_payload : CodecLaws ScalerStorage.scaledOrderPayload} {laws_bot : CodecLaws Bot}.
Context (empty_flags : is_Some (Unmarshal (A := gmap string Storage.flag) "{}")).
Variable emit : nat → OrderWork → option emit_error.
Abbreviation reached := (Integrity.reached (Bot := Bot) bot_id).
Abbreviation tick := (tick bot_id bot_updated created emit).

Lemma bot_step_reached list_deals now bot st s : reached s →
  reached (Producer.bot_step bot_id bot_updated created list_deals now bot st s).2.
Proof.
  intros Hs. destruct st as [|lastReq found|[|d rest] latest|latest]; cbn.
  - destruct (ProducerFacts.LoadBot_found (Bot := Bot) (bot_id bot) s) as [H _].
    destruct (Storage.LoadBot _ _). cbn in *. by subst.
  - by destruct (list_deals _ _).
  - by apply (Integrity.reached_run _ (Integrity.OpRecordBot bot (bot_updated bot))).
  - by apply (Integrity.reached_run _ (Integrity.OpRecordDeal created d)).
  - by apply (Integrity.reached_run _ (Integrity.OpTouchBot (bot_id bot) latest)).
Qed.

Lemma group_reached list_deals n g g' :
  rtc (Producer.group_step bot_id bot_updated created list_deals n) g g' →
  (reached (Producer.gr_store g) → reached (Producer.gr_store g')) ∧ ∃ more, Producer.gr_queue g' = Producer.gr_queue g ++ more.
Proof.
  induction 1 as [g|g g1 g' Hstep _ [IH [m2 E2]]]; [split; [done|exists []; by rewrite app_nil_r]|].
  assert ((reached (Producer.gr_store g) → reached (Producer.gr_store g1)) ∧
    ∃ more, Producer.gr_queue g1 = Producer.gr_queue g ++ more) as [Hs1 [m1 E1]].
  { destruct Hstep as [g g1 H|now i g g1 _ H].
    - unfold Producer.launch in H. destruct (Producer.gr_todo g); [done|]. destruct (_ || _); [|done]. simplify_eq.
      split; [done|]. exists []. by rewrite app_nil_r.
    - unfold Producer.advance in H. destruct (Producer.gr_running g !! i) as [[bot st]|]; [|done].
      pose proof (bot_step_reached list_deals now bot st (Producer.gr_store g)) as Hb.
      destruct (Producer.bot_step _ _ _ _ _ _ _ _) as [[st' added] s]. simplify_eq. split; [exact Hb|]. by exists added. }
  split; [auto|]. exists (m1 ++ m2). by rewrite E2, E1, app_assoc.
Qed.

Lemma produced_reached list_deals n lim res bots now s q err s' q' :
  Producer.ProduceActiveDeals bot_id bot_updated created list_deals n lim res bots now s q err s' q' →
  (reached s → reached s') ∧ ∃ more, q' = q ++ more.
Proof.
  destruct 1 as [_|_ _|l g _ _ Hrun _]; [split; [done|exists []; by rewrite app_nil_r]..|].
  apply (group_reached _ _ _ _ Hrun).
Qed.

Lemma cleanup_hydrated dur now s :
  statusesHydrated (CleanupStaleDeals dur now s).2 = statusesHydrated s.
Proof.
  unfold CleanupStaleDeals. cbn. generalize ((λ x : Z * dealState, x.1) <$> filter (λ x, is_stale_deal now dur s x.2 = true) (go_range 7 (ft_deals s))).
  intros l. revert s. induction l as [|id l IH]; intros s; [done|]. cbn. rewrite IH. unfold remove_deal.
  by destruct (ft_deals s !! id).
Qed.

(** What the owner is told: 3Commas is there unless there is an error to show. *)
Definition told (w : world) : Prop :=
  Api.tk_threeCommasAvailable (sh_status (wo_shown w)) =
    bool_decide (Api.tk_threeCommasLastError (sh_status (wo_shown w)) = None).

Record tick_ok (w w' : world) : Prop := {
  to_reached : reached (wo_store w) → reached (wo_store w');
  to_inv : inv (wd_svc (wo_tracker w)) → inv (wd_svc (wo_tracker w'));
  to_deals : ∃ more, wo_deals w' = wo_deals w ++ more;
  to_silent : statusesHydrated (wd_svc (wo_tracker w)) = false →
    statusesHydrated (wd_svc (wo_tracker w')) = false ∧ wd_log (wo_tracker w') = wd_log (wo_tracker w);
  to_told : told w → told w';
}.

Lemma tick_keeps p now w w' : tick p now w w' → tick_ok w w'.
Proof.
  destruct 1 as [an w w' H|w].
  - destruct H as [err s q H]. split; cbn.
    + apply (produced_reached _ _ _ _ _ _ _ _ _ _ _ H).
    + intros Hi. apply ReconcileTakeProfits_svc; [apply inv_cancel_closed|done].
    + apply (produced_reached _ _ _ _ _ _ _ _ _ _ _ H).
    + intros Hh. unfold ReconcileTakeProfits. by rewrite Hh.
    + unfold told. cbn. by destruct (an_text an <$> err).
  - split; cbn; [done|by apply Cleanup_inv|exists []; by rewrite app_nil_r| |done].
    intros Hh. split; [exact (eq_trans (cleanup_hydrated hour now _) Hh)|done].
Qed.

Lemma ticks_keep p w w' : rtc (λ w w', ∃ now, tick p now w w') w w' → tick_ok w w'.
Proof.
  induction 1 as [w|w w1 w' [now Ht] _ [I1 I2 [m2 I3] I4 I5]]; [split; auto; exists []; by rewrite app_nil_r|].
  destruct (tick_keeps _ _ _ _ Ht) as [T1 T2 [m1 T3] T4 T5]. split; auto.
  - exists (m1 ++ m2). by rewrite I3, T3, app_assoc.
  - intros [H1 E1]%T4. destruct (I4 H1) as [H2 E2]. by rewrite E2, E1.
Qed.

(** C26.  However many ticks come, and whatever 3Commas answers: the database stays one
    that the operations of the storage produce, so that it is sound; the tracker's
    maps agree; the queue of deals only grows; the owner is told that 3Commas is there
    exactly when there is no error to show; and until statuses were seen no order
    is sent. *)
Theorem ticks_sound p (w w' : world)
    (Hrun : rtc (λ w w', ∃ now, tick p now w w') w w')
    (Hs : reached (wo_store w)) (Ht : inv (wd_svc (wo_tracker w))) (Hw : told w) :
  Integrity.integrity bot_id (Storage.sg_db (wo_store w')) ∧ inv (wd_svc (wo_tracker w')) ∧ told w' ∧
  (∃ more, wo_deals w' = wo_deals w ++ more) ∧
  (statusesHydrated (wd_svc (wo_tracker w)) = false → wd_log (wo_tracker w') = wd_log (wo_tracker w)).
Proof.
  destruct (ticks_keep _ _ _ Hrun) as [T1 T2 T3 T4 T5].
  split_and!; [apply (Integrity.reached_integrity bot_id empty_flags); by apply T1|by apply T2|by apply T5|exact T3|].
  intros Hh. by apply T4.
Qed.

End Rounds.

(** *** Two ticks while 3Commas is down *)

#[local] Existing Instance Adapter.demo_sdk.
#[local] Existing Instance list_range.
#[local] Existing Instance StorageFacts.demo_json.
#[local] Existing Instance Reads.demo_events.
#[local] Existing Instance Reads.demo_events_laws.
#[local] Existing Instance Reads.demo_bots.
#[local] Existing Instance Reads.demo_bots_laws.
#[local] Existing Instance Reads.demo_flags.
#[local] Existing Instance Reads.demo_flags_laws.
#[local] Existing Instance StorageFacts.demo_creates.
#[local] Existing Instance StorageFacts.demo_modifies.
#[local] Existing Instance StorageFacts.demo_cancels.
#[local] Existing Instance StorageFacts.demo_statuses.
#[local] Existing Instance StorageFacts.demo_creates_laws.
#[local] Existing Instance StorageFacts.demo_modifies_laws.
#[local] Existing Instance StorageFacts.demo_cancels_laws.
#[local] Existing Instance StorageFacts.demo_statuses_laws.
#[local] Existing Instance Reads.silent | 100.
#[local] Existing Instance Reads.silent_laws | 100.

Definition demo_pace : pace :=
  mkPace "starter" 1 (60 * second) 1 (RateLimit.NewLimiter (RateLimit.mkConfig 5 0 1) 0).
Definition down : answers (Bot := Z) := mkAnswers true None (λ _ _, None) (λ _, "down"%string).
Definition demo_world : world :=
  mkWorld Reads.demo_storage [] (FillTracker.mkWorld new_tracker [])
    (mkShown (Stream.NewSystemStreamController (systemLevel "Warning")) Api.NewSystemStatusTracker).
Definition demo_middle : world :=
  reconcile (λ _ _, None) 10
    (mkWorld Reads.demo_storage [] (FillTracker.mkWorld new_tracker [])
       (report 10 (Some "down"%string) (wo_shown demo_world))).
Definition demo_later : world := cleanup 20 demo_middle.

Lemma ticks_sound_witness :
  Api.tk_threeCommasLastError (sh_status (wo_shown demo_later)) = Some "down"%string ∧
  Integrity.integrity (id : Z → Z) (Storage.sg_db (wo_store demo_later)) ∧
  wd_log (wo_tracker demo_later) = [].
Proof.
  split; [vm_compute; reflexivity|].
  assert (H : is_Some (Unmarshal (A := gmap string Storage.flag) "{}")) by (eexists; reflexivity).
  destruct (ticks_sound (id : Z → Z) (λ _, 0) (λ _, 0) H (λ _ _, None) demo_pace demo_world demo_later)
    as (H1 & _ & _ & _ & H2).
  - apply (rtc_l _ _ demo_middle); [exists 10; apply (resync _ _ _ _ _ _ down)|apply rtc_once; exists 20; apply clean].
    refine (produced _ _ _ _ 10 down demo_world (Some Producer.ErrListBots) Reads.demo_storage [] _). by apply Producer.produce_unlisted.
  - exact Reads.demo_reached.
  - apply FillTrackerProps.SetEmitter_inv, with_hydration_open, inv_New.
  - reflexivity.
  - split; [exact H1|]. apply H2. reflexivity.
Defined.

End ProcessFacts.

(** ** What [NewApp] builds, and its loggers *)

Module AppFacts.
Import ProcessFacts.


Section Built.
Context {sqlite : SqliteJSON} {driver : VaultStore.BlobDriver} {json_flags : Codec (gmap string Storage.flag)}.
Context {SessionData : Type} (webauthn_New : string → list string → option string).

(** The server is the one whose requests and restarts [VaultApiFacts] is about, and
    the passkeys are bound to the origins that [OriginFacts] is about. *)
Lemma NewApp_server debugmode now cfg d t b :
  NewApp (SessionData := SessionData) webauthn_New debugmode now cfg d t = Ok b →
  Startup.NewServer now true (Config.Debug cfg && debugmode) (Config.OrderScalerMaxMultiplier cfg) d t = Ok (bu_api b) ∧
  webauthn_New (bu_rpID b) (bu_allowedOrigins b) = None.
Proof.
  unfold NewApp, Startup.NewServer. destruct (Storage.New now true d) as [st|]; [|done].
  destruct (webauthn_New _ _) eqn:Hw; [done|]. destruct (Startup.initialVault t) as [v|]; [|done].
  intros [= <-]. done.
Qed.

End Built.

(** *** Its loggers *)

(** The filter takes the configured groups as they are. *)
Lemma log_groups value :
  filter (λ g, g ≠ ""%string) ((TrimSpace ∘ ToLower) <$> Config.ParseLogGroups value) = Config.ParseLogGroups value.
Proof.
  unfold Config.ParseLogGroups. destruct (String.eqb _ _); [done|].
  match goal with |- context [filter ?P (TrimSpace <$> ?l)] => set (f := filter P (TrimSpace <$> l)) end.
  assert (Forall (λ part, part ≠ ""%string ∧ TrimSpace part = part) f) as Hf.
  { apply Forall_forall. intros part [Hne Hin]%list_elem_of_filter. split; [done|].
    apply list_elem_of_fmap in Hin as (x & -> & _). apply VenuesFacts.TrimSpace_idem. }
  induction Hf as [|part l [Hne Ht] _ IH]; [done|]. cbn [fmap list_fmap].
  rewrite <- list_fmap_compose in IH.
  assert ((TrimSpace ∘ ToLower) (ToLower part) = ToLower part) as E
    by (unfold compose; by rewrite ToLower_idemp, TrimSpace_lower, Ht).
  rewrite E, filter_cons_True by (intros H; apply Hne; by destruct part).
  f_equal. rewrite <- list_fmap_compose. exact IH.
Qed.

(** The logger that a part of the program gets for groups of its own. *)
Definition in_groups (gs : list string) (t : Log.tree) : Log.tree := foldl (λ t g, Log.tree_WithGroup g t) t gs.

Definition got (cfg : Config.AppConfig) handle record (t : Log.tree) : list nat :=
  fst <$> (Log.tree_Handle (λ core level, handler_level cfg core <=? level) handle record t).1.

Definition handlers (cfg : Config.AppConfig) : list nat := [stderr] ++ (if Config.LogToStorage cfg then [stored] else []).

(** The fan-out over these handlers, with the groups they were given since. *)
Definition multi (cfg : Config.AppConfig) (t : Log.tree) : Prop :=
  ∃ cores, t = Log.MultiHandler cores ∧ Forall2 (λ c l, ∃ own h, l = Log.Leaf c own h) (handlers cfg) cores.

Lemma multi_handlers cfg : multi cfg (multiHandler cfg).
Proof.
  unfold multi, handlers, multiHandler. destruct (Config.LogToStorage cfg); (eexists; split; [reflexivity|]);
    repeat constructor; by do 2 eexists.
Qed.

Lemma multi_group cfg g t : multi cfg t → multi cfg (Log.tree_WithGroup g t).
Proof.
  intros (cores & -> & Hall). eexists. split; [reflexivity|]. apply Forall2_fmap_r.
  eapply Forall2_impl; [exact Hall|]. intros c t (own & h & ->). cbn. destruct (String.eqb g ""); eauto.
Qed.

Lemma got_multi cfg handle record t gs : multi cfg t →
  got cfg handle record (in_groups gs t) =
    filter (λ core, handler_level cfg core ≤ Log.rc_Level record) (handlers cfg).
Proof.
  revert t. induction gs as [|g gs IH]; intros t Ht; [|by apply IH, multi_group].
  destruct Ht as (cores & -> & Hall). cbn [in_groups foldl]. unfold got.
  induction Hall as [|c t l cores (own & h & ->) _ IH]; [done|]. rewrite filter_cons, <- IH.
  cbn. destruct (Z.leb_spec (handler_level cfg c) (Log.rc_Level record)); [rewrite decide_True by done|by rewrite decide_False by lia].
  by match goal with |- context [let '(_, _) := ?all cores in _] => destruct (all cores) end.
Qed.

(** Behind the filter the groups that were added are looked at. *)
Lemma got_filter cfg handle record gs seen allowed t : allowed ≠ [] → multi cfg t →
  got cfg handle record (in_groups gs (Log.GroupFilterHandler t allowed seen)) =
    if decide (Exists (λ g, g ∈ allowed) (seen ++ (ToLower <$> filter (λ g, g ≠ ""%string) gs)))
    then filter (λ core, handler_level cfg core ≤ Log.rc_Level record) (handlers cfg) else [].
Proof.
  intros Hne. revert seen t. induction gs as [|g gs IH]; intros seen t Ht.
  - cbn [in_groups foldl]. rewrite filter_nil, fmap_nil, app_nil_r. unfold got. cbn [Log.tree_Handle].
    assert (Log.shouldEmit allowed seen = bool_decide (Exists (λ g, g ∈ allowed) seen)) as ->.
    { unfold Log.shouldEmit. destruct allowed; [done|]. apply eq_true_iff_eq. rewrite bool_decide_eq_true, Exists_exists, existsb_exists.
      setoid_rewrite bool_decide_eq_true. setoid_rewrite list_elem_of_In. done. }
    destruct (decide _) as [H|H].
    + rewrite bool_decide_true by done. exact (got_multi cfg handle record t [] Ht).
    + by rewrite bool_decide_false.
  - cbn [in_groups foldl Log.tree_WithGroup]. destruct (String.eqb_spec g "") as [->|Hg].
    + rewrite filter_cons_False by (intros H; by apply H). by apply IH.
    + rewrite filter_cons_True by done. cbn [fmap list_fmap]. etransitivity; [by apply IH, multi_group|].
      by rewrite <- app_assoc.
Qed.

(** A record reaches each handler whose level it has, if no groups are configured or
    one of the logger's is among them, whatever its case. *)
Lemma logged cfg handle record gs :
  let wanted := Config.ParseLogGroups (Config.LogGroups cfg) in
  got cfg handle record (in_groups gs (finalHandler cfg)) =
    if decide (wanted = [] ∨ Exists (λ g, g ≠ ""%string ∧ ToLower g ∈ wanted) gs)
    then filter (λ core, handler_level cfg core ≤ Log.rc_Level record) (handlers cfg)
    else [].
Proof.
  cbn zeta. unfold finalHandler. pose proof (log_groups (Config.LogGroups cfg)) as Hw.
  destruct (Config.ParseLogGroups _) as [|w ws] eqn:Ew.
  { rewrite decide_True by auto. apply got_multi, multi_handlers. }
  unfold Log.NewGroupFilterHandler. rewrite Hw. rewrite (got_filter _ _ _ _ [] (w :: ws)); [|done|apply multi_handlers].
  apply decide_ext. cbn [app]. rewrite Exists_fmap, !Exists_exists. setoid_rewrite list_elem_of_filter. naive_solver.
Qed.

End AppFacts.
