(* ===== verification/Requests.v ===== *)
(** * From a request to its answer: the wrappers and strict handlers of [ops.gen.go]

    The mux finds the operation ([Mux]); its wrapper reads the parameters out of the
    path and the query, its strict handler decodes the body, and the handler itself
    ([Routes]) turns them into the options of the storage.  A request that asks the
    CORS middleware for permission is answered before all of this. *)

From Stdlib Require Import Ascii.
From S2P Require Import Prelude GoFloat GoString GoNet OrderId Domain Store Tables Stream Storage.
From S2P Require Import ScalerStorage StorageApi Vault VaultStore Server VaultApi WebAuthn ApiRecords Api Routes Mux.
Import GoFloat GoString GoNet Domain Store Tables Storage Server VaultApi WebAuthn Mux.

Module Requests.

(** The runtime of the generator: what it makes of the values of a query parameter,
    and of a segment of the path; and the decoding of the bodies. *)
Class ParamRuntime := {
  query_int64 : list string → option Z;
  query_int32 : list string → option Z;
  query_bool : list string → option bool;
  query_time : list string → option Z;
  query_string : list string → option string;
  query_strings : list string → option (list string);
  path_int64 : string → option Z;
  path_string : string → option string;
}.
Class Bodies (ParsedCreation ParsedAssertion : Type) := {
  body_cancel : string → option Api.cancel_body;
  body_scaler : string → option (f64 * option string);
  body_venue : string → option StorageApi.VenueUpsertRequest;
  body_assignment : string → option bool;
  body_update : string → option VaultUpdateRequest;
  body_setup : string → option VaultSetupRequest;
  body_unseal : string → option VaultUnsealRequest;
  body_begin : string → option string;
  body_login : string → option (string * option ParsedAssertion);
  body_registration : string → option (string * option ParsedCreation);
}.

(** A request as [net/http] hands it on: the path as it is escaped, the values of
    each parameter of the query. *)
Record http_request := mkHttp {
  ht_method : string;
  ht_path : string;
  ht_query : string → list string;
  ht_body : string;
  ht_request : Request;
}.

(** The rest of the program, as the handlers meet it. *)
Record outside := mkOutside {
  ou_created : TcDeal → Z;
  ou_emit : OrderWork → bool;
  ou_orders : Stream.StreamFilter → result store_error unit;
  ou_system : option unit;
  ou_prices : option (string → option unit);
  ou_active : option Z;
  ou_tracker : option Api.SystemStatusTracker;
}.

Inductive request_error :=
| InvalidParamFormatError (name : string)
| RequiredParamError (name : string)
| BodyNotDecoded.

(** ** Parameters *)

(** A parameter of the query that is not there leaves its pointer nil. *)
Definition BindQueryParameter {A} (bind : list string → option A) (name : string) (query : string → list string)
    : result request_error (option A) :=
  match query name with
  | [] => Ok None
  | values => match bind values with Some a => Ok (Some a) | None => Err (InvalidParamFormatError name) end
  end.

(** The segment under the wildcard, of the unescaped ones. *)
Fixpoint wildcard (name : string) (patterns segments : list string) : string :=
  match patterns, segments with
  | p :: patterns, s :: segments =>
    if String.eqb p ("{" +:+ name +:+ "}") then s else wildcard name patterns segments
  | _, _ => ""
  end.
Definition PathValue (name : string) (pattern path : string) : string :=
  wildcard name (Split "/" pattern) (segments path).

Definition BindStyledParameter {A} (bind : string → option A) (name value : string) : result request_error A :=
  match bind value with Some a => Ok a | None => Err (InvalidParamFormatError name) end.

(** The JSON body of a strict handler. *)
Definition decode_body {A} (decode : string → option A) (body : string) : result request_error (option A) :=
  match decode body with Some a => Ok (Some a) | None => Err BodyNotDecoded end.

Section Requests.
Context {ParsedCreation ParsedAssertion : Type}.
Context {rt : ParamRuntime} {bodies : Bodies ParsedCreation ParsedAssertion}.
Abbreviation call := (Routes.call (ParsedCreation := ParsedCreation) (ParsedAssertion := ParsedAssertion)).

(** ** The wrappers, each with the options that its handler builds *)

Definition bind_ListBots (q : string → list string) : result request_error call :=
  bot_id ← BindQueryParameter query_int64 "bot_id" q;
  updated_from ← BindQueryParameter query_time "updated_from" q;
  updated_to ← BindQueryParameter query_time "updated_to" q;
  limit ← BindQueryParameter query_int32 "limit" q;
  page_token ← BindQueryParameter query_string "page_token" q;
  Ok (Routes.CallListBots
        (StorageApi.mkBotsOptions bot_id updated_from updated_to (clampPageSize limit) (deref page_token)) limit).

Definition bind_ListDeals (created : TcDeal → Z) (q : string → list string) : result request_error call :=
  deal_id ← BindQueryParameter query_int64 "deal_id" q;
  bot_id ← BindQueryParameter query_int64 "bot_id" q;
  updated_from ← BindQueryParameter query_time "updated_from" q;
  updated_to ← BindQueryParameter query_time "updated_to" q;
  limit ← BindQueryParameter query_int32 "limit" q;
  page_token ← BindQueryParameter query_string "page_token" q;
  Ok (Routes.CallListDeals created
        (StorageApi.mkDealsOptions deal_id bot_id updated_from updated_to (clampPageSize limit) (deref page_token)) limit).

Definition bind_ListOrders (q : string → list string) : result request_error call :=
  order_id ← BindQueryParameter query_string "order_id" q;
  bot_id ← BindQueryParameter query_int64 "bot_id" q;
  deal_id ← BindQueryParameter query_int64 "deal_id" q;
  bot_event_id ← BindQueryParameter query_int64 "bot_event_id" q;
  observed_from ← BindQueryParameter query_time "observed_from" q;
  observed_to ← BindQueryParameter query_time "observed_to" q;
  include_log ← BindQueryParameter query_bool "include_log" q;
  limit ← BindQueryParameter query_int32 "limit" q;
  page_token ← BindQueryParameter query_string "page_token" q;
  Ok (Routes.CallListOrders
        (StorageApi.mkOrdersOptions order_id bot_id deal_id bot_event_id observed_from observed_to
           (default false include_log) (clampPageSize limit) (deref page_token)) include_log limit).

Definition bind_ListOrderScalers (q : string → list string) : result request_error call :=
  order_id ← BindQueryParameter query_string "order_id" q;
  bot_id ← BindQueryParameter query_int64 "bot_id" q;
  deal_id ← BindQueryParameter query_int64 "deal_id" q;
  bot_event_id ← BindQueryParameter query_int64 "bot_event_id" q;
  limit ← BindQueryParameter query_int32 "limit" q;
  page_token ← BindQueryParameter query_string "page_token" q;
  Ok (Routes.CallListOrderScalers
        (StorageApi.mkOrdersOptions order_id bot_id deal_id bot_event_id None None false
           (clampPageSize limit) (deref page_token)) limit).

Definition bind_StreamOrders (subscribe : Stream.StreamFilter → result store_error unit) (q : string → list string)
    : result request_error call :=
  order_id ← BindQueryParameter query_string "order_id" q;
  bot_id ← BindQueryParameter query_int64 "bot_id" q;
  deal_id ← BindQueryParameter query_int64 "deal_id" q;
  bot_event_id ← BindQueryParameter query_int64 "bot_event_id" q;
  observed_from ← BindQueryParameter query_time "observed_from" q;
  Ok (Routes.CallStreamOrders (subscribe (Stream.mkFilter order_id bot_id deal_id bot_event_id observed_from))).

(** The required parameter counts as missing if its first value is empty. *)
Definition bind_StreamHyperliquidPrices (source : option (string → option unit)) (q : string → list string)
    : result request_error call :=
  if String.eqb (hd ""%string (q "coin"%string)) "" then Err (RequiredParamError "coin")
  else coin ← BindQueryParameter query_strings "coin" q;
       Ok (Routes.CallStreamHyperliquidPrices source (default [] coin)).

(** An operation with the pattern it was found by. *)
Definition parse (op : operation) (pattern : string) (o : outside) (h : http_request) : result request_error call :=
  let q := ht_query h in
  let path_id name := BindStyledParameter path_int64 name (PathValue name pattern (ht_path h)) in
  let path_text name := BindStyledParameter path_string name (PathValue name pattern (ht_path h)) in
  match op with
  | ListBots => bind_ListBots q
  | ListBotVenues => bot_id ← path_id "bot_id"%string; Ok (Routes.CallListBotVenues bot_id)
  | ListDeals => bind_ListDeals (ou_created o) q
  | ListOrders => bind_ListOrders q
  | ListOrderScalers => bind_ListOrderScalers q
  | CancelOrderByOrderId =>
    order_id ← path_text "order_id"%string;
    venue_id ← BindQueryParameter query_string "venue_id" q;
    body ← decode_body body_cancel (ht_body h);
    Ok (Routes.CallCancelOrder (ou_emit o) order_id venue_id body)
  | DeleteBotOrderScalerConfig => botId ← path_id "botId"%string; Ok (Routes.CallDeleteBotOrderScalerConfig botId)
  | GetBotOrderScalerConfig => botId ← path_id "botId"%string; Ok (Routes.CallGetBotOrderScalerConfig botId)
  | UpsertBotOrderScalerConfig =>
    botId ← path_id "botId"%string;
    body ← decode_body body_scaler (ht_body h);
    Ok (Routes.CallUpsertBotOrderScalerConfig botId body)
  | GetOrderScalerConfig => Ok Routes.CallGetOrderScalerConfig
  | UpdateOrderScalerConfig =>
    body ← decode_body body_scaler (ht_body h); Ok (Routes.CallUpdateOrderScalerConfig body)
  | ListVenues => Ok Routes.CallListVenues
  | DeleteVenue => venue_id ← path_text "venue_id"%string; Ok (Routes.CallDeleteVenue venue_id)
  | UpsertVenue =>
    venue_id ← path_text "venue_id"%string;
    body ← decode_body body_venue (ht_body h);
    Ok (Routes.CallUpsertVenue venue_id body)
  | ListVenueAssignments =>
    venue_id ← path_text "venue_id"%string; Ok (Routes.CallListVenueAssignments venue_id)
  | DeleteVenueAssignment =>
    venue_id ← path_text "venue_id"%string;
    bot_id ← path_id "bot_id"%string;
    Ok (Routes.CallDeleteVenueAssignment venue_id bot_id)
  | UpsertVenueAssignment =>
    venue_id ← path_text "venue_id"%string;
    bot_id ← path_id "bot_id"%string;
    body ← decode_body body_assignment (ht_body h);
    Ok (Routes.CallUpsertVenueAssignment venue_id bot_id body)
  | StreamHyperliquidPrices => bind_StreamHyperliquidPrices (ou_prices o) q
  | StreamOrders => bind_StreamOrders (ou_orders o) q
  | StreamSystemEvents => Ok (Routes.CallStreamSystemEvents (ou_system o))
  | GetSystemStatus => Ok (Routes.CallGetSystemStatus (ou_active o) (ou_tracker o))
  | GetVaultPayload => Ok Routes.CallGetVaultPayload
  | UpdateVaultPayload =>
    body ← decode_body body_update (ht_body h); Ok (Routes.CallUpdateVaultPayload body)
  | SealVault => Ok Routes.CallSealVault
  | SetupVault => body ← decode_body body_setup (ht_body h); Ok (Routes.CallSetupVault body)
  | GetVaultStatus => Ok Routes.CallGetVaultStatus
  | UnsealVault => body ← decode_body body_unseal (ht_body h); Ok (Routes.CallUnsealVault body)
  | BeginWebauthnLogin => body ← decode_body body_begin (ht_body h); Ok (Routes.CallBeginWebauthnLogin body)
  | FinishWebauthnLogin => body ← decode_body body_login (ht_body h); Ok (Routes.CallFinishWebauthnLogin body)
  | BeginWebauthnRegistration =>
    body ← decode_body body_begin (ht_body h); Ok (Routes.CallBeginWebauthnRegistration body)
  | FinishWebauthnRegistration =>
    body ← decode_body body_registration (ht_body h); Ok (Routes.CallFinishWebauthnRegistration body)
  end.

(** ** Answers *)

(** The codes that the interface of an operation has a response for. *)
Definition response_codes (op : operation) : list Z :=
  match op with
  | ListBots | ListOrderScalers | StreamHyperliquidPrices => [200; 400; 500]
  | ListBotVenues | DeleteBotOrderScalerConfig | GetBotOrderScalerConfig | UpsertBotOrderScalerConfig
  | UpdateOrderScalerConfig | UpsertVenue => [200; 400; 401; 500]
  | ListDeals | ListOrders | StreamOrders | UpdateVaultPayload => [200; 400; 401; 403; 500]
  | CancelOrderByOrderId => [202; 400; 404; 409; 500]
  | GetOrderScalerConfig | ListVenues | SealVault => [200; 401; 500]
  | DeleteVenue => [204; 400; 401; 404; 409; 500]
  | ListVenueAssignments | UpsertVenueAssignment => [200; 400; 401; 404; 500]
  | DeleteVenueAssignment => [204; 400; 401; 404; 500]
  | StreamSystemEvents => [200; 401; 403; 500]
  | GetSystemStatus | GetVaultStatus => [200; 500]
  | GetVaultPayload => [200; 401; 404; 423; 500]
  | SetupVault => [201; 400; 409; 500]
  | UnsealVault => [200; 400; 409; 423; 500]
  | BeginWebauthnLogin | FinishWebauthnLogin | FinishWebauthnRegistration => [200; 400; 404; 409; 500]
  | BeginWebauthnRegistration => [200; 400; 409; 500]
  end.

(** What the mux of the API does with a path it knows by another method, or not at all. *)
Definition not_found (path : string) : Z :=
  if existsb (λ r, segments_match (Split "/" (rt_pattern r)) (segments path)) routes then 405 else 404.

Section Serve.
Context {sqlite : SqliteJSON} {driver : VaultStore.BlobDriver} {R : GoRange} {sdk : SDK}.
Context {json_event : Codec TcBotEvent} {json_deal : Codec TcDeal} {json_status : Codec WsOrder}.
Context {json_create : Codec CreateOrderRequest} {json_modify : Codec ModifyOrderRequest}
  {json_cancel : Codec CancelOrderRequestByCloid} {json_flags : Codec (gmap string flag)}
  {json_payload : Codec ScalerStorage.scaledOrderPayload}
  {json_bundle : Codec VaultSecretsBundle}.
Context {Bot : Type} {json_bot : Codec Bot} (bot_id : Bot → Z).
Context {SessionData LibCredential Creation Assertion : Type}.
Context {lib : @WebAuthnLib SessionData LibCredential Creation Assertion ParsedCreation ParsedAssertion}
  {json_credential : Codec LibCredential}.

(** An operation; the error handlers of the wrapper and of the strict handler
    answer a request that is not understood with [400]. *)
Definition answer_request (r : route) (o : outside) (h : http_request) : @Handler SessionData Routes.outcome :=
  match parse (rt_operation r) (rt_pattern r) o h with
  | Err _ => mret (400, None)
  | Ok c => Routes.serve bot_id (ht_request h) c
  end.

(** The server; [None] for a file of the web interface. *)
Definition ServeHTTP (o : outside) (h : http_request) : @Handler SessionData (option Routes.outcome) :=
  match rootMux (ht_path h) with
  | ToWeb => mret None
  | ToRedirect _ => mret (Some (301, None))
  | ToAPI =>
    match find (route_matches (ht_method h) (ht_path h)) routes with
    | None => mret (Some (not_found (ht_path h), None))
    | Some r => out ← answer_request r o h; mret (Some out)
    end
  end.

End Serve.
End Requests.

End Requests.
