(* ===== verification/RequestsFacts.v ===== *)
(** * Facts of [Requests]: every request gets an answer that its operation has, and
    those that only read leave the data alone. *)

From Stdlib Require Import Ascii.
From S2P Require Import Prelude GoFloat GoString GoNet OrderId Domain Store Tables Queries Stream Storage.
From S2P Require Import ScalerStorage StorageApi Vault VaultStore Server VaultApi WebAuthn ApiRecords Api Routes Mux Requests.
From S2P Require Import Reads StorageFacts Adapter ApiDemo.
Import GoFloat GoString GoNet Domain Store Tables Storage Server VaultApi WebAuthn Mux Requests.

Module RequestsFacts.

(** ** Operations of the storage that only read *)

Definition readonly {A} (m : Sto A) : Prop := ∀ s, (m s).2 = s.

Lemma readonly_ret {A} (a : A) : readonly (mret a).
Proof. by intros s. Qed.
Lemma readonly_fail {A} e : readonly (fail (A := A) e).
Proof. by intros s. Qed.
Lemma readonly_ask {A} (f : Database → A) : readonly (ask f).
Proof. by intros s. Qed.
Lemma readonly_query {A} (f : Database → result store_error A) : readonly (query f).
Proof. by intros s. Qed.
Lemma readonly_bind {A B} (m : Sto A) (f : A → Sto B) : readonly m → (∀ a, readonly (f a)) → readonly (m ≫= f).
Proof.
  intros Hm Hf s. unfold mbind, sto_bind. specialize (Hm s). destruct (m s) as [[a|e] s']; cbn in *; subst; [apply Hf|done].
Qed.
Lemma readonly_fmap {A B} (f : A → B) (m : Sto A) : readonly m → readonly (f <$> m).
Proof. intros Hm. apply readonly_bind; [done|]. intros a. apply readonly_ret. Qed.
Lemma readonly_attempt {A} (m : Sto A) : readonly m → readonly (attempt m).
Proof. intros Hm s. unfold attempt. specialize (Hm s). by destruct (m s). Qed.

Create HintDb readonly.
#[local] Hint Resolve readonly_ret readonly_fail readonly_ask readonly_query readonly_fmap readonly_attempt : readonly.

Ltac reads :=
  repeat first
    [ solve [eauto with readonly]
    | apply readonly_bind; [|intros ?]
    | apply readonly_attempt
    | match goal with |- readonly (match ?x with _ => _ end) => destruct x end
    | match goal with |- readonly (let _ := _ in _) => cbv zeta end ].

(** ** Handlers: the codes of their answers, and the data they keep *)

Section Handlers.
Context {SessionData : Type}.
Abbreviation Server := (@Server SessionData).
Abbreviation Handler := (@Handler SessionData).

Definition code_in {A} (codes : list Z) (r : response A) : Prop := Routes.code_of r ∈ codes.
Definition replies {A} (codes : list Z) (m : Handler (response A)) : Prop := ∀ s, code_in codes (m s).1.

(** The data of the program: what it stores and what it has queued. *)
Definition data (s : Server) : Storage * VaultStore.VaultTables * option WebAuthnService * option (list OrderWork) :=
  (sv_store s, sv_tables s, sv_webauthn s, sv_orders s).
Definition keeps {A} (m : Handler A) : Prop := ∀ s, data (m s).2 = data s.

Lemma replies_ret {A} codes (r : response A) : code_in codes r → replies codes (mret r).
Proof. by intros H s. Qed.
Lemma replies_bind {A B} codes (m : Handler A) (f : A → Handler (response B)) :
  (∀ a, replies codes (f a)) → replies codes (m ≫= f).
Proof. intros Hf s. unfold mbind, st_bind. destruct (m s) as [a s']. apply Hf. Qed.
Lemma replies_unsealed {A} codes rq (k : Handler (response A)) :
  401 ∈ codes → 403 ∈ codes → 500 ∈ codes → replies codes k → replies codes (unsealed rq k).
Proof.
  intros H1 H2 H3 Hk. apply replies_bind. intros g. destruct g; [done|..]; by apply replies_ret.
Qed.
Lemma replies_authenticated {A} codes rq (k : Handler (response A)) :
  401 ∈ codes → replies codes k → replies codes (authenticated rq k).
Proof. intros H Hk. apply replies_bind. intros [[] ?]; [done|]. by apply replies_ret. Qed.

(** An error of the storage is answered with a code of the table, or with [500]. *)
Lemma code_answer {A} codes code table (r : result store_error A) :
  code ∈ codes → 500 ∈ codes → Forall (λ x, x.2 ∈ codes) table → code_in codes (Api.answer code table r).
Proof.
  intros Hc H5 Ht. destruct r as [a|e]; [done|]. unfold Api.answer, Api.status_of.
  destruct (find _ table) as [[e' c]|] eqn:E; [|done]. apply find_some in E as [Hin%list_elem_of_In _].
  rewrite Forall_forall in Ht. by apply (Ht (e', c)).
Qed.

Lemma keeps_ret {A} (a : A) : keeps (mret a).
Proof. by intros s. Qed.
Lemma keeps_gets {A} (f : Server → A) : keeps (st_gets f).
Proof. by intros s. Qed.
Lemma keeps_bind {A B} (m : Handler A) (f : A → Handler B) : keeps m → (∀ a, keeps (f a)) → keeps (m ≫= f).
Proof. intros Hm Hf s. unfold mbind, st_bind. specialize (Hm s). destruct (m s) as [a s']. rewrite (Hf a s'). exact Hm. Qed.
Lemma keeps_on_store {A} (m : Sto A) : readonly m → keeps (on_store m).
Proof.
  intros Hm s. unfold on_store. specialize (Hm (sv_store s)). destruct (m (sv_store s)) as [r st]. cbn in Hm. by subst.
Qed.

(** An expired session may seal the vault, but touches no data. *)
Lemma keeps_requireSession rq : keeps (requireSession rq).
Proof.
  intros s. unfold requireSession, Validate. repeat (case_match; simplify_eq; try done).
Qed.
Lemma keeps_unsealed {A} rq (k : Handler (response A)) : keeps k → keeps (unsealed rq k).
Proof.
  intros Hk. apply keeps_bind; [|intros []; (apply Hk || apply keeps_ret)].
  apply keeps_bind; [apply keeps_requireSession|]. intros [[] []]; try apply keeps_ret;
    (apply keeps_bind; [apply keeps_gets|intros [st|]]; apply keeps_ret).
Qed.
Lemma keeps_authenticated {A} rq (k : Handler (response A)) : keeps k → keeps (authenticated rq k).
Proof. intros Hk. apply keeps_bind; [apply keeps_requireSession|]. intros [[] ?]; [done|apply keeps_ret]. Qed.

Lemma plain_in {A} codes (m : Handler (response A)) s : replies codes m → (Routes.plain m s).1.1 ∈ codes.
Proof. intros H. specialize (H s). unfold Routes.plain, mbind, st_bind. by destruct (m s). Qed.
Lemma cookie_in {A} codes (cookie : A → option string) (m : Handler (response A)) s :
  replies codes m → (Routes.with_cookie cookie m s).1.1 ∈ codes.
Proof. intros H. specialize (H s). unfold Routes.with_cookie, mbind, st_bind. by destruct (m s). Qed.
Lemma keeps_plain {A} (m : Handler (response A)) : keeps m → keeps (Routes.plain m).
Proof. intros H. apply keeps_bind; [done|]. intros r. apply keeps_ret. Qed.

End Handlers.

(** Decides that a code is one of a list of literals. *)
Ltac listed := unfold code_in, status, ok; cbn [Routes.code_of]; solve [apply (bool_decide_unpack _); vm_compute; exact I | done].

(** Walks down a handler to its answers. *)
Ltac replied :=
  cbv zeta;
  repeat first
    [ apply replies_unsealed; [listed..|]
    | apply replies_authenticated; [listed|]
    | apply replies_bind; intros ?
    | apply replies_ret
    | apply code_answer; [listed..|repeat constructor; listed]
    | match goal with
      | |- replies _ (if ?b then _ else _) => destruct b
      | |- replies _ (match ?x with _ => _ end) => destruct x
      | |- replies _ (λ s, _) => let s := fresh "s" in intros s; cbv beta zeta; repeat case_match; simplify_eq; cbn [fst]
      | |- code_in _ (match ?x with _ => _ end) => destruct x
      end
    | listed ].

(** ** Every endpoint *)

Section Endpoints.
Context {sqlite : SqliteJSON} {driver : VaultStore.BlobDriver} {R : GoRange} {sdk : SDK}.
Context {json_event : Codec TcBotEvent} {json_deal : Codec TcDeal} {json_status : Codec WsOrder}.
Context {json_create : Codec CreateOrderRequest} {json_modify : Codec ModifyOrderRequest}
  {json_cancel : Codec CancelOrderRequestByCloid} {json_flags : Codec (gmap string flag)}
  {json_payload : Codec ScalerStorage.scaledOrderPayload}
  {json_bundle : Codec VaultSecretsBundle}.
Context {Bot : Type} {json_bot : Codec Bot} (bot_id : Bot → Z).
Context {SessionData LibCredential Creation Assertion ParsedCreation ParsedAssertion : Type}.
Context {lib : @WebAuthnLib SessionData LibCredential Creation Assertion ParsedCreation ParsedAssertion}
  {json_credential : Codec LibCredential}.
Context {rt : ParamRuntime} {bodies : Bodies ParsedCreation ParsedAssertion}.
Abbreviation Server := (@Server SessionData).
Abbreviation serve := (Routes.serve bot_id (SessionData := SessionData) (ParsedCreation := ParsedCreation) (ParsedAssertion := ParsedAssertion)).

Lemma CancelOrder_replies emit orderId venueId body :
  replies (SessionData := SessionData) (response_codes CancelOrderByOrderId) (Api.CancelOrderByOrderId emit orderId venueId body).
Proof. intros s. unfold Api.CancelOrderByOrderId. cbv zeta. repeat case_match; simplify_eq; cbn [fst]; listed. Qed.

Lemma serve_codes rq (c : Routes.call (ParsedCreation := ParsedCreation) (ParsedAssertion := ParsedAssertion)) s :
  (serve rq c s).1.1 ∈ response_codes (operation_of c).
Proof.
  destruct c; cbn [Routes.serve operation_of]; first [apply plain_in|apply cookie_in].
  all: try apply CancelOrder_replies.
  all: unfold Api.ListBots, Api.ListBotVenues, Api.ListDeals, Api.ListOrders, Api.ListOrderScalers,
    Api.DeleteBotOrderScalerConfig, Api.GetBotOrderScalerConfig, Api.UpsertBotOrderScalerConfig, Api.bot_config,
    Api.GetOrderScalerConfig, Api.UpdateOrderScalerConfig, Api.ListVenues, Api.DeleteVenue, Api.UpsertVenue,
    Api.ListVenueAssignments, Api.DeleteVenueAssignment, Api.UpsertVenueAssignment, Api.StreamHyperliquidPrices,
    Api.StreamOrders, Api.StreamSystemEvents, Api.GetSystemStatus,
    VaultApi.SealVault, VaultApi.SetupVault, VaultApi.GetVaultStatus, VaultApi.UnsealVault,
    WebAuthn.BeginWebauthnLogin, WebAuthn.FinishWebauthnLogin, WebAuthn.BeginWebauthnRegistration,
    WebAuthn.FinishWebauthnRegistration, VaultApi.GetVaultPayload, VaultApi.UpdateVaultPayload.
  all: replied.
Qed.

Lemma parse_operation op pattern o h (c : Routes.call (ParsedCreation := ParsedCreation) (ParsedAssertion := ParsedAssertion)) :
  parse op pattern o h = Ok c → operation_of c = op.
Proof.
  destruct op; unfold parse, bind_ListBots, bind_ListDeals, bind_ListOrders, bind_ListOrderScalers, bind_StreamOrders,
    bind_StreamHyperliquidPrices, mbind, result_bind; intros H; repeat (case_match; simplify_eq; try done); by simplify_eq.
Qed.

(** The operations that are asked for with [GET]. *)
Definition reading (op : operation) : bool :=
  existsb (λ r, bool_decide (rt_operation r = op) && String.eqb (rt_method r) "GET") routes.

Lemma readonly_or_fail {A} (o : option A) msg : readonly (or_fail o msg).
Proof. by destruct o. Qed.
Hint Resolve readonly_or_fail : readonly.
Lemma defaultVenue_readonly : readonly defaultVenueAssignmentLocked.
Proof. unfold defaultVenueAssignmentLocked, findPrimaryHyperliquidVenueLocked. reads. Qed.
Hint Resolve defaultVenue_readonly : readonly.
Lemma ListOrders_readonly opts : readonly (StorageApi.ListOrders opts).
Proof. unfold StorageApi.ListOrders. reads. Qed.
Hint Resolve ListOrders_readonly : readonly.
Lemma ResolveEffective_readonly oid : readonly (ScalerStorage.ResolveEffectiveOrderScaler oid).
Proof. unfold ScalerStorage.ResolveEffectiveOrderScaler. reads. Qed.
Lemma GetDefault_readonly : readonly ScalerStorage.GetDefaultOrderScaler.
Proof. apply readonly_fmap. unfold ScalerStorage.GetOrderScaler. reads. Qed.
Hint Resolve ResolveEffective_readonly GetDefault_readonly : readonly.

Ltac kept :=
  cbv zeta;
  repeat first
    [ apply keeps_plain | apply keeps_unsealed | apply keeps_authenticated
    | apply keeps_ret | apply keeps_gets
    | apply keeps_on_store
    | apply keeps_bind; [|intros ?]
    | match goal with
      | |- keeps (if ?b then _ else _) => destruct b
      | |- keeps (match ?x with _ => _ end) => destruct x
      end ].

Lemma GetVaultStatus_keeps rq : keeps (SessionData := SessionData) (VaultApi.GetVaultStatus rq).
Proof.
  intros s. unfold VaultApi.GetVaultStatus. destruct (sv_vault s) as [c|]; [|done]. cbv zeta.
  destruct (String.eqb _ _); [|done]. pose proof (keeps_requireSession rq s) as Hq.
  destruct (requireSession rq s) as [[v e] s']. exact Hq.
Qed.

Lemma serve_keeps rq (c : Routes.call (ParsedCreation := ParsedCreation) (ParsedAssertion := ParsedAssertion)) :
  reading (operation_of c) = true → keeps (serve rq c).
Proof.
  destruct c; intros H; try (vm_compute in H; discriminate H); clear H; cbn [Routes.serve]; try apply keeps_plain, GetVaultStatus_keeps; kept.
  all: unfold Api.ListBots, Api.ListBotVenues, Api.ListDeals, Api.ListOrders, Api.ListOrderScalers,
    Api.GetBotOrderScalerConfig, Api.bot_config, Api.GetOrderScalerConfig, Api.ListVenues, Api.ListVenueAssignments,
    Api.StreamHyperliquidPrices, Api.StreamOrders, Api.StreamSystemEvents, Api.GetSystemStatus,
    VaultApi.GetVaultPayload; kept.
  all: try (unfold StorageApi.ListBots, StorageApi.ListDeals, StorageApi.ListOrderScalers, StorageApi.ListVenues,
    StorageApi.ListVenueAssignments, StorageApi.require_venue, StorageApi.ListBotVenues, ListVenuesForBot,
    ScalerStorage.GetBotOrderScalerOverride, ScalerStorage.GetBotOrderScaler, ScalerStorage.ResolveEffectiveOrderScalerConfig;
    solve [reads]).
  all: intros s; repeat (case_match; simplify_eq; try done).
Qed.

Lemma get_route method path r : r ∈ routes → route_matches method path r = true → method ∈ ["GET"; "HEAD"]%string →
  String.eqb (rt_method r) "GET" = true.
Proof.
  intros Hr [Hm _]%andb_prop Hget. pose proof (routes_known r Hr) as [Hh _]%andb_prop.
  unfold method_matches in Hm. apply orb_prop in Hm as [E%String.eqb_eq|[E _]%andb_prop]; [|done].
  rewrite E in Hh |- *. apply elem_of_cons in Hget as [->|Hget]; [done|].
  apply list_elem_of_singleton in Hget as ->. done.
Qed.

(** What the server does with a request: nothing is changed by one that it does not
    understand. *)
Lemma request_served o h s :
  let '(answer, s') := ServeHTTP (rt := rt) (bodies := bodies) (json_bot := json_bot) bot_id o h s in
  match answer with
  | None => rootMux (ht_path h) = ToWeb ∧ s' = s
  | Some (code, cookie) =>
    (s' = s ∧ cookie = None ∧ code ∈ [301; 400; 404; 405]) ∨
    ∃ r c, r ∈ routes ∧ route_matches (ht_method h) (ht_path h) r = true ∧
      reached (ht_method h) (ht_path h) = Some (rt_operation r) ∧
      parse (rt_operation r) (rt_pattern r) o h = Ok c ∧ operation_of c = rt_operation r ∧
      serve (ht_request h) c s = ((code, cookie), s')
  end.
Proof.
  unfold ServeHTTP. destruct (rootMux (ht_path h)) eqn:Er; [|done|left; split_and!; [done..|by left]].
  destruct (find _ routes) as [r|] eqn:Ef.
  2:{ left. split_and!; [done..|]. unfold not_found. by case_match; do 2 right; [right|]; left. }
  apply find_some in Ef as Hr. destruct Hr as [Hr%list_elem_of_In Hm].
  unfold mbind, st_bind, answer_request. destruct (parse _ _ o h) as [c|e] eqn:Ep.
  - destruct (Routes.serve _ _ _ _) as [[code cookie] s'] eqn:Es. right. exists r, c. split_and!; try done.
    + unfold reached. rewrite Er. unfold api_operation. by rewrite Ef.
    + by apply parse_operation in Ep.
  - left. split_and!; [done..|]. by right; left.
Qed.

(** C18.  Every request gets an answer: a file of the web interface, a redirect or
    an error of the muxes and the parameters, which change nothing; or the answer of
    the one handler whose route matches, with a code that its interface has.  Whatever
    it asks for, a request with [GET] or [HEAD] changes no table, no ceremony and
    no order that is queued. *)
Theorem requests_answered o h s :
  let '(answer, s') := ServeHTTP (rt := rt) (bodies := bodies) (json_bot := json_bot) bot_id o h s in
  match answer with
  | None => rootMux (ht_path h) = ToWeb ∧ s' = s
  | Some (code, cookie) =>
    (s' = s ∧ cookie = None ∧ code ∈ [301; 400; 404; 405]) ∨
    ∃ r c, r ∈ routes ∧ reached (ht_method h) (ht_path h) = Some (rt_operation r) ∧
      parse (rt_operation r) (rt_pattern r) o h = Ok c ∧ operation_of c = rt_operation r ∧
      serve (ht_request h) c s = ((code, cookie), s') ∧ code ∈ response_codes (rt_operation r)
  end ∧
  (ht_method h ∈ ["GET"; "HEAD"]%string → data s' = data s).
Proof.
  pose proof (request_served o h s) as H. destruct (ServeHTTP _ _ _ _) as [[[code cookie]|] s'].
  2:{ destruct H as [? ->]. done. }
  destruct H as [(-> & ? & ?)|(r & c & Hr & Hm & Hreach & Hp & Hop & Hs)].
  - split; [by left|done].
  - split.
    + right. exists r, c. split_and!; try done. rewrite <- Hop.
      pose proof (serve_codes (ht_request h) c s) as Hc. by rewrite Hs in Hc.
    + intros Hget. assert (reading (operation_of c) = true) as Hread.
      { unfold reading. apply existsb_exists. exists r. split; [by apply list_elem_of_In|].
        rewrite Hop, bool_decide_true by done. by apply (get_route (ht_method h) (ht_path h)). }
      pose proof (serve_keeps (ht_request h) c Hread s) as Hk. by rewrite Hs in Hk.
Qed.

End Endpoints.

(** ** Some requests to a concrete server *)

Import ApiDemo.

#[local] Instance demo_runtime : ParamRuntime := {|
  query_int64 := λ l, match l with [v] => StorageApi.ParseInt v | _ => None end;
  query_int32 := λ l, match l with [v] => StorageApi.ParseInt v | _ => None end;
  query_bool := λ l, match l with [v] => Storage.ParseBool v | _ => None end;
  query_time := λ _, None;
  query_string := λ l, match l with [v] => Some v | _ => None end;
  query_strings := Some;
  path_int64 := StorageApi.ParseInt;
  path_string := λ v, if String.eqb v "" then None else Some v;
|}.
(** Of the bodies the empty one does not decode, and others are decoded to nothing
    of interest. *)
#[local] Instance demo_bodies : Bodies unit unit := {|
  body_cancel := λ b, if String.eqb b "" then None else Some (Api.mkCancelBody None None);
  body_scaler := λ _, None; body_venue := λ _, None; body_assignment := λ _, None; body_update := λ _, None;
  body_setup := λ _, None; body_unseal := λ _, None; body_begin := λ b, Some b;
  body_login := λ _, None; body_registration := λ _, None;
|}.
Definition demo_outside : outside := mkOutside (λ _, 0) (λ _, true) (λ _, Ok tt) None None None None.
Definition demo_http (method path body : string) : http_request :=
  mkHttp method path (λ name, if String.eqb name "limit" then ["ten"%string] else []) body (ApiDemo.at_minute None 1).
Definition demo_code (h : http_request) : option Z := fst <$> (ServeHTTP (id : Z → Z) demo_outside h ApiDemo.demo_server).1.

Example demo_codes :
  demo_code <$> [demo_http "GET" "/vault/status" ""; demo_http "GET" "/api/bots" ""; demo_http "GET" "/api/bots/7/venues" "";
                 demo_http "GET" "/api/bots/seven/venues" ""; demo_http "POST" "/api/venues" ""; demo_http "GET" "/api/nothing" "";
                 demo_http "GET" "/stream" ""; demo_http "GET" "/system/status" ""; demo_http "PUT" "/vault/payload" "{}"] =
  [Some 200; Some 400; Some 200; Some 400; Some 405; Some 404; Some 404; None; Some 400].
Proof. vm_compute. reflexivity. Qed.

(** A cancellation needs a body, which the specification of the API makes optional. *)
Example cancel_needs_body :
  let cancel := demo_http "POST" "/api/orders/0x000000070000000100000002ccdae33a/cancel" in
  (parse (rt := demo_runtime) (bodies := demo_bodies) CancelOrderByOrderId "/api/orders/{order_id}/cancel" demo_outside (cancel ""%string) = Err BodyNotDecoded) ∧
  demo_code (cancel ""%string) = Some 400 ∧ demo_code (cancel "{}"%string) = Some 404.
Proof. vm_compute. done. Qed.

Lemma requests_answered_witness :
  let h := demo_http "GET" "/api/bots/7/venues" "" in
  (ServeHTTP (id : Z → Z) demo_outside h ApiDemo.demo_server).1 = Some (200, None) ∧
  data (ServeHTTP (id : Z → Z) demo_outside h ApiDemo.demo_server).2 = data ApiDemo.demo_server.
Proof.
  cbn zeta. split; [vm_compute; reflexivity|].
  pose proof (requests_answered (id : Z → Z) demo_outside (demo_http "GET" "/api/bots/7/venues" "") ApiDemo.demo_server) as H.
  destruct (ServeHTTP _ _ _ _) as [answer s']. destruct H as [_ H]. apply H. by left.
Defined.

End RequestsFacts.
